(* ===== verification/_CoqProject ===== *)
-Q . S2P
Prelude.v
Constants.v
Wire.v
FieldValue.v
Props.v
Methods.v
Method.v
Frame.v
Message.v
Framer.v
MessageStore.v
MultipleAck.v
AckQueue.v
Topology.v
Channel.v
SendChannel.v
ReceiveChannel.v
ReceiveConsumer.v
ReceiveSession.v
ReceiveAcks.v
Heartbeat.v
Retry.v
ChannelMap.v
ClientProperties.v
Transform.v
Producer.v
Consumer.v
HostHealth.v
ConnectionString.v
TopologyBuilder.v
Future.v
EventLoop.v
Timer.v
ClientConnection.v
VHost.v
ConnectionMonitor.v
Socket.v
Resolver.v
Connection.v
ConnectionMoves.v
ConnectionProtocol.v
