(* ===== verification/Prelude.v ===== *)
(** * A verification library for rmqcpp, the RabbitMQ client library

    rmqcpp (under src/src/rmq) is a C++ client for RabbitMQ brokers. It speaks AMQP
    0-9-1 over a socket, declares a topology of exchanges, queues and bindings,
    publishes messages with broker confirms and consumes messages that the
    application acknowledges. Its layers, from the wire up:

    - rmqamqpt: the values of the protocol (primitive types, field tables, methods,
      content headers, frames) and their codecs;
    - rmqio: the event loop, name resolution and TLS, sockets, timers, the incremental
      frame decoder, retrying;
    - rmqamqp: the protocol machines. A [Connection] owns the socket, one [Framer] and
      a map of channels; a [SendChannel] or [ReceiveChannel] derives from [Channel] and
      hands its writes to the connection; the [HeartbeatManager] watches the socket;
    - rmqt: the values of the application interface (messages, topology,
      acknowledgements, futures);
    - rmqa: the objects the application holds (contexts, producers, consumers).

    ** How the code is modelled

    Pure functions are functions on records and inductive types with the source's
    names ([Class_method] for [Class::method]). Integers are [Z], with the
    wrap-around of their C++ type written out ([uwrap], [swrap]). Bytes are
    [Byte.byte], strings and buffers lists of them. An object is a record of its
    members; a member function takes the object and returns the new one. The calls an
    object makes to its collaborators (writes, timers, callbacks of the application,
    futures) are a trace of effects in the order of the calls; what the event loop
    calls later (completion handlers, timers, incoming frames) is an operation of the
    object, and a run is a list of operations in any order. Failed assertions and
    invalid dereferences are values ([D_assert], [Fault], [GuidDangling]), which the
    safety theorems exclude. Logging, timings and the tags of metrics are left out.

    Code that is not in the repository is a type class whose laws state its documented
    behaviour: [EpochUtil] (bdlt dates), [GuidUtil] (bdlb GUIDs), [AckSort]
    ([bsl::sort]), [Zstd] (compression), [RegEx], [IoContext] and [WaitableTimer]
    (Boost.Asio), the calls of Boost.Asio and OpenSSL in Resolver. Elsewhere their
    completions, expiries and results are operations that arrive in any order. The
    witnesses instantiate the classes with concrete functions.

    ** The files

    - Prelude: machine words, the decoder outcome type, list lemmas, tactics.
    - Constants (rmqamqpt_constants): enumerations and limits.
    - Wire (rmqamqpt_buffer, _writer, _types): bounded buffers and primitive codecs.
    - FieldValue (rmqamqpt_fieldvalue, rmqt_fieldvalue, _types): field values, arrays and
      tables.
    - Props (rmqamqpt_basicproperties, _contentheader, _contentbody): properties and content.
    - Methods, Method (one record per AMQP method; the method classes and
      rmqamqpt_method): the interface [WireMethod] with its laws, and the dispatch on ids.
    - Frame (rmqamqpt_frame, rmqio_decoder, rmqio_serializedframe): frames and the decoder of
      the byte stream.
    - Message (rmqt_message), Framer (rmqamqp_framer, rmqamqp_contentmaker): messages cut into
      frames and put together again per channel.
    - MessageStore (rmqamqp_messagestore): unconfirmed or unacknowledged messages by
      delivery tag and by GUID.
    - MultipleAck (rmqamqp_multipleackhandler), AckQueue (rmqt_consumerackbatch and the
      consumer's [ackMessage]): acknowledgements on their way to the broker.
    - Topology (rmqt topology values, rmqamqp_topologytransformer, rmqamqp_topologymerger).
    - TopologyBuilder (rmqa_topology, rmqa_topologyupdate, rmqt_exchange): the topology an
      application builds.
    - Channel (rmqamqp_channel): the base class, with its virtual functions as the class
      [ChannelHooks] and what a derived class may do as [ChannelHooksLaws].
    - SendChannel (rmqamqp_sendchannel): publishing and confirms.
    - ReceiveChannel (rmqamqp_receivechannel), with its proofs in ReceiveConsumer (the
      consumer's states and futures), ReceiveSession (its requests to the broker) and
      ReceiveAcks (its acknowledgements).
    - Heartbeat (rmqamqp_heartbeatmanagerimpl): the tick counters, the owner of the manager
      being the class [HeartbeatHost].
    - Retry (rmqio_backofflevelretrystrategy, _retryhandler, _connectionretryhandler,
      _watchdog): back-off levels, retry timers, reports of outages.
    - ChannelMap (rmqamqp_channelmap): channel numbers, and calls to all channels through the
      class [ChannelHost].
    - ClientProperties (the functions at the top of rmqamqp_connection.cpp): what the
      client announces and how it tunes.
    - Transform (the transformer chains of rmqa_producerimpl and rmqa_consumerimpl,
      rmqa_compressiontransformerimpl): messages transformed on their way, against the
      interface [MessageTransformer].
    - Producer (rmqa_producerimpl): sending threads, the event loop and the thread pool
      as interleaved steps; a worker runs the callbacks and wakes the waiters in steps of
      their own, after the step in which it holds the mutex.
    - Consumer (rmqa_consumerimpl, rmqa_messageguard): likewise, with the guards the
      application holds as objects of a heap.
    - HostHealth (rmqamqp_hosthealthmonitor): pausing consumers on unhealthy hosts.
    - ConnectionString (rmqa_connectionstring, endpoints and credentials of rmqt).
    - Future (rmqt_future, rmqt_result): promises and futures as a heap of control blocks
      with exact ownership. A function given to a future comes with the blocks whose mutex
      it takes while it runs, so that it can deadlock.
    - EventLoop (rmqio_eventloop, rmqio_asioeventloop): the worker thread, step by step,
      with the tasks and operations it is given, over the class [IoContext].
    - Timer (rmqio_asiotimer): waits, and the callbacks that are due, over the class
      [WaitableTimer].
    - ClientConnection (rmqa_connectionimpl): the connection the application holds, which
      is closed by hand or by its destructor, with the timer that bounds the close.
    - VHost (rmqa_vhostimpl, making connections in rmqa_rabbitcontextimpl): connections
      made when they are first needed, on the futures of Future.
    - ConnectionMonitor (rmqa_connectionmonitor): messages that hang in a consumer.
    - Resolver (rmqio_asioresolver, security parameters of rmqt): resolving, connecting and
      the TLS handshake of one connect attempt.
    - Socket (rmqio_asioconnection: state and write queue), Connection (rmqamqp_connection,
      rmqamqp_channelfactory, the handlers of rmqio_asioconnection), with its proofs in
      ConnectionMoves (every operation is a sequence of a few kinds of moves) and
      ConnectionProtocol (the handshake, closing).

    ** What the theorems show

    - Codecs: encoding then decoding yields the value, and decoding is total and safe on
      any input (Wire, FieldValue, Props, Methods, Method). The decoder of the byte stream
      gives the same frames however the bytes are cut into reads; the framer puts the
      messages of interleaved channels together, end to end over the wire.
    - Publishing: a message is always pending, in flight or confirmed, exactly once, in
      any run of a send channel; confirms reach the message they are for; a reset queues
      the messages in flight again.
    - Consuming: the broker's view of a receive channel follows the application's
      acknowledgements exactly; the requests to the broker are well formed; a consumer is
      registered again after a reset; every future is accounted for.
    - Channel and topology: a channel opens only after its whole topology was confirmed,
      and closes on a refusal;
      an update is declared again after a reconnection; a graceful close is final.
    - Connection: the handshake is written in order on every socket and complete when the
      connection counts as connected; after a request to close nothing connects again and
      the application is told once, as soon as the socket has gone (one state between
      events is excepted, see [close_is_final]). Channel numbers are the least free ones; a
      disconnection resets and a connection opens every channel once. The heartbeat
      counters agree with idle times measured directly; waits before retries are bounded
      and follow the documented levels; tuning respects both sides' limits.
    - The application's objects: a producer's permits, callbacks and unconfirmed messages
      agree in any interleaving, and every wait for confirms ends when it should; each
      message a consumer handed out is acknowledged at most once whatever happens to its
      guards; what transformers did to a message is undone on the other side; receive
      channels are paused and resumed as the checks of the host's health say; an address is
      parsed into what it says, or, in two of its forms, into something else.
    - Futures: a derived future is resolved exactly as its source is, with the functions
      in between applied; a promise reaches everybody who holds a future derived from
      it; calls return or deadlock for a stated cause; control blocks live exactly while
      owned, and a block that dies with its promise open calls its cancel function.
    - A topology built by an application is declared as it was asked for; its names are
      distinct and its handles alive or null.
    - Futures of functions posted to the event loop are resolved; it exits only when asked
      to, then always. A timer calls back exactly once for each start or reset. A connect attempt reports its end at most
      once, and success over TLS only after the host was verified.
    - A connection of the application is closed exactly once and released in the end,
      whatever the interleaving; closing a virtual host closes what is connected and gives
      up what nobody waits for. The monitor reports exactly the messages that hang.
    - MessageStore refines a finite map and its GUID index never dangles.

    ** Bounds and fuel

    A loop that is not structural takes fuel, and each such function is called with a
    bound on its iterations computed from its argument (the length of the buffer for the
    decoders, the size of the store plus one for requeueing, the number of topology
    messages plus one for draining a transformer, the work pending in continuations for a
    call on a future); the totality theorems show that fuel
    never runs out. Delivery tags are 64-bit: theorems that depend on tags not wrapping
    say so in a hypothesis on the length of the run.

    ** Not modelled

    What is left out of the library's code is: the constructor and destructor of
    rmqa_rabbitcontextimpl, which make and release the modelled parts one after the other;
    tracing (rmqa_tracingconsumerimpl), which calls hooks of the application around the
    modelled sending and delivery; options and plain values with setters; the interfaces
    of rmqp, which have no code; names of metrics and logging. Boost.Asio, OpenSSL and
    the compression library ([Zstd]) are not in the repository: only what the code relies
    on is stated of them. Blocking waits ([blockResult], condition variables) are steps
    that are enabled when the thing waited for has happened. The two managed pointers of a
    virtual host and the members of the connection monitor are changed by one call at a
    time. Unit tests, mocks and examples are not part of the library. *)

From Stdlib Require Import ZArith Lia String Strings.Byte.
From stdpp Require Import base tactics list countable gmap.

(** ** Machine words

    A w-bit unsigned integer is a [Z]; [uwrap] and [swrap] are the conversions
    C++ performs when a value is stored in a w-bit unsigned or signed type. *)

Definition uwrap (w : Z) (z : Z) : Z := (z mod 2 ^ w)%Z.

Definition swrap (w : Z) (z : Z) : Z :=
  let u := uwrap w z in
  (if u <? 2 ^ (w - 1) then u else u - 2 ^ w)%Z.

Definition u_in (w : Z) (z : Z) : bool := ((0 <=? z) && (z <? 2 ^ w))%Z.

Definition s_in (w : Z) (z : Z) : bool := ((- 2 ^ (w - 1) <=? z) && (z <? 2 ^ (w - 1)))%Z.

Lemma u_in_iff w z : u_in w z = true ↔ (0 ≤ z < 2 ^ w)%Z.
Proof. unfold u_in. rewrite andb_true_iff, Z.leb_le, Z.ltb_lt. done. Qed.

Lemma s_in_iff w z : s_in w z = true ↔ (- 2 ^ (w - 1) ≤ z < 2 ^ (w - 1))%Z.
Proof. unfold s_in. rewrite andb_true_iff, Z.leb_le, Z.ltb_lt. done. Qed.

Lemma uwrap_small w z : u_in w z = true → uwrap w z = z.
Proof. rewrite u_in_iff. intros H. by apply Z.mod_small. Qed.

Lemma uwrap_range w z : (0 ≤ w)%Z → (0 ≤ uwrap w z < 2 ^ w)%Z.
Proof. intros. apply Z.mod_pos_bound. lia. Qed.

Lemma u_in_uwrap w z : (0 ≤ w)%Z → u_in w (uwrap w z) = true.
Proof. intros. apply u_in_iff. by apply uwrap_range. Qed.

Lemma uwrap_uwrap w z : (0 ≤ w)%Z → uwrap w (uwrap w z) = uwrap w z.
Proof. intros. apply uwrap_small. by apply u_in_uwrap. Qed.

Lemma u_in_lor w a b :
  (0 ≤ w)%Z → u_in w a = true → u_in w b = true → u_in w (Z.lor a b) = true.
Proof.
  intros Hw Ha Hb. assert (Z.lor a b = uwrap w (Z.lor a b)) as ->; [| by apply u_in_uwrap].
  apply uwrap_small in Ha, Hb. unfold uwrap in *. rewrite <- Z.land_ones in * by done.
  by rewrite Z.land_lor_distr_l, Ha, Hb.
Qed.

Lemma pow2_pred w : (0 < w)%Z → (2 ^ w = 2 * 2 ^ (w - 1))%Z.
Proof. intros. rewrite <- Z.pow_succ_r by lia. f_equal. lia. Qed.

Lemma swrap_small w z : (0 < w)%Z → s_in w z = true → swrap w z = z.
Proof.
  rewrite s_in_iff. intros Hw Hz. unfold swrap, uwrap. pose proof (pow2_pred w Hw) as Hp.
  destruct (Z_lt_le_dec z 0) as [Hneg | Hpos].
  - replace (z mod 2 ^ w)%Z with (z + 2 ^ w)%Z.
    + destruct (Z.ltb_spec (z + 2 ^ w) (2 ^ (w - 1))); lia.
    + symmetry. rewrite <- (Z_mod_plus_full z 1), Z.mul_1_l. apply Z.mod_small. lia.
  - rewrite Z.mod_small by lia. destruct (Z.ltb_spec z (2 ^ (w - 1))); lia.
Qed.

Lemma swrap_uwrap w z : (0 ≤ w)%Z → swrap w (uwrap w z) = swrap w z.
Proof. intros. unfold swrap. by rewrite uwrap_uwrap. Qed.

Lemma s_in_swrap w z : (0 < w)%Z → s_in w (swrap w z) = true.
Proof.
  intros Hw. apply s_in_iff. unfold swrap.
  pose proof (uwrap_range w z ltac:(lia)). pose proof (pow2_pred w Hw).
  destruct (Z.ltb_spec (uwrap w z) (2 ^ (w - 1))); lia.
Qed.

(** ** Bytes *)

Definition byte_val (b : byte) : Z := Z.of_N (Byte.to_N b).

Definition byte_of_Z (z : Z) : byte :=
  default Byte.x00 (Byte.of_N (Z.to_N (uwrap 8 z))).

Lemma byte_val_range b : (0 ≤ byte_val b < 256)%Z.
Proof. unfold byte_val. pose proof (Byte.to_N_bounded b). lia. Qed.

Lemma byte_val_of_Z z : byte_val (byte_of_Z z) = uwrap 8 z.
Proof.
  unfold byte_val, byte_of_Z. pose proof (uwrap_range 8 z ltac:(lia)) as Hr.
  destruct (Byte.of_N (Z.to_N (uwrap 8 z))) as [b |] eqn:Hb; simpl.
  - apply Byte.to_of_N in Hb. rewrite Hb. lia.
  - apply Byte.of_N_None_iff in Hb. lia.
Qed.

Lemma byte_val_inj b1 b2 : byte_val b1 = byte_val b2 → b1 = b2.
Proof.
  unfold byte_val. intros H%N2Z.inj.
  pose proof (Byte.of_to_N b1). pose proof (Byte.of_to_N b2). congruence.
Qed.

Lemma byte_of_Z_val b : byte_of_Z (byte_val b) = b.
Proof.
  apply byte_val_inj. rewrite byte_val_of_Z. apply uwrap_small, u_in_iff, byte_val_range.
Qed.

#[global] Instance byte_eq_dec : EqDecision byte.
Proof. intros x y. destruct (Byte.byte_eq_dec x y); [by left | by right]. Defined.

#[global] Instance byte_countable : Countable byte.
Proof.
  apply (inj_countable' (fun b => Byte.to_N b) (fun n => default Byte.x00 (Byte.of_N n))).
  intros b. by rewrite Byte.of_to_N.
Defined.

(** A [bsl::string] or [bsl::vector<uint8_t>]. *)
Abbreviation bytes := (list byte).

(** Characters of string literals in the source. *)
Definition ascii_byte (c : Ascii.ascii) : byte := byte_of_Z (Z.of_N (Ascii.N_of_ascii c)).

Fixpoint str (s : String.string) : bytes :=
  match s with
  | String.EmptyString => []
  | String.String c s' => ascii_byte c :: str s'
  end.

(** ** Big-endian integers, the wire format of [bdlb::BigEndian*] *)

Fixpoint be_encode (n : nat) (z : Z) : bytes :=
  match n with
  | O => []
  | S n' => byte_of_Z (Z.shiftr z (8 * Z.of_nat n')) :: be_encode n' z
  end.

Definition be_decode (l : bytes) : Z :=
  fold_left (fun acc b => acc * 256 + byte_val b)%Z l 0%Z.

Lemma length_be_encode n z : length (be_encode n z) = n.
Proof. induction n; simpl; congruence. Qed.

Lemma be_decode_acc l a :
  fold_left (fun acc b => acc * 256 + byte_val b)%Z l a
  = (a * 2 ^ (8 * Z.of_nat (length l)) + be_decode l)%Z.
Proof.
  unfold be_decode. revert a. induction l as [| b l IH]; intros a; simpl fold_left.
  - simpl length. rewrite Z.mul_0_r, Z.pow_0_r. lia.
  - rewrite IH, (IH (0 * 256 + byte_val b)%Z). simpl length.
    replace (8 * Z.of_nat (S (length l)))%Z with (8 + 8 * Z.of_nat (length l))%Z by lia.
    rewrite Z.pow_add_r by lia. change (2 ^ 8)%Z with 256%Z. ring.
Qed.

Lemma be_decode_cons b l :
  be_decode (b :: l) = (byte_val b * 2 ^ (8 * Z.of_nat (length l)) + be_decode l)%Z.
Proof. unfold be_decode at 1. simpl. rewrite be_decode_acc. f_equal. Qed.

Lemma be_decode_range l : (0 ≤ be_decode l < 2 ^ (8 * Z.of_nat (length l)))%Z.
Proof.
  induction l as [| b l IH]; [done |]. rewrite be_decode_cons. simpl length.
  pose proof (byte_val_range b).
  replace (8 * Z.of_nat (S (length l)))%Z with (8 + 8 * Z.of_nat (length l))%Z by lia.
  rewrite Z.pow_add_r by lia. change (2 ^ 8)%Z with 256%Z. nia.
Qed.

Lemma be_decode_encode n z : be_decode (be_encode n z) = uwrap (8 * Z.of_nat n) z.
Proof.
  unfold uwrap. induction n as [| n IH].
  - simpl. by rewrite Z.mod_1_r.
  - simpl be_encode. rewrite be_decode_cons, length_be_encode, IH, byte_val_of_Z.
    unfold uwrap. rewrite Z.shiftr_div_pow2 by lia.
    replace (8 * Z.of_nat (S n))%Z with (8 * Z.of_nat n + 8)%Z by lia.
    rewrite (Z.pow_add_r 2 _ 8) by lia. rewrite Z.rem_mul_r by lia. ring.
Qed.

Lemma be_encode_decode l : be_encode (length l) (be_decode l) = l.
Proof.
  induction l as [| b l IH]; [done |]. simpl. f_equal.
  - rewrite be_decode_cons, Z.shiftr_div_pow2 by lia.
    pose proof (be_decode_range l).
    rewrite Z.div_add_l by lia. rewrite Z.div_small by lia.
    rewrite Z.add_0_r. apply byte_of_Z_val.
  - etrans; [| exact IH]. rewrite be_decode_cons.
    generalize (byte_val b) (be_decode l). clear. intros x y.
    assert (∀ n, (n ≤ length l)%nat →
      be_encode n (x * 2 ^ (8 * Z.of_nat (length l)) + y) = be_encode n y) as H; [| by apply H].
    induction n as [| n IHn]; intros Hn; [done |]. simpl. f_equal; [| apply IHn; lia].
    apply byte_val_inj. rewrite !byte_val_of_Z. unfold uwrap.
    rewrite !Z.shiftr_div_pow2 by lia.
    replace (8 * Z.of_nat (length l))%Z
      with (8 * Z.of_nat (length l - S n) + 8 + 8 * Z.of_nat n)%Z by lia.
    rewrite !Z.pow_add_r by lia. change (2 ^ 8)%Z with 256%Z.
    rewrite Z.mul_assoc, Z.div_add_l by lia.
    rewrite Z.mul_assoc. rewrite Z.add_comm, Z_mod_plus_full. done.
Qed.

(** ** Lists *)

Lemma length_elem_concat {A} (l : list A) (ls : list (list A)) :
  l ∈ ls → length l ≤ length (concat ls).
Proof. induction 1; simpl; rewrite length_app; lia. Qed.

Lemma filter_all {A} (P : A → Prop) `{∀ x, Decision (P x)} (l : list A) :
  (∀ x, x ∈ l → P x) → filter P l = l.
Proof.
  induction l as [| x l IH]; intros Hl; [done |]. rewrite filter_cons.
  rewrite decide_True by (apply Hl; left). f_equal. apply IH. intros y Hy. apply Hl. by right.
Qed.

Lemma filter_none {A} (P : A → Prop) `{∀ x, Decision (P x)} (l : list A) :
  (∀ x, x ∈ l → ¬ P x) → filter P l = [].
Proof.
  induction l as [| x l IH]; intros Hl; [done |]. rewrite filter_cons.
  rewrite decide_False by (apply Hl; left). apply IH. intros y Hy. apply Hl. by right.
Qed.

Lemma Forall_sublist {A} (P : A → Prop) (l l' : list A) : sublist l l' → Forall P l' → Forall P l.
Proof. rewrite !Forall_forall. intros Hs Hf x Hx. by eapply Hf, elem_of_sublist. Qed.

Lemma elem_of_fst {A B} (a : A) (b : B) (l : list (A * B)) : (a, b) ∈ l → a ∈ l.*1.
Proof. intros. apply list_elem_of_fmap. by exists (a, b). Qed.
