(* ===== verification/Constants.v ===== *)
(** * Constants: the enumerations and constants of AMQP 0-9-1

    Models rmqamqpt_constants.h and rmqamqpt_constants.cpp. The enumerators are
    kept as the integers the codecs write and read, since every decoder casts an
    integer of the wire to the enumeration without checking it. *)

From Stdlib Require Import ZArith String Strings.Byte.
From stdpp Require Import base list.
From S2P Require Import Prelude.

#[local] Open Scope Z_scope.

(** ** AMQPFrameType *)

Definition METHOD : Z := 1.
Definition HEADER : Z := 2.
Definition BODY : Z := 3.
Definition HEARTBEAT : Z := 8.

(** ** AMQPClassId *)

Definition CONNECTION : Z := 10.
Definition CHANNEL : Z := 20.
Definition EXCHANGE : Z := 40.
Definition QUEUE : Z := 50.
Definition BASIC : Z := 60.
Definition CONFIRM : Z := 85.
Definition TX : Z := 90.
Definition NO_CLASS : Z := 0.

(** ** AMQPMethodId *)

Definition CHANNEL_OPEN : Z := 10.
Definition CHANNEL_OPENOK : Z := 11.
Definition CHANNEL_FLOW : Z := 20.
Definition CHANNEL_FLOWOK : Z := 21.
Definition CHANNEL_CLOSE : Z := 40.
Definition CHANNEL_CLOSEOK : Z := 41.
Definition CONFIRM_SELECT : Z := 10.
Definition CONFIRM_SELECTOK : Z := 11.
Definition CONNECTION_START : Z := 10.
Definition CONNECTION_STARTOK : Z := 11.
Definition CONNECTION_SECURE : Z := 20.
Definition CONNECTION_SECUREOK : Z := 21.
Definition CONNECTION_TUNE : Z := 30.
Definition CONNECTION_TUNEOK : Z := 31.
Definition CONNECTION_OPEN : Z := 40.
Definition CONNECTION_OPENOK : Z := 41.
Definition CONNECTION_CLOSE : Z := 50.
Definition CONNECTION_CLOSEOK : Z := 51.
Definition CONNECTION_BLOCKED : Z := 60.
Definition CONNECTION_UNBLOCKED : Z := 61.
Definition BASIC_QOS : Z := 10.
Definition BASIC_QOSOK : Z := 11.
Definition BASIC_CONSUME : Z := 20.
Definition BASIC_CONSUMEOK : Z := 21.
Definition BASIC_CANCEL : Z := 30.
Definition BASIC_CANCELOK : Z := 31.
Definition BASIC_PUBLISH : Z := 40.
Definition BASIC_RETURN : Z := 50.
Definition BASIC_DELIVER : Z := 60.
Definition BASIC_GET : Z := 70.
Definition BASIC_GETOK : Z := 71.
Definition BASIC_GETEMPTY : Z := 72.
Definition BASIC_ACK : Z := 80.
Definition BASIC_REJECT : Z := 90.
Definition BASIC_RECOVERASYNC : Z := 100.
Definition BASIC_RECOVER : Z := 110.
Definition BASIC_RECOVEROK : Z := 111.
Definition BASIC_NACK : Z := 120.
Definition EXCHANGE_DECLARE : Z := 10.
Definition EXCHANGE_DECLAREOK : Z := 11.
Definition EXCHANGE_DELETE : Z := 20.
Definition EXCHANGE_DELETEOK : Z := 21.
Definition EXCHANGE_BIND : Z := 30.
Definition EXCHANGE_BINDOK : Z := 31.
Definition EXCHANGE_UNBIND : Z := 40.
Definition EXCHANGE_UNBINDOK : Z := 51.
Definition QUEUE_DECLARE : Z := 10.
Definition QUEUE_DECLAREOK : Z := 11.
Definition QUEUE_BIND : Z := 20.
Definition QUEUE_BINDOK : Z := 21.
Definition QUEUE_PURGE : Z := 30.
Definition QUEUE_PURGEOK : Z := 31.
Definition QUEUE_DELETE : Z := 40.
Definition QUEUE_DELETEOK : Z := 41.
Definition QUEUE_UNBIND : Z := 50.
Definition QUEUE_UNBINDOK : Z := 51.
Definition NO_METHOD : Z := 0.

(** ** AMQPReplyCode *)

Definition REPLY_SUCCESS : Z := 200.
Definition CONTENT_TOO_LARGE : Z := 311.
Definition NO_ROUTE : Z := 312.
Definition NO_CONSUMERS : Z := 313.
Definition CONNECTION_FORCED : Z := 320.
Definition INVALID_PATH : Z := 402.
Definition ACCESS_REFUSED : Z := 403.
Definition NOT_FOUND : Z := 404.
Definition RESOURCE_LOCKED : Z := 405.
Definition PRECONDITION_FAILED : Z := 406.
Definition FRAME_ERROR : Z := 501.
Definition SYNTAX_ERROR : Z := 502.
Definition COMMAND_INVALID : Z := 503.
Definition CHANNEL_ERROR : Z := 504.
Definition UNEXPECTED_FRAME : Z := 505.
Definition RESOURCE_ERROR : Z := 506.
Definition NOT_ALLOWED : Z := 530.
Definition NOT_IMPLEMENTED : Z := 540.
Definition INTERNAL_ERROR : Z := 541.

(** ** Constants of rmqamqpt_constants.cpp *)

Definition PROTOCOL_HEADER : bytes := str "AMQP" ++ [Byte.x00; Byte.x00; Byte.x09; Byte.x01].

Definition PROTOCOL_HEADER_LENGTH : nat := 8.

Definition FRAME_END : Z := 206.

Definition FRAME_MIN_SIZE : Z := 4096.

Definition AUTHENTICATION_MECHANISM : bytes := str "PLAIN".

Definition LOCALE : bytes := str "en_US".

Lemma PROTOCOL_HEADER_length : length PROTOCOL_HEADER = PROTOCOL_HEADER_LENGTH.
Proof. reflexivity. Qed.
