(* ===== verification/Wire.v ===== *)
(** * Wire: byte buffers, writers and the primitive AMQP codecs

    Models [rmqamqpt::Buffer] (rmqamqpt_buffer.h, rmqamqpt_buffer.cpp),
    [rmqamqpt::Writer] (rmqamqpt_writer.h) and the string, byte-vector and
    integer codecs of [rmqamqpt::Types] (rmqamqpt_types.cpp, rmqamqpt_types.h).

    A decoder is a function from a buffer to a [dres]: the decoded value with
    the advanced buffer, a decode failure (the C++ function returned false), a
    violated precondition ([BSLS_ASSERT], or a raw read past the end of the
    buffer), or exhausted fuel. Reading past the end is thus a visible outcome
    of the model, and the safety theorems rule it out. *)

From Stdlib Require Import ZArith Lia Strings.Byte.
From stdpp Require Import base tactics list.
From S2P Require Import Prelude.

(** ** Buffer *)

Record Buffer := mkBuffer {
  d_data : bytes;
  d_length : nat;
  d_offset : nat;
}.

(** [Buffer::Buffer(start, length)] *)
Definition Buffer_make (start : bytes) (length : nat) : Buffer := mkBuffer start length 0.

(** A buffer over a whole byte sequence. *)
Definition Buffer_of (data : bytes) : Buffer := Buffer_make data (length data).

Definition Buffer_available (b : Buffer) : nat := d_length b - d_offset b.

(** The bytes [ptr()] points at, to the end of the underlying array. *)
Definition Buffer_ptr (b : Buffer) : bytes := drop (d_offset b) (d_data b).

Definition Buffer_advance (n : nat) (b : Buffer) : Buffer :=
  mkBuffer (d_data b) (d_length b) (d_offset b + n).

(** The bytes a buffer may still read. *)
Definition remaining (b : Buffer) : bytes := take (Buffer_available b) (Buffer_ptr b).

(** The class invariant: the view lies within the underlying array, and the
    offset within the view. *)
Definition Buffer_wf (b : Buffer) : Prop :=
  d_offset b ≤ d_length b ∧ d_length b ≤ length (d_data b).

(** ** Decoders *)

Inductive dres (A : Type) :=
| Ok (a : A) (b : Buffer)
| Err (b : Buffer)
| Violation
| OutOfFuel.
Arguments Ok {A} _ _.
Arguments Err {A} _.
Arguments Violation {A}.
Arguments OutOfFuel {A}.

Definition decoder (A : Type) : Type := Buffer → dres A.

Definition dret {A} (a : A) : decoder A := fun b => Ok a b.

Definition dfail {A} : decoder A := fun b => Err b.

Definition dbind {A B} (d : decoder A) (k : A → decoder B) : decoder B :=
  fun b => match d b with
           | Ok a b' => k a b'
           | Err b' => Err b'
           | Violation => Violation
           | OutOfFuel => OutOfFuel
           end.

Declare Scope dec_scope.
Delimit Scope dec_scope with dec.
Notation "x <-- d ;; k" := (dbind d (fun x => k))
  (at level 100, d at next level, right associativity) : dec_scope.
Notation "d ;;; k" := (dbind d (fun _ => k))
  (at level 100, right associativity) : dec_scope.
Open Scope dec_scope.

(** [BSLS_ASSERT(d_offset + size <= d_length); d_offset += size;] *)
Definition Buffer_skip (size : nat) : decoder unit := fun b =>
  if d_offset b + size <=? d_length b then Ok tt (Buffer_advance size b) else Violation.

(** A raw [memcpy] of [size] bytes from [ptr()]: reading past the view is a
    violation. *)
Definition Buffer_peek (size : nat) : decoder bytes := fun b =>
  if d_offset b + size <=? d_length b then Ok (take size (Buffer_ptr b)) b else Violation.

(** The guard [if (available() < size) return false;] *)
Definition Buffer_require (size : Z) : decoder unit := fun b =>
  if (Z.of_nat (Buffer_available b) <? size)%Z then Err b else Ok tt b.

(** [Buffer::copy<TYPE>]: the bytes of a [TYPE] of [size] bytes. *)
Definition Buffer_copy (size : nat) : decoder bytes :=
  Buffer_require (Z.of_nat size) ;;;
  val <-- Buffer_peek size ;;
  Buffer_skip size ;;;
  dret val.

(** [Buffer::consume]: a sub-buffer over the next bytes, truncated to the
    available ones. *)
Definition Buffer_consume (size : nat) : decoder Buffer := fun b =>
  let consumed := Nat.min size (Buffer_available b) in
  (Buffer_skip consumed ;;; dret (Buffer_make (Buffer_ptr b) consumed)) b.

(** ** Integers on the wire: [buffer->copy<bdlb::BigEndian...>] *)

Definition copyUint (size : nat) : decoder Z :=
  val <-- Buffer_copy size ;; dret (be_decode val).

Definition copyInt (size : nat) : decoder Z :=
  val <-- Buffer_copy size ;; dret (swrap (8 * Z.of_nat size) (be_decode val)).

Definition copyUint8 : decoder Z := copyUint 1.
Definition copyUint16 : decoder Z := copyUint 2.
Definition copyUint32 : decoder Z := copyUint 4.
Definition copyUint64 : decoder Z := copyUint 8.
Definition copyInt8 : decoder Z := copyInt 1.
Definition copyInt16 : decoder Z := copyInt 2.
Definition copyInt32 : decoder Z := copyInt 4.
Definition copyInt64 : decoder Z := copyInt 8.

(** ** Writer *)

Record Writer := mkWriter {
  d_currOffset : nat;
  d_storage : bytes;
}.

(** [d_storage->resize(n)] *)
Definition vector_resize (n : nat) (v : bytes) : bytes :=
  take n v ++ replicate (n - length v) Byte.x00.

(** [Writer::write(bytes, count)] *)
Definition Writer_write (w : Writer) (bs : bytes) : Writer :=
  let st := vector_resize (d_currOffset w + length bs) (d_storage w) in
  mkWriter (d_currOffset w + length bs)
           (take (d_currOffset w) st ++ bs ++ drop (d_currOffset w + length bs) st).

Definition Writer_make : Writer := mkWriter 0 [].

Definition Writer_synced (w : Writer) : Prop := d_currOffset w = length (d_storage w).

(** ** Types: writing integers and strings

    An encoder is the byte sequence it hands to [Writer::write]. *)

Definition writeUint8 (z : Z) : bytes := be_encode 1 z.
Definition writeUint16 (z : Z) : bytes := be_encode 2 z.
Definition writeUint32 (z : Z) : bytes := be_encode 4 z.
Definition writeUint64 (z : Z) : bytes := be_encode 8 z.

(** [Types::write(output, bool)] *)
Definition writeBool (b : bool) : bytes := [if b then Byte.x01 else Byte.x00].

(** [decodeString<T>], [size] being [sizeof(T)] *)
Definition decodeString (size : nat) : decoder bytes :=
  stringLength <-- copyUint size ;;
  Buffer_require stringLength ;;;
  stringBuffer <-- Buffer_consume (Z.to_nat stringLength) ;;
  dret (take (Buffer_available stringBuffer) (Buffer_ptr stringBuffer)).

Definition Types_decodeLongString : decoder bytes := decodeString 4.

Definition Types_decodeShortString : decoder bytes := decodeString 1.

Definition Types_encodeLongString (s : bytes) : bytes :=
  writeUint32 (Z.of_nat (length s)) ++ s.

(** Strings longer than 255 bytes are truncated. *)
Definition Types_encodeShortString (s : bytes) : bytes :=
  let sendSize := Nat.min (length s) 255 in
  writeUint8 (Z.of_nat sendSize) ++ take sendSize s.

Definition Types_decodeByteVector (n : Z) : decoder bytes :=
  Buffer_require n ;;;
  if (0 <? n)%Z then
    val <-- Buffer_peek (Z.to_nat n) ;;
    Buffer_skip (Z.to_nat n) ;;;
    dret val
  else dret [].

Definition Types_encodeByteVector (v : bytes) : bytes := v.

(** ** Total correctness of decoders: no violation, no exhausted fuel *)

(** The buffer only moves forward, inside the same view. *)
Definition extends (b b' : Buffer) : Prop :=
  d_data b' = d_data b ∧ d_length b' = d_length b ∧
  d_offset b ≤ d_offset b' ∧ d_offset b' ≤ d_length b.

Definition wp {A} (d : decoder A) (b : Buffer) (Q : A → Buffer → Prop) : Prop :=
  match d b with
  | Ok a b' => extends b b' ∧ Q a b'
  | Err b' => extends b b'
  | Violation | OutOfFuel => False
  end.

(** [d] returns (true or false) on every well-formed buffer. *)
Definition dsafe {A} (d : decoder A) : Prop := ∀ b, Buffer_wf b → wp d b (fun _ _ => True).

(** ** Round trips: [d] reads exactly [bs] and yields [a] *)

Definition decodes {A} (d : decoder A) (bs : bytes) (a : A) : Prop :=
  ∀ b rest, Buffer_wf b → remaining b = bs ++ rest →
    d b = Ok a (Buffer_advance (length bs) b).

(** [d] reads a prefix of [bs] and yields [a]. *)
Definition parses {A} (d : decoder A) (bs : bytes) (a : A) : Prop :=
  ∀ b rest, Buffer_wf b → remaining b = bs ++ rest → ∃ b', d b = Ok a b'.

Create HintDb wire.
Create Rewrite HintDb wire_len.

#[global] Arguments be_encode : simpl never.
#[global] Arguments Buffer_copy : simpl never.
#[global] Arguments copyUint : simpl never.
#[global] Arguments copyInt : simpl never.
#[global] Arguments decodeString : simpl never.
#[global] Arguments Types_encodeShortString : simpl never.
#[global] Arguments Types_encodeLongString : simpl never.

(** *** Buffers *)

Lemma extends_refl b : Buffer_wf b → extends b b.
Proof. unfold Buffer_wf, extends. intros [??]. repeat split; lia. Qed.

Lemma extends_trans b1 b2 b3 : extends b1 b2 → extends b2 b3 → extends b1 b3.
Proof. unfold extends. intros (?&?&?&?) (?&?&?&?). repeat split; try congruence; lia. Qed.

Lemma extends_wf b b' : Buffer_wf b → extends b b' → Buffer_wf b'.
Proof. unfold Buffer_wf, extends. intros [??] (->&->&?&?). lia. Qed.

Lemma extends_available b b' : extends b b' → Buffer_available b' ≤ Buffer_available b.
Proof. unfold extends, Buffer_available. intros (?&->&?&?). lia. Qed.

Lemma advance_extends n b :
  Buffer_wf b → n ≤ Buffer_available b → extends b (Buffer_advance n b).
Proof. unfold Buffer_wf, extends, Buffer_available. simpl. intros [??] ?. repeat split; lia. Qed.

Lemma available_advance n b :
  Buffer_available (Buffer_advance n b) = Buffer_available b - n.
Proof. unfold Buffer_available. simpl. lia. Qed.

Lemma Buffer_advance_advance n m b :
  Buffer_advance m (Buffer_advance n b) = Buffer_advance (n + m) b.
Proof. unfold Buffer_advance. simpl. f_equal. lia. Qed.

Lemma Buffer_advance_0 b : Buffer_advance 0 b = b.
Proof. destruct b. unfold Buffer_advance. simpl. f_equal. lia. Qed.

Lemma length_remaining b : Buffer_wf b → length (remaining b) = Buffer_available b.
Proof.
  unfold Buffer_wf, remaining, Buffer_ptr, Buffer_available. intros [??].
  rewrite length_take, length_drop. lia.
Qed.

Lemma remaining_Buffer_of data : remaining (Buffer_of data) = data.
Proof.
  unfold remaining, Buffer_of, Buffer_make, Buffer_available, Buffer_ptr. simpl.
  rewrite Nat.sub_0_r. by rewrite firstn_all.
Qed.

Lemma Buffer_of_wf data : Buffer_wf (Buffer_of data).
Proof. unfold Buffer_wf, Buffer_of, Buffer_make. simpl. lia. Qed.

Lemma remaining_advance n b : remaining (Buffer_advance n b) = drop n (remaining b).
Proof.
  unfold remaining, Buffer_ptr. rewrite available_advance. simpl.
  rewrite skipn_firstn_comm, drop_drop. done.
Qed.

Lemma remaining_advance_app b bs rest :
  remaining b = bs ++ rest → remaining (Buffer_advance (length bs) b) = rest.
Proof. intros H. rewrite remaining_advance, H. apply drop_app_length. Qed.

Lemma remaining_app_available b bs rest :
  Buffer_wf b → remaining b = bs ++ rest → length bs ≤ Buffer_available b.
Proof. intros Hwf H. rewrite <- length_remaining, H, length_app by done. lia. Qed.

Lemma advance_wf n b : Buffer_wf b → n ≤ Buffer_available b → Buffer_wf (Buffer_advance n b).
Proof. intros. eapply extends_wf; [done |]. by apply advance_extends. Qed.

Lemma advance_app_wf b bs rest :
  Buffer_wf b → remaining b = bs ++ rest → Buffer_wf (Buffer_advance (length bs) b).
Proof. intros. apply advance_wf; [done |]. by eapply remaining_app_available. Qed.

#[export] Hint Resolve extends_refl Buffer_of_wf advance_app_wf : wire.

(** *** [wp] rules *)

Lemma wp_mono {A} (d : decoder A) b (Q Q' : A → Buffer → Prop) :
  wp d b Q → (∀ a b', extends b b' → Q a b' → Q' a b') → wp d b Q'.
Proof. unfold wp. destruct (d b); naive_solver. Qed.

Lemma wp_ret {A} (a : A) b (Q : A → Buffer → Prop) : Buffer_wf b → Q a b → wp (dret a) b Q.
Proof. intros. split; auto with wire. Qed.

Lemma wp_fail {A} b (Q : A → Buffer → Prop) : Buffer_wf b → wp dfail b Q.
Proof. intros. unfold wp, dfail. auto with wire. Qed.

Lemma wp_bind {A B} (d : decoder A) (k : A → decoder B) b Q :
  Buffer_wf b → wp d b (fun a b' => Buffer_wf b' → wp (k a) b' Q) → wp (dbind d k) b Q.
Proof.
  unfold wp, dbind. intros Hwf. destruct (d b) as [a b' | b' | |]; try done.
  intros [Hext Hk]. specialize (Hk (extends_wf _ _ Hwf Hext)).
  destruct (k a b'); naive_solver eauto using extends_trans.
Qed.

Lemma wp_require n b (Q : unit → Buffer → Prop) :
  Buffer_wf b → ((n ≤ Z.of_nat (Buffer_available b))%Z → Q tt b) → wp (Buffer_require n) b Q.
Proof.
  intros Hwf HQ. unfold wp, Buffer_require.
  destruct (Z.ltb_spec (Z.of_nat (Buffer_available b)) n); auto with wire.
Qed.

Lemma wp_skip n b (Q : unit → Buffer → Prop) :
  Buffer_wf b → n ≤ Buffer_available b → Q tt (Buffer_advance n b) → wp (Buffer_skip n) b Q.
Proof.
  intros Hwf Hn HQ. unfold wp, Buffer_skip.
  destruct (Nat.leb_spec (d_offset b + n) (d_length b)).
  - split; [by apply advance_extends | done].
  - unfold Buffer_available, Buffer_wf in *. lia.
Qed.

Lemma wp_peek n b (Q : bytes → Buffer → Prop) :
  Buffer_wf b → n ≤ Buffer_available b → Q (take n (Buffer_ptr b)) b → wp (Buffer_peek n) b Q.
Proof.
  intros Hwf Hn HQ. unfold wp, Buffer_peek.
  destruct (Nat.leb_spec (d_offset b + n) (d_length b)); auto with wire.
  unfold Buffer_available, Buffer_wf in *. lia.
Qed.

(** Bytes read by [copy]: they are the next [n] ones, and there were [n]. *)
Lemma wp_copy n b (Q : bytes → Buffer → Prop) :
  Buffer_wf b →
  (n ≤ Buffer_available b → Q (take n (remaining b)) (Buffer_advance n b)) →
  wp (Buffer_copy n) b Q.
Proof.
  intros Hwf HQ. unfold Buffer_copy.
  apply wp_bind; [done |]. apply wp_require; [done |]. intros Hn _.
  apply wp_bind; [done |]. apply wp_peek; [done | lia |]. intros _.
  apply wp_bind; [done |]. apply wp_skip; [done | lia |]. intros Hwf'.
  apply wp_ret; [done |]. unfold remaining in HQ.
  rewrite take_take, Nat.min_l in HQ by lia. apply HQ. lia.
Qed.

Lemma wp_copyUint n b (Q : Z → Buffer → Prop) :
  Buffer_wf b →
  (∀ z, n ≤ Buffer_available b → (0 ≤ z < 2 ^ (8 * Z.of_nat n))%Z → Q z (Buffer_advance n b)) →
  wp (copyUint n) b Q.
Proof.
  intros Hwf HQ. unfold copyUint. apply wp_bind; [done |].
  apply wp_copy; [done |]. intros Hn Hwf'. apply wp_ret; [done |]. apply HQ; [done |].
  pose proof (be_decode_range (take n (remaining b))) as Hr.
  rewrite length_take, length_remaining, Nat.min_l in Hr by done. done.
Qed.

Lemma wp_copyInt n b (Q : Z → Buffer → Prop) :
  Buffer_wf b →
  (∀ z, n ≤ Buffer_available b → Q z (Buffer_advance n b)) → wp (copyInt n) b Q.
Proof.
  intros Hwf HQ. unfold copyInt. apply wp_bind; [done |].
  apply wp_copy; [done |]. intros Hn Hwf'. apply wp_ret; [done |]. by apply HQ.
Qed.

(** [consume] hands out a sub-buffer over exactly the next bytes. *)
Lemma wp_consume n b (Q : Buffer → Buffer → Prop) :
  Buffer_wf b → n ≤ Buffer_available b →
  (Buffer_wf (Buffer_make (Buffer_ptr b) n) →
   remaining (Buffer_make (Buffer_ptr b) n) = take n (remaining b) →
   Q (Buffer_make (Buffer_ptr b) n) (Buffer_advance n b)) →
  wp (Buffer_consume n) b Q.
Proof.
  intros Hwf Hn HQ. unfold wp, Buffer_consume. rewrite Nat.min_l by done.
  apply wp_bind; [done |]. apply wp_skip; [done | done |]. intros Hwf'.
  apply wp_ret; [done |]. apply HQ.
  - unfold Buffer_wf, Buffer_make, Buffer_ptr, Buffer_available in *. simpl.
    rewrite length_drop. lia.
  - unfold remaining, Buffer_make, Buffer_ptr, Buffer_available in *. simpl.
    rewrite take_take. f_equal. lia.
Qed.

Lemma wp_safe {A} (d : decoder A) b (Q : A → Buffer → Prop) :
  dsafe d → Buffer_wf b → (∀ a b', extends b b' → Q a b') → wp d b Q.
Proof. intros Hd Hwf HQ. eapply wp_mono; [by apply Hd |]. naive_solver. Qed.

Lemma decodeString_wp size b (Q : bytes → Buffer → Prop) :
  Buffer_wf b →
  (∀ s b', extends b b' → size + length s = d_offset b' - d_offset b →
           d_offset b + size + length s = d_offset b' → Q s b') →
  wp (decodeString size) b Q.
Proof.
  intros Hwf HQ. unfold decodeString.
  apply wp_bind; [done |]. apply wp_copyUint; [done |]. intros z Hz Hzr Hwf1.
  apply wp_bind; [done |]. apply wp_require; [done |]. intros Hz1 _.
  apply wp_bind; [done |]. apply wp_consume; [done | lia |]. intros Hs1 Hs2 Hwf2.
  apply wp_ret; [done |]. rewrite available_advance in Hz1.
  assert (length (take (Z.to_nat z) (Buffer_ptr (Buffer_advance size b))) = Z.to_nat z) as Hlen.
  { unfold Buffer_ptr, Buffer_wf, Buffer_available in *. simpl in *.
    rewrite length_take, length_drop. lia. }
  change (Buffer_available (Buffer_make _ (Z.to_nat z))) with (Z.to_nat z - 0).
  rewrite Nat.sub_0_r. unfold Buffer_ptr at 1. simpl d_offset. simpl d_data. rewrite drop_0.
  apply HQ; rewrite ?Hlen; rewrite ?Buffer_advance_advance; simpl; try lia.
  apply advance_extends; [done | lia].
Qed.

Lemma dsafe_decodeString size : dsafe (decodeString size).
Proof. intros b Hwf. by apply decodeString_wp. Qed.

Lemma dsafe_copyUint n : dsafe (copyUint n).
Proof. intros b Hwf. by apply wp_copyUint. Qed.

Lemma dsafe_copyInt n : dsafe (copyInt n).
Proof. intros b Hwf. by apply wp_copyInt. Qed.

Lemma dsafe_ret {A} (a : A) : dsafe (dret a).
Proof. intros b Hwf. by apply wp_ret. Qed.

Lemma dsafe_fail {A} : dsafe (@dfail A).
Proof. intros b Hwf. by apply wp_fail. Qed.

Lemma dsafe_bind {A B} (d : decoder A) (k : A → decoder B) :
  dsafe d → (∀ a, dsafe (k a)) → dsafe (dbind d k).
Proof. intros Hd Hk b Hwf. apply wp_bind; [done |]. apply wp_safe; naive_solver. Qed.

Lemma dsafe_decodeByteVector n : (0 ≤ n)%Z → dsafe (Types_decodeByteVector n).
Proof.
  intros Hn b Hwf. unfold Types_decodeByteVector.
  apply wp_bind; [done |]. apply wp_require; [done |]. intros Ha _.
  destruct (0 <? n)%Z; [| by apply wp_ret].
  apply wp_bind; [done |]. apply wp_peek; [done | lia |]. intros _.
  apply wp_bind; [done |]. apply wp_skip; [done | lia |]. intros ?. by apply wp_ret.
Qed.

(** Skipping a reserved field after checking it is there. *)
Lemma dsafe_skip_reserved {A} n (k : decoder A) :
  dsafe k → dsafe (Buffer_require (Z.of_nat n) ;;; (Buffer_skip n ;;; k)).
Proof.
  intros Hk b Hwf. apply wp_bind; [done |]. apply wp_require; [done |]. intros Hn _.
  apply wp_bind; [done |]. apply wp_skip; [done | lia |]. intros ?. by apply Hk.
Qed.

#[export] Hint Resolve dsafe_decodeString dsafe_copyUint dsafe_copyInt dsafe_ret dsafe_fail
  dsafe_decodeByteVector dsafe_skip_reserved : wire.

(** *** Composing round trips *)

Lemma decodes_parses {A} (d : decoder A) bs a : decodes d bs a → parses d bs a.
Proof. intros H b rest Hwf Hr. eexists. by eapply H. Qed.

Lemma decodes_ret {A} (a : A) : decodes (dret a) [] a.
Proof. intros b rest _ _. unfold dret. by rewrite Buffer_advance_0. Qed.

Lemma decodes_bind {A B} (d : decoder A) (k : A → decoder B) bs1 bs2 a c :
  decodes d bs1 a → decodes (k a) bs2 c → decodes (dbind d k) (bs1 ++ bs2) c.
Proof.
  intros Hd Hk b rest Hwf Hr. rewrite <- app_assoc in Hr. unfold dbind.
  rewrite (Hd b (bs2 ++ rest) Hwf Hr).
  rewrite (Hk _ rest (advance_app_wf _ _ _ Hwf Hr) (remaining_advance_app _ _ _ Hr)).
  by rewrite Buffer_advance_advance, length_app.
Qed.

(** The last decoder of a sequence, which leaves nothing to read. *)
Lemma decodes_bind_end {A B} (d : decoder A) (k : A → decoder B) bs a c :
  decodes d bs a → decodes (k a) [] c → decodes (dbind d k) bs c.
Proof. intros Hd Hk. rewrite <- (app_nil_r bs). by eapply decodes_bind. Qed.

Lemma parses_bind {A B} (d : decoder A) (k : A → decoder B) bs1 bs2 a c :
  decodes d bs1 a → parses (k a) bs2 c → parses (dbind d k) (bs1 ++ bs2) c.
Proof.
  intros Hd Hk b rest Hwf Hr. rewrite <- app_assoc in Hr. unfold dbind.
  rewrite (Hd b (bs2 ++ rest) Hwf Hr). eauto using advance_app_wf, remaining_advance_app.
Qed.

Lemma parses_prefix {A} (d : decoder A) bs1 bs2 a :
  decodes d bs1 a → parses d (bs1 ++ bs2) a.
Proof. intros Hd b rest Hwf Hr. rewrite <- app_assoc in Hr. eexists. by eapply Hd. Qed.

Lemma decodes_copy bs : decodes (Buffer_copy (length bs)) bs bs.
Proof.
  intros b rest Hwf Hr. pose proof (remaining_app_available _ _ _ Hwf Hr) as Hn.
  unfold Buffer_copy, dbind, Buffer_require, Buffer_peek, Buffer_skip, dret.
  destruct (Z.ltb_spec (Z.of_nat (Buffer_available b)) (Z.of_nat (length bs))); [lia |].
  unfold remaining, Buffer_available, Buffer_wf in *.
  assert ((d_offset b + length bs <=? d_length b) = true) as Hle by (apply Nat.leb_le; lia).
  rewrite !Hle. f_equal. apply (f_equal (take (length bs))) in Hr.
  rewrite take_app_length, take_take, Nat.min_l in Hr by lia. done.
Qed.

Lemma decodes_copyUint n z :
  u_in (8 * Z.of_nat n) z = true → decodes (copyUint n) (be_encode n z) z.
Proof.
  intros Hz. unfold copyUint. eapply decodes_bind_end.
  - pose proof (decodes_copy (be_encode n z)) as H. by rewrite length_be_encode in H.
  - rewrite be_decode_encode, uwrap_small by done. apply decodes_ret.
Qed.

Lemma decodes_copyInt n z :
  decodes (copyInt n) (be_encode n z) (swrap (8 * Z.of_nat n) z).
Proof.
  unfold copyInt. eapply decodes_bind_end.
  - pose proof (decodes_copy (be_encode n z)) as H. by rewrite length_be_encode in H.
  - rewrite be_decode_encode, swrap_uwrap by lia. apply decodes_ret.
Qed.

Lemma decodes_writeBool (b : bool) : decodes copyUint8 (writeBool b) (Z.b2z b).
Proof.
  replace (writeBool b) with (be_encode 1 (Z.b2z b)) by (by destruct b).
  apply decodes_copyUint. by destruct b.
Qed.

Lemma decodes_require_consume {A} n bs (k : Buffer → decoder A) a :
  length bs = n →
  (∀ sub, Buffer_wf sub → remaining sub = bs → decodes (k sub) [] a) →
  decodes (Buffer_require (Z.of_nat n) ;;; sub <-- Buffer_consume n ;; k sub) bs a.
Proof.
  intros <- Hk b rest Hwf Hr. pose proof (remaining_app_available _ _ _ Hwf Hr) as Hn.
  unfold dbind at 1, Buffer_require.
  destruct (Z.ltb_spec (Z.of_nat (Buffer_available b)) (Z.of_nat (length bs))); [lia |].
  unfold dbind, Buffer_consume, dbind, Buffer_skip, dret. rewrite Nat.min_l by done.
  destruct (Nat.leb_spec (d_offset b + length bs) (d_length b)) as [Hle |];
    [| unfold Buffer_available, Buffer_wf in *; lia].
  rewrite (Hk _) with (rest := rest).
  - by rewrite Buffer_advance_0.
  - unfold Buffer_wf, Buffer_make, Buffer_ptr in *. simpl. rewrite length_drop. lia.
  - apply (f_equal (take (length bs))) in Hr. rewrite take_app_length in Hr.
    unfold remaining in *. rewrite take_take, Nat.min_l in Hr by done.
    unfold Buffer_make, Buffer_available, Buffer_ptr in *. simpl. by rewrite Nat.sub_0_r.
  - by eapply advance_app_wf.
  - by apply remaining_advance_app.
Qed.

Lemma decodes_decodeString size s :
  u_in (8 * Z.of_nat size) (Z.of_nat (length s)) = true →
  decodes (decodeString size) (be_encode size (Z.of_nat (length s)) ++ s) s.
Proof.
  intros Hs. unfold decodeString. eapply decodes_bind; [by apply decodes_copyUint |].
  simpl. rewrite Nat2Z.id. apply decodes_require_consume; [done |].
  intros sub _ <-. apply decodes_ret.
Qed.

Lemma decodes_longString s :
  u_in 32 (Z.of_nat (length s)) = true →
  decodes Types_decodeLongString (Types_encodeLongString s) s.
Proof. apply (decodes_decodeString 4). Qed.

Lemma decodes_shortString s :
  length s ≤ 255 → decodes Types_decodeShortString (Types_encodeShortString s) s.
Proof.
  intros Hs. unfold Types_encodeShortString. rewrite Nat.min_l by done.
  rewrite take_ge by done. apply (decodes_decodeString 1). apply u_in_iff. simpl. lia.
Qed.

(** Longer strings come back truncated to their first 255 bytes. *)
Lemma decodes_shortString_trunc s :
  decodes Types_decodeShortString (Types_encodeShortString s) (take 255 s).
Proof.
  unfold Types_encodeShortString.
  replace (take (Nat.min (length s) 255) s) with (take 255 s).
  - replace (Nat.min (length s) 255) with (length (take 255 s)) by (rewrite length_take; lia).
    apply (decodes_decodeString 1). apply u_in_iff. rewrite length_take.
    change (2 ^ (8 * Z.of_nat 1))%Z with 256%Z. lia.
  - destruct (le_lt_dec (length s) 255) as [H | H].
    + rewrite Nat.min_l by done. rewrite !take_ge; auto; lia.
    + by rewrite Nat.min_r by lia.
Qed.

Lemma decodes_byteVector v :
  decodes (Types_decodeByteVector (Z.of_nat (length v))) (Types_encodeByteVector v) v.
Proof.
  unfold Types_decodeByteVector, Types_encodeByteVector. destruct v as [| x v].
  - intros b rest Hwf Hr. unfold dbind, Buffer_require, dret.
    destruct (Z.ltb_spec (Z.of_nat (Buffer_available b)) (Z.of_nat (@length byte [])));
      [simpl in *; lia |]. simpl. by rewrite Buffer_advance_0.
  - replace (0 <? Z.of_nat (length (x :: v)))%Z with true by done.
    rewrite Nat2Z.id. exact (decodes_copy (x :: v)).
Qed.

Lemma decodes_skip_reserved {A} n bs1 bs2 (k : decoder A) a :
  length bs1 = n → decodes k bs2 a →
  decodes (Buffer_require (Z.of_nat n) ;;; (Buffer_skip n ;;; k)) (bs1 ++ bs2) a.
Proof.
  intros <- Hk b rest Hwf Hr. rewrite <- app_assoc in Hr.
  pose proof (remaining_app_available _ _ _ Hwf Hr) as Hn.
  unfold dbind at 1, Buffer_require.
  destruct (Z.ltb_spec (Z.of_nat (Buffer_available b)) (Z.of_nat (length bs1))); [lia |].
  unfold dbind, Buffer_skip.
  destruct (Nat.leb_spec (d_offset b + length bs1) (d_length b)) as [Hle |];
    [| unfold Buffer_available, Buffer_wf in *; lia].
  rewrite (Hk _ rest); [| by eapply advance_app_wf | by apply remaining_advance_app].
  by rewrite Buffer_advance_advance, length_app.
Qed.

#[export] Hint Resolve decodes_ret decodes_writeBool decodes_longString
  decodes_shortString : wire.

(** *** Sizes *)

Lemma length_encodeLongString s : length (Types_encodeLongString s) = 4 + length s.
Proof. unfold Types_encodeLongString, writeUint32. rewrite length_app, length_be_encode. done. Qed.

Lemma length_encodeShortString s :
  length (Types_encodeShortString s) = 1 + Nat.min (length s) 255.
Proof.
  unfold Types_encodeShortString, writeUint8. rewrite length_app, length_be_encode, length_take. lia.
Qed.

#[export] Hint Rewrite @length_app length_be_encode length_encodeLongString
  length_encodeShortString : wire_len.

(** *** The writer appends *)

Lemma Writer_write_synced w bs :
  Writer_synced w → Writer_write w bs = mkWriter (d_currOffset w + length bs) (d_storage w ++ bs).
Proof.
  unfold Writer_synced, Writer_write, vector_resize. destruct w as [off st]. simpl.
  intros ->. f_equal. rewrite (take_ge st) by lia.
  replace (length st + length bs - length st) with (length bs) by lia.
  rewrite take_app_length. f_equal. rewrite drop_ge by (rewrite length_app, length_replicate; lia).
  by rewrite app_nil_r.
Qed.

Lemma Writer_write_keeps_synced w bs : Writer_synced w → Writer_synced (Writer_write w bs).
Proof.
  intros H. rewrite Writer_write_synced by done. unfold Writer_synced in *. simpl.
  rewrite length_app. lia.
Qed.

(** A sequence of writes to a fresh writer stores their concatenation. *)
Lemma Writer_run_append (chunks : list bytes) :
  d_storage (foldl Writer_write Writer_make chunks) = concat chunks.
Proof.
  assert (∀ w, Writer_synced w →
    d_storage (foldl Writer_write w chunks) = d_storage w ++ concat chunks) as H.
  { induction chunks as [| c cs IH]; intros w Hw; simpl; [by rewrite app_nil_r |].
    rewrite IH by (by apply Writer_write_keeps_synced).
    rewrite Writer_write_synced by done. simpl. by rewrite app_assoc. }
  by rewrite H.
Qed.
