(* ===== verification/FieldValue.v ===== *)
(** * FieldValue: typed field values, field arrays and field tables

    Models [rmqt::FieldValue] (rmqt_fieldvalue.h), the size computations of
    [rmqamqpt::FieldValueUtil] (rmqamqpt_fieldvalue.cpp) and the field codecs
    of [rmqamqpt::Types] (rmqamqpt_types.cpp).

    [bdlt::Datetime] and [bdlt::EpochUtil] are library code, so they are a
    parameter: the class [EpochUtil]. Floating-point values are kept as their
    bit patterns, which is all the codec copies. A [bsl::map<bsl::string, _>]
    is its in-order sequence of entries. *)

From Stdlib Require Import ZArith Lia String Strings.Byte.
From stdpp Require Import base tactics list.
From S2P Require Import Prelude Wire.

(** ** bdlt::EpochUtil *)

(** [convertFromTimeT64] yields [None] when it returns a non-zero status. *)
Class EpochUtil := {
  Datetime : Type;
  Datetime_eq_dec :: EqDecision Datetime;
  convertToTimeT64 : Datetime → Z;
  convertFromTimeT64 : Z → option Datetime;
  (** The datetime without its sub-second part. *)
  wholeSeconds : Datetime → Datetime;
}.

(** The documented contract: seconds since the epoch fit a 64-bit integer, and
    converting back loses the sub-second part only. *)
Class EpochUtilLaws (E : EpochUtil) : Prop := {
  convertToTimeT64_range d : s_in 64 (convertToTimeT64 d) = true;
  convertFrom_To d : convertFromTimeT64 (convertToTimeT64 d) = Some (wholeSeconds d);
}.

(** ** Data *)

#[warnings="-register-all"]
Inductive FieldValue {E : EpochUtil} :=
| FV_unset
| FV_bool (b : bool)
| FV_int8 (z : Z)
| FV_uint8 (z : Z)
| FV_int16 (z : Z)
| FV_uint16 (z : Z)
| FV_int32 (z : Z)
| FV_uint32 (z : Z)
| FV_int64 (z : Z)
| FV_uint64 (z : Z)
| FV_float (bits : Z)
| FV_double (bits : Z)
| FV_string (s : bytes)
| FV_bytes (v : bytes)
| FV_array (a : list FieldValue)
| FV_datetime (d : Datetime)
| FV_table (t : list (bytes * FieldValue)).

Section FieldValue.
Context {E : EpochUtil}.

Abbreviation FieldArray := (list FieldValue).
Abbreviation FieldTable := (list (bytes * FieldValue)).

(** [rmqamqpt::FieldValue::Type] *)
Inductive FieldType :=
| BOOLEAN | SHORT_SHORT_INT | SHORT_SHORT_UINT | SHORT_INT | SHORT_UINT | LONG_INT | LONG_UINT
| AMQP_SPEC_LONG_LONG_INT | RABBIT_SPEC_LONG_LONG_INT | FLOAT | DOUBLE | DECIMAL | LONG_STRING
| BYTE_ARRAY | FIELD_ARRAY | TIMESTAMP | FIELD_TABLE | NO_FIELD.

Definition FieldType_char (t : FieldType) : String.string :=
  match t with
  | BOOLEAN => "t" | SHORT_SHORT_INT => "b" | SHORT_SHORT_UINT => "B" | SHORT_INT => "s"
  | SHORT_UINT => "u" | LONG_INT => "I" | LONG_UINT => "i" | AMQP_SPEC_LONG_LONG_INT => "L"
  | RABBIT_SPEC_LONG_LONG_INT => "l" | FLOAT => "f" | DOUBLE => "d" | DECIMAL => "D"
  | LONG_STRING => "S" | BYTE_ARRAY => "x" | FIELD_ARRAY => "A" | TIMESTAMP => "T"
  | FIELD_TABLE => "F" | NO_FIELD => "V"
  end%string.

Definition FieldType_byte (t : FieldType) : Z := be_decode (str (FieldType_char t)).

Definition all_FieldTypes : list FieldType :=
  [BOOLEAN; SHORT_SHORT_INT; SHORT_SHORT_UINT; SHORT_INT; SHORT_UINT; LONG_INT; LONG_UINT;
   AMQP_SPEC_LONG_LONG_INT; RABBIT_SPEC_LONG_LONG_INT; FLOAT; DOUBLE; DECIMAL; LONG_STRING;
   BYTE_ARRAY; FIELD_ARRAY; TIMESTAMP; FIELD_TABLE; NO_FIELD].

(** The [switch] on the type byte: [None] is its [default]. *)
Definition FieldType_of_byte (z : Z) : option FieldType :=
  List.find (fun t => (FieldType_byte t =? z)%Z) all_FieldTypes.

(** [Types::write(output, FieldValue::Type)] *)
Definition writeType (t : FieldType) : bytes := writeUint8 (FieldType_byte t).

(** ** bsl::map<bsl::string, FieldValue> *)

(** [bsl::string::operator<]: lexicographic on unsigned characters. *)
Fixpoint bytes_ltb (a b : bytes) : bool :=
  match a, b with
  | [], [] => false
  | [], _ :: _ => true
  | _ :: _, [] => false
  | x :: a', y :: b' =>
      if (byte_val x <? byte_val y)%Z then true
      else if (byte_val y <? byte_val x)%Z then false
      else bytes_ltb a' b'
  end.

(** [map::insert]: an existing key keeps its value. *)
Fixpoint FieldTable_insert (k : bytes) (v : FieldValue) (t : FieldTable) : FieldTable :=
  match t with
  | [] => [(k, v)]
  | (k', v') :: t' =>
      if bytes_ltb k k' then (k, v) :: t
      else if bytes_ltb k' k then (k', v') :: FieldTable_insert k v t'
      else t
  end.

(** ** Sizes: FieldValueUtil *)

Fixpoint encodedValueSize (fv : FieldValue) : nat :=
  match fv with
  | FV_unset => 0
  | FV_bool _ | FV_int8 _ | FV_uint8 _ => 1
  | FV_int16 _ | FV_uint16 _ => 2
  | FV_int32 _ | FV_uint32 _ | FV_float _ => 4
  | FV_int64 _ | FV_uint64 _ | FV_double _ => 8
  | FV_string s => 4 + length s
  | FV_bytes v => 4 + length v
  | FV_array a => 4 + list_sum (List.map (fun x => 1 + encodedValueSize x) a)
  | FV_datetime _ => 8
  | FV_table t =>
      4 + list_sum (List.map (fun kv => match kv with
                                        | (k, v) => 1 + length k + (1 + encodedValueSize v)
                                        end) t)
  end.

Definition encodedSize (fv : FieldValue) : nat := 1 + encodedValueSize fv.

Definition fieldArrayContentsEncodedSize (a : FieldArray) : nat :=
  list_sum (List.map encodedSize a).

Definition encodedTableSize (t : FieldTable) : nat :=
  list_sum (List.map (fun kv => match kv with
                                | (k, v) => 1 + length k + encodedSize v
                                end) t).

(** ** Encoding *)

Definition Types_encodeTimestamp (d : Datetime) : bytes := writeUint64 (convertToTimeT64 d).

(** [FieldValueEncoder], one case per [operator()]. *)
Fixpoint Types_encodeFieldValue (fv : FieldValue) : bytes :=
  match fv with
  | FV_unset => writeType NO_FIELD
  | FV_bool b => writeType BOOLEAN ++ writeBool b
  | FV_uint8 z => writeType SHORT_SHORT_UINT ++ writeUint8 z
  | FV_int8 z => writeType SHORT_SHORT_INT ++ writeUint8 z
  | FV_int16 z => writeType SHORT_INT ++ writeUint16 z
  | FV_uint16 z => writeType SHORT_UINT ++ writeUint16 z
  | FV_int32 z => writeType LONG_INT ++ writeUint32 z
  | FV_uint32 z => writeType LONG_UINT ++ writeUint32 z
  | FV_int64 z => writeType RABBIT_SPEC_LONG_LONG_INT ++ writeUint64 z
  | FV_uint64 z => writeType RABBIT_SPEC_LONG_LONG_INT ++ writeUint64 z
  | FV_float bits => writeType FLOAT ++ writeUint32 bits
  | FV_double bits => writeType DOUBLE ++ writeUint64 bits
  | FV_string s => writeType LONG_STRING ++ Types_encodeLongString s
  | FV_bytes v =>
      writeType BYTE_ARRAY ++ writeUint32 (Z.of_nat (length v)) ++ Types_encodeByteVector v
  | FV_array a =>
      writeType FIELD_ARRAY ++
      writeUint32 (Z.of_nat (fieldArrayContentsEncodedSize a)) ++
      List.flat_map Types_encodeFieldValue a
  | FV_table t =>
      writeType FIELD_TABLE ++
      writeUint32 (Z.of_nat (encodedTableSize t)) ++
      List.flat_map (fun kv => match kv with
                               | (k, v) => Types_encodeShortString k ++ Types_encodeFieldValue v
                               end) t
  | FV_datetime d => writeType TIMESTAMP ++ Types_encodeTimestamp d
  end.

Definition Types_encodeFieldArray (a : FieldArray) : bytes :=
  writeUint32 (Z.of_nat (fieldArrayContentsEncodedSize a)) ++
  List.flat_map Types_encodeFieldValue a.

Definition encodeEntry (kv : bytes * FieldValue) : bytes :=
  match kv with
  | (k, v) => Types_encodeShortString k ++ Types_encodeFieldValue v
  end.

Definition Types_encodeFieldTable (t : FieldTable) : bytes :=
  writeUint32 (Z.of_nat (encodedTableSize t)) ++ List.flat_map encodeEntry t.

(** ** Decoding *)

Definition Types_decodeTimestamp : decoder Datetime :=
  seconds <-- copyInt64 ;;
  match convertFromTimeT64 seconds with
  | Some timestamp => dret timestamp
  | None => dfail
  end.

(** Run a decoder on a sub-buffer, keeping the position of the outer one. *)
Definition on_subbuffer {A} (sub : Buffer) (d : decoder A) : decoder A := fun b =>
  match d sub with
  | Ok a _ => Ok a b
  | Err _ => Err b
  | Violation => Violation
  | OutOfFuel => OutOfFuel
  end.

(** [while (arrayBuffer.available() > 0) { ... push_back(value); }] *)
Fixpoint decodeFieldArray_loop (dv : decoder FieldValue) (fuel : nat) (acc : FieldArray)
  : decoder FieldArray := fun b =>
  match fuel with
  | O => OutOfFuel
  | S fuel' =>
      if 0 <? Buffer_available b then
        (value <-- dv ;; decodeFieldArray_loop dv fuel' (acc ++ [value])) b
      else Ok acc b
  end.

Definition decodeFieldArray_with (dv : decoder FieldValue) : decoder FieldArray :=
  arrayLength <-- copyUint32 ;;
  Buffer_require arrayLength ;;;
  arrayBuffer <-- Buffer_consume (Z.to_nat arrayLength) ;;
  on_subbuffer arrayBuffer
    (decodeFieldArray_loop dv (S (Buffer_available arrayBuffer)) []).

(** [while (tBuffer.available() > 0) { ... table->insert(...); }] *)
Fixpoint decodeFieldTable_loop (dv : decoder FieldValue) (fuel : nat) (table : FieldTable)
  : decoder FieldTable := fun b =>
  match fuel with
  | O => OutOfFuel
  | S fuel' =>
      if 0 <? Buffer_available b then
        (fieldName <-- Types_decodeShortString ;;
         value <-- dv ;;
         decodeFieldTable_loop dv fuel' (FieldTable_insert fieldName value table)) b
      else Ok table b
  end.

Definition decodeFieldTable_with (dv : decoder FieldValue) : decoder FieldTable :=
  fieldTableLength <-- copyUint32 ;;
  Buffer_require fieldTableLength ;;;
  tBuffer <-- Buffer_consume (Z.to_nat fieldTableLength) ;;
  on_subbuffer tBuffer
    (decodeFieldTable_loop dv (S (Buffer_available tBuffer)) []).

Definition DECIMAL_OCTETS : nat := 5.

(** The [switch] of [Types::decodeFieldValue]; [rec] decodes nested values. *)
Definition decodeFieldValue_switch (rec : decoder FieldValue) (type : option FieldType)
  : decoder FieldValue :=
  match type with
  | Some BOOLEAN => val <-- copyUint8 ;; dret (FV_bool (negb (val =? 0)%Z))
  | Some SHORT_SHORT_INT => val <-- copyInt8 ;; dret (FV_int8 val)
  | Some SHORT_SHORT_UINT => val <-- copyUint8 ;; dret (FV_uint8 val)
  | Some SHORT_INT => val <-- copyInt16 ;; dret (FV_int16 val)
  | Some SHORT_UINT => val <-- copyUint16 ;; dret (FV_uint16 val)
  | Some LONG_INT => val <-- copyInt32 ;; dret (FV_int32 val)
  | Some LONG_UINT => val <-- copyUint32 ;; dret (FV_uint32 val)
  | Some AMQP_SPEC_LONG_LONG_INT => val <-- copyInt64 ;; dret (FV_int64 val)
  | Some RABBIT_SPEC_LONG_LONG_INT => val <-- copyInt64 ;; dret (FV_int64 val)
  | Some FLOAT => temp <-- copyUint32 ;; dret (FV_float temp)
  | Some DOUBLE => temp <-- copyUint64 ;; dret (FV_double temp)
  | Some DECIMAL =>
      Buffer_require (Z.of_nat DECIMAL_OCTETS) ;;;
      (Buffer_skip DECIMAL_OCTETS ;;; dret FV_unset)
  | Some LONG_STRING => val <-- Types_decodeLongString ;; dret (FV_string val)
  | Some BYTE_ARRAY =>
      arraySize <-- copyUint32 ;;
      val <-- Types_decodeByteVector arraySize ;;
      dret (FV_bytes val)
  | Some FIELD_ARRAY =>
      val <-- decodeFieldArray_with rec ;; dret (FV_array val)
  | Some TIMESTAMP => timestamp <-- Types_decodeTimestamp ;; dret (FV_datetime timestamp)
  | Some FIELD_TABLE =>
      table <-- decodeFieldTable_with rec ;; dret (FV_table table)
  | Some NO_FIELD => dret FV_unset
  | None => dfail
  end.

(** [Types::decodeFieldValue], with the nesting depth bounded by [fuel]. *)
Fixpoint decodeFieldValue_fuel (fuel : nat) : decoder FieldValue :=
  match fuel with
  | O => fun _ => OutOfFuel
  | S fuel' =>
      typeByte <-- copyUint8 ;;
      decodeFieldValue_switch (decodeFieldValue_fuel fuel') (FieldType_of_byte typeByte)
  end.

(** Every nesting level reads its type byte, so the bytes at hand bound the depth. *)
Definition Types_decodeFieldValue : decoder FieldValue := fun b =>
  decodeFieldValue_fuel (S (Buffer_available b)) b.

Definition Types_decodeFieldArray : decoder FieldArray := fun b =>
  decodeFieldArray_with (decodeFieldValue_fuel (S (Buffer_available b))) b.

Definition Types_decodeFieldTable : decoder FieldTable := fun b =>
  decodeFieldTable_with (decodeFieldValue_fuel (S (Buffer_available b))) b.

(** ** What survives a round trip *)

(** Unsigned 64-bit values are read back as signed ones, and timestamps lose
    their sub-second part. *)
Fixpoint fv_norm (fv : FieldValue) : FieldValue :=
  match fv with
  | FV_uint64 z => FV_int64 (swrap 64 z)
  | FV_datetime d => FV_datetime (wholeSeconds d)
  | FV_array a => FV_array (List.map fv_norm a)
  | FV_table t => FV_table (List.map (fun kv => match kv with (k, v) => (k, fv_norm v) end) t)
  | _ => fv
  end.

Definition table_norm (t : FieldTable) : FieldTable :=
  List.map (fun kv => match kv with (k, v) => (k, fv_norm v) end) t.

(** Keys strictly increasing: the entries of a map in iteration order. *)
Fixpoint keys_sorted {A} (t : list (bytes * A)) : bool :=
  match t with
  | [] => true
  | (k, _) :: t' => forallb (fun kv => bytes_ltb k kv.1) t' && keys_sorted t'
  end.

(** Values in the range of their C++ type, keys short enough for a short
    string, nested contents that fit their 32-bit length prefix. *)
Fixpoint fv_wf (fv : FieldValue) : bool :=
  match fv with
  | FV_unset | FV_bool _ | FV_datetime _ => true
  | FV_int8 z => s_in 8 z
  | FV_uint8 z => u_in 8 z
  | FV_int16 z => s_in 16 z
  | FV_uint16 z => u_in 16 z
  | FV_int32 z => s_in 32 z
  | FV_uint32 z => u_in 32 z
  | FV_int64 z => s_in 64 z
  | FV_uint64 z => u_in 64 z
  | FV_float z => u_in 32 z
  | FV_double z => u_in 64 z
  | FV_string s => u_in 32 (Z.of_nat (length s))
  | FV_bytes v => u_in 32 (Z.of_nat (length v))
  | FV_array a =>
      forallb fv_wf a && u_in 32 (Z.of_nat (fieldArrayContentsEncodedSize a))
  | FV_table t =>
      forallb (fun kv => match kv with (k, v) => (length k <=? 255) && fv_wf v end) t &&
      keys_sorted t && u_in 32 (Z.of_nat (encodedTableSize t))
  end.

Definition table_wf (t : FieldTable) : bool := fv_wf (FV_table t).

End FieldValue.

Abbreviation FieldArray := (list FieldValue).
Abbreviation FieldTable := (list (bytes * FieldValue)).

Section FieldValueFacts.
Context {E : EpochUtil}.

(** *** Induction over nested values *)

Definition is_leaf (v : FieldValue) : bool :=
  match v with FV_array _ | FV_table _ => false | _ => true end.

Lemma FieldValue_nested_ind (P : FieldValue → Prop) :
  (∀ v, is_leaf v = true → P v) →
  (∀ a, Forall P a → P (FV_array a)) →
  (∀ t, Forall (fun kv => P kv.2) t → P (FV_table t)) →
  ∀ v, P v.
Proof.
  intros Hleaf Harr Htab. fix IH 1. intros v. destruct v as [| | | | | | | | | | | | | | a | | t];
    try (by apply Hleaf).
  - apply Harr. induction a; constructor; auto.
  - apply Htab. induction t as [| [k v] t IHt]; constructor; simpl; auto.
Qed.

Lemma FieldType_of_byte_of t : FieldType_of_byte (FieldType_byte t) = Some t.
Proof. by destruct t. Qed.

Lemma FieldType_byte_in t : u_in 8 (FieldType_byte t) = true.
Proof. by destruct t. Qed.

(** *** Sizes *)

Lemma length_writeType t : length (writeType t) = 1.
Proof. apply length_be_encode. Qed.

Hint Rewrite length_writeType : wire_len.

Lemma length_encodeLeaf v :
  is_leaf v = true → length (Types_encodeFieldValue v) = encodedSize v.
Proof.
  destruct v; try done; intros _; cbn [Types_encodeFieldValue];
    unfold Types_encodeTimestamp, Types_encodeByteVector, writeUint8, writeUint16, writeUint32,
      writeUint64 in *; autorewrite with wire_len; done.
Qed.

Lemma length_flat_map {A} (f : A → bytes) (g : A → nat) l :
  Forall (fun x => length (f x) = g x) l → length (List.flat_map f l) = list_sum (List.map g l).
Proof. induction 1; simpl; rewrite ?length_app; lia. Qed.

Lemma forallb_Forall_impl {A} (p : A → bool) (P Q : A → Prop) l :
  (∀ x, p x = true → P x → Q x) → forallb p l = true → Forall P l → Forall Q l.
Proof.
  intros H. induction l as [| x l IH]; simpl; [constructor |].
  intros [??]%andb_true_iff Hl. inversion Hl; subst. constructor; auto.
Qed.

Lemma length_encodeEntry k v :
  length k ≤ 255 → length (Types_encodeFieldValue v) = encodedSize v →
  length (encodeEntry (k, v)) = 1 + length k + encodedSize v.
Proof. intros Hk Hv. unfold encodeEntry. rewrite length_app, length_encodeShortString. lia. Qed.

Lemma length_encodeFieldValue v :
  fv_wf v = true → length (Types_encodeFieldValue v) = encodedSize v.
Proof.
  induction v as [v Hleaf | a IH | t IH] using FieldValue_nested_ind.
  - intros _. by apply length_encodeLeaf.
  - cbn [Types_encodeFieldValue fv_wf]. rewrite andb_true_iff. intros [Hwf _]. unfold writeUint32.
    autorewrite with wire_len. rewrite (length_flat_map _ encodedSize); [done |].
    eapply forallb_Forall_impl; [| done | exact IH]. simpl. auto.
  - cbn [Types_encodeFieldValue fv_wf]. rewrite !andb_true_iff. intros [[Hwf _] _].
    unfold writeUint32.
    autorewrite with wire_len.
    rewrite (length_flat_map _ (fun kv => match kv with
                                          | (k, v) => 1 + length k + encodedSize v
                                          end)); [done |].
    eapply forallb_Forall_impl; [| done | exact IH].
    intros [k v]. simpl. rewrite andb_true_iff, Nat.leb_le. intros [??] ?.
    apply length_encodeEntry; auto.
Qed.

Lemma encodeFieldValue_nonempty v : 1 ≤ length (Types_encodeFieldValue v).
Proof.
  destruct v; cbn [Types_encodeFieldValue]; rewrite ?length_app, ?length_writeType; lia.
Qed.

(** *** Safety: decoding never reads out of bounds and always returns *)

(** [dv] returns on buffers of at most [m] bytes, having read something. *)
Definition progresses (dv : decoder FieldValue) (m : nat) : Prop :=
  ∀ b, Buffer_wf b → Buffer_available b ≤ m → wp dv b (fun _ b' => d_offset b < d_offset b').

Lemma extends_progress b b' :
  extends b b' → d_offset b < d_offset b' → Buffer_available b' < Buffer_available b.
Proof. unfold extends, Buffer_available. intros (?&->&?&?) ?. lia. Qed.

Lemma wp_array_loop dv m : progresses dv m →
  ∀ fuel acc b, Buffer_wf b → Buffer_available b ≤ m → Buffer_available b < fuel →
    wp (decodeFieldArray_loop dv fuel acc) b (fun _ _ => True).
Proof.
  intros Hdv. induction fuel as [| fuel IH]; intros acc b Hwf Hm Hf; [lia |].
  unfold wp. simpl. destruct (Nat.ltb_spec 0 (Buffer_available b)); [| by auto with wire].
  apply wp_bind; [done |]. eapply wp_mono; [by apply Hdv |]. simpl.
  intros v b' Hext Hlt Hwf'. pose proof (extends_progress _ _ Hext Hlt). apply IH; auto; lia.
Qed.

Lemma wp_table_loop dv m : progresses dv m →
  ∀ fuel acc b, Buffer_wf b → Buffer_available b ≤ m → Buffer_available b < fuel →
    wp (decodeFieldTable_loop dv fuel acc) b (fun _ _ => True).
Proof.
  intros Hdv. induction fuel as [| fuel IH]; intros acc b Hwf Hm Hf; [lia |].
  unfold wp. simpl. destruct (Nat.ltb_spec 0 (Buffer_available b)); [| by auto with wire].
  apply wp_bind; [done |]. apply decodeString_wp; [done |]. intros s b1 Hext1 _ _ Hwf1.
  pose proof (extends_available _ _ Hext1).
  apply wp_bind; [done |]. eapply wp_mono; [apply Hdv; [done | lia] |]. simpl.
  intros v b' Hext Hlt Hwf'. pose proof (extends_progress _ _ Hext Hlt). apply IH; auto; lia.
Qed.

Lemma wp_on_subbuffer {A} sub (d : decoder A) b :
  Buffer_wf b → wp d sub (fun _ _ => True) → wp (on_subbuffer sub d) b (fun _ _ => True).
Proof. intros Hwf. unfold wp, on_subbuffer. destruct (d sub); auto with wire. Qed.

(** The common shape of the two length-prefixed containers. *)
Lemma wp_length_prefixed {A} (loop : nat → decoder A) m b :
  Buffer_wf b → Buffer_available b ≤ m →
  (∀ fuel sub, Buffer_wf sub → Buffer_available sub + 4 ≤ m → Buffer_available sub < fuel →
     wp (loop fuel) sub (fun _ _ => True)) →
  wp (n <-- copyUint32 ;; Buffer_require n ;;; sub <-- Buffer_consume (Z.to_nat n) ;;
      on_subbuffer sub (loop (S (Buffer_available sub)))) b (fun _ _ => True).
Proof.
  intros Hwf Hm Hloop. apply wp_bind; [done |]. apply wp_copyUint; [done |].
  intros z Hz4 Hz Hwf1. apply wp_bind; [done |]. apply wp_require; [done |]. intros Hz1 _.
  rewrite available_advance in Hz1.
  apply wp_bind; [done |]. apply wp_consume; [done | rewrite available_advance; lia |].
  intros Hsub Hrem Hwf2. apply wp_on_subbuffer; [done |].
  apply Hloop; [done | | lia]. unfold Buffer_available, Buffer_make in *. simpl. lia.
Qed.

Lemma wp_decodeFieldArray_with dv m b :
  progresses dv (m - 4) → Buffer_wf b → Buffer_available b ≤ m →
  wp (decodeFieldArray_with dv) b (fun _ _ => True).
Proof.
  intros Hdv Hwf Hm. apply (wp_length_prefixed (fun f => decodeFieldArray_loop dv f []) m); auto.
  intros. eapply wp_array_loop; eauto; lia.
Qed.

Lemma wp_decodeFieldTable_with dv m b :
  progresses dv (m - 4) → Buffer_wf b → Buffer_available b ≤ m →
  wp (decodeFieldTable_with dv) b (fun _ _ => True).
Proof.
  intros Hdv Hwf Hm. apply (wp_length_prefixed (fun f => decodeFieldTable_loop dv f []) m); auto.
  intros. eapply wp_table_loop; eauto; lia.
Qed.

Lemma dsafe_decodeTimestamp : dsafe Types_decodeTimestamp.
Proof.
  apply dsafe_bind; [apply dsafe_copyInt |]. intros z.
  destruct (convertFromTimeT64 z); auto with wire.
Qed.

(** Decoding of a value by its type byte: every case but the containers. *)
Lemma progress_after_byte (k : Z → decoder FieldValue) m :
  (∀ z b, Buffer_wf b → Buffer_available b < m → wp (k z) b (fun _ _ => True)) →
  progresses (dbind copyUint8 k) m.
Proof.
  intros Hk b Hwf Hm. apply wp_bind; [done |]. apply wp_copyUint; [done |].
  intros z Hz _ Hwf'. eapply wp_mono.
  - apply Hk; [done |]. rewrite available_advance. lia.
  - simpl. intros v b' (?&?&?&?) _. simpl in *. lia.
Qed.

Lemma progresses_decodeFieldValue n : progresses (decodeFieldValue_fuel (S n)) n.
Proof.
  induction n as [n IH] using lt_wf_ind. cbn [decodeFieldValue_fuel].
  apply progress_after_byte. intros z b Hwf Hn.
  assert (∀ A (d : decoder A) (f : A → FieldValue), wp d b (fun _ _ => True) →
            wp (v <-- d ;; dret (f v)) b (fun _ _ => True)) as Hmap.
  { intros A d f Hd. apply wp_bind; [done |]. eapply wp_mono; [exact Hd |].
    intros. by apply wp_ret. }
  assert (progresses (decodeFieldValue_fuel n) (n - 1)) as Hdv.
  { destruct n as [| n]; [lia |]. simpl. rewrite Nat.sub_0_r. apply IH. lia. }
  unfold decodeFieldValue_switch.
  destruct (FieldType_of_byte z) as [[] |]; try (by apply wp_fail); try (by apply wp_ret);
    try (apply Hmap; (by apply dsafe_copyUint) || (by apply dsafe_copyInt)
                     || (by apply dsafe_decodeString)).
  - by apply (dsafe_skip_reserved 5 (dret FV_unset)); auto with wire.
  - apply wp_bind; [done |]. apply wp_copyUint; [done |]. intros sz _ Hsz Hwf'.
    apply wp_bind; [done |]. apply wp_safe; [apply dsafe_decodeByteVector; lia | done |].
    intros. by apply wp_ret.
  - apply Hmap. apply (wp_decodeFieldArray_with _ (n - 1)); [| done | lia].
    intros b' Hwf' Hb'. apply Hdv; [done | lia].
  - apply Hmap. by apply dsafe_decodeTimestamp.
  - apply Hmap. apply (wp_decodeFieldTable_with _ (n - 1)); [| done | lia].
    intros b' Hwf' Hb'. apply Hdv; [done | lia].
Qed.
(** *** The round trip *)

Lemma bytes_ltb_irrefl k : bytes_ltb k k = false.
Proof. induction k as [| x k IH]; simpl; [done |]. by rewrite Z.ltb_irrefl. Qed.

Lemma bytes_ltb_asym a b : bytes_ltb a b = true → bytes_ltb b a = false.
Proof.
  revert b. induction a as [| x a IH]; intros [| y b]; simpl; try done.
  destruct (Z.ltb_spec (byte_val x) (byte_val y)), (Z.ltb_spec (byte_val y) (byte_val x));
    try done; try lia. auto.
Qed.

Lemma FieldTable_insert_last t k v :
  forallb (fun kv => bytes_ltb kv.1 k) t = true → FieldTable_insert k v t = t ++ [(k, v)].
Proof.
  induction t as [| [k' v'] t IH]; simpl; [done |].
  rewrite andb_true_iff. intros [Hk Ht].
  rewrite (bytes_ltb_asym _ _ Hk), Hk. by rewrite IH.
Qed.

Lemma remaining_nil_available b : Buffer_wf b → remaining b = [] → Buffer_available b = 0.
Proof. intros Hwf Hr. rewrite <- length_remaining, Hr; done. Qed.

Lemma decodes_array_loop dv a :
  (∀ v, v ∈ a → decodes dv (Types_encodeFieldValue v) (fv_norm v)) →
  ∀ acc b fuel, Buffer_wf b → remaining b = List.flat_map Types_encodeFieldValue a →
    length a < fuel →
    ∃ b', decodeFieldArray_loop dv fuel acc b = Ok (acc ++ List.map fv_norm a) b'.
Proof.
  induction a as [| v a IH]; intros Hdv acc b [| fuel] Hwf Hr Hf; try lia.
  - simpl. rewrite (remaining_nil_available b) by done. simpl. rewrite app_nil_r. eauto.
  - assert (0 < Buffer_available b).
    { pose proof (encodeFieldValue_nonempty v). rewrite <- length_remaining, Hr by done.
      simpl. rewrite length_app. lia. }
    cbn [decodeFieldArray_loop]. rewrite (proj2 (Nat.ltb_lt _ _)) by done.
    unfold dbind. simpl List.flat_map in Hr.
    rewrite (Hdv v (list_elem_of_here _ _) b _ Hwf Hr).
    destruct (IH (fun v' Hv' => Hdv v' (list_elem_of_further _ _ _ Hv'))
                (acc ++ [fv_norm v]) (Buffer_advance (length (Types_encodeFieldValue v)) b) fuel)
      as [b' Hb'].
    + by eapply advance_app_wf.
    + by eapply remaining_advance_app.
    + simpl in Hf. lia.
    + exists b'. rewrite Hb', <- app_assoc. done.
Qed.

Definition all_below (k : bytes) (t : FieldTable) : bool := forallb (fun kv => bytes_ltb kv.1 k) t.

Lemma decodes_table_loop dv t :
  (∀ kv, kv ∈ t → length kv.1 ≤ 255 ∧ decodes dv (Types_encodeFieldValue kv.2) (fv_norm kv.2)) →
  keys_sorted t = true →
  ∀ acc b fuel, Buffer_wf b → remaining b = List.flat_map encodeEntry t → length t < fuel →
    (∀ kv, kv ∈ t → all_below kv.1 acc = true) →
    ∃ b', decodeFieldTable_loop dv fuel acc b = Ok (acc ++ table_norm t) b'.
Proof.
  induction t as [| [k v] t IH]; intros Hdv Hs acc b [| fuel] Hwf Hr Hf Hacc;
    try (simpl in Hf; lia).
  - simpl. rewrite (remaining_nil_available b) by done. simpl. rewrite app_nil_r. eauto.
  - destruct (Hdv (k, v) (list_elem_of_here _ _)) as [Hk Hv]. simpl in Hk, Hv.
    simpl in Hs. apply andb_true_iff in Hs as [Hkt Hs].
    assert (0 < Buffer_available b).
    { rewrite <- length_remaining, Hr by done. cbn [List.flat_map encodeEntry].
      rewrite 2!length_app, length_encodeShortString. lia. }
    cbn [decodeFieldTable_loop]. rewrite (proj2 (Nat.ltb_lt _ _)) by done.
    unfold dbind. cbn [List.flat_map encodeEntry] in Hr. rewrite <- app_assoc in Hr.
    rewrite (decodes_shortString k Hk b _ Hwf Hr).
    pose proof (advance_app_wf _ _ _ Hwf Hr) as Hwf1.
    pose proof (remaining_advance_app _ _ _ Hr) as Hr1.
    rewrite (Hv _ _ Hwf1 Hr1).
    rewrite FieldTable_insert_last by (by apply (Hacc (k, v)), list_elem_of_here).
    edestruct (IH (fun kv' Hv' => Hdv kv' (list_elem_of_further _ _ _ Hv')) Hs
                (acc ++ [(k, fv_norm v)])) as [b' Hb'].
    + by eapply advance_app_wf.
    + by eapply remaining_advance_app.
    + simpl in Hf. instantiate (1 := fuel). lia.
    + intros kv' Hin. unfold all_below. rewrite forallb_app. simpl.
      rewrite forallb_forall in Hkt. rewrite (Hkt kv') by (by apply list_elem_of_In).
      specialize (Hacc kv' (list_elem_of_further _ _ _ Hin)). unfold all_below in Hacc.
      by rewrite Hacc.
    + exists b'. rewrite Hb', <- app_assoc. done.
Qed.

(** A length prefix, then a sub-buffer decoded by [loop]. *)
Lemma decodes_length_prefixed {A} (loop : nat → decoder A) content (a : A) n :
  length content = n → u_in 32 (Z.of_nat n) = true →
  (∀ fuel sub, Buffer_wf sub → remaining sub = content → length content < fuel →
     ∃ b', loop fuel sub = Ok a b') →
  decodes (n <-- copyUint32 ;; Buffer_require n ;;; sub <-- Buffer_consume (Z.to_nat n) ;;
           on_subbuffer sub (loop (S (Buffer_available sub))))
          (writeUint32 (Z.of_nat n) ++ content) a.
Proof.
  intros Hlen Hn Hloop. eapply decodes_bind; [by apply (decodes_copyUint 4) |]. simpl.
  rewrite Nat2Z.id. apply decodes_require_consume; [done |].
  intros sub Hwf Hsub b rest Hb _. unfold on_subbuffer.
  destruct (Hloop (S (Buffer_available sub)) sub Hwf Hsub) as [b' ->].
  - rewrite <- Hsub, length_remaining by done. lia.
  - by rewrite Buffer_advance_0.
Qed.

Lemma length_flat_map_ge {A} (f : A → bytes) l :
  (∀ x, 1 ≤ length (f x)) → length l ≤ length (List.flat_map f l).
Proof. intros Hf. induction l as [| x l IH]; simpl; [lia |]. rewrite length_app. specialize (Hf x). lia. Qed.

Lemma length_in_flat_map {A} (f : A → bytes) l x :
  x ∈ l → length (f x) ≤ length (List.flat_map f l).
Proof. induction 1; simpl; rewrite length_app; lia. Qed.

Lemma length_entries t :
  forallb (fun kv => match kv with (k, v) => (length k <=? 255) && fv_wf v end) t = true →
  length (List.flat_map encodeEntry t) = encodedTableSize t.
Proof.
  intros Hwf. apply length_flat_map. apply list.Forall_forall. intros [k v] Hin.
  rewrite forallb_forall in Hwf. specialize (Hwf (k, v)).
  rewrite list_elem_of_In in Hin. apply Hwf in Hin.
  apply andb_true_iff in Hin as [Hk%Nat.leb_le Hv].
  apply length_encodeEntry; [done |]. by apply length_encodeFieldValue.
Qed.

Lemma decodes_table_with dv t :
  (∀ kv, kv ∈ t → decodes dv (Types_encodeFieldValue kv.2) (fv_norm kv.2)) →
  table_wf t = true →
  decodes (decodeFieldTable_with dv) (Types_encodeFieldTable t) (table_norm t).
Proof.
  intros Hdv Hwf. unfold table_wf in Hwf. cbn [fv_wf] in Hwf. rewrite !andb_true_iff in Hwf.
  destruct Hwf as [[Hwf Hs] Hsz]. pose proof (length_entries t Hwf) as Hlen.
  apply (decodes_length_prefixed (fun f => decodeFieldTable_loop dv f [])); [done | done |].
  intros fuel sub Hsub Hr Hf. apply (decodes_table_loop dv t) with (acc := []); auto.
  - intros [k v] Hin. split; [| by apply Hdv]. rewrite forallb_forall in Hwf.
    specialize (Hwf (k, v) (proj1 (list_elem_of_In _ _) Hin)).
    by apply andb_true_iff in Hwf as [?%Nat.leb_le _].
  - eapply Nat.le_lt_trans; [| exact Hf]. apply length_flat_map_ge. intros [k v].
    unfold encodeEntry. rewrite length_app, length_encodeShortString. lia.
Qed.

Lemma decodes_array_with dv a :
  (∀ v, v ∈ a → decodes dv (Types_encodeFieldValue v) (fv_norm v)) →
  fv_wf (FV_array a) = true →
  decodes (decodeFieldArray_with dv) (Types_encodeFieldArray a) (List.map fv_norm a).
Proof.
  intros Hdv Hwf. cbn [fv_wf] in Hwf. rewrite andb_true_iff in Hwf. destruct Hwf as [Hwf Hsz].
  apply (decodes_length_prefixed (fun f => decodeFieldArray_loop dv f [])); [| done |].
  - apply length_flat_map, list.Forall_forall. intros v Hv. rewrite forallb_forall in Hwf.
    apply length_encodeFieldValue, Hwf. by apply list_elem_of_In.
  - intros fuel sub Hsub Hr Hf. apply (decodes_array_loop dv a) with (acc := []); auto.
    eapply Nat.le_lt_trans; [| exact Hf].
    apply length_flat_map_ge, encodeFieldValue_nonempty.
Qed.

Context {L : EpochUtilLaws E}.

Lemma decodes_timestamp d :
  decodes Types_decodeTimestamp (Types_encodeTimestamp d) (wholeSeconds d).
Proof.
  eapply decodes_bind_end; [apply (decodes_copyInt 8) |].
  change (8 * Z.of_nat 8)%Z with 64%Z.
  rewrite swrap_small by (done || apply convertToTimeT64_range).
  rewrite convertFrom_To. apply decodes_ret.
Qed.

Lemma decodes_typed (ty : FieldType) n content v :
  decodes (decodeFieldValue_switch (decodeFieldValue_fuel n) (Some ty)) content v →
  decodes (decodeFieldValue_fuel (S n)) (writeType ty ++ content) v.
Proof.
  intros Hk. eapply decodes_bind; [apply decodes_copyUint, FieldType_byte_in |].
  by rewrite FieldType_of_byte_of.
Qed.

Lemma decodes_map {A B} (d : decoder A) (f : A → B) bs a c :
  decodes d bs a → f a = c → decodes (v <-- d ;; dret (f v)) bs c.
Proof. intros Hd <-. eapply decodes_bind_end; [exact Hd | apply decodes_ret]. Qed.

Lemma decodes_leaf v n :
  is_leaf v = true → fv_wf v = true →
  decodes (decodeFieldValue_fuel (S n)) (Types_encodeFieldValue v) (fv_norm v).
Proof.
  intros Hleaf Hwf.
  destruct v; try done; cbn [Types_encodeFieldValue fv_norm fv_wf] in *;
    [rewrite <- (app_nil_r (writeType NO_FIELD)) | ..]; apply decodes_typed;
    cbn [decodeFieldValue_switch].
  - apply decodes_ret.
  - eapply decodes_map; [apply decodes_writeBool | by destruct b].
  - eapply decodes_map; [apply decodes_copyInt | by rewrite swrap_small].
  - eapply decodes_map; [by apply (decodes_copyUint 1) | done].
  - eapply decodes_map; [apply decodes_copyInt | by rewrite swrap_small].
  - eapply decodes_map; [by apply (decodes_copyUint 2) | done].
  - eapply decodes_map; [apply decodes_copyInt | by rewrite swrap_small].
  - eapply decodes_map; [by apply (decodes_copyUint 4) | done].
  - eapply decodes_map; [apply decodes_copyInt | by rewrite swrap_small].
  - eapply decodes_map; [apply decodes_copyInt | done].
  - eapply decodes_map; [by apply (decodes_copyUint 4) | done].
  - eapply decodes_map; [by apply (decodes_copyUint 8) | done].
  - eapply decodes_map; [by apply decodes_longString | done].
  - eapply decodes_bind; [by apply (decodes_copyUint 4) |].
    eapply decodes_map; [apply decodes_byteVector | done].
  - eapply decodes_map; [apply decodes_timestamp | done].
Qed.

Lemma decodes_fieldValue_fuel v :
  fv_wf v = true → ∀ n, length (Types_encodeFieldValue v) ≤ n →
  decodes (decodeFieldValue_fuel n) (Types_encodeFieldValue v) (fv_norm v).
Proof.
  induction v as [v Hleaf | a IH | t IH] using FieldValue_nested_ind; intros Hwf n Hn;
    (destruct n as [| n];
     [exfalso; match goal with H : length (Types_encodeFieldValue ?v) ≤ 0 |- _ =>
                 pose proof (encodeFieldValue_nonempty v); lia end |]).
  - by apply decodes_leaf.
  - change (Types_encodeFieldValue (FV_array a))
      with (writeType FIELD_ARRAY ++ Types_encodeFieldArray a) in *.
    apply decodes_typed. cbn [decodeFieldValue_switch].
    eapply decodes_map; [| done]. apply decodes_array_with; [| done].
    intros v Hv. rewrite list.Forall_forall in IH. apply IH; [done | |].
    + cbn [fv_wf] in Hwf. apply andb_true_iff in Hwf as [Hwf _].
      rewrite forallb_forall in Hwf. apply Hwf. by apply list_elem_of_In.
    + pose proof (length_in_flat_map Types_encodeFieldValue a v Hv).
      unfold Types_encodeFieldArray in Hn. rewrite 2!length_app, length_writeType in Hn. lia.
  - change (Types_encodeFieldValue (FV_table t))
      with (writeType FIELD_TABLE ++ Types_encodeFieldTable t) in *.
    apply decodes_typed. cbn [decodeFieldValue_switch].
    eapply decodes_map; [| done]. apply decodes_table_with; [| done].
    intros [k v] Hv. rewrite list.Forall_forall in IH. apply (IH (k, v)); [done | |].
    + cbn [fv_wf] in Hwf. rewrite !andb_true_iff in Hwf. destruct Hwf as [[Hwf _] _].
      rewrite forallb_forall in Hwf. specialize (Hwf (k, v) (proj1 (list_elem_of_In _ _) Hv)).
      by apply andb_true_iff in Hwf as [_ ?].
    + pose proof (length_in_flat_map encodeEntry t (k, v) Hv) as Hl. unfold encodeEntry in Hl at 1.
      rewrite length_app in Hl. unfold Types_encodeFieldTable in Hn.
      rewrite 2!length_app, length_writeType in Hn. simpl. lia.
Qed.

Lemma decodes_fieldTable t :
  table_wf t = true → decodes Types_decodeFieldTable (Types_encodeFieldTable t) (table_norm t).
Proof.
  intros Hwf b rest Hb Hr. unfold Types_decodeFieldTable.
  refine (decodes_table_with _ t _ Hwf b rest Hb Hr). intros [k v] Hin.
  apply decodes_fieldValue_fuel.
  - unfold table_wf in Hwf. cbn [fv_wf] in Hwf. rewrite !andb_true_iff in Hwf.
    destruct Hwf as [[Hwf _] _]. rewrite forallb_forall in Hwf.
    specialize (Hwf (k, v) (proj1 (list_elem_of_In _ _) Hin)). by apply andb_true_iff in Hwf as [_ ?].
  - pose proof (length_in_flat_map encodeEntry t (k, v) Hin) as Hl. unfold encodeEntry in Hl at 1.
    pose proof (remaining_app_available _ _ _ Hb Hr) as Ha.
    rewrite length_app in Hl. unfold Types_encodeFieldTable in Ha. rewrite length_app in Ha.
    change (snd (k, v)) with v. lia.
Qed.

Lemma length_encodeFieldTable t :
  table_wf t = true → length (Types_encodeFieldTable t) = 4 + encodedTableSize t.
Proof.
  intros Hwf. unfold table_wf in Hwf. cbn [fv_wf] in Hwf. rewrite !andb_true_iff in Hwf.
  destruct Hwf as [[Hwf _] _]. unfold Types_encodeFieldTable, writeUint32.
  rewrite length_app, length_be_encode, length_entries by done. done.
Qed.

End FieldValueFacts.

Section FieldValueTheorems.
Context {E : EpochUtil}.

Lemma dsafe_decodeFieldTable : dsafe Types_decodeFieldTable.
Proof.
  intros b Hwf. apply (wp_decodeFieldTable_with _ (Buffer_available b)); [| done | lia].
  intros b' Hwf' Hb'. apply progresses_decodeFieldValue; [done | lia].
Qed.

Lemma dsafe_decodeFieldArray : dsafe Types_decodeFieldArray.
Proof.
  intros b Hwf. apply (wp_decodeFieldArray_with _ (Buffer_available b)); [| done | lia].
  intros b' Hwf' Hb'. apply progresses_decodeFieldValue; [done | lia].
Qed.

Lemma dsafe_decodeFieldValue : dsafe Types_decodeFieldValue.
Proof.
  intros b Hwf. eapply wp_mono; [by apply (progresses_decodeFieldValue (Buffer_available b)) |].
  done.
Qed.

(** *** Keys longer than a short string *)

(** Bytes of the keys that [encodeShortString] drops. *)
Definition key_excess (t : FieldTable) : nat :=
  list_sum (List.map (fun kv => length kv.1 - 255) t).

Lemma encodedTableSize_excess t :
  forallb (fun kv => fv_wf kv.2) t = true →
  length (List.flat_map encodeEntry t) + key_excess t = encodedTableSize t.
Proof.
  unfold key_excess, encodedTableSize.
  induction t as [| [k v] t IH]; [done |]. simpl forallb. rewrite andb_true_iff.
  intros [Hv Ht]. specialize (IH Ht). simpl in Hv.
  cbn [List.flat_map encodeEntry List.map fst] in *. unfold list_sum, encodedSize in *.
  cbn [foldr]. rewrite 2!length_app, length_encodeShortString, length_encodeFieldValue by done.
  unfold encodedSize. lia.
Qed.

(** decoding a field table never reads outside the buffer, violates no
    assertion and always returns, whatever bytes the peer sent; the read
    position only moves forward within the buffer. *)
Theorem fieldTable_decode_total (data : bytes) :
  match Types_decodeFieldTable (Buffer_of data) with
  | Ok _ b' | Err b' => extends (Buffer_of data) b'
  | Violation | OutOfFuel => False
  end.
Proof.
  pose proof (dsafe_decodeFieldTable (Buffer_of data) (Buffer_of_wf data)) as H.
  unfold wp in H. destruct (Types_decodeFieldTable (Buffer_of data)); tauto.
Qed.

(** encoding a field table whose values are in range and whose keys are
    short strings, then decoding it, yields the same table up to the documented
    normalisation (unsigned 64-bit values come back signed, timestamps in whole
    seconds), leaves the bytes after it unread, and the length computed by
    [encodedTableSize] is the number of bytes written. *)
Theorem fieldTable_roundtrip {L : EpochUtilLaws E} (t : FieldTable) (rest : bytes)
  (Hwf : table_wf t = true) :
  (∃ b', Types_decodeFieldTable (Buffer_of (Types_encodeFieldTable t ++ rest))
         = Ok (table_norm t) b' ∧ remaining b' = rest) ∧
  length (Types_encodeFieldTable t) = 4 + encodedTableSize t.
Proof.
  split; [| by apply length_encodeFieldTable].
  eexists. split.
  - apply decodes_fieldTable with (rest := rest); auto with wire. apply remaining_Buffer_of.
  - apply remaining_advance_app. apply remaining_Buffer_of.
Qed.

(** a field table with a key longer than 255 bytes is corrupted by the
    encoder: [encodeShortString] truncates the key, but the length prefix,
    computed from the untruncated key, announces more bytes than are written,
    so that decoding exactly what was encoded fails. *)
Theorem fieldTable_long_key_corrupt (t : FieldTable)
  (Hvals : forallb (fun kv => fv_wf kv.2) t = true)
  (Hlong : existsb (fun kv => 255 <? length kv.1) t = true)
  (Hsize : u_in 32 (Z.of_nat (encodedTableSize t)) = true) :
  ∃ b', Types_decodeFieldTable (Buffer_of (Types_encodeFieldTable t)) = Err b'.
Proof.
  assert (0 < key_excess t) as Hex.
  { unfold key_excess. clear -Hlong. induction t as [| kv t IH]; [done |]. simpl in *.
    apply orb_true_iff in Hlong as [H%Nat.ltb_lt | H]; [| specialize (IH H)]; lia. }
  pose proof (encodedTableSize_excess t Hvals) as Hlen.
  set (b := Buffer_of (Types_encodeFieldTable t)).
  pose proof (decodes_copyUint 4 _ Hsize b (List.flat_map encodeEntry t) (Buffer_of_wf _)
                (remaining_Buffer_of _)) as Hn.
  unfold Types_decodeFieldTable, decodeFieldTable_with, dbind at 1, copyUint32.
  rewrite Hn. unfold dbind at 1, Buffer_require. rewrite available_advance.
  assert (Buffer_available b = 4 + length (List.flat_map encodeEntry t)) as Hb.
  { unfold b, Buffer_of, Buffer_make, Buffer_available, Types_encodeFieldTable. simpl d_length.
    rewrite length_app. unfold writeUint32. rewrite length_be_encode. simpl. lia. }
  rewrite Hb, length_be_encode.
  destruct (Z.ltb_spec (Z.of_nat (4 + length (List.flat_map encodeEntry t) - 4))
              (Z.of_nat (encodedTableSize t))); [eauto | lia].
Qed.
End FieldValueTheorems.

(** ** A concrete [EpochUtil], for the witnesses

    Microseconds since the epoch, within the years 1 to 9999. *)

Definition clampSeconds (s : Z) : Z := Z.max (-62135596800) (Z.min 253402300799 s).

#[export] Instance micros_EpochUtil : EpochUtil := {
  Datetime := Z;
  convertToTimeT64 d := clampSeconds (d / 1000000);
  convertFromTimeT64 s := if (clampSeconds s =? s)%Z then Some (s * 1000000)%Z else None;
  wholeSeconds d := (clampSeconds (d / 1000000) * 1000000)%Z;
}.

#[export] Instance micros_EpochUtilLaws : EpochUtilLaws micros_EpochUtil.
Proof.
  constructor; simpl; intros d.
  - apply s_in_iff. unfold clampSeconds. change (2 ^ (64 - 1))%Z with 9223372036854775808%Z. lia.
  - destruct (Z.eqb_spec (clampSeconds (clampSeconds (d / 1000000))) (clampSeconds (d / 1000000)));
      [done |]. unfold clampSeconds in *. lia.
Qed.

Definition sample_table : FieldTable :=
  [(str "a", FV_array [FV_uint64 18446744073709551615%Z; FV_string (str "hi"); FV_unset]);
   (str "b", FV_table [(str "x", FV_bool true); (str "y", FV_datetime (1500000%Z : @Datetime micros_EpochUtil))]);
   (str "c", FV_int16 (-3))].

Lemma fieldTable_roundtrip_witness :
  table_wf sample_table = true ∧
  (∃ b', Types_decodeFieldTable (Buffer_of (Types_encodeFieldTable sample_table ++ [Byte.xce]))
         = Ok (table_norm sample_table) b' ∧ remaining b' = [Byte.xce]) ∧
  length (Types_encodeFieldTable sample_table) = 4 + encodedTableSize sample_table.
Proof.
  split; [vm_compute; reflexivity |].
  apply (fieldTable_roundtrip sample_table [Byte.xce]). vm_compute. reflexivity.
Defined.

Definition long_key_table : FieldTable := [(replicate 256 Byte.x61, FV_bool true)].

Lemma fieldTable_long_key_corrupt_witness :
  ∃ b', Types_decodeFieldTable (Buffer_of (Types_encodeFieldTable long_key_table)) = Err b'.
Proof. apply (fieldTable_long_key_corrupt long_key_table); vm_compute; reflexivity. Defined.
