(* ===== verification/Props.v ===== *)
(** * Props: message properties, content headers and content bodies

    Models [rmqt::Properties] (rmqt_properties.h), [rmqamqpt::BasicProperties]
    (rmqamqpt_basicproperties.cpp), [rmqamqpt::ContentHeader]
    (rmqamqpt_contentheader.cpp, rmqamqpt_contentheader.h) and
    [rmqamqpt::ContentBody] (rmqamqpt_contentbody.cpp). *)

From Stdlib Require Import ZArith Lia String Strings.Byte.
From stdpp Require Import base tactics list.
From S2P Require Import Prelude Wire FieldValue.

Section Props.
Context {E : EpochUtil}.

(** ** Data *)

Record Properties := mkProperties {
  contentType : option bytes;
  contentEncoding : option bytes;
  headers : option FieldTable;
  deliveryMode : option Z;
  priority : option Z;
  correlationId : option bytes;
  replyTo : option bytes;
  expiration : option bytes;
  messageId : option bytes;
  timestamp : option Datetime;
  type_ : option bytes;
  userId : option bytes;
  appId : option bytes;
}.

Definition Properties_empty : Properties :=
  mkProperties None None None None None None None None None None None None None.

(** [BasicProperties::Id] *)
Inductive PropertyId :=
| CONTENT_TYPE | CONTENT_ENCODING | HEADERS | DELIVERY_MODE | PRIORITY | CORRELATION_ID
| REPLY_TO | EXPIRATION | MESSAGE_ID | P_TIMESTAMP | TYPE | USER_ID | APP_ID | RESERVED.

Definition PropertyId_offset (id : PropertyId) : Z :=
  match id with
  | CONTENT_TYPE => 0 | CONTENT_ENCODING => 1 | HEADERS => 2 | DELIVERY_MODE => 3
  | PRIORITY => 4 | CORRELATION_ID => 5 | REPLY_TO => 6 | EXPIRATION => 7 | MESSAGE_ID => 8
  | P_TIMESTAMP => 9 | TYPE => 10 | USER_ID => 11 | APP_ID => 12 | RESERVED => 13
  end%Z.

(** [const uint8_t shift = 15 - offset; const uint16_t result = 1 << shift;] *)
Definition maskForProperty (id : PropertyId) : Z :=
  let shift := uwrap 8 (15 - PropertyId_offset id) in
  uwrap 16 (Z.shiftl 1 shift).

Definition has_value {A} (o : option A) : bool :=
  match o with Some _ => true | None => false end.

(** One [RMQAMQPT_PROPERTY_FLAGS] line. *)
Definition add_flag (result : Z) (f : PropertyId * bool) : Z :=
  if f.2 then Z.lor result (maskForProperty f.1) else result.

Definition BasicProperties_propertyFlags (p : Properties) : Z :=
  foldl add_flag 0%Z
    [(CONTENT_TYPE, has_value (contentType p));
     (CONTENT_ENCODING, has_value (contentEncoding p));
     (DELIVERY_MODE, has_value (deliveryMode p));
     (PRIORITY, has_value (priority p));
     (CORRELATION_ID, has_value (correlationId p));
     (REPLY_TO, has_value (replyTo p));
     (EXPIRATION, has_value (expiration p));
     (MESSAGE_ID, has_value (messageId p));
     (P_TIMESTAMP, has_value (timestamp p));
     (TYPE, has_value (type_ p));
     (USER_ID, has_value (userId p));
     (APP_ID, has_value (appId p));
     (HEADERS, has_value (headers p))].

(** ** Encoding *)

Definition maybeEncodeNullable {A} (encodeFunc : A → bytes) (nullableValue : option A) : bytes :=
  match nullableValue with
  | Some v => encodeFunc v
  | None => []
  end.

Definition BasicProperties_encode (p : Properties) : bytes :=
  writeUint16 (BasicProperties_propertyFlags p) ++
  maybeEncodeNullable Types_encodeShortString (contentType p) ++
  maybeEncodeNullable Types_encodeShortString (contentEncoding p) ++
  maybeEncodeNullable Types_encodeFieldTable (headers p) ++
  maybeEncodeNullable writeUint8 (deliveryMode p) ++
  maybeEncodeNullable writeUint8 (priority p) ++
  maybeEncodeNullable Types_encodeShortString (correlationId p) ++
  maybeEncodeNullable Types_encodeShortString (replyTo p) ++
  maybeEncodeNullable Types_encodeShortString (expiration p) ++
  maybeEncodeNullable Types_encodeShortString (messageId p) ++
  maybeEncodeNullable Types_encodeTimestamp (timestamp p) ++
  maybeEncodeNullable Types_encodeShortString (type_ p) ++
  maybeEncodeNullable Types_encodeShortString (userId p) ++
  maybeEncodeNullable Types_encodeShortString (appId p).

(** The size an optional property adds. *)
Definition nullableSize {A} (size : A → nat) (o : option A) : nat :=
  match o with Some v => size v | None => 0 end.

Definition shortStringSize (s : bytes) : nat := 1 + length s.

Definition BasicProperties_encodedSize (p : Properties) : nat :=
  2 +
  nullableSize shortStringSize (contentType p) +
  nullableSize shortStringSize (contentEncoding p) +
  nullableSize (fun t => 4 + encodedTableSize t) (headers p) +
  nullableSize (fun _ => 1) (deliveryMode p) +
  nullableSize (fun _ => 1) (priority p) +
  nullableSize shortStringSize (correlationId p) +
  nullableSize shortStringSize (replyTo p) +
  nullableSize shortStringSize (expiration p) +
  nullableSize shortStringSize (messageId p) +
  nullableSize (fun _ => 8) (timestamp p) +
  nullableSize shortStringSize (type_ p) +
  nullableSize shortStringSize (userId p) +
  nullableSize shortStringSize (appId p).

(** ** Decoding *)

(** One [if (flags & maskForProperty(ID)) { ... success = false; }] block: a
    property that fails to decode is noted and decoding goes on with the next
    one. The second component is whether this property succeeded; the value of a
    failed property is dropped, since [setProperties] is then not called. *)
Definition decodeProperty {A} (flags : Z) (id : PropertyId) (d : decoder A)
  : decoder (option A * bool) := fun b =>
  if (Z.land flags (maskForProperty id) =? 0)%Z then Ok (None, true) b
  else match d b with
       | Ok a b' => Ok (Some a, true) b'
       | Err b' => Ok (None, false) b'
       | Violation => Violation
       | OutOfFuel => OutOfFuel
       end.

(** [BasicProperties::decode], on the buffer made from [(data, dataLength)]. *)
Definition BasicProperties_decode : decoder Properties :=
  flags <-- copyUint16 ;;
  v0 <-- decodeProperty flags CONTENT_TYPE Types_decodeShortString ;;
  v1 <-- decodeProperty flags CONTENT_ENCODING Types_decodeShortString ;;
  v2 <-- decodeProperty flags HEADERS Types_decodeFieldTable ;;
  v3 <-- decodeProperty flags DELIVERY_MODE copyUint8 ;;
  v4 <-- decodeProperty flags PRIORITY copyUint8 ;;
  v5 <-- decodeProperty flags CORRELATION_ID Types_decodeShortString ;;
  v6 <-- decodeProperty flags REPLY_TO Types_decodeShortString ;;
  v7 <-- decodeProperty flags EXPIRATION Types_decodeShortString ;;
  v8 <-- decodeProperty flags MESSAGE_ID Types_decodeShortString ;;
  v9 <-- decodeProperty flags P_TIMESTAMP Types_decodeTimestamp ;;
  v10 <-- decodeProperty flags TYPE Types_decodeShortString ;;
  v11 <-- decodeProperty flags USER_ID Types_decodeShortString ;;
  v12 <-- decodeProperty flags APP_ID Types_decodeShortString ;;
  if forallb id [v0.2; v1.2; v2.2; v3.2; v4.2; v5.2; v6.2; v7.2; v8.2; v9.2; v10.2; v11.2; v12.2]
  then dret (mkProperties v0.1 v1.1 v2.1 v3.1 v4.1 v5.1 v6.1 v7.1 v8.1 v9.1 v10.1 v11.1 v12.1)
  else dfail.

(** ** ContentHeader *)

Record ContentHeader := mkContentHeader {
  ch_classId : Z;
  ch_bodySize : Z;
  ch_properties : Properties;
}.

Definition ContentHeader_encodedSize (h : ContentHeader) : nat :=
  2 * 2 + 8 + BasicProperties_encodedSize (ch_properties h).

Definition ContentHeader_encode (h : ContentHeader) : bytes :=
  writeUint16 (ch_classId h) ++
  writeUint16 0 ++
  writeUint64 (ch_bodySize h) ++
  BasicProperties_encode (ch_properties h).

(** The properties are decoded from a fresh buffer over the remaining bytes. *)
Definition ContentHeader_decode : decoder ContentHeader :=
  classId <-- copyUint16 ;;
  weight <-- copyUint16 ;;
  bodySize <-- copyUint64 ;;
  properties <-- (fun b => on_subbuffer (Buffer_make (Buffer_ptr b) (Buffer_available b))
                             BasicProperties_decode b) ;;
  dret (mkContentHeader classId bodySize properties).

(** ** ContentBody *)

Record ContentBody := mkContentBody { cb_data : bytes }.

Definition ContentBody_dataLength (c : ContentBody) : nat := length (cb_data c).

Definition ContentBody_encode (c : ContentBody) : bytes := cb_data c.

Definition ContentBody_decode (data : bytes) : ContentBody := mkContentBody data.

(** ** Well-formed properties and what survives a round trip *)

Definition opt_wf {A} (f : A → bool) (o : option A) : bool :=
  match o with Some v => f v | None => true end.

Definition shortString_wf (s : bytes) : bool := length s <=? 255.

Definition Properties_wf (p : Properties) : bool :=
  opt_wf shortString_wf (contentType p) && opt_wf shortString_wf (contentEncoding p) &&
  opt_wf table_wf (headers p) && opt_wf (u_in 8) (deliveryMode p) && opt_wf (u_in 8) (priority p) &&
  opt_wf shortString_wf (correlationId p) && opt_wf shortString_wf (replyTo p) &&
  opt_wf shortString_wf (expiration p) && opt_wf shortString_wf (messageId p) &&
  opt_wf shortString_wf (type_ p) && opt_wf shortString_wf (userId p) &&
  opt_wf shortString_wf (appId p).

Definition Properties_norm (p : Properties) : Properties :=
  mkProperties (contentType p) (contentEncoding p) (option_map table_norm (headers p))
    (deliveryMode p) (priority p) (correlationId p) (replyTo p) (expiration p) (messageId p)
    (option_map wholeSeconds (timestamp p)) (type_ p) (userId p) (appId p).

Definition ContentHeader_wf (h : ContentHeader) : bool :=
  u_in 16 (ch_classId h) && u_in 64 (ch_bodySize h) && Properties_wf (ch_properties h).

Definition ContentHeader_norm (h : ContentHeader) : ContentHeader :=
  mkContentHeader (ch_classId h) (ch_bodySize h) (Properties_norm (ch_properties h)).

End Props.

(** ** Property flags *)

Section PropsFacts.
Context {E : EpochUtil}.

Lemma maskForProperty_pow id : maskForProperty id = (2 ^ (15 - PropertyId_offset id))%Z.
Proof. by destruct id. Qed.

Lemma PropertyId_offset_range id : (0 ≤ PropertyId_offset id ≤ 13)%Z.
Proof. destruct id; simpl; lia. Qed.

Lemma PropertyId_offset_inj id id' :
  PropertyId_offset id = PropertyId_offset id' → id = id'.
Proof. by destruct id, id'. Qed.

#[global] Instance PropertyId_eq_dec : EqDecision PropertyId.
Proof. solve_decision. Defined.

Lemma land_mask_zero flags id :
  (Z.land flags (maskForProperty id) =? 0)%Z = negb (Z.testbit flags (15 - PropertyId_offset id)).
Proof.
  rewrite maskForProperty_pow. pose proof (PropertyId_offset_range id).
  set (k := (15 - PropertyId_offset id)%Z). assert (0 ≤ k)%Z by lia.
  apply eq_bool_prop_intro.
  assert (Z.land flags (2 ^ k) = if Z.testbit flags k then 2 ^ k else 0)%Z as ->.
  { apply Z.bits_inj'. intros n Hn. rewrite Z.land_spec, Z.pow2_bits_eqb by done.
    destruct (Z.eqb_spec k n) as [<- |].
    - destruct (Z.testbit flags k) eqn:?.
      + by rewrite Z.pow2_bits_true.
      + by rewrite Z.bits_0.
    - rewrite andb_false_r. destruct (Z.testbit flags k); [| by rewrite Z.bits_0].
      by rewrite Z.pow2_bits_false. }
  destruct (Z.testbit flags k); simpl; [| done].
  destruct (Z.eqb_spec (2 ^ k) 0); [lia | done].
Qed.

(** A flag is set exactly when a line of the table sets it. *)
Lemma testbit_add_flags fs z id :
  Z.testbit (foldl add_flag z fs) (15 - PropertyId_offset id)
  = Z.testbit z (15 - PropertyId_offset id) || existsb (fun f => bool_decide (f.1 = id) && f.2) fs.
Proof.
  revert z. induction fs as [| [id' present] fs IH]; intros z; simpl; [by rewrite orb_false_r |].
  rewrite IH. unfold add_flag. simpl. destruct present; [| by rewrite andb_false_r].
  rewrite andb_true_r, Z.lor_spec, maskForProperty_pow, orb_assoc. f_equal. f_equal.
  pose proof (PropertyId_offset_range id). pose proof (PropertyId_offset_range id').
  rewrite Z.pow2_bits_eqb by lia. case_bool_decide as Heq; [subst; apply Z.eqb_refl |].
  apply Z.eqb_neq. intros ?. apply Heq, PropertyId_offset_inj. lia.
Qed.

Lemma add_flags_in fs z : u_in 16 z = true → u_in 16 (foldl add_flag z fs) = true.
Proof.
  revert z. induction fs as [| [id present] fs IH]; intros z Hz; simpl; [done |].
  apply IH. unfold add_flag. simpl. destruct present; [| done].
  apply u_in_lor; [done | done |]. by destruct id.
Qed.

Lemma propertyFlags_in p : u_in 16 (BasicProperties_propertyFlags p) = true.
Proof. by apply add_flags_in. Qed.

(** The presence of each property, by id. *)
Definition property_present (p : Properties) (id : PropertyId) : bool :=
  match id with
  | CONTENT_TYPE => has_value (contentType p)
  | CONTENT_ENCODING => has_value (contentEncoding p)
  | HEADERS => has_value (headers p)
  | DELIVERY_MODE => has_value (deliveryMode p)
  | PRIORITY => has_value (priority p)
  | CORRELATION_ID => has_value (correlationId p)
  | REPLY_TO => has_value (replyTo p)
  | EXPIRATION => has_value (expiration p)
  | MESSAGE_ID => has_value (messageId p)
  | P_TIMESTAMP => has_value (timestamp p)
  | TYPE => has_value (type_ p)
  | USER_ID => has_value (userId p)
  | APP_ID => has_value (appId p)
  | RESERVED => false
  end.

Lemma propertyFlags_test p id :
  (Z.land (BasicProperties_propertyFlags p) (maskForProperty id) =? 0)%Z
  = negb (property_present p id).
Proof.
  rewrite land_mask_zero. unfold BasicProperties_propertyFlags. rewrite testbit_add_flags.
  rewrite Z.bits_0. f_equal.
  destruct id; cbn -[has_value bool_decide]; rewrite ?orb_false_r;
    repeat (case_bool_decide; try done); simpl; by rewrite ?orb_false_r.
Qed.

(** *** Round trip and safety *)

Lemma dsafe_decodeProperty {A} flags id (d : decoder A) :
  dsafe d → dsafe (decodeProperty flags id d).
Proof.
  intros Hd b Hwf. unfold wp, decodeProperty.
  destruct (_ =? 0)%Z; [auto with wire |].
  specialize (Hd b Hwf). unfold wp in Hd. destruct (d b); naive_solver.
Qed.

Lemma dsafe_basicProperties : dsafe BasicProperties_decode.
Proof.
  apply dsafe_bind; [apply dsafe_copyUint |]. intros flags.
  do 13 (apply dsafe_bind;
    [apply dsafe_decodeProperty; first
       [apply dsafe_decodeString | apply dsafe_decodeFieldTable | apply dsafe_copyUint
       | apply dsafe_decodeTimestamp] | intros ?]).
  destruct (forallb _ _); auto with wire.
Qed.

Lemma subbuffer_rest b :
  Buffer_wf b →
  Buffer_wf (Buffer_make (Buffer_ptr b) (Buffer_available b)) ∧
  remaining (Buffer_make (Buffer_ptr b) (Buffer_available b)) = remaining b.
Proof.
  unfold Buffer_wf, remaining, Buffer_make, Buffer_ptr, Buffer_available. simpl. intros [??].
  rewrite length_drop, drop_0, Nat.sub_0_r. split; [lia | done].
Qed.

Lemma dsafe_contentHeader : dsafe ContentHeader_decode.
Proof.
  do 3 (apply dsafe_bind; [apply dsafe_copyUint | intros ?]).
  apply dsafe_bind; [| auto with wire]. intros b Hwf. unfold wp, on_subbuffer.
  destruct (subbuffer_rest b Hwf) as [Hwf' _].
  pose proof (dsafe_basicProperties _ Hwf') as Hs. unfold wp in Hs.
  destruct (BasicProperties_decode _); auto with wire.
Qed.

Lemma decodes_property {A B} p id (d : decoder B) (enc : A → bytes) (wf : A → bool) (f : A → B) o :
  property_present p id = has_value o →
  (∀ a, wf a = true → decodes d (enc a) (f a)) → opt_wf wf o = true →
  decodes (decodeProperty (BasicProperties_propertyFlags p) id d)
          (maybeEncodeNullable enc o) (option_map f o, true).
Proof.
  intros Hp Hd Hwf b rest Hb Hr. unfold decodeProperty. rewrite propertyFlags_test, Hp.
  destruct o as [a |]; simpl in *; [| by rewrite Buffer_advance_0].
  by rewrite (Hd a Hwf b rest Hb Hr).
Qed.

Lemma decodes_property_id {A} p id (d : decoder A) (enc : A → bytes) (wf : A → bool) o :
  property_present p id = has_value o →
  (∀ a, wf a = true → decodes d (enc a) a) → opt_wf wf o = true →
  decodes (decodeProperty (BasicProperties_propertyFlags p) id d)
          (maybeEncodeNullable enc o) (o, true).
Proof.
  intros Hp Hd Hwf. rewrite <- (option_fmap_id o) at 2. by eapply (decodes_property _ _ _ _ _ (fun x => x)).
Qed.

Lemma shortString_wf_decodes s :
  shortString_wf s = true → decodes Types_decodeShortString (Types_encodeShortString s) s.
Proof. intros ?%Nat.leb_le. by apply decodes_shortString. Qed.

Lemma decodes_basicProperties {L : EpochUtilLaws E} p :
  Properties_wf p = true →
  decodes BasicProperties_decode (BasicProperties_encode p) (Properties_norm p).
Proof.
  unfold Properties_wf. rewrite !andb_true_iff. intros Hwf. destruct_and! Hwf.
  eapply decodes_bind; [apply (decodes_copyUint 2), propertyFlags_in |].
  do 12 (eapply decodes_bind; [
    first [ eapply decodes_property_id; [done | apply shortString_wf_decodes | done]
          | eapply decodes_property_id; [done | apply (decodes_copyUint 1) | done]
          | eapply decodes_property; [done | apply decodes_fieldTable | done]
          | eapply (decodes_property _ _ _ _ (fun _ => true));
              [done | intros ??; apply decodes_timestamp | by destruct (timestamp p)] ] |]).
  eapply decodes_bind_end;
    [eapply decodes_property_id; [done | apply shortString_wf_decodes | done] |].
  apply decodes_ret.
Qed.

Lemma parses_contentHeader {L : EpochUtilLaws E} h :
  ContentHeader_wf h = true →
  parses ContentHeader_decode (ContentHeader_encode h) (ContentHeader_norm h).
Proof.
  unfold ContentHeader_wf. rewrite !andb_true_iff. intros [[Hc Hs] Hp].
  eapply parses_bind; [by apply (decodes_copyUint 2) |].
  eapply parses_bind; [by apply (decodes_copyUint 2) |].
  eapply parses_bind; [by apply (decodes_copyUint 8) |].
  intros b rest Hb Hr. destruct (subbuffer_rest b Hb) as [Hwf Hr']. rewrite <- Hr' in Hr.
  unfold dbind at 1, on_subbuffer. rewrite (decodes_basicProperties _ Hp _ rest Hwf Hr).
  eexists. reflexivity.
Qed.

Lemma length_nullable {A} (enc : A → bytes) (size : A → nat) (wf : A → bool) o :
  (∀ a, wf a = true → length (enc a) = size a) → opt_wf wf o = true →
  length (maybeEncodeNullable enc o) = nullableSize size o.
Proof. intros Hs Hwf. destruct o; simpl; auto. Qed.

Lemma length_shortString_wf s :
  shortString_wf s = true → length (Types_encodeShortString s) = shortStringSize s.
Proof. intros ?%Nat.leb_le. rewrite length_encodeShortString. unfold shortStringSize. lia. Qed.

Lemma length_basicProperties p :
  Properties_wf p = true → length (BasicProperties_encode p) = BasicProperties_encodedSize p.
Proof.
  unfold Properties_wf. rewrite !andb_true_iff. intros Hwf. destruct_and! Hwf.
  unfold BasicProperties_encode, BasicProperties_encodedSize. rewrite 13!length_app.
  unfold writeUint16 at 1. rewrite length_be_encode.
  rewrite !(length_nullable Types_encodeShortString shortStringSize shortString_wf)
    by (done || apply length_shortString_wf).
  rewrite (length_nullable Types_encodeFieldTable (fun t => 4 + encodedTableSize t) table_wf)
    by (done || apply length_encodeFieldTable).
  rewrite !(length_nullable writeUint8 (fun _ => 1) (u_in 8))
    by (done || intros; apply length_be_encode).
  rewrite (length_nullable Types_encodeTimestamp (fun _ => 8) (fun _ => true))
    by ((by destruct (timestamp p)) || (intros; apply length_be_encode)).
  lia.
Qed.

Lemma length_contentHeader h :
  ContentHeader_wf h = true → length (ContentHeader_encode h) = ContentHeader_encodedSize h.
Proof.
  unfold ContentHeader_wf. rewrite !andb_true_iff. intros [[Hc Hs] Hp].
  unfold ContentHeader_encode, ContentHeader_encodedSize, writeUint16, writeUint64.
  rewrite 3!length_app, !length_be_encode, length_basicProperties by done. lia.
Qed.

(** ** Theorems *)

(** decoding a content header never reads outside the buffer, violates no
    assertion and always returns, whatever bytes the peer sent, also after a
    property in the middle of the list has failed to decode. *)
Theorem contentHeader_decode_total (data : bytes) :
  match ContentHeader_decode (Buffer_of data) with
  | Ok _ b' | Err b' => extends (Buffer_of data) b'
  | Violation | OutOfFuel => False
  end.
Proof.
  pose proof (dsafe_contentHeader (Buffer_of data) (Buffer_of_wf data)) as H.
  unfold wp in H. destruct (ContentHeader_decode (Buffer_of data)); tauto.
Qed.

(** the flag word of the properties has the bit of a property set exactly
    when the property is present; encoding a content header whose short strings
    have at most 255 bytes and decoding it yields the same header (timestamps in
    whole seconds, unsigned 64-bit header values signed), and [encodedSize] is
    the number of bytes written. *)
Theorem contentHeader_roundtrip {L : EpochUtilLaws E} (h : ContentHeader)
  (Hwf : ContentHeader_wf h = true) :
  (∃ b', ContentHeader_decode (Buffer_of (ContentHeader_encode h))
         = Ok (ContentHeader_norm h) b') ∧
  length (ContentHeader_encode h) = ContentHeader_encodedSize h ∧
  (∀ id, Z.testbit (BasicProperties_propertyFlags (ch_properties h)) (15 - PropertyId_offset id)
         = property_present (ch_properties h) id).
Proof.
  split; [| split].
  - apply (parses_contentHeader h Hwf) with (rest := []); auto with wire.
    by rewrite remaining_Buffer_of, app_nil_r.
  - by apply length_contentHeader.
  - intros id. pose proof (propertyFlags_test (ch_properties h) id) as Ht.
    rewrite land_mask_zero in Ht. by apply (f_equal negb) in Ht; rewrite !negb_involutive in Ht.
Qed.

End PropsFacts.

Definition sample_properties : Properties :=
  mkProperties (Some (str "text/plain")) None (Some sample_table) (Some 2%Z) None
    (Some (str "corr-1")) None None (Some (str "id-7"))
    (Some (1500000%Z : @Datetime micros_EpochUtil)) None None (Some (str "app")).

Definition sample_header : ContentHeader := mkContentHeader 60 1024 sample_properties.

Lemma contentHeader_roundtrip_witness :
  ContentHeader_wf sample_header = true ∧
  (∃ b', ContentHeader_decode (Buffer_of (ContentHeader_encode sample_header))
         = Ok (ContentHeader_norm sample_header) b').
Proof.
  split; [vm_compute; reflexivity |].
  apply (contentHeader_roundtrip sample_header). vm_compute. reflexivity.
Defined.
