(* ===== verification/Methods.v ===== *)
(** * Methods: the AMQP methods

    One record per method class of src/rmq/rmqamqpt, with the translation of
    its [encode], [decode], [encodedSize] and [METHOD_ID] (rmqamqpt_basicack.cpp,
    rmqamqpt_basicack.h, and so on).

    The class [WireMethod] is the interface the method variants (file Method)
    use; [WireMethodLaws] is what every method promises: decoding is safe on any
    input, encoding then decoding yields the method (field tables normalised),
    and [encodedSize] is the number of bytes written. *)

From Stdlib Require Import ZArith Lia String Strings.Byte.
From stdpp Require Import base tactics list.
From S2P Require Import Prelude Constants Wire FieldValue Props.

(** ** Bit fields *)

(** [uint8_t bitmask = 0; if (b0) bitmask |= 1 << 0; if (b1) bitmask |= 1 << 1; ...] *)
Fixpoint pack_bits_from (bitmask : Z) (i : Z) (bs : list bool) : Z :=
  match bs with
  | [] => bitmask
  | b :: bs' => pack_bits_from (if b then Z.lor bitmask (Z.shiftl 1 i) else bitmask) (i + 1) bs'
  end.

Definition pack_bits (bs : list bool) : Z := pack_bits_from 0 0 bs.

(** [bitmask & (1 << i)], converted to [bool] *)
Definition test_mask (bitmask : Z) (i : Z) : bool :=
  negb (Z.land bitmask (Z.shiftl 1 i) =? 0)%Z.

(** ** The interface of a method *)

Class WireMethod (M : Type) := {
  METHOD_ID : Z;
  m_encode : M → bytes;
  m_decode : decoder M;
  m_encodedSize : M → nat;
  (** Values in the range of their C++ types, strings that fit their length prefix. *)
  m_wf : M → bool;
  (** What is read back. *)
  m_norm : M → M;
}.

Class WireMethodLaws (M : Type) {W : WireMethod M} : Prop := {
  m_id_in : u_in 16 METHOD_ID = true;
  m_safe : dsafe m_decode;
  m_roundtrip m : m_wf m = true → parses m_decode (m_encode m) (m_norm m);
  m_size m : m_wf m = true → length (m_encode m) = m_encodedSize m;
}.

Definition longString_wf (s : bytes) : bool := u_in 32 (Z.of_nat (length s)).

Section Methods.
Context {E : EpochUtil}.

(** *** BasicAck *)

Record BasicAck := mkBasicAck {
  BasicAck_deliveryTag : Z;
  BasicAck_multiple : bool;
}.

Definition BasicAck_METHOD_ID : Z := BASIC_ACK.

Definition BasicAck_encodedSize (m : BasicAck) : nat := 8 + 1.

Definition BasicAck_encode (m : BasicAck) : bytes :=
  writeUint64 (BasicAck_deliveryTag m) ++
  writeBool (BasicAck_multiple m).

Definition BasicAck_decode : decoder BasicAck :=
  deliveryTag <-- copyUint64 ;;
  bitmask <-- copyUint8 ;;
  dret (mkBasicAck deliveryTag (test_mask bitmask 0)).

Definition BasicAck_wf (m : BasicAck) : bool :=
  u_in 64 (BasicAck_deliveryTag m).

#[export] Instance BasicAck_WireMethod : WireMethod BasicAck := {
  METHOD_ID := BasicAck_METHOD_ID; m_encode := BasicAck_encode; m_decode := BasicAck_decode;
  m_encodedSize := BasicAck_encodedSize; m_wf := BasicAck_wf; m_norm := fun m => m;
}.

(** *** BasicCancel *)

Record BasicCancel := mkBasicCancel {
  BasicCancel_consumerTag : bytes;
  BasicCancel_noWait : bool;
}.

Definition BasicCancel_METHOD_ID : Z := BASIC_CANCEL.

Definition BasicCancel_encodedSize (m : BasicCancel) : nat :=
  2 * 1 + length (BasicCancel_consumerTag m).

Definition BasicCancel_encode (m : BasicCancel) : bytes :=
  Types_encodeShortString (BasicCancel_consumerTag m) ++
  writeBool (BasicCancel_noWait m).

Definition BasicCancel_decode : decoder BasicCancel :=
  consumerTag <-- Types_decodeShortString ;;
  bitmask <-- copyUint8 ;;
  dret (mkBasicCancel consumerTag (test_mask bitmask 0)).

Definition BasicCancel_wf (m : BasicCancel) : bool :=
  shortString_wf (BasicCancel_consumerTag m).

#[export] Instance BasicCancel_WireMethod : WireMethod BasicCancel := {
  METHOD_ID := BasicCancel_METHOD_ID; m_encode := BasicCancel_encode; m_decode := BasicCancel_decode;
  m_encodedSize := BasicCancel_encodedSize; m_wf := BasicCancel_wf; m_norm := fun m => m;
}.

(** *** BasicCancelOk *)

Record BasicCancelOk := mkBasicCancelOk {
  BasicCancelOk_consumerTag : bytes;
}.

Definition BasicCancelOk_METHOD_ID : Z := BASIC_CANCELOK.

Definition BasicCancelOk_encodedSize (m : BasicCancelOk) : nat :=
  1 + length (BasicCancelOk_consumerTag m).

Definition BasicCancelOk_encode (m : BasicCancelOk) : bytes :=
  Types_encodeShortString (BasicCancelOk_consumerTag m).

Definition BasicCancelOk_decode : decoder BasicCancelOk :=
  consumerTag <-- Types_decodeShortString ;;
  dret (mkBasicCancelOk consumerTag).

Definition BasicCancelOk_wf (m : BasicCancelOk) : bool :=
  shortString_wf (BasicCancelOk_consumerTag m).

#[export] Instance BasicCancelOk_WireMethod : WireMethod BasicCancelOk := {
  METHOD_ID := BasicCancelOk_METHOD_ID; m_encode := BasicCancelOk_encode; m_decode := BasicCancelOk_decode;
  m_encodedSize := BasicCancelOk_encodedSize; m_wf := BasicCancelOk_wf; m_norm := fun m => m;
}.

(** *** BasicConsume *)

Record BasicConsume := mkBasicConsume {
  BasicConsume_queue : bytes;
  BasicConsume_consumerTag : bytes;
  BasicConsume_noLocal : bool;
  BasicConsume_noAck : bool;
  BasicConsume_exclusive : bool;
  BasicConsume_noWait : bool;
  BasicConsume_arguments : FieldTable;
}.

Definition BasicConsume_METHOD_ID : Z := BASIC_CONSUME.

Definition BasicConsume_encodedSize (m : BasicConsume) : nat :=
  2 + 3 * 1 + 4 + length (BasicConsume_queue m) + length (BasicConsume_consumerTag m) +
  encodedTableSize (BasicConsume_arguments m).

Definition BasicConsume_encode (m : BasicConsume) : bytes :=
  writeUint16 0 ++
  Types_encodeShortString (BasicConsume_queue m) ++
  Types_encodeShortString (BasicConsume_consumerTag m) ++
  writeUint8 (pack_bits [BasicConsume_noLocal m; BasicConsume_noAck m; BasicConsume_exclusive m; BasicConsume_noWait m]) ++
  Types_encodeFieldTable (BasicConsume_arguments m).

Definition BasicConsume_decode : decoder BasicConsume :=
  reserved1 <-- copyUint16 ;;
  queue <-- Types_decodeShortString ;;
  consumerTag <-- Types_decodeShortString ;;
  bitmask <-- copyUint8 ;;
  arguments <-- Types_decodeFieldTable ;;
  dret (mkBasicConsume queue consumerTag (test_mask bitmask 0)
          (test_mask bitmask 1) (test_mask bitmask 2) (test_mask bitmask 3) arguments).

Definition BasicConsume_wf (m : BasicConsume) : bool :=
  shortString_wf (BasicConsume_queue m) &&
  shortString_wf (BasicConsume_consumerTag m) &&
  table_wf (BasicConsume_arguments m).

Definition BasicConsume_norm (m : BasicConsume) : BasicConsume :=
  mkBasicConsume (BasicConsume_queue m) (BasicConsume_consumerTag m) (BasicConsume_noLocal m)
    (BasicConsume_noAck m) (BasicConsume_exclusive m) (BasicConsume_noWait m) (table_norm
    (BasicConsume_arguments m)).

#[export] Instance BasicConsume_WireMethod : WireMethod BasicConsume := {
  METHOD_ID := BasicConsume_METHOD_ID; m_encode := BasicConsume_encode; m_decode := BasicConsume_decode;
  m_encodedSize := BasicConsume_encodedSize; m_wf := BasicConsume_wf; m_norm := BasicConsume_norm;
}.

(** *** BasicConsumeOk *)

Record BasicConsumeOk := mkBasicConsumeOk {
  BasicConsumeOk_consumerTag : bytes;
}.

Definition BasicConsumeOk_METHOD_ID : Z := BASIC_CONSUMEOK.

Definition BasicConsumeOk_encodedSize (m : BasicConsumeOk) : nat :=
  1 + length (BasicConsumeOk_consumerTag m).

Definition BasicConsumeOk_encode (m : BasicConsumeOk) : bytes :=
  Types_encodeShortString (BasicConsumeOk_consumerTag m).

Definition BasicConsumeOk_decode : decoder BasicConsumeOk :=
  consumerTag <-- Types_decodeShortString ;;
  dret (mkBasicConsumeOk consumerTag).

Definition BasicConsumeOk_wf (m : BasicConsumeOk) : bool :=
  shortString_wf (BasicConsumeOk_consumerTag m).

#[export] Instance BasicConsumeOk_WireMethod : WireMethod BasicConsumeOk := {
  METHOD_ID := BasicConsumeOk_METHOD_ID; m_encode := BasicConsumeOk_encode; m_decode := BasicConsumeOk_decode;
  m_encodedSize := BasicConsumeOk_encodedSize; m_wf := BasicConsumeOk_wf; m_norm := fun m => m;
}.

(** *** BasicDeliver *)

Record BasicDeliver := mkBasicDeliver {
  BasicDeliver_consumerTag : bytes;
  BasicDeliver_deliveryTag : Z;
  BasicDeliver_redelivered : bool;
  BasicDeliver_exchange : bytes;
  BasicDeliver_routingKey : bytes;
}.

Definition BasicDeliver_METHOD_ID : Z := BASIC_DELIVER.

Definition BasicDeliver_encodedSize (m : BasicDeliver) : nat :=
  4 * 1 + 8 + length (BasicDeliver_consumerTag m) + length (BasicDeliver_exchange m) +
  length (BasicDeliver_routingKey m).

Definition BasicDeliver_encode (m : BasicDeliver) : bytes :=
  Types_encodeShortString (BasicDeliver_consumerTag m) ++
  writeUint64 (BasicDeliver_deliveryTag m) ++
  writeBool (BasicDeliver_redelivered m) ++
  Types_encodeShortString (BasicDeliver_exchange m) ++
  Types_encodeShortString (BasicDeliver_routingKey m).

Definition BasicDeliver_decode : decoder BasicDeliver :=
  consumerTag <-- Types_decodeShortString ;;
  deliveryTag <-- copyUint64 ;;
  bitmask <-- copyUint8 ;;
  exchange <-- Types_decodeShortString ;;
  routingKey <-- Types_decodeShortString ;;
  dret (mkBasicDeliver consumerTag deliveryTag (test_mask bitmask 0) exchange routingKey).

Definition BasicDeliver_wf (m : BasicDeliver) : bool :=
  shortString_wf (BasicDeliver_consumerTag m) &&
  u_in 64 (BasicDeliver_deliveryTag m) &&
  shortString_wf (BasicDeliver_exchange m) &&
  shortString_wf (BasicDeliver_routingKey m).

#[export] Instance BasicDeliver_WireMethod : WireMethod BasicDeliver := {
  METHOD_ID := BasicDeliver_METHOD_ID; m_encode := BasicDeliver_encode; m_decode := BasicDeliver_decode;
  m_encodedSize := BasicDeliver_encodedSize; m_wf := BasicDeliver_wf; m_norm := fun m => m;
}.

(** *** BasicNack *)

Record BasicNack := mkBasicNack {
  BasicNack_deliveryTag : Z;
  BasicNack_multiple : bool;
  BasicNack_requeue : bool;
}.

Definition BasicNack_METHOD_ID : Z := BASIC_NACK.

Definition BasicNack_encodedSize (m : BasicNack) : nat := 8 + 1.

Definition BasicNack_encode (m : BasicNack) : bytes :=
  writeUint64 (BasicNack_deliveryTag m) ++
  writeUint8 (pack_bits [BasicNack_multiple m; BasicNack_requeue m]).

Definition BasicNack_decode : decoder BasicNack :=
  deliveryTag <-- copyUint64 ;;
  bitmask <-- copyUint8 ;;
  dret (mkBasicNack deliveryTag (test_mask bitmask 0) (test_mask bitmask 1)).

Definition BasicNack_wf (m : BasicNack) : bool :=
  u_in 64 (BasicNack_deliveryTag m).

#[export] Instance BasicNack_WireMethod : WireMethod BasicNack := {
  METHOD_ID := BasicNack_METHOD_ID; m_encode := BasicNack_encode; m_decode := BasicNack_decode;
  m_encodedSize := BasicNack_encodedSize; m_wf := BasicNack_wf; m_norm := fun m => m;
}.

(** *** BasicPublish *)

Record BasicPublish := mkBasicPublish {
  BasicPublish_exchangeName : bytes;
  BasicPublish_routingKey : bytes;
  BasicPublish_mandatory : bool;
  BasicPublish_immediate : bool;
}.

Definition BasicPublish_METHOD_ID : Z := BASIC_PUBLISH.

Definition BasicPublish_encodedSize (m : BasicPublish) : nat :=
  2 + 3 * 1 + length (BasicPublish_exchangeName m) + length (BasicPublish_routingKey m).

Definition BasicPublish_encode (m : BasicPublish) : bytes :=
  writeUint16 0 ++
  Types_encodeShortString (BasicPublish_exchangeName m) ++
  Types_encodeShortString (BasicPublish_routingKey m) ++
  writeUint8 (pack_bits [BasicPublish_mandatory m; BasicPublish_immediate m]).

Definition BasicPublish_decode : decoder BasicPublish :=
  reserved1 <-- copyInt16 ;;
  exchangeName <-- Types_decodeShortString ;;
  routingKey <-- Types_decodeShortString ;;
  bitmask <-- copyUint8 ;;
  dret (mkBasicPublish exchangeName routingKey (test_mask bitmask 0) (test_mask bitmask 1)).

Definition BasicPublish_wf (m : BasicPublish) : bool :=
  shortString_wf (BasicPublish_exchangeName m) &&
  shortString_wf (BasicPublish_routingKey m).

#[export] Instance BasicPublish_WireMethod : WireMethod BasicPublish := {
  METHOD_ID := BasicPublish_METHOD_ID; m_encode := BasicPublish_encode; m_decode := BasicPublish_decode;
  m_encodedSize := BasicPublish_encodedSize; m_wf := BasicPublish_wf; m_norm := fun m => m;
}.

(** *** BasicQoS *)

Record BasicQoS := mkBasicQoS {
  BasicQoS_prefetchSize : Z;
  BasicQoS_prefetchCount : Z;
  BasicQoS_global : bool;
}.

Definition BasicQoS_METHOD_ID : Z := BASIC_QOS.

Definition BasicQoS_encodedSize (m : BasicQoS) : nat := 4 + 2 + 1.

Definition BasicQoS_encode (m : BasicQoS) : bytes :=
  writeUint32 (BasicQoS_prefetchSize m) ++
  writeUint16 (BasicQoS_prefetchCount m) ++
  writeBool (BasicQoS_global m).

Definition BasicQoS_decode : decoder BasicQoS :=
  prefetchSize <-- copyUint32 ;;
  prefetchCount <-- copyUint16 ;;
  bitmask <-- copyUint8 ;;
  dret (mkBasicQoS prefetchSize prefetchCount (test_mask bitmask 0)).

Definition BasicQoS_wf (m : BasicQoS) : bool :=
  u_in 32 (BasicQoS_prefetchSize m) &&
  u_in 16 (BasicQoS_prefetchCount m).

#[export] Instance BasicQoS_WireMethod : WireMethod BasicQoS := {
  METHOD_ID := BasicQoS_METHOD_ID; m_encode := BasicQoS_encode; m_decode := BasicQoS_decode;
  m_encodedSize := BasicQoS_encodedSize; m_wf := BasicQoS_wf; m_norm := fun m => m;
}.

(** *** BasicQoSOk *)

Record BasicQoSOk := mkBasicQoSOk { }.

Definition BasicQoSOk_METHOD_ID : Z := BASIC_QOSOK.

Definition BasicQoSOk_encodedSize (m : BasicQoSOk) : nat := 0.

Definition BasicQoSOk_encode (m : BasicQoSOk) : bytes :=
  [].

Definition BasicQoSOk_decode : decoder BasicQoSOk :=
  dret mkBasicQoSOk.

Definition BasicQoSOk_wf (m : BasicQoSOk) : bool :=
  true.

#[export] Instance BasicQoSOk_WireMethod : WireMethod BasicQoSOk := {
  METHOD_ID := BasicQoSOk_METHOD_ID; m_encode := BasicQoSOk_encode; m_decode := BasicQoSOk_decode;
  m_encodedSize := BasicQoSOk_encodedSize; m_wf := BasicQoSOk_wf; m_norm := fun m => m;
}.

(** *** BasicReturn *)

Record BasicReturn := mkBasicReturn {
  BasicReturn_replyCode : Z;
  BasicReturn_replyText : bytes;
  BasicReturn_exchange : bytes;
  BasicReturn_routingKey : bytes;
}.

Definition BasicReturn_METHOD_ID : Z := BASIC_RETURN.

Definition BasicReturn_encodedSize (m : BasicReturn) : nat :=
  2 + 3 * 1 + length (BasicReturn_replyText m) + length (BasicReturn_exchange m) +
  length (BasicReturn_routingKey m).

Definition BasicReturn_encode (m : BasicReturn) : bytes :=
  writeUint16 (BasicReturn_replyCode m) ++
  Types_encodeShortString (BasicReturn_replyText m) ++
  Types_encodeShortString (BasicReturn_exchange m) ++
  Types_encodeShortString (BasicReturn_routingKey m).

Definition BasicReturn_decode : decoder BasicReturn :=
  replyCode <-- copyUint16 ;;
  replyText <-- Types_decodeShortString ;;
  exchange <-- Types_decodeShortString ;;
  routingKey <-- Types_decodeShortString ;;
  dret (mkBasicReturn replyCode replyText exchange routingKey).

Definition BasicReturn_wf (m : BasicReturn) : bool :=
  u_in 16 (BasicReturn_replyCode m) &&
  shortString_wf (BasicReturn_replyText m) &&
  shortString_wf (BasicReturn_exchange m) &&
  shortString_wf (BasicReturn_routingKey m).

#[export] Instance BasicReturn_WireMethod : WireMethod BasicReturn := {
  METHOD_ID := BasicReturn_METHOD_ID; m_encode := BasicReturn_encode; m_decode := BasicReturn_decode;
  m_encodedSize := BasicReturn_encodedSize; m_wf := BasicReturn_wf; m_norm := fun m => m;
}.

(** *** ChannelClose *)

Record ChannelClose := mkChannelClose {
  ChannelClose_replyCode : Z;
  ChannelClose_replyText : bytes;
  ChannelClose_classId : Z;
  ChannelClose_methodId : Z;
}.

Definition ChannelClose_METHOD_ID : Z := CHANNEL_CLOSE.

Definition ChannelClose_encodedSize (m : ChannelClose) : nat :=
  3 * 2 + 1 + length (ChannelClose_replyText m).

Definition ChannelClose_encode (m : ChannelClose) : bytes :=
  writeUint16 (ChannelClose_replyCode m) ++
  Types_encodeShortString (ChannelClose_replyText m) ++
  writeUint16 (ChannelClose_classId m) ++
  writeUint16 (ChannelClose_methodId m).

Definition ChannelClose_decode : decoder ChannelClose :=
  replyCode <-- copyUint16 ;;
  replyText <-- Types_decodeShortString ;;
  classId <-- copyUint16 ;;
  methodId <-- copyUint16 ;;
  dret (mkChannelClose replyCode replyText classId methodId).

Definition ChannelClose_wf (m : ChannelClose) : bool :=
  u_in 16 (ChannelClose_replyCode m) &&
  shortString_wf (ChannelClose_replyText m) &&
  u_in 16 (ChannelClose_classId m) &&
  u_in 16 (ChannelClose_methodId m).

#[export] Instance ChannelClose_WireMethod : WireMethod ChannelClose := {
  METHOD_ID := ChannelClose_METHOD_ID; m_encode := ChannelClose_encode; m_decode := ChannelClose_decode;
  m_encodedSize := ChannelClose_encodedSize; m_wf := ChannelClose_wf; m_norm := fun m => m;
}.

(** *** ChannelCloseOk *)

Record ChannelCloseOk := mkChannelCloseOk { }.

Definition ChannelCloseOk_METHOD_ID : Z := CHANNEL_CLOSEOK.

Definition ChannelCloseOk_encodedSize (m : ChannelCloseOk) : nat := 0.

Definition ChannelCloseOk_encode (m : ChannelCloseOk) : bytes :=
  [].

Definition ChannelCloseOk_decode : decoder ChannelCloseOk :=
  dret mkChannelCloseOk.

Definition ChannelCloseOk_wf (m : ChannelCloseOk) : bool :=
  true.

#[export] Instance ChannelCloseOk_WireMethod : WireMethod ChannelCloseOk := {
  METHOD_ID := ChannelCloseOk_METHOD_ID; m_encode := ChannelCloseOk_encode; m_decode := ChannelCloseOk_decode;
  m_encodedSize := ChannelCloseOk_encodedSize; m_wf := ChannelCloseOk_wf; m_norm := fun m => m;
}.

(** *** ChannelFlow *)

Record ChannelFlow := mkChannelFlow {
  ChannelFlow_activeFlow : bool;
}.

Definition ChannelFlow_METHOD_ID : Z := CHANNEL_FLOW.

Definition ChannelFlow_encodedSize (m : ChannelFlow) : nat := 1.

Definition ChannelFlow_encode (m : ChannelFlow) : bytes :=
  writeBool (ChannelFlow_activeFlow m).

Definition ChannelFlow_decode : decoder ChannelFlow :=
  bitmask <-- copyUint8 ;;
  dret (mkChannelFlow (test_mask bitmask 0)).

Definition ChannelFlow_wf (m : ChannelFlow) : bool :=
  true.

#[export] Instance ChannelFlow_WireMethod : WireMethod ChannelFlow := {
  METHOD_ID := ChannelFlow_METHOD_ID; m_encode := ChannelFlow_encode; m_decode := ChannelFlow_decode;
  m_encodedSize := ChannelFlow_encodedSize; m_wf := ChannelFlow_wf; m_norm := fun m => m;
}.

(** *** ChannelFlowOk *)

Record ChannelFlowOk := mkChannelFlowOk {
  ChannelFlowOk_activeFlow : bool;
}.

Definition ChannelFlowOk_METHOD_ID : Z := CHANNEL_FLOWOK.

Definition ChannelFlowOk_encodedSize (m : ChannelFlowOk) : nat := 1.

Definition ChannelFlowOk_encode (m : ChannelFlowOk) : bytes :=
  writeBool (ChannelFlowOk_activeFlow m).

Definition ChannelFlowOk_decode : decoder ChannelFlowOk :=
  bitmask <-- copyUint8 ;;
  dret (mkChannelFlowOk (test_mask bitmask 0)).

Definition ChannelFlowOk_wf (m : ChannelFlowOk) : bool :=
  true.

#[export] Instance ChannelFlowOk_WireMethod : WireMethod ChannelFlowOk := {
  METHOD_ID := ChannelFlowOk_METHOD_ID; m_encode := ChannelFlowOk_encode; m_decode := ChannelFlowOk_decode;
  m_encodedSize := ChannelFlowOk_encodedSize; m_wf := ChannelFlowOk_wf; m_norm := fun m => m;
}.

(** *** ChannelOpen *)

Record ChannelOpen := mkChannelOpen { }.

Definition ChannelOpen_METHOD_ID : Z := CHANNEL_OPEN.

Definition ChannelOpen_encodedSize (m : ChannelOpen) : nat := 1.

Definition ChannelOpen_encode (m : ChannelOpen) : bytes :=
  Types_encodeShortString [].

Definition ChannelOpen_decode : decoder ChannelOpen :=
  dummy <-- Types_decodeShortString ;;
  dret mkChannelOpen.

Definition ChannelOpen_wf (m : ChannelOpen) : bool :=
  true.

#[export] Instance ChannelOpen_WireMethod : WireMethod ChannelOpen := {
  METHOD_ID := ChannelOpen_METHOD_ID; m_encode := ChannelOpen_encode; m_decode := ChannelOpen_decode;
  m_encodedSize := ChannelOpen_encodedSize; m_wf := ChannelOpen_wf; m_norm := fun m => m;
}.

(** *** ChannelOpenOk *)

Record ChannelOpenOk := mkChannelOpenOk { }.

Definition ChannelOpenOk_METHOD_ID : Z := CHANNEL_OPENOK.

Definition ChannelOpenOk_encodedSize (m : ChannelOpenOk) : nat := 4.

Definition ChannelOpenOk_encode (m : ChannelOpenOk) : bytes :=
  Types_encodeLongString [].

Definition ChannelOpenOk_decode : decoder ChannelOpenOk :=
  dummy <-- Types_decodeLongString ;;
  dret mkChannelOpenOk.

Definition ChannelOpenOk_wf (m : ChannelOpenOk) : bool :=
  true.

#[export] Instance ChannelOpenOk_WireMethod : WireMethod ChannelOpenOk := {
  METHOD_ID := ChannelOpenOk_METHOD_ID; m_encode := ChannelOpenOk_encode; m_decode := ChannelOpenOk_decode;
  m_encodedSize := ChannelOpenOk_encodedSize; m_wf := ChannelOpenOk_wf; m_norm := fun m => m;
}.

(** *** ConfirmSelect *)

Record ConfirmSelect := mkConfirmSelect {
  ConfirmSelect_noWait : bool;
}.

Definition ConfirmSelect_METHOD_ID : Z := CONFIRM_SELECT.

Definition ConfirmSelect_encodedSize (m : ConfirmSelect) : nat := 1.

Definition ConfirmSelect_encode (m : ConfirmSelect) : bytes :=
  writeBool (ConfirmSelect_noWait m).

Definition ConfirmSelect_decode : decoder ConfirmSelect :=
  bitmask <-- copyUint8 ;;
  dret (mkConfirmSelect (test_mask bitmask 0)).

Definition ConfirmSelect_wf (m : ConfirmSelect) : bool :=
  true.

#[export] Instance ConfirmSelect_WireMethod : WireMethod ConfirmSelect := {
  METHOD_ID := ConfirmSelect_METHOD_ID; m_encode := ConfirmSelect_encode; m_decode := ConfirmSelect_decode;
  m_encodedSize := ConfirmSelect_encodedSize; m_wf := ConfirmSelect_wf; m_norm := fun m => m;
}.

(** *** ConfirmSelectOk *)

Record ConfirmSelectOk := mkConfirmSelectOk { }.

Definition ConfirmSelectOk_METHOD_ID : Z := CONFIRM_SELECTOK.

Definition ConfirmSelectOk_encodedSize (m : ConfirmSelectOk) : nat := 0.

Definition ConfirmSelectOk_encode (m : ConfirmSelectOk) : bytes :=
  [].

Definition ConfirmSelectOk_decode : decoder ConfirmSelectOk :=
  dret mkConfirmSelectOk.

Definition ConfirmSelectOk_wf (m : ConfirmSelectOk) : bool :=
  true.

#[export] Instance ConfirmSelectOk_WireMethod : WireMethod ConfirmSelectOk := {
  METHOD_ID := ConfirmSelectOk_METHOD_ID; m_encode := ConfirmSelectOk_encode; m_decode := ConfirmSelectOk_decode;
  m_encodedSize := ConfirmSelectOk_encodedSize; m_wf := ConfirmSelectOk_wf; m_norm := fun m => m;
}.

(** *** ConnectionClose *)

Record ConnectionClose := mkConnectionClose {
  ConnectionClose_replyCode : Z;
  ConnectionClose_replyText : bytes;
  ConnectionClose_classId : Z;
  ConnectionClose_methodId : Z;
}.

Definition ConnectionClose_METHOD_ID : Z := CONNECTION_CLOSE.

Definition ConnectionClose_encodedSize (m : ConnectionClose) : nat :=
  3 * 2 + 1 + length (ConnectionClose_replyText m).

Definition ConnectionClose_encode (m : ConnectionClose) : bytes :=
  writeUint16 (ConnectionClose_replyCode m) ++
  Types_encodeShortString (ConnectionClose_replyText m) ++
  writeUint16 (ConnectionClose_classId m) ++
  writeUint16 (ConnectionClose_methodId m).

Definition ConnectionClose_decode : decoder ConnectionClose :=
  replyCode <-- copyUint16 ;;
  replyText <-- Types_decodeShortString ;;
  classId <-- copyUint16 ;;
  methodId <-- copyUint16 ;;
  dret (mkConnectionClose replyCode replyText classId methodId).

Definition ConnectionClose_wf (m : ConnectionClose) : bool :=
  u_in 16 (ConnectionClose_replyCode m) &&
  shortString_wf (ConnectionClose_replyText m) &&
  u_in 16 (ConnectionClose_classId m) &&
  u_in 16 (ConnectionClose_methodId m).

#[export] Instance ConnectionClose_WireMethod : WireMethod ConnectionClose := {
  METHOD_ID := ConnectionClose_METHOD_ID; m_encode := ConnectionClose_encode; m_decode := ConnectionClose_decode;
  m_encodedSize := ConnectionClose_encodedSize; m_wf := ConnectionClose_wf; m_norm := fun m => m;
}.

(** *** ConnectionCloseOk *)

Record ConnectionCloseOk := mkConnectionCloseOk { }.

Definition ConnectionCloseOk_METHOD_ID : Z := CONNECTION_CLOSEOK.

Definition ConnectionCloseOk_encodedSize (m : ConnectionCloseOk) : nat := 0.

Definition ConnectionCloseOk_encode (m : ConnectionCloseOk) : bytes :=
  [].

Definition ConnectionCloseOk_decode : decoder ConnectionCloseOk :=
  dret mkConnectionCloseOk.

Definition ConnectionCloseOk_wf (m : ConnectionCloseOk) : bool :=
  true.

#[export] Instance ConnectionCloseOk_WireMethod : WireMethod ConnectionCloseOk := {
  METHOD_ID := ConnectionCloseOk_METHOD_ID; m_encode := ConnectionCloseOk_encode; m_decode := ConnectionCloseOk_decode;
  m_encodedSize := ConnectionCloseOk_encodedSize; m_wf := ConnectionCloseOk_wf; m_norm := fun m => m;
}.

(** *** ConnectionOpen *)

Record ConnectionOpen := mkConnectionOpen {
  ConnectionOpen_virtualHost : bytes;
}.

Definition ConnectionOpen_METHOD_ID : Z := CONNECTION_OPEN.

Definition ConnectionOpen_encodedSize (m : ConnectionOpen) : nat :=
  3 * 1 + length (ConnectionOpen_virtualHost m).

Definition ConnectionOpen_encode (m : ConnectionOpen) : bytes :=
  Types_encodeShortString (ConnectionOpen_virtualHost m) ++
  Types_encodeShortString [] ++
  writeUint8 0.

Definition ConnectionOpen_decode : decoder ConnectionOpen :=
  virtualHost <-- Types_decodeShortString ;;
  dret (mkConnectionOpen virtualHost).

Definition ConnectionOpen_wf (m : ConnectionOpen) : bool :=
  shortString_wf (ConnectionOpen_virtualHost m).

#[export] Instance ConnectionOpen_WireMethod : WireMethod ConnectionOpen := {
  METHOD_ID := ConnectionOpen_METHOD_ID; m_encode := ConnectionOpen_encode; m_decode := ConnectionOpen_decode;
  m_encodedSize := ConnectionOpen_encodedSize; m_wf := ConnectionOpen_wf; m_norm := fun m => m;
}.

(** *** ConnectionOpenOk *)

Record ConnectionOpenOk := mkConnectionOpenOk { }.

Definition ConnectionOpenOk_METHOD_ID : Z := CONNECTION_OPENOK.

Definition ConnectionOpenOk_encodedSize (m : ConnectionOpenOk) : nat := 1.

Definition ConnectionOpenOk_encode (m : ConnectionOpenOk) : bytes :=
  Types_encodeShortString [].

Definition ConnectionOpenOk_decode : decoder ConnectionOpenOk :=
  dummy <-- Types_decodeShortString ;;
  dret mkConnectionOpenOk.

Definition ConnectionOpenOk_wf (m : ConnectionOpenOk) : bool :=
  true.

#[export] Instance ConnectionOpenOk_WireMethod : WireMethod ConnectionOpenOk := {
  METHOD_ID := ConnectionOpenOk_METHOD_ID; m_encode := ConnectionOpenOk_encode; m_decode := ConnectionOpenOk_decode;
  m_encodedSize := ConnectionOpenOk_encodedSize; m_wf := ConnectionOpenOk_wf; m_norm := fun m => m;
}.

(** *** ConnectionStart *)

Record ConnectionStart := mkConnectionStart {
  ConnectionStart_versionMajor : Z;
  ConnectionStart_versionMinor : Z;
  ConnectionStart_properties : FieldTable;
  ConnectionStart_mechanisms : bytes;
  ConnectionStart_locales : bytes;
}.

Definition ConnectionStart_METHOD_ID : Z := CONNECTION_START.

Definition ConnectionStart_encodedSize (m : ConnectionStart) : nat :=
  2 * 1 + 3 * 4 + encodedTableSize (ConnectionStart_properties m) +
  length (ConnectionStart_mechanisms m) + length (ConnectionStart_locales m).

Definition ConnectionStart_encode (m : ConnectionStart) : bytes :=
  writeUint8 (ConnectionStart_versionMajor m) ++
  writeUint8 (ConnectionStart_versionMinor m) ++
  Types_encodeFieldTable (ConnectionStart_properties m) ++
  Types_encodeLongString (ConnectionStart_mechanisms m) ++
  Types_encodeLongString (ConnectionStart_locales m).

Definition ConnectionStart_decode : decoder ConnectionStart :=
  versionMajor <-- copyUint8 ;;
  versionMinor <-- copyUint8 ;;
  properties <-- Types_decodeFieldTable ;;
  mechanisms <-- Types_decodeLongString ;;
  locales <-- Types_decodeLongString ;;
  dret (mkConnectionStart versionMajor versionMinor properties mechanisms locales).

Definition ConnectionStart_wf (m : ConnectionStart) : bool :=
  u_in 8 (ConnectionStart_versionMajor m) &&
  u_in 8 (ConnectionStart_versionMinor m) &&
  table_wf (ConnectionStart_properties m) &&
  longString_wf (ConnectionStart_mechanisms m) &&
  longString_wf (ConnectionStart_locales m).

Definition ConnectionStart_norm (m : ConnectionStart) : ConnectionStart :=
  mkConnectionStart (ConnectionStart_versionMajor m) (ConnectionStart_versionMinor m)
    (table_norm (ConnectionStart_properties m)) (ConnectionStart_mechanisms m)
    (ConnectionStart_locales m).

#[export] Instance ConnectionStart_WireMethod : WireMethod ConnectionStart := {
  METHOD_ID := ConnectionStart_METHOD_ID; m_encode := ConnectionStart_encode; m_decode := ConnectionStart_decode;
  m_encodedSize := ConnectionStart_encodedSize; m_wf := ConnectionStart_wf; m_norm := ConnectionStart_norm;
}.

(** *** ConnectionStartOk *)

Record ConnectionStartOk := mkConnectionStartOk {
  ConnectionStartOk_properties : FieldTable;
  ConnectionStartOk_mechanism : bytes;
  ConnectionStartOk_response : bytes;
  ConnectionStartOk_locale : bytes;
}.

Definition ConnectionStartOk_METHOD_ID : Z := CONNECTION_STARTOK.

Definition ConnectionStartOk_encodedSize (m : ConnectionStartOk) : nat :=
  2 * 4 + 2 * 1 + encodedTableSize (ConnectionStartOk_properties m) +
  length (ConnectionStartOk_mechanism m) + length (ConnectionStartOk_response m) +
  length (ConnectionStartOk_locale m).

Definition ConnectionStartOk_encode (m : ConnectionStartOk) : bytes :=
  Types_encodeFieldTable (ConnectionStartOk_properties m) ++
  Types_encodeShortString (ConnectionStartOk_mechanism m) ++
  Types_encodeLongString (ConnectionStartOk_response m) ++
  Types_encodeShortString (ConnectionStartOk_locale m).

Definition ConnectionStartOk_decode : decoder ConnectionStartOk :=
  properties <-- Types_decodeFieldTable ;;
  mechanism <-- Types_decodeShortString ;;
  response <-- Types_decodeLongString ;;
  locale <-- Types_decodeShortString ;;
  dret (mkConnectionStartOk properties mechanism response locale).

Definition ConnectionStartOk_wf (m : ConnectionStartOk) : bool :=
  table_wf (ConnectionStartOk_properties m) &&
  shortString_wf (ConnectionStartOk_mechanism m) &&
  longString_wf (ConnectionStartOk_response m) &&
  shortString_wf (ConnectionStartOk_locale m).

Definition ConnectionStartOk_norm (m : ConnectionStartOk) : ConnectionStartOk :=
  mkConnectionStartOk (table_norm (ConnectionStartOk_properties m)) (ConnectionStartOk_mechanism
    m) (ConnectionStartOk_response m) (ConnectionStartOk_locale m).

#[export] Instance ConnectionStartOk_WireMethod : WireMethod ConnectionStartOk := {
  METHOD_ID := ConnectionStartOk_METHOD_ID; m_encode := ConnectionStartOk_encode; m_decode := ConnectionStartOk_decode;
  m_encodedSize := ConnectionStartOk_encodedSize; m_wf := ConnectionStartOk_wf; m_norm := ConnectionStartOk_norm;
}.

(** *** ConnectionTune *)

Record ConnectionTune := mkConnectionTune {
  ConnectionTune_channelMax : Z;
  ConnectionTune_frameMax : Z;
  ConnectionTune_heartbeatInterval : Z;
}.

Definition ConnectionTune_METHOD_ID : Z := CONNECTION_TUNE.

Definition ConnectionTune_encodedSize (m : ConnectionTune) : nat := 2 * 2 + 4.

Definition ConnectionTune_encode (m : ConnectionTune) : bytes :=
  writeUint16 (ConnectionTune_channelMax m) ++
  writeUint32 (ConnectionTune_frameMax m) ++
  writeUint16 (ConnectionTune_heartbeatInterval m).

Definition ConnectionTune_decode : decoder ConnectionTune :=
  channelMax <-- copyUint16 ;;
  frameMax <-- copyUint32 ;;
  heartbeatInterval <-- copyUint16 ;;
  dret (mkConnectionTune channelMax frameMax heartbeatInterval).

Definition ConnectionTune_wf (m : ConnectionTune) : bool :=
  u_in 16 (ConnectionTune_channelMax m) &&
  u_in 32 (ConnectionTune_frameMax m) &&
  u_in 16 (ConnectionTune_heartbeatInterval m).

#[export] Instance ConnectionTune_WireMethod : WireMethod ConnectionTune := {
  METHOD_ID := ConnectionTune_METHOD_ID; m_encode := ConnectionTune_encode; m_decode := ConnectionTune_decode;
  m_encodedSize := ConnectionTune_encodedSize; m_wf := ConnectionTune_wf; m_norm := fun m => m;
}.

(** *** ConnectionTuneOk *)

Record ConnectionTuneOk := mkConnectionTuneOk {
  ConnectionTuneOk_channelMax : Z;
  ConnectionTuneOk_frameMax : Z;
  ConnectionTuneOk_heartbeatInterval : Z;
}.

Definition ConnectionTuneOk_METHOD_ID : Z := CONNECTION_TUNEOK.

Definition ConnectionTuneOk_encodedSize (m : ConnectionTuneOk) : nat := 2 * 2 + 4.

Definition ConnectionTuneOk_encode (m : ConnectionTuneOk) : bytes :=
  writeUint16 (ConnectionTuneOk_channelMax m) ++
  writeUint32 (ConnectionTuneOk_frameMax m) ++
  writeUint16 (ConnectionTuneOk_heartbeatInterval m).

Definition ConnectionTuneOk_decode : decoder ConnectionTuneOk :=
  channelMax <-- copyUint16 ;;
  frameMax <-- copyUint32 ;;
  heartbeatInterval <-- copyUint16 ;;
  dret (mkConnectionTuneOk channelMax frameMax heartbeatInterval).

Definition ConnectionTuneOk_wf (m : ConnectionTuneOk) : bool :=
  u_in 16 (ConnectionTuneOk_channelMax m) &&
  u_in 32 (ConnectionTuneOk_frameMax m) &&
  u_in 16 (ConnectionTuneOk_heartbeatInterval m).

#[export] Instance ConnectionTuneOk_WireMethod : WireMethod ConnectionTuneOk := {
  METHOD_ID := ConnectionTuneOk_METHOD_ID; m_encode := ConnectionTuneOk_encode; m_decode := ConnectionTuneOk_decode;
  m_encodedSize := ConnectionTuneOk_encodedSize; m_wf := ConnectionTuneOk_wf; m_norm := fun m => m;
}.

(** *** ExchangeBind *)

Record ExchangeBind := mkExchangeBind {
  ExchangeBind_destinationX : bytes;
  ExchangeBind_sourceX : bytes;
  ExchangeBind_routingKey : bytes;
  ExchangeBind_noWait : bool;
  ExchangeBind_arguments : FieldTable;
}.

Definition ExchangeBind_METHOD_ID : Z := EXCHANGE_BIND.

Definition ExchangeBind_encodedSize (m : ExchangeBind) : nat :=
  2 + 4 * 1 + 4 + length (ExchangeBind_sourceX m) + length (ExchangeBind_destinationX m) +
  length (ExchangeBind_routingKey m) + encodedTableSize (ExchangeBind_arguments m).

Definition ExchangeBind_encode (m : ExchangeBind) : bytes :=
  writeUint16 0 ++
  Types_encodeShortString (ExchangeBind_destinationX m) ++
  Types_encodeShortString (ExchangeBind_sourceX m) ++
  Types_encodeShortString (ExchangeBind_routingKey m) ++
  writeBool (ExchangeBind_noWait m) ++
  Types_encodeFieldTable (ExchangeBind_arguments m).

Definition ExchangeBind_decode : decoder ExchangeBind :=
  Buffer_require 2 ;;; (Buffer_skip 2 ;;;
  destinationX <-- Types_decodeShortString ;;
  sourceX <-- Types_decodeShortString ;;
  routingKey <-- Types_decodeShortString ;;
  bitmask <-- copyUint8 ;;
  arguments <-- Types_decodeFieldTable ;;
  dret (mkExchangeBind destinationX sourceX routingKey (test_mask bitmask 0) arguments)).

Definition ExchangeBind_wf (m : ExchangeBind) : bool :=
  shortString_wf (ExchangeBind_destinationX m) &&
  shortString_wf (ExchangeBind_sourceX m) &&
  shortString_wf (ExchangeBind_routingKey m) &&
  table_wf (ExchangeBind_arguments m).

Definition ExchangeBind_norm (m : ExchangeBind) : ExchangeBind :=
  mkExchangeBind (ExchangeBind_destinationX m) (ExchangeBind_sourceX m) (ExchangeBind_routingKey
    m) (ExchangeBind_noWait m) (table_norm (ExchangeBind_arguments m)).

#[export] Instance ExchangeBind_WireMethod : WireMethod ExchangeBind := {
  METHOD_ID := ExchangeBind_METHOD_ID; m_encode := ExchangeBind_encode; m_decode := ExchangeBind_decode;
  m_encodedSize := ExchangeBind_encodedSize; m_wf := ExchangeBind_wf; m_norm := ExchangeBind_norm;
}.

(** *** ExchangeBindOk *)

Record ExchangeBindOk := mkExchangeBindOk { }.

Definition ExchangeBindOk_METHOD_ID : Z := EXCHANGE_BINDOK.

Definition ExchangeBindOk_encodedSize (m : ExchangeBindOk) : nat := 0.

Definition ExchangeBindOk_encode (m : ExchangeBindOk) : bytes :=
  [].

Definition ExchangeBindOk_decode : decoder ExchangeBindOk :=
  dret mkExchangeBindOk.

Definition ExchangeBindOk_wf (m : ExchangeBindOk) : bool :=
  true.

#[export] Instance ExchangeBindOk_WireMethod : WireMethod ExchangeBindOk := {
  METHOD_ID := ExchangeBindOk_METHOD_ID; m_encode := ExchangeBindOk_encode; m_decode := ExchangeBindOk_decode;
  m_encodedSize := ExchangeBindOk_encodedSize; m_wf := ExchangeBindOk_wf; m_norm := fun m => m;
}.

(** *** ExchangeDeclare *)

Record ExchangeDeclare := mkExchangeDeclare {
  ExchangeDeclare_name : bytes;
  ExchangeDeclare_type : bytes;
  ExchangeDeclare_passive : bool;
  ExchangeDeclare_durable : bool;
  ExchangeDeclare_autoDelete : bool;
  ExchangeDeclare_internal : bool;
  ExchangeDeclare_noWait : bool;
  ExchangeDeclare_arguments : FieldTable;
}.

Definition ExchangeDeclare_METHOD_ID : Z := EXCHANGE_DECLARE.

Definition ExchangeDeclare_encodedSize (m : ExchangeDeclare) : nat :=
  2 + 3 * 1 + 4 + length (ExchangeDeclare_name m) + length (ExchangeDeclare_type m) +
  encodedTableSize (ExchangeDeclare_arguments m).

Definition ExchangeDeclare_encode (m : ExchangeDeclare) : bytes :=
  writeUint16 0 ++
  Types_encodeShortString (ExchangeDeclare_name m) ++
  Types_encodeShortString (ExchangeDeclare_type m) ++
  writeUint8 (pack_bits [ExchangeDeclare_passive m; ExchangeDeclare_durable m; ExchangeDeclare_autoDelete m; ExchangeDeclare_internal m; ExchangeDeclare_noWait m]) ++
  Types_encodeFieldTable (ExchangeDeclare_arguments m).

Definition ExchangeDeclare_decode : decoder ExchangeDeclare :=
  Buffer_require 2 ;;; (Buffer_skip 2 ;;;
  name <-- Types_decodeShortString ;;
  type_ <-- Types_decodeShortString ;;
  bitmask <-- copyUint8 ;;
  arguments <-- Types_decodeFieldTable ;;
  dret (mkExchangeDeclare name type_ (test_mask bitmask 0) (test_mask bitmask 1)
          (test_mask bitmask 2) (test_mask bitmask 3) (test_mask bitmask 4) arguments)).

Definition ExchangeDeclare_wf (m : ExchangeDeclare) : bool :=
  shortString_wf (ExchangeDeclare_name m) &&
  shortString_wf (ExchangeDeclare_type m) &&
  table_wf (ExchangeDeclare_arguments m).

Definition ExchangeDeclare_norm (m : ExchangeDeclare) : ExchangeDeclare :=
  mkExchangeDeclare (ExchangeDeclare_name m) (ExchangeDeclare_type m) (ExchangeDeclare_passive
    m) (ExchangeDeclare_durable m) (ExchangeDeclare_autoDelete m) (ExchangeDeclare_internal m)
    (ExchangeDeclare_noWait m) (table_norm (ExchangeDeclare_arguments m)).

#[export] Instance ExchangeDeclare_WireMethod : WireMethod ExchangeDeclare := {
  METHOD_ID := ExchangeDeclare_METHOD_ID; m_encode := ExchangeDeclare_encode; m_decode := ExchangeDeclare_decode;
  m_encodedSize := ExchangeDeclare_encodedSize; m_wf := ExchangeDeclare_wf; m_norm := ExchangeDeclare_norm;
}.

(** *** ExchangeDeclareOk *)

Record ExchangeDeclareOk := mkExchangeDeclareOk { }.

Definition ExchangeDeclareOk_METHOD_ID : Z := EXCHANGE_DECLAREOK.

Definition ExchangeDeclareOk_encodedSize (m : ExchangeDeclareOk) : nat := 0.

Definition ExchangeDeclareOk_encode (m : ExchangeDeclareOk) : bytes :=
  [].

Definition ExchangeDeclareOk_decode : decoder ExchangeDeclareOk :=
  dret mkExchangeDeclareOk.

Definition ExchangeDeclareOk_wf (m : ExchangeDeclareOk) : bool :=
  true.

#[export] Instance ExchangeDeclareOk_WireMethod : WireMethod ExchangeDeclareOk := {
  METHOD_ID := ExchangeDeclareOk_METHOD_ID; m_encode := ExchangeDeclareOk_encode; m_decode := ExchangeDeclareOk_decode;
  m_encodedSize := ExchangeDeclareOk_encodedSize; m_wf := ExchangeDeclareOk_wf; m_norm := fun m => m;
}.

(** *** QueueBind *)

Record QueueBind := mkQueueBind {
  QueueBind_queue : bytes;
  QueueBind_exchange : bytes;
  QueueBind_routingKey : bytes;
  QueueBind_noWait : bool;
  QueueBind_arguments : FieldTable;
}.

Definition QueueBind_METHOD_ID : Z := QUEUE_BIND.

Definition QueueBind_encodedSize (m : QueueBind) : nat :=
  2 + 4 * 1 + 4 + length (QueueBind_queue m) + length (QueueBind_exchange m) +
  length (QueueBind_routingKey m) + encodedTableSize (QueueBind_arguments m).

Definition QueueBind_encode (m : QueueBind) : bytes :=
  writeUint16 0 ++
  Types_encodeShortString (QueueBind_queue m) ++
  Types_encodeShortString (QueueBind_exchange m) ++
  Types_encodeShortString (QueueBind_routingKey m) ++
  writeBool (QueueBind_noWait m) ++
  Types_encodeFieldTable (QueueBind_arguments m).

Definition QueueBind_decode : decoder QueueBind :=
  Buffer_require 2 ;;; (Buffer_skip 2 ;;;
  queue <-- Types_decodeShortString ;;
  exchange <-- Types_decodeShortString ;;
  routingKey <-- Types_decodeShortString ;;
  bitmask <-- copyUint8 ;;
  arguments <-- Types_decodeFieldTable ;;
  dret (mkQueueBind queue exchange routingKey (test_mask bitmask 0) arguments)).

Definition QueueBind_wf (m : QueueBind) : bool :=
  shortString_wf (QueueBind_queue m) &&
  shortString_wf (QueueBind_exchange m) &&
  shortString_wf (QueueBind_routingKey m) &&
  table_wf (QueueBind_arguments m).

Definition QueueBind_norm (m : QueueBind) : QueueBind :=
  mkQueueBind (QueueBind_queue m) (QueueBind_exchange m) (QueueBind_routingKey m)
    (QueueBind_noWait m) (table_norm (QueueBind_arguments m)).

#[export] Instance QueueBind_WireMethod : WireMethod QueueBind := {
  METHOD_ID := QueueBind_METHOD_ID; m_encode := QueueBind_encode; m_decode := QueueBind_decode;
  m_encodedSize := QueueBind_encodedSize; m_wf := QueueBind_wf; m_norm := QueueBind_norm;
}.

(** *** QueueBindOk *)

Record QueueBindOk := mkQueueBindOk { }.

Definition QueueBindOk_METHOD_ID : Z := QUEUE_BINDOK.

Definition QueueBindOk_encodedSize (m : QueueBindOk) : nat := 0.

Definition QueueBindOk_encode (m : QueueBindOk) : bytes :=
  [].

Definition QueueBindOk_decode : decoder QueueBindOk :=
  dret mkQueueBindOk.

Definition QueueBindOk_wf (m : QueueBindOk) : bool :=
  true.

#[export] Instance QueueBindOk_WireMethod : WireMethod QueueBindOk := {
  METHOD_ID := QueueBindOk_METHOD_ID; m_encode := QueueBindOk_encode; m_decode := QueueBindOk_decode;
  m_encodedSize := QueueBindOk_encodedSize; m_wf := QueueBindOk_wf; m_norm := fun m => m;
}.

(** *** QueueDeclare *)

Record QueueDeclare := mkQueueDeclare {
  QueueDeclare_name : bytes;
  QueueDeclare_passive : bool;
  QueueDeclare_durable : bool;
  QueueDeclare_exclusive : bool;
  QueueDeclare_autoDelete : bool;
  QueueDeclare_noWait : bool;
  QueueDeclare_arguments : FieldTable;
}.

Definition QueueDeclare_METHOD_ID : Z := QUEUE_DECLARE.

Definition QueueDeclare_encodedSize (m : QueueDeclare) : nat :=
  2 + 2 * 1 + 4 + length (QueueDeclare_name m) +
  encodedTableSize (QueueDeclare_arguments m).

Definition QueueDeclare_encode (m : QueueDeclare) : bytes :=
  writeUint16 0 ++
  Types_encodeShortString (QueueDeclare_name m) ++
  writeUint8 (pack_bits [QueueDeclare_passive m; QueueDeclare_durable m; QueueDeclare_exclusive m; QueueDeclare_autoDelete m; QueueDeclare_noWait m]) ++
  Types_encodeFieldTable (QueueDeclare_arguments m).

Definition QueueDeclare_decode : decoder QueueDeclare :=
  Buffer_require 2 ;;; (Buffer_skip 2 ;;;
  name <-- Types_decodeShortString ;;
  bitmask <-- copyUint8 ;;
  arguments <-- Types_decodeFieldTable ;;
  dret (mkQueueDeclare name (test_mask bitmask 0) (test_mask bitmask 1)
          (test_mask bitmask 2) (test_mask bitmask 3) (test_mask bitmask 4) arguments)).

Definition QueueDeclare_wf (m : QueueDeclare) : bool :=
  shortString_wf (QueueDeclare_name m) &&
  table_wf (QueueDeclare_arguments m).

Definition QueueDeclare_norm (m : QueueDeclare) : QueueDeclare :=
  mkQueueDeclare (QueueDeclare_name m) (QueueDeclare_passive m) (QueueDeclare_durable m)
    (QueueDeclare_exclusive m) (QueueDeclare_autoDelete m) (QueueDeclare_noWait m) (table_norm
    (QueueDeclare_arguments m)).

#[export] Instance QueueDeclare_WireMethod : WireMethod QueueDeclare := {
  METHOD_ID := QueueDeclare_METHOD_ID; m_encode := QueueDeclare_encode; m_decode := QueueDeclare_decode;
  m_encodedSize := QueueDeclare_encodedSize; m_wf := QueueDeclare_wf; m_norm := QueueDeclare_norm;
}.

(** *** QueueDeclareOk *)

Record QueueDeclareOk := mkQueueDeclareOk {
  QueueDeclareOk_name : bytes;
  QueueDeclareOk_messageCount : Z;
  QueueDeclareOk_consumerCount : Z;
}.

Definition QueueDeclareOk_METHOD_ID : Z := QUEUE_DECLAREOK.

Definition QueueDeclareOk_encodedSize (m : QueueDeclareOk) : nat :=
  1 + 2 * 4 + length (QueueDeclareOk_name m).

Definition QueueDeclareOk_encode (m : QueueDeclareOk) : bytes :=
  Types_encodeShortString (QueueDeclareOk_name m) ++
  writeUint32 (QueueDeclareOk_messageCount m) ++
  writeUint32 (QueueDeclareOk_consumerCount m).

Definition QueueDeclareOk_decode : decoder QueueDeclareOk :=
  name <-- Types_decodeShortString ;;
  messageCount <-- copyUint32 ;;
  consumerCount <-- copyUint32 ;;
  dret (mkQueueDeclareOk name messageCount consumerCount).

Definition QueueDeclareOk_wf (m : QueueDeclareOk) : bool :=
  shortString_wf (QueueDeclareOk_name m) &&
  u_in 32 (QueueDeclareOk_messageCount m) &&
  u_in 32 (QueueDeclareOk_consumerCount m).

#[export] Instance QueueDeclareOk_WireMethod : WireMethod QueueDeclareOk := {
  METHOD_ID := QueueDeclareOk_METHOD_ID; m_encode := QueueDeclareOk_encode; m_decode := QueueDeclareOk_decode;
  m_encodedSize := QueueDeclareOk_encodedSize; m_wf := QueueDeclareOk_wf; m_norm := fun m => m;
}.

(** *** QueueDelete *)

Record QueueDelete := mkQueueDelete {
  QueueDelete_name : bytes;
  QueueDelete_ifUnused : bool;
  QueueDelete_ifEmpty : bool;
  QueueDelete_noWait : bool;
}.

Definition QueueDelete_METHOD_ID : Z := QUEUE_DELETE.

Definition QueueDelete_encodedSize (m : QueueDelete) : nat :=
  2 + 2 * 1 + length (QueueDelete_name m).

Definition QueueDelete_encode (m : QueueDelete) : bytes :=
  writeUint16 0 ++
  Types_encodeShortString (QueueDelete_name m) ++
  writeUint8 (pack_bits [QueueDelete_ifUnused m; QueueDelete_ifEmpty m; QueueDelete_noWait m]).

Definition QueueDelete_decode : decoder QueueDelete :=
  Buffer_require 2 ;;; (Buffer_skip 2 ;;;
  name <-- Types_decodeShortString ;;
  bitmask <-- copyUint8 ;;
  dret (mkQueueDelete name (test_mask bitmask 0) (test_mask bitmask 1) (test_mask bitmask 2))).

Definition QueueDelete_wf (m : QueueDelete) : bool :=
  shortString_wf (QueueDelete_name m).

#[export] Instance QueueDelete_WireMethod : WireMethod QueueDelete := {
  METHOD_ID := QueueDelete_METHOD_ID; m_encode := QueueDelete_encode; m_decode := QueueDelete_decode;
  m_encodedSize := QueueDelete_encodedSize; m_wf := QueueDelete_wf; m_norm := fun m => m;
}.

(** *** QueueDeleteOk *)

Record QueueDeleteOk := mkQueueDeleteOk {
  QueueDeleteOk_messageCount : Z;
}.

Definition QueueDeleteOk_METHOD_ID : Z := QUEUE_DELETEOK.

Definition QueueDeleteOk_encodedSize (m : QueueDeleteOk) : nat := 4.

Definition QueueDeleteOk_encode (m : QueueDeleteOk) : bytes :=
  writeUint32 (QueueDeleteOk_messageCount m).

Definition QueueDeleteOk_decode : decoder QueueDeleteOk :=
  messageCount <-- copyUint32 ;;
  dret (mkQueueDeleteOk messageCount).

Definition QueueDeleteOk_wf (m : QueueDeleteOk) : bool :=
  u_in 32 (QueueDeleteOk_messageCount m).

#[export] Instance QueueDeleteOk_WireMethod : WireMethod QueueDeleteOk := {
  METHOD_ID := QueueDeleteOk_METHOD_ID; m_encode := QueueDeleteOk_encode; m_decode := QueueDeleteOk_decode;
  m_encodedSize := QueueDeleteOk_encodedSize; m_wf := QueueDeleteOk_wf; m_norm := fun m => m;
}.

(** *** QueueUnbind *)

Record QueueUnbind := mkQueueUnbind {
  QueueUnbind_queue : bytes;
  QueueUnbind_exchange : bytes;
  QueueUnbind_routingKey : bytes;
  QueueUnbind_arguments : FieldTable;
}.

Definition QueueUnbind_METHOD_ID : Z := QUEUE_UNBIND.

Definition QueueUnbind_encodedSize (m : QueueUnbind) : nat :=
  2 + 3 * 1 + 4 + length (QueueUnbind_queue m) + length (QueueUnbind_exchange m) +
  length (QueueUnbind_routingKey m) + encodedTableSize (QueueUnbind_arguments m).

Definition QueueUnbind_encode (m : QueueUnbind) : bytes :=
  writeUint16 0 ++
  Types_encodeShortString (QueueUnbind_queue m) ++
  Types_encodeShortString (QueueUnbind_exchange m) ++
  Types_encodeShortString (QueueUnbind_routingKey m) ++
  Types_encodeFieldTable (QueueUnbind_arguments m).

Definition QueueUnbind_decode : decoder QueueUnbind :=
  Buffer_require 2 ;;; (Buffer_skip 2 ;;;
  queue <-- Types_decodeShortString ;;
  exchange <-- Types_decodeShortString ;;
  routingKey <-- Types_decodeShortString ;;
  arguments <-- Types_decodeFieldTable ;;
  dret (mkQueueUnbind queue exchange routingKey arguments)).

Definition QueueUnbind_wf (m : QueueUnbind) : bool :=
  shortString_wf (QueueUnbind_queue m) &&
  shortString_wf (QueueUnbind_exchange m) &&
  shortString_wf (QueueUnbind_routingKey m) &&
  table_wf (QueueUnbind_arguments m).

Definition QueueUnbind_norm (m : QueueUnbind) : QueueUnbind :=
  mkQueueUnbind (QueueUnbind_queue m) (QueueUnbind_exchange m) (QueueUnbind_routingKey m)
    (table_norm (QueueUnbind_arguments m)).

#[export] Instance QueueUnbind_WireMethod : WireMethod QueueUnbind := {
  METHOD_ID := QueueUnbind_METHOD_ID; m_encode := QueueUnbind_encode; m_decode := QueueUnbind_decode;
  m_encodedSize := QueueUnbind_encodedSize; m_wf := QueueUnbind_wf; m_norm := QueueUnbind_norm;
}.

(** *** QueueUnbindOk *)

Record QueueUnbindOk := mkQueueUnbindOk { }.

Definition QueueUnbindOk_METHOD_ID : Z := QUEUE_UNBINDOK.

Definition QueueUnbindOk_encodedSize (m : QueueUnbindOk) : nat := 0.

Definition QueueUnbindOk_encode (m : QueueUnbindOk) : bytes :=
  [].

Definition QueueUnbindOk_decode : decoder QueueUnbindOk :=
  dret mkQueueUnbindOk.

Definition QueueUnbindOk_wf (m : QueueUnbindOk) : bool :=
  true.

#[export] Instance QueueUnbindOk_WireMethod : WireMethod QueueUnbindOk := {
  METHOD_ID := QueueUnbindOk_METHOD_ID; m_encode := QueueUnbindOk_encode; m_decode := QueueUnbindOk_decode;
  m_encodedSize := QueueUnbindOk_encodedSize; m_wf := QueueUnbindOk_wf; m_norm := fun m => m;
}.

(** *** Building a ConnectionStart *)

(** [joinStrings(oss, first, last, delimiter)]: [oss] holds what was written so far. *)
Definition joinStrings (oss : bytes) (strings : list bytes) (delimiter : bytes) : bytes :=
  match strings with
  | [] => oss
  | first :: rest => foldl (fun o s => o ++ delimiter ++ s) (oss ++ first) rest
  end.

(** [ostringstream::clear] resets the error flags and keeps the contents. *)
Definition ostringstream_clear (oss : bytes) : bytes := oss.

Definition ConnectionStart_make (versionMajor versionMinor : Z) (properties : FieldTable)
  (mechanisms locales : list bytes) : ConnectionStart :=
  let oss := joinStrings [] locales (str " ") in
  let d_locales := oss in
  let oss := ostringstream_clear oss in
  let oss := joinStrings oss mechanisms (str " ") in
  let d_mechanisms := oss in
  mkConnectionStart versionMajor versionMinor properties d_mechanisms d_locales.

End Methods.

(** ** Proofs of the laws *)

Lemma pack_bits_from_in bs z i :
  (0 ≤ i)%Z → (i + Z.of_nat (length bs) ≤ 8)%Z → u_in 8 z = true →
  u_in 8 (pack_bits_from z i bs) = true.
Proof.
  revert z i. induction bs as [| b bs IH]; intros z i Hi Hl Hz; simpl; [done |].
  simpl in Hl. apply IH; [lia | lia |]. destruct b; [| done].
  apply u_in_lor; [done | done |]. rewrite Z.shiftl_1_l. apply u_in_iff.
  split; [lia |]. apply Z.pow_lt_mono_r; lia.
Qed.

Lemma pack_bits_in bs : length bs ≤ 8 → u_in 8 (pack_bits bs) = true.
Proof. intros. apply pack_bits_from_in; [done | lia | done]. Qed.

Lemma decodes_pack_bits bs :
  length bs ≤ 8 → decodes copyUint8 (writeUint8 (pack_bits bs)) (pack_bits bs).
Proof. intros. by apply (decodes_copyUint 1), pack_bits_in. Qed.

Lemma decodes_ret_eq {A} (a c : A) : a = c → decodes (dret a) [] c.
Proof. intros ->. apply decodes_ret. Qed.

Lemma length_writeBool b : length (writeBool b) = 1.
Proof. done. Qed.

Section MethodLaws.
Context {E : EpochUtil} {L : EpochUtilLaws E}.

#[local] Opaque be_encode Types_encodeShortString Types_encodeLongString Types_encodeFieldTable
  Types_decodeFieldTable decodeString copyUint copyInt encodedTableSize.

(** Reading one field of a method. *)
Ltac wire_field :=
  lazymatch goal with
  | |- decodes copyUint8 (writeUint8 (pack_bits _)) _ => apply decodes_pack_bits; simpl; lia
  | |- decodes copyUint8 (writeBool _) _ => apply decodes_writeBool
  | |- decodes copyUint8 _ _ => apply (decodes_copyUint 1); first [assumption | reflexivity]
  | |- decodes copyUint16 _ _ => apply (decodes_copyUint 2); first [assumption | reflexivity]
  | |- decodes copyUint32 _ _ => apply (decodes_copyUint 4); first [assumption | reflexivity]
  | |- decodes copyUint64 _ _ => apply (decodes_copyUint 8); first [assumption | reflexivity]
  | |- decodes copyInt16 _ _ => apply (decodes_copyInt 2)
  | |- decodes Types_decodeShortString _ _ =>
      apply shortString_wf_decodes; first [assumption | reflexivity]
  | |- decodes Types_decodeLongString _ _ =>
      apply decodes_longString; first [assumption | reflexivity]
  | |- decodes Types_decodeFieldTable _ _ => apply decodes_fieldTable; assumption
  end.

(** What was read, up to the bits of a byte. *)
Ltac wire_value :=
  apply decodes_ret_eq;
  repeat match goal with b : bool |- _ => destruct b end; reflexivity.

Ltac wire_roundtrip :=
  try (apply (decodes_skip_reserved 2); [reflexivity |]);
  repeat (eapply decodes_bind; [wire_field |]);
  first [ wire_value | eapply decodes_bind_end; [wire_field |]; wire_value ].

Ltac wire_safe :=
  try apply (dsafe_skip_reserved 2);
  repeat (apply dsafe_bind; [| intros ?]);
  first [ apply dsafe_copyUint | apply dsafe_copyInt | apply dsafe_decodeString
        | apply dsafe_decodeFieldTable | apply dsafe_ret ].

Ltac wire_size :=
  unfold writeUint8, writeUint16, writeUint32, writeUint64;
  repeat rewrite length_app;
  repeat first
    [ rewrite length_be_encode | rewrite length_writeBool
    | rewrite length_shortString_wf by done | rewrite length_encodeLongString
    | rewrite length_encodeFieldTable by done ];
  unfold shortStringSize; simpl; lia.

Ltac wire_split m :=
  unfold longString_wf; destruct m; cbn -[u_in shortString_wf table_wf pack_bits writeBool];
  rewrite ?andb_true_iff; intros; destruct_and?.

Tactic Notation "wire_method" reference(wf) reference(enc) reference(dec) reference(size) :=
  constructor;
  [ reflexivity
  | unfold m_decode; cbn; unfold dec; wire_safe
  | intros m; cbn; unfold wf, enc, dec; wire_split m;
    first [ apply decodes_parses; wire_roundtrip
          | eapply parses_bind; [wire_field |]; apply (parses_prefix _ []); wire_value ]
  | intros m; cbn; unfold wf, enc, size;
    wire_split m; wire_size ].

#[export] Instance BasicAck_laws : WireMethodLaws BasicAck.
Proof.
  wire_method BasicAck_wf BasicAck_encode BasicAck_decode BasicAck_encodedSize.
Qed.

#[export] Instance BasicCancel_laws : WireMethodLaws BasicCancel.
Proof.
  wire_method BasicCancel_wf BasicCancel_encode BasicCancel_decode BasicCancel_encodedSize.
Qed.

#[export] Instance BasicCancelOk_laws : WireMethodLaws BasicCancelOk.
Proof.
  wire_method BasicCancelOk_wf BasicCancelOk_encode BasicCancelOk_decode BasicCancelOk_encodedSize.
Qed.

#[export] Instance BasicConsume_laws : WireMethodLaws BasicConsume.
Proof.
  wire_method BasicConsume_wf BasicConsume_encode BasicConsume_decode BasicConsume_encodedSize.
Qed.

#[export] Instance BasicConsumeOk_laws : WireMethodLaws BasicConsumeOk.
Proof.
  wire_method BasicConsumeOk_wf BasicConsumeOk_encode BasicConsumeOk_decode BasicConsumeOk_encodedSize.
Qed.

#[export] Instance BasicDeliver_laws : WireMethodLaws BasicDeliver.
Proof.
  wire_method BasicDeliver_wf BasicDeliver_encode BasicDeliver_decode BasicDeliver_encodedSize.
Qed.

#[export] Instance BasicNack_laws : WireMethodLaws BasicNack.
Proof.
  wire_method BasicNack_wf BasicNack_encode BasicNack_decode BasicNack_encodedSize.
Qed.

#[export] Instance BasicPublish_laws : WireMethodLaws BasicPublish.
Proof.
  wire_method BasicPublish_wf BasicPublish_encode BasicPublish_decode BasicPublish_encodedSize.
Qed.

#[export] Instance BasicQoS_laws : WireMethodLaws BasicQoS.
Proof.
  wire_method BasicQoS_wf BasicQoS_encode BasicQoS_decode BasicQoS_encodedSize.
Qed.

#[export] Instance BasicQoSOk_laws : WireMethodLaws BasicQoSOk.
Proof.
  wire_method BasicQoSOk_wf BasicQoSOk_encode BasicQoSOk_decode BasicQoSOk_encodedSize.
Qed.

#[export] Instance BasicReturn_laws : WireMethodLaws BasicReturn.
Proof.
  wire_method BasicReturn_wf BasicReturn_encode BasicReturn_decode BasicReturn_encodedSize.
Qed.

#[export] Instance ChannelClose_laws : WireMethodLaws ChannelClose.
Proof.
  wire_method ChannelClose_wf ChannelClose_encode ChannelClose_decode ChannelClose_encodedSize.
Qed.

#[export] Instance ChannelCloseOk_laws : WireMethodLaws ChannelCloseOk.
Proof.
  wire_method ChannelCloseOk_wf ChannelCloseOk_encode ChannelCloseOk_decode ChannelCloseOk_encodedSize.
Qed.

#[export] Instance ChannelFlow_laws : WireMethodLaws ChannelFlow.
Proof.
  wire_method ChannelFlow_wf ChannelFlow_encode ChannelFlow_decode ChannelFlow_encodedSize.
Qed.

#[export] Instance ChannelFlowOk_laws : WireMethodLaws ChannelFlowOk.
Proof.
  wire_method ChannelFlowOk_wf ChannelFlowOk_encode ChannelFlowOk_decode ChannelFlowOk_encodedSize.
Qed.

#[export] Instance ChannelOpen_laws : WireMethodLaws ChannelOpen.
Proof.
  wire_method ChannelOpen_wf ChannelOpen_encode ChannelOpen_decode ChannelOpen_encodedSize.
Qed.

#[export] Instance ChannelOpenOk_laws : WireMethodLaws ChannelOpenOk.
Proof.
  wire_method ChannelOpenOk_wf ChannelOpenOk_encode ChannelOpenOk_decode ChannelOpenOk_encodedSize.
Qed.

#[export] Instance ConfirmSelect_laws : WireMethodLaws ConfirmSelect.
Proof.
  wire_method ConfirmSelect_wf ConfirmSelect_encode ConfirmSelect_decode ConfirmSelect_encodedSize.
Qed.

#[export] Instance ConfirmSelectOk_laws : WireMethodLaws ConfirmSelectOk.
Proof.
  wire_method ConfirmSelectOk_wf ConfirmSelectOk_encode ConfirmSelectOk_decode ConfirmSelectOk_encodedSize.
Qed.

#[export] Instance ConnectionClose_laws : WireMethodLaws ConnectionClose.
Proof.
  wire_method ConnectionClose_wf ConnectionClose_encode ConnectionClose_decode ConnectionClose_encodedSize.
Qed.

#[export] Instance ConnectionCloseOk_laws : WireMethodLaws ConnectionCloseOk.
Proof.
  wire_method ConnectionCloseOk_wf ConnectionCloseOk_encode ConnectionCloseOk_decode ConnectionCloseOk_encodedSize.
Qed.

#[export] Instance ConnectionOpen_laws : WireMethodLaws ConnectionOpen.
Proof.
  wire_method ConnectionOpen_wf ConnectionOpen_encode ConnectionOpen_decode ConnectionOpen_encodedSize.
Qed.

#[export] Instance ConnectionOpenOk_laws : WireMethodLaws ConnectionOpenOk.
Proof.
  wire_method ConnectionOpenOk_wf ConnectionOpenOk_encode ConnectionOpenOk_decode ConnectionOpenOk_encodedSize.
Qed.

#[export] Instance ConnectionStart_laws : WireMethodLaws ConnectionStart.
Proof.
  wire_method ConnectionStart_wf ConnectionStart_encode ConnectionStart_decode ConnectionStart_encodedSize.
Qed.

#[export] Instance ConnectionStartOk_laws : WireMethodLaws ConnectionStartOk.
Proof.
  wire_method ConnectionStartOk_wf ConnectionStartOk_encode ConnectionStartOk_decode ConnectionStartOk_encodedSize.
Qed.

#[export] Instance ConnectionTune_laws : WireMethodLaws ConnectionTune.
Proof.
  wire_method ConnectionTune_wf ConnectionTune_encode ConnectionTune_decode ConnectionTune_encodedSize.
Qed.

#[export] Instance ConnectionTuneOk_laws : WireMethodLaws ConnectionTuneOk.
Proof.
  wire_method ConnectionTuneOk_wf ConnectionTuneOk_encode ConnectionTuneOk_decode ConnectionTuneOk_encodedSize.
Qed.

#[export] Instance ExchangeBind_laws : WireMethodLaws ExchangeBind.
Proof.
  wire_method ExchangeBind_wf ExchangeBind_encode ExchangeBind_decode ExchangeBind_encodedSize.
Qed.

#[export] Instance ExchangeBindOk_laws : WireMethodLaws ExchangeBindOk.
Proof.
  wire_method ExchangeBindOk_wf ExchangeBindOk_encode ExchangeBindOk_decode ExchangeBindOk_encodedSize.
Qed.

#[export] Instance ExchangeDeclare_laws : WireMethodLaws ExchangeDeclare.
Proof.
  wire_method ExchangeDeclare_wf ExchangeDeclare_encode ExchangeDeclare_decode ExchangeDeclare_encodedSize.
Qed.

#[export] Instance ExchangeDeclareOk_laws : WireMethodLaws ExchangeDeclareOk.
Proof.
  wire_method ExchangeDeclareOk_wf ExchangeDeclareOk_encode ExchangeDeclareOk_decode ExchangeDeclareOk_encodedSize.
Qed.

#[export] Instance QueueBind_laws : WireMethodLaws QueueBind.
Proof.
  wire_method QueueBind_wf QueueBind_encode QueueBind_decode QueueBind_encodedSize.
Qed.

#[export] Instance QueueBindOk_laws : WireMethodLaws QueueBindOk.
Proof.
  wire_method QueueBindOk_wf QueueBindOk_encode QueueBindOk_decode QueueBindOk_encodedSize.
Qed.

#[export] Instance QueueDeclare_laws : WireMethodLaws QueueDeclare.
Proof.
  wire_method QueueDeclare_wf QueueDeclare_encode QueueDeclare_decode QueueDeclare_encodedSize.
Qed.

#[export] Instance QueueDeclareOk_laws : WireMethodLaws QueueDeclareOk.
Proof.
  wire_method QueueDeclareOk_wf QueueDeclareOk_encode QueueDeclareOk_decode QueueDeclareOk_encodedSize.
Qed.

#[export] Instance QueueDelete_laws : WireMethodLaws QueueDelete.
Proof.
  wire_method QueueDelete_wf QueueDelete_encode QueueDelete_decode QueueDelete_encodedSize.
Qed.

#[export] Instance QueueDeleteOk_laws : WireMethodLaws QueueDeleteOk.
Proof.
  wire_method QueueDeleteOk_wf QueueDeleteOk_encode QueueDeleteOk_decode QueueDeleteOk_encodedSize.
Qed.

#[export] Instance QueueUnbind_laws : WireMethodLaws QueueUnbind.
Proof.
  wire_method QueueUnbind_wf QueueUnbind_encode QueueUnbind_decode QueueUnbind_encodedSize.
Qed.

#[export] Instance QueueUnbindOk_laws : WireMethodLaws QueueUnbindOk.
Proof.
  wire_method QueueUnbindOk_wf QueueUnbindOk_encode QueueUnbindOk_decode QueueUnbindOk_encodedSize.
Qed.

End MethodLaws.

Section MethodTheorems.
Context {E : EpochUtil}.

Lemma foldl_delim (oss delim : bytes) (ss : list bytes) :
  foldl (fun o s => o ++ delim ++ s) oss ss = oss ++ foldl (fun o s => o ++ delim ++ s) [] ss.
Proof.
  revert oss. induction ss as [| s ss IH]; intros oss; simpl; [by rewrite app_nil_r |].
  rewrite IH, (IH (delim ++ s)), !app_assoc. done.
Qed.

Lemma joinStrings_append oss ss delim : joinStrings oss ss delim = oss ++ joinStrings [] ss delim.
Proof.
  destruct ss as [| s ss]; simpl; [by rewrite app_nil_r |].
  rewrite foldl_delim, (foldl_delim s), app_assoc. done.
Qed.

(** a [ConnectionStart] built from lists of mechanisms and locales has the
    joined locales as its locales, but its mechanisms start with the joined
    locales too: the stream is reused after [clear()], which does not empty it. *)
Theorem connectionStart_mechanisms_polluted vMajor vMinor (properties : FieldTable)
  (mechanisms locales : list bytes) :
  let start := ConnectionStart_make vMajor vMinor properties mechanisms locales in
  ConnectionStart_locales start = joinStrings [] locales (str " ") ∧
  ConnectionStart_mechanisms start =
    joinStrings [] locales (str " ") ++ joinStrings [] mechanisms (str " ").
Proof. split; [done |]. apply joinStrings_append. Qed.

End MethodTheorems.
