(* ===== verification/Method.v ===== *)
(** * Method: the method classes and the dispatch on class and method ids

    Models [rmqamqpt::BasicMethod], [ConfirmMethod], [ConnectionMethod],
    [ChannelMethod], [ExchangeMethod], [QueueMethod] (rmqamqpt_basicmethod.cpp and
    so on) and [rmqamqpt::Method] (rmqamqpt_method.cpp). Each is a [bdlb::Variant]:
    an inductive type whose first constructor is the unset variant.

    The decoders receive [(data, dataLen)] and pass [(data + 2, dataLen - 2)] on;
    here that is the buffer advanced past the id. *)

From Stdlib Require Import ZArith Lia String Strings.Byte.
From stdpp Require Import base tactics list.
From S2P Require Import Prelude Constants Wire FieldValue Props Methods.

(** ** Shared by the six classes *)

(** The [operator()] of the encoders: the method id, then the method. *)
Definition encode_method {M} `{WireMethod M} (m : M) : bytes :=
  writeUint16 METHOD_ID ++ m_encode m.

(** [decodeMethod<T>]: the variant now holds a [T], decoded in place. *)
Definition decodeMethod {M V} `{WireMethod M} (inj : M → V) : decoder V :=
  m <-- m_decode ;; dret (inj m).

(** What a method class promises to [Method]. *)
Class MethodClass (V : Type) := {
  CLASS_ID : Z;
  c_methodId : V → Z;
  c_encodedSize : V → nat;
  c_encode : V → bytes;
  c_decode : decoder V;
  c_wf : V → bool;
  c_norm : V → V;
}.

Class MethodClassLaws (V : Type) {C : MethodClass V} : Prop := {
  c_id_in : u_in 16 CLASS_ID = true;
  c_safe : dsafe c_decode;
  c_roundtrip v : c_wf v = true → parses c_decode (c_encode v) (c_norm v);
  c_size v : c_wf v = true → length (c_encode v) = c_encodedSize v;
}.

Section Method.
Context {E : EpochUtil}.

(** ** BasicMethod *)

Inductive BasicMethod :=
| BasicMethod_unset
| BasicMethod_Ack (m : BasicAck)
| BasicMethod_Cancel (m : BasicCancel)
| BasicMethod_CancelOk (m : BasicCancelOk)
| BasicMethod_Consume (m : BasicConsume)
| BasicMethod_ConsumeOk (m : BasicConsumeOk)
| BasicMethod_Deliver (m : BasicDeliver)
| BasicMethod_Nack (m : BasicNack)
| BasicMethod_Publish (m : BasicPublish)
| BasicMethod_Return (m : BasicReturn)
| BasicMethod_QoS (m : BasicQoS)
| BasicMethod_QoSOk (m : BasicQoSOk).

Definition BasicMethod_CLASS_ID : Z := BASIC.

Definition BasicMethod_methodId (v : BasicMethod) : Z :=
  match v with
  | BasicMethod_unset => 0
  | BasicMethod_Ack m => @METHOD_ID BasicAck _
  | BasicMethod_Cancel m => @METHOD_ID BasicCancel _
  | BasicMethod_CancelOk m => @METHOD_ID BasicCancelOk _
  | BasicMethod_Consume m => @METHOD_ID BasicConsume _
  | BasicMethod_ConsumeOk m => @METHOD_ID BasicConsumeOk _
  | BasicMethod_Deliver m => @METHOD_ID BasicDeliver _
  | BasicMethod_Nack m => @METHOD_ID BasicNack _
  | BasicMethod_Publish m => @METHOD_ID BasicPublish _
  | BasicMethod_Return m => @METHOD_ID BasicReturn _
  | BasicMethod_QoS m => @METHOD_ID BasicQoS _
  | BasicMethod_QoSOk m => @METHOD_ID BasicQoSOk _
  end.

Definition BasicMethod_encodedSize (v : BasicMethod) : nat :=
  2 +
  match v with
  | BasicMethod_unset => 0
  | BasicMethod_Ack m => m_encodedSize m
  | BasicMethod_Cancel m => m_encodedSize m
  | BasicMethod_CancelOk m => m_encodedSize m
  | BasicMethod_Consume m => m_encodedSize m
  | BasicMethod_ConsumeOk m => m_encodedSize m
  | BasicMethod_Deliver m => m_encodedSize m
  | BasicMethod_Nack m => m_encodedSize m
  | BasicMethod_Publish m => m_encodedSize m
  | BasicMethod_Return m => m_encodedSize m
  | BasicMethod_QoS m => m_encodedSize m
  | BasicMethod_QoSOk m => m_encodedSize m
  end.

Definition BasicMethod_encode (v : BasicMethod) : bytes :=
  match v with
  | BasicMethod_unset => []
  | BasicMethod_Ack m => encode_method m
  | BasicMethod_Cancel m => encode_method m
  | BasicMethod_CancelOk m => encode_method m
  | BasicMethod_Consume m => encode_method m
  | BasicMethod_ConsumeOk m => encode_method m
  | BasicMethod_Deliver m => encode_method m
  | BasicMethod_Nack m => encode_method m
  | BasicMethod_Publish m => encode_method m
  | BasicMethod_Return m => encode_method m
  | BasicMethod_QoS m => encode_method m
  | BasicMethod_QoSOk m => encode_method m
  end.

Definition decodeBasicMethodPayload (methodId : Z) : decoder BasicMethod :=
  if (methodId =? @METHOD_ID BasicAck _)%Z then decodeMethod BasicMethod_Ack
  else if (methodId =? @METHOD_ID BasicCancel _)%Z then decodeMethod BasicMethod_Cancel
  else if (methodId =? @METHOD_ID BasicCancelOk _)%Z then decodeMethod BasicMethod_CancelOk
  else if (methodId =? @METHOD_ID BasicConsume _)%Z then decodeMethod BasicMethod_Consume
  else if (methodId =? @METHOD_ID BasicConsumeOk _)%Z then decodeMethod BasicMethod_ConsumeOk
  else if (methodId =? @METHOD_ID BasicDeliver _)%Z then decodeMethod BasicMethod_Deliver
  else if (methodId =? @METHOD_ID BasicNack _)%Z then decodeMethod BasicMethod_Nack
  else if (methodId =? @METHOD_ID BasicPublish _)%Z then decodeMethod BasicMethod_Publish
  else if (methodId =? @METHOD_ID BasicReturn _)%Z then decodeMethod BasicMethod_Return
  else if (methodId =? @METHOD_ID BasicQoS _)%Z then decodeMethod BasicMethod_QoS
  else if (methodId =? @METHOD_ID BasicQoSOk _)%Z then decodeMethod BasicMethod_QoSOk
  else dfail.

Definition BasicMethod_decode : decoder BasicMethod :=
  methodId <-- copyUint16 ;;
  decodeBasicMethodPayload methodId.

Definition BasicMethod_wf (v : BasicMethod) : bool :=
  match v with
  | BasicMethod_unset => false
  | BasicMethod_Ack m => m_wf m
  | BasicMethod_Cancel m => m_wf m
  | BasicMethod_CancelOk m => m_wf m
  | BasicMethod_Consume m => m_wf m
  | BasicMethod_ConsumeOk m => m_wf m
  | BasicMethod_Deliver m => m_wf m
  | BasicMethod_Nack m => m_wf m
  | BasicMethod_Publish m => m_wf m
  | BasicMethod_Return m => m_wf m
  | BasicMethod_QoS m => m_wf m
  | BasicMethod_QoSOk m => m_wf m
  end.

Definition BasicMethod_norm (v : BasicMethod) : BasicMethod :=
  match v with
  | BasicMethod_unset => BasicMethod_unset
  | BasicMethod_Ack m => BasicMethod_Ack (m_norm m)
  | BasicMethod_Cancel m => BasicMethod_Cancel (m_norm m)
  | BasicMethod_CancelOk m => BasicMethod_CancelOk (m_norm m)
  | BasicMethod_Consume m => BasicMethod_Consume (m_norm m)
  | BasicMethod_ConsumeOk m => BasicMethod_ConsumeOk (m_norm m)
  | BasicMethod_Deliver m => BasicMethod_Deliver (m_norm m)
  | BasicMethod_Nack m => BasicMethod_Nack (m_norm m)
  | BasicMethod_Publish m => BasicMethod_Publish (m_norm m)
  | BasicMethod_Return m => BasicMethod_Return (m_norm m)
  | BasicMethod_QoS m => BasicMethod_QoS (m_norm m)
  | BasicMethod_QoSOk m => BasicMethod_QoSOk (m_norm m)
  end.

#[export] Instance BasicMethod_class : MethodClass BasicMethod := {
  CLASS_ID := BasicMethod_CLASS_ID; c_methodId := BasicMethod_methodId; c_encodedSize := BasicMethod_encodedSize;
  c_encode := BasicMethod_encode; c_decode := BasicMethod_decode; c_wf := BasicMethod_wf; c_norm := BasicMethod_norm;
}.

(** ** ConfirmMethod *)

Inductive ConfirmMethod :=
| ConfirmMethod_unset
| ConfirmMethod_Select (m : ConfirmSelect)
| ConfirmMethod_SelectOk (m : ConfirmSelectOk).

Definition ConfirmMethod_CLASS_ID : Z := CONFIRM.

Definition ConfirmMethod_methodId (v : ConfirmMethod) : Z :=
  match v with
  | ConfirmMethod_unset => 0
  | ConfirmMethod_Select m => @METHOD_ID ConfirmSelect _
  | ConfirmMethod_SelectOk m => @METHOD_ID ConfirmSelectOk _
  end.

Definition ConfirmMethod_encodedSize (v : ConfirmMethod) : nat :=
  2 +
  match v with
  | ConfirmMethod_unset => 0
  | ConfirmMethod_Select m => m_encodedSize m
  | ConfirmMethod_SelectOk m => m_encodedSize m
  end.

Definition ConfirmMethod_encode (v : ConfirmMethod) : bytes :=
  match v with
  | ConfirmMethod_unset => []
  | ConfirmMethod_Select m => encode_method m
  | ConfirmMethod_SelectOk m => encode_method m
  end.

Definition decodeConfirmMethodPayload (methodId : Z) : decoder ConfirmMethod :=
  if (methodId =? @METHOD_ID ConfirmSelect _)%Z then decodeMethod ConfirmMethod_Select
  else if (methodId =? @METHOD_ID ConfirmSelectOk _)%Z then decodeMethod ConfirmMethod_SelectOk
  else dfail.

Definition ConfirmMethod_decode : decoder ConfirmMethod :=
  methodId <-- copyUint16 ;;
  decodeConfirmMethodPayload methodId.

Definition ConfirmMethod_wf (v : ConfirmMethod) : bool :=
  match v with
  | ConfirmMethod_unset => false
  | ConfirmMethod_Select m => m_wf m
  | ConfirmMethod_SelectOk m => m_wf m
  end.

Definition ConfirmMethod_norm (v : ConfirmMethod) : ConfirmMethod :=
  match v with
  | ConfirmMethod_unset => ConfirmMethod_unset
  | ConfirmMethod_Select m => ConfirmMethod_Select (m_norm m)
  | ConfirmMethod_SelectOk m => ConfirmMethod_SelectOk (m_norm m)
  end.

#[export] Instance ConfirmMethod_class : MethodClass ConfirmMethod := {
  CLASS_ID := ConfirmMethod_CLASS_ID; c_methodId := ConfirmMethod_methodId; c_encodedSize := ConfirmMethod_encodedSize;
  c_encode := ConfirmMethod_encode; c_decode := ConfirmMethod_decode; c_wf := ConfirmMethod_wf; c_norm := ConfirmMethod_norm;
}.

(** ** ConnectionMethod *)

Inductive ConnectionMethod :=
| ConnectionMethod_unset
| ConnectionMethod_Start (m : ConnectionStart)
| ConnectionMethod_StartOk (m : ConnectionStartOk)
| ConnectionMethod_Tune (m : ConnectionTune)
| ConnectionMethod_TuneOk (m : ConnectionTuneOk)
| ConnectionMethod_Open (m : ConnectionOpen)
| ConnectionMethod_OpenOk (m : ConnectionOpenOk)
| ConnectionMethod_Close (m : ConnectionClose)
| ConnectionMethod_CloseOk (m : ConnectionCloseOk).

Definition ConnectionMethod_CLASS_ID : Z := CONNECTION.

Definition ConnectionMethod_methodId (v : ConnectionMethod) : Z :=
  match v with
  | ConnectionMethod_unset => 0
  | ConnectionMethod_Start m => @METHOD_ID ConnectionStart _
  | ConnectionMethod_StartOk m => @METHOD_ID ConnectionStartOk _
  | ConnectionMethod_Tune m => @METHOD_ID ConnectionTune _
  | ConnectionMethod_TuneOk m => @METHOD_ID ConnectionTuneOk _
  | ConnectionMethod_Open m => @METHOD_ID ConnectionOpen _
  | ConnectionMethod_OpenOk m => @METHOD_ID ConnectionOpenOk _
  | ConnectionMethod_Close m => @METHOD_ID ConnectionClose _
  | ConnectionMethod_CloseOk m => @METHOD_ID ConnectionCloseOk _
  end.

Definition ConnectionMethod_encodedSize (v : ConnectionMethod) : nat :=
  2 +
  match v with
  | ConnectionMethod_unset => 0
  | ConnectionMethod_Start m => m_encodedSize m
  | ConnectionMethod_StartOk m => m_encodedSize m
  | ConnectionMethod_Tune m => m_encodedSize m
  | ConnectionMethod_TuneOk m => m_encodedSize m
  | ConnectionMethod_Open m => m_encodedSize m
  | ConnectionMethod_OpenOk m => m_encodedSize m
  | ConnectionMethod_Close m => m_encodedSize m
  | ConnectionMethod_CloseOk m => m_encodedSize m
  end.

Definition ConnectionMethod_encode (v : ConnectionMethod) : bytes :=
  match v with
  | ConnectionMethod_unset => []
  | ConnectionMethod_Start m => encode_method m
  | ConnectionMethod_StartOk m => encode_method m
  | ConnectionMethod_Tune m => encode_method m
  | ConnectionMethod_TuneOk m => encode_method m
  | ConnectionMethod_Open m => encode_method m
  | ConnectionMethod_OpenOk m => encode_method m
  | ConnectionMethod_Close m => encode_method m
  | ConnectionMethod_CloseOk m => encode_method m
  end.

Definition decodeConnectionMethodPayload (methodId : Z) : decoder ConnectionMethod :=
  if (methodId =? @METHOD_ID ConnectionStart _)%Z then decodeMethod ConnectionMethod_Start
  else if (methodId =? @METHOD_ID ConnectionStartOk _)%Z then decodeMethod ConnectionMethod_StartOk
  else if (methodId =? @METHOD_ID ConnectionTune _)%Z then decodeMethod ConnectionMethod_Tune
  else if (methodId =? @METHOD_ID ConnectionTuneOk _)%Z then decodeMethod ConnectionMethod_TuneOk
  else if (methodId =? @METHOD_ID ConnectionOpen _)%Z then decodeMethod ConnectionMethod_Open
  else if (methodId =? @METHOD_ID ConnectionOpenOk _)%Z then decodeMethod ConnectionMethod_OpenOk
  else if (methodId =? @METHOD_ID ConnectionClose _)%Z then decodeMethod ConnectionMethod_Close
  else if (methodId =? @METHOD_ID ConnectionCloseOk _)%Z then decodeMethod ConnectionMethod_CloseOk
  else dfail.

Definition ConnectionMethod_decode : decoder ConnectionMethod :=
  methodId <-- copyUint16 ;;
  decodeConnectionMethodPayload methodId.

Definition ConnectionMethod_wf (v : ConnectionMethod) : bool :=
  match v with
  | ConnectionMethod_unset => false
  | ConnectionMethod_Start m => m_wf m
  | ConnectionMethod_StartOk m => m_wf m
  | ConnectionMethod_Tune m => m_wf m
  | ConnectionMethod_TuneOk m => m_wf m
  | ConnectionMethod_Open m => m_wf m
  | ConnectionMethod_OpenOk m => m_wf m
  | ConnectionMethod_Close m => m_wf m
  | ConnectionMethod_CloseOk m => m_wf m
  end.

Definition ConnectionMethod_norm (v : ConnectionMethod) : ConnectionMethod :=
  match v with
  | ConnectionMethod_unset => ConnectionMethod_unset
  | ConnectionMethod_Start m => ConnectionMethod_Start (m_norm m)
  | ConnectionMethod_StartOk m => ConnectionMethod_StartOk (m_norm m)
  | ConnectionMethod_Tune m => ConnectionMethod_Tune (m_norm m)
  | ConnectionMethod_TuneOk m => ConnectionMethod_TuneOk (m_norm m)
  | ConnectionMethod_Open m => ConnectionMethod_Open (m_norm m)
  | ConnectionMethod_OpenOk m => ConnectionMethod_OpenOk (m_norm m)
  | ConnectionMethod_Close m => ConnectionMethod_Close (m_norm m)
  | ConnectionMethod_CloseOk m => ConnectionMethod_CloseOk (m_norm m)
  end.

#[export] Instance ConnectionMethod_class : MethodClass ConnectionMethod := {
  CLASS_ID := ConnectionMethod_CLASS_ID; c_methodId := ConnectionMethod_methodId; c_encodedSize := ConnectionMethod_encodedSize;
  c_encode := ConnectionMethod_encode; c_decode := ConnectionMethod_decode; c_wf := ConnectionMethod_wf; c_norm := ConnectionMethod_norm;
}.

(** ** ChannelMethod *)

Inductive ChannelMethod :=
| ChannelMethod_unset
| ChannelMethod_Open (m : ChannelOpen)
| ChannelMethod_OpenOk (m : ChannelOpenOk)
| ChannelMethod_Flow (m : ChannelFlow)
| ChannelMethod_FlowOk (m : ChannelFlowOk)
| ChannelMethod_Close (m : ChannelClose)
| ChannelMethod_CloseOk (m : ChannelCloseOk).

Definition ChannelMethod_CLASS_ID : Z := CHANNEL.

Definition ChannelMethod_methodId (v : ChannelMethod) : Z :=
  match v with
  | ChannelMethod_unset => 0
  | ChannelMethod_Open m => @METHOD_ID ChannelOpen _
  | ChannelMethod_OpenOk m => @METHOD_ID ChannelOpenOk _
  | ChannelMethod_Flow m => @METHOD_ID ChannelFlow _
  | ChannelMethod_FlowOk m => @METHOD_ID ChannelFlowOk _
  | ChannelMethod_Close m => @METHOD_ID ChannelClose _
  | ChannelMethod_CloseOk m => @METHOD_ID ChannelCloseOk _
  end.

Definition ChannelMethod_encodedSize (v : ChannelMethod) : nat :=
  2 +
  match v with
  | ChannelMethod_unset => 0
  | ChannelMethod_Open m => m_encodedSize m
  | ChannelMethod_OpenOk m => m_encodedSize m
  | ChannelMethod_Flow m => m_encodedSize m
  | ChannelMethod_FlowOk m => m_encodedSize m
  | ChannelMethod_Close m => m_encodedSize m
  | ChannelMethod_CloseOk m => m_encodedSize m
  end.

Definition ChannelMethod_encode (v : ChannelMethod) : bytes :=
  match v with
  | ChannelMethod_unset => []
  | ChannelMethod_Open m => encode_method m
  | ChannelMethod_OpenOk m => encode_method m
  | ChannelMethod_Flow m => encode_method m
  | ChannelMethod_FlowOk m => encode_method m
  | ChannelMethod_Close m => encode_method m
  | ChannelMethod_CloseOk m => encode_method m
  end.

Definition decodeChannelMethodPayload (methodId : Z) : decoder ChannelMethod :=
  if (methodId =? @METHOD_ID ChannelOpen _)%Z then decodeMethod ChannelMethod_Open
  else if (methodId =? @METHOD_ID ChannelOpenOk _)%Z then decodeMethod ChannelMethod_OpenOk
  else if (methodId =? @METHOD_ID ChannelFlow _)%Z then decodeMethod ChannelMethod_Flow
  else if (methodId =? @METHOD_ID ChannelFlowOk _)%Z then decodeMethod ChannelMethod_FlowOk
  else if (methodId =? @METHOD_ID ChannelClose _)%Z then decodeMethod ChannelMethod_Close
  else if (methodId =? @METHOD_ID ChannelCloseOk _)%Z then decodeMethod ChannelMethod_CloseOk
  else dfail.

Definition ChannelMethod_decode : decoder ChannelMethod :=
  methodId <-- copyUint16 ;;
  decodeChannelMethodPayload methodId.

Definition ChannelMethod_wf (v : ChannelMethod) : bool :=
  match v with
  | ChannelMethod_unset => false
  | ChannelMethod_Open m => m_wf m
  | ChannelMethod_OpenOk m => m_wf m
  | ChannelMethod_Flow m => m_wf m
  | ChannelMethod_FlowOk m => m_wf m
  | ChannelMethod_Close m => m_wf m
  | ChannelMethod_CloseOk m => m_wf m
  end.

Definition ChannelMethod_norm (v : ChannelMethod) : ChannelMethod :=
  match v with
  | ChannelMethod_unset => ChannelMethod_unset
  | ChannelMethod_Open m => ChannelMethod_Open (m_norm m)
  | ChannelMethod_OpenOk m => ChannelMethod_OpenOk (m_norm m)
  | ChannelMethod_Flow m => ChannelMethod_Flow (m_norm m)
  | ChannelMethod_FlowOk m => ChannelMethod_FlowOk (m_norm m)
  | ChannelMethod_Close m => ChannelMethod_Close (m_norm m)
  | ChannelMethod_CloseOk m => ChannelMethod_CloseOk (m_norm m)
  end.

#[export] Instance ChannelMethod_class : MethodClass ChannelMethod := {
  CLASS_ID := ChannelMethod_CLASS_ID; c_methodId := ChannelMethod_methodId; c_encodedSize := ChannelMethod_encodedSize;
  c_encode := ChannelMethod_encode; c_decode := ChannelMethod_decode; c_wf := ChannelMethod_wf; c_norm := ChannelMethod_norm;
}.

(** ** ExchangeMethod *)

Inductive ExchangeMethod :=
| ExchangeMethod_unset
| ExchangeMethod_Bind (m : ExchangeBind)
| ExchangeMethod_BindOk (m : ExchangeBindOk)
| ExchangeMethod_Declare (m : ExchangeDeclare)
| ExchangeMethod_DeclareOk (m : ExchangeDeclareOk).

Definition ExchangeMethod_CLASS_ID : Z := EXCHANGE.

Definition ExchangeMethod_methodId (v : ExchangeMethod) : Z :=
  match v with
  | ExchangeMethod_unset => 0
  | ExchangeMethod_Bind m => @METHOD_ID ExchangeBind _
  | ExchangeMethod_BindOk m => @METHOD_ID ExchangeBindOk _
  | ExchangeMethod_Declare m => @METHOD_ID ExchangeDeclare _
  | ExchangeMethod_DeclareOk m => @METHOD_ID ExchangeDeclareOk _
  end.

Definition ExchangeMethod_encodedSize (v : ExchangeMethod) : nat :=
  2 +
  match v with
  | ExchangeMethod_unset => 0
  | ExchangeMethod_Bind m => m_encodedSize m
  | ExchangeMethod_BindOk m => m_encodedSize m
  | ExchangeMethod_Declare m => m_encodedSize m
  | ExchangeMethod_DeclareOk m => m_encodedSize m
  end.

Definition ExchangeMethod_encode (v : ExchangeMethod) : bytes :=
  match v with
  | ExchangeMethod_unset => []
  | ExchangeMethod_Bind m => encode_method m
  | ExchangeMethod_BindOk m => encode_method m
  | ExchangeMethod_Declare m => encode_method m
  | ExchangeMethod_DeclareOk m => encode_method m
  end.

Definition decodeExchangeMethodPayload (methodId : Z) : decoder ExchangeMethod :=
  if (methodId =? @METHOD_ID ExchangeBind _)%Z then decodeMethod ExchangeMethod_Bind
  else if (methodId =? @METHOD_ID ExchangeBindOk _)%Z then decodeMethod ExchangeMethod_BindOk
  else if (methodId =? @METHOD_ID ExchangeDeclare _)%Z then decodeMethod ExchangeMethod_Declare
  else if (methodId =? @METHOD_ID ExchangeDeclareOk _)%Z then decodeMethod ExchangeMethod_DeclareOk
  else dfail.

Definition ExchangeMethod_decode : decoder ExchangeMethod :=
  methodId <-- copyUint16 ;;
  decodeExchangeMethodPayload methodId.

Definition ExchangeMethod_wf (v : ExchangeMethod) : bool :=
  match v with
  | ExchangeMethod_unset => false
  | ExchangeMethod_Bind m => m_wf m
  | ExchangeMethod_BindOk m => m_wf m
  | ExchangeMethod_Declare m => m_wf m
  | ExchangeMethod_DeclareOk m => m_wf m
  end.

Definition ExchangeMethod_norm (v : ExchangeMethod) : ExchangeMethod :=
  match v with
  | ExchangeMethod_unset => ExchangeMethod_unset
  | ExchangeMethod_Bind m => ExchangeMethod_Bind (m_norm m)
  | ExchangeMethod_BindOk m => ExchangeMethod_BindOk (m_norm m)
  | ExchangeMethod_Declare m => ExchangeMethod_Declare (m_norm m)
  | ExchangeMethod_DeclareOk m => ExchangeMethod_DeclareOk (m_norm m)
  end.

#[export] Instance ExchangeMethod_class : MethodClass ExchangeMethod := {
  CLASS_ID := ExchangeMethod_CLASS_ID; c_methodId := ExchangeMethod_methodId; c_encodedSize := ExchangeMethod_encodedSize;
  c_encode := ExchangeMethod_encode; c_decode := ExchangeMethod_decode; c_wf := ExchangeMethod_wf; c_norm := ExchangeMethod_norm;
}.

(** ** QueueMethod *)

Inductive QueueMethod :=
| QueueMethod_unset
| QueueMethod_Declare (m : QueueDeclare)
| QueueMethod_DeclareOk (m : QueueDeclareOk)
| QueueMethod_Bind (m : QueueBind)
| QueueMethod_BindOk (m : QueueBindOk)
| QueueMethod_Unbind (m : QueueUnbind)
| QueueMethod_UnbindOk (m : QueueUnbindOk)
| QueueMethod_Delete (m : QueueDelete)
| QueueMethod_DeleteOk (m : QueueDeleteOk).

Definition QueueMethod_CLASS_ID : Z := QUEUE.

Definition QueueMethod_methodId (v : QueueMethod) : Z :=
  match v with
  | QueueMethod_unset => 0
  | QueueMethod_Declare m => @METHOD_ID QueueDeclare _
  | QueueMethod_DeclareOk m => @METHOD_ID QueueDeclareOk _
  | QueueMethod_Bind m => @METHOD_ID QueueBind _
  | QueueMethod_BindOk m => @METHOD_ID QueueBindOk _
  | QueueMethod_Unbind m => @METHOD_ID QueueUnbind _
  | QueueMethod_UnbindOk m => @METHOD_ID QueueUnbindOk _
  | QueueMethod_Delete m => @METHOD_ID QueueDelete _
  | QueueMethod_DeleteOk m => @METHOD_ID QueueDeleteOk _
  end.

Definition QueueMethod_encodedSize (v : QueueMethod) : nat :=
  2 +
  match v with
  | QueueMethod_unset => 0
  | QueueMethod_Declare m => m_encodedSize m
  | QueueMethod_DeclareOk m => m_encodedSize m
  | QueueMethod_Bind m => m_encodedSize m
  | QueueMethod_BindOk m => m_encodedSize m
  | QueueMethod_Unbind m => m_encodedSize m
  | QueueMethod_UnbindOk m => m_encodedSize m
  | QueueMethod_Delete m => m_encodedSize m
  | QueueMethod_DeleteOk m => m_encodedSize m
  end.

Definition QueueMethod_encode (v : QueueMethod) : bytes :=
  match v with
  | QueueMethod_unset => []
  | QueueMethod_Declare m => encode_method m
  | QueueMethod_DeclareOk m => encode_method m
  | QueueMethod_Bind m => encode_method m
  | QueueMethod_BindOk m => encode_method m
  | QueueMethod_Unbind m => encode_method m
  | QueueMethod_UnbindOk m => encode_method m
  | QueueMethod_Delete m => encode_method m
  | QueueMethod_DeleteOk m => encode_method m
  end.

Definition decodeQueueMethodPayload (methodId : Z) : decoder QueueMethod :=
  if (methodId =? @METHOD_ID QueueDeclare _)%Z then decodeMethod QueueMethod_Declare
  else if (methodId =? @METHOD_ID QueueDeclareOk _)%Z then decodeMethod QueueMethod_DeclareOk
  else if (methodId =? @METHOD_ID QueueBind _)%Z then decodeMethod QueueMethod_Bind
  else if (methodId =? @METHOD_ID QueueBindOk _)%Z then decodeMethod QueueMethod_BindOk
  else if (methodId =? @METHOD_ID QueueUnbind _)%Z then decodeMethod QueueMethod_Unbind
  else if (methodId =? @METHOD_ID QueueUnbindOk _)%Z then decodeMethod QueueMethod_UnbindOk
  else if (methodId =? @METHOD_ID QueueDelete _)%Z then decodeMethod QueueMethod_Delete
  else if (methodId =? @METHOD_ID QueueDeleteOk _)%Z then decodeMethod QueueMethod_DeleteOk
  else dfail.

Definition QueueMethod_decode : decoder QueueMethod :=
  methodId <-- copyUint16 ;;
  decodeQueueMethodPayload methodId.

Definition QueueMethod_wf (v : QueueMethod) : bool :=
  match v with
  | QueueMethod_unset => false
  | QueueMethod_Declare m => m_wf m
  | QueueMethod_DeclareOk m => m_wf m
  | QueueMethod_Bind m => m_wf m
  | QueueMethod_BindOk m => m_wf m
  | QueueMethod_Unbind m => m_wf m
  | QueueMethod_UnbindOk m => m_wf m
  | QueueMethod_Delete m => m_wf m
  | QueueMethod_DeleteOk m => m_wf m
  end.

Definition QueueMethod_norm (v : QueueMethod) : QueueMethod :=
  match v with
  | QueueMethod_unset => QueueMethod_unset
  | QueueMethod_Declare m => QueueMethod_Declare (m_norm m)
  | QueueMethod_DeclareOk m => QueueMethod_DeclareOk (m_norm m)
  | QueueMethod_Bind m => QueueMethod_Bind (m_norm m)
  | QueueMethod_BindOk m => QueueMethod_BindOk (m_norm m)
  | QueueMethod_Unbind m => QueueMethod_Unbind (m_norm m)
  | QueueMethod_UnbindOk m => QueueMethod_UnbindOk (m_norm m)
  | QueueMethod_Delete m => QueueMethod_Delete (m_norm m)
  | QueueMethod_DeleteOk m => QueueMethod_DeleteOk (m_norm m)
  end.

#[export] Instance QueueMethod_class : MethodClass QueueMethod := {
  CLASS_ID := QueueMethod_CLASS_ID; c_methodId := QueueMethod_methodId; c_encodedSize := QueueMethod_encodedSize;
  c_encode := QueueMethod_encode; c_decode := QueueMethod_decode; c_wf := QueueMethod_wf; c_norm := QueueMethod_norm;
}.

(** ** Method *)

Inductive Method :=
| Method_unset
| Method_Basic (v : BasicMethod)
| Method_Channel (v : ChannelMethod)
| Method_Confirm (v : ConfirmMethod)
| Method_Connection (v : ConnectionMethod)
| Method_Exchange (v : ExchangeMethod)
| Method_Queue (v : QueueMethod).

Definition Method_classId (m : Method) : Z :=
  match m with
  | Method_unset => 0
  | Method_Basic v => @CLASS_ID BasicMethod _
  | Method_Channel v => @CLASS_ID ChannelMethod _
  | Method_Confirm v => @CLASS_ID ConfirmMethod _
  | Method_Connection v => @CLASS_ID ConnectionMethod _
  | Method_Exchange v => @CLASS_ID ExchangeMethod _
  | Method_Queue v => @CLASS_ID QueueMethod _
  end.

Definition Method_encodedSize (m : Method) : nat :=
  2 +
  match m with
  | Method_unset => 0
  | Method_Basic v => c_encodedSize v
  | Method_Channel v => c_encodedSize v
  | Method_Confirm v => c_encodedSize v
  | Method_Connection v => c_encodedSize v
  | Method_Exchange v => c_encodedSize v
  | Method_Queue v => c_encodedSize v
  end.

(** [MethodEncoder] *)
Definition encode_class (m : Method) : bytes :=
  match m with
  | Method_unset => []
  | Method_Basic v => c_encode v
  | Method_Channel v => c_encode v
  | Method_Confirm v => c_encode v
  | Method_Connection v => c_encode v
  | Method_Exchange v => c_encode v
  | Method_Queue v => c_encode v
  end.

Definition Method_encode (m : Method) : bytes :=
  writeUint16 (Method_classId m) ++ encode_class m.

Definition decode_class {V} `{MethodClass V} (inj : V → Method) : decoder Method :=
  v <-- c_decode ;; dret (inj v).

Definition decodeMethodPayload (classId : Z) : decoder Method :=
  if (classId =? @CLASS_ID BasicMethod _)%Z then decode_class Method_Basic
  else if (classId =? @CLASS_ID ConfirmMethod _)%Z then decode_class Method_Confirm
  else if (classId =? @CLASS_ID ConnectionMethod _)%Z then decode_class Method_Connection
  else if (classId =? @CLASS_ID ChannelMethod _)%Z then decode_class Method_Channel
  else if (classId =? @CLASS_ID ExchangeMethod _)%Z then decode_class Method_Exchange
  else if (classId =? @CLASS_ID QueueMethod _)%Z then decode_class Method_Queue
  else dfail.

Definition Method_decode : decoder Method :=
  classId <-- copyUint16 ;;
  decodeMethodPayload classId.

(** [Method::Util::typeMatch] on two distinct objects: the [switch] has no case
    for [ConfirmMethod]. *)
Definition Method_typeMatch (lhs rhs : Method) : bool :=
  if (Method_classId lhs =? Method_classId rhs)%Z then
    match lhs, rhs with
    | Method_Basic l, Method_Basic r => (c_methodId l =? c_methodId r)%Z
    | Method_Channel l, Method_Channel r => (c_methodId l =? c_methodId r)%Z
    | Method_Connection l, Method_Connection r => (c_methodId l =? c_methodId r)%Z
    | Method_Exchange l, Method_Exchange r => (c_methodId l =? c_methodId r)%Z
    | Method_Queue l, Method_Queue r => (c_methodId l =? c_methodId r)%Z
    | _, _ => false
    end
  else false.

Definition Method_wf (m : Method) : bool :=
  match m with
  | Method_unset => false
  | Method_Basic v => c_wf v
  | Method_Channel v => c_wf v
  | Method_Confirm v => c_wf v
  | Method_Connection v => c_wf v
  | Method_Exchange v => c_wf v
  | Method_Queue v => c_wf v
  end.

Definition Method_norm (m : Method) : Method :=
  match m with
  | Method_unset => Method_unset
  | Method_Basic v => Method_Basic (c_norm v)
  | Method_Channel v => Method_Channel (c_norm v)
  | Method_Confirm v => Method_Confirm (c_norm v)
  | Method_Connection v => Method_Connection (c_norm v)
  | Method_Exchange v => Method_Exchange (c_norm v)
  | Method_Queue v => Method_Queue (c_norm v)
  end.

End Method.

(** ** Laws *)

Section MethodFacts.
Context {E : EpochUtil} {L : EpochUtilLaws E}.

Lemma dsafe_decodeMethod {M V} `{WireMethodLaws M} (inj : M → V) : dsafe (decodeMethod inj).
Proof. apply dsafe_bind; [apply m_safe | auto with wire]. Qed.

Lemma parses_map {A B} (d : decoder A) (f : A → B) bs a :
  parses d bs a → parses (v <-- d ;; dret (f v)) bs (f a).
Proof.
  intros Hd b rest Hb Hr. destruct (Hd b rest Hb Hr) as [b' Heq].
  unfold dbind. rewrite Heq. by eexists.
Qed.

Lemma parses_encode_method {M V} `{WireMethodLaws M} (inj : M → V) (payload : Z → decoder V) m
    d bs v :
  bs = encode_method m → d = (methodId <-- copyUint16 ;; payload methodId) →
  m_wf m = true → payload METHOD_ID = decodeMethod inj → v = inj (m_norm m) →
  parses d bs v.
Proof.
  intros -> -> Hwf Hp ->. eapply parses_bind; [apply (decodes_copyUint 2), m_id_in |].
  rewrite Hp. by apply parses_map, m_roundtrip.
Qed.

Lemma length_encode_method {M} `{WireMethodLaws M} (m : M) :
  m_wf m = true → length (encode_method m) = 2 + m_encodedSize m.
Proof.
  intros Hwf. unfold encode_method, writeUint16.
  rewrite length_app, length_be_encode, m_size by done. done.
Qed.

#[local] Opaque encode_method.

Tactic Notation "method_class" reference(payload) :=
  constructor;
  [ reflexivity
  | apply dsafe_bind; [apply dsafe_copyUint |];
    intros methodId; unfold payload;
    repeat (destruct (_ =? _)%Z; [apply dsafe_decodeMethod |]); apply dsafe_fail
  | intros []; intros Hwf; [discriminate | ..];
    (lazymatch goal with |- parses _ (c_encode (?inj ?m)) _ =>
       eapply (parses_encode_method inj _ m) end; [reflexivity | reflexivity | exact Hwf | reflexivity ..])
  | intros []; intros Hwf; [discriminate | ..];
    lazymatch goal with |- length (c_encode (?inj ?m)) = _ =>
      exact (length_encode_method m Hwf) end ].

#[export] Instance BasicMethod_laws : MethodClassLaws BasicMethod.
Proof. method_class decodeBasicMethodPayload. Qed.

#[export] Instance ConfirmMethod_laws : MethodClassLaws ConfirmMethod.
Proof. method_class decodeConfirmMethodPayload. Qed.

#[export] Instance ConnectionMethod_laws : MethodClassLaws ConnectionMethod.
Proof. method_class decodeConnectionMethodPayload. Qed.

#[export] Instance ChannelMethod_laws : MethodClassLaws ChannelMethod.
Proof. method_class decodeChannelMethodPayload. Qed.

#[export] Instance ExchangeMethod_laws : MethodClassLaws ExchangeMethod.
Proof. method_class decodeExchangeMethodPayload. Qed.

#[export] Instance QueueMethod_laws : MethodClassLaws QueueMethod.
Proof. method_class decodeQueueMethodPayload. Qed.

Lemma dsafe_decode_class {V} `{MethodClassLaws V} (inj : V → Method) :
  dsafe (decode_class inj).
Proof. apply dsafe_bind; [apply c_safe | auto with wire]. Qed.

Lemma dsafe_method : dsafe Method_decode.
Proof.
  apply dsafe_bind; [apply dsafe_copyUint |]. intros z. unfold decodeMethodPayload.
  repeat (destruct (_ =? _)%Z; [apply dsafe_decode_class |]). apply dsafe_fail.
Qed.

Lemma parses_encode_class {V} `{MethodClassLaws V} (inj : V → Method) v bs m :
  bs = writeUint16 CLASS_ID ++ c_encode v → c_wf v = true →
  decodeMethodPayload CLASS_ID = decode_class inj → m = inj (c_norm v) →
  parses Method_decode bs m.
Proof.
  intros -> Hwf Hp ->. eapply parses_bind; [apply (decodes_copyUint 2), c_id_in |].
  rewrite Hp. by apply parses_map, c_roundtrip.
Qed.

Lemma parses_method m :
  Method_wf m = true → parses Method_decode (Method_encode m) (Method_norm m).
Proof.
  destruct m as [| v | v | v | v | v | v]; intros Hwf; [discriminate | ..];
    (eapply (parses_encode_class _ v); [reflexivity | exact Hwf | reflexivity ..]).
Qed.

Lemma length_method m : Method_wf m = true → length (Method_encode m) = Method_encodedSize m.
Proof.
  intros Hwf. unfold Method_encode, writeUint16. rewrite length_app, length_be_encode.
  destruct m as [| v | v | v | v | v | v]; [discriminate | ..];
    exact (f_equal (Nat.add 2) (c_size v Hwf)).
Qed.

End MethodFacts.

(** ** Theorems *)

Section MethodTheorems.
Context {E : EpochUtil} {L : EpochUtilLaws E}.

(** decoding a method payload, whatever class and method ids and whatever
    bytes follow them, never reads outside the buffer, violates no assertion and
    always returns. *)
Theorem method_decode_total (data : bytes) :
  match Method_decode (Buffer_of data) with
  | Ok _ b' | Err b' => extends (Buffer_of data) b'
  | Violation | OutOfFuel => False
  end.
Proof.
  pose proof (dsafe_method (Buffer_of data) (Buffer_of_wf data)) as H.
  unfold wp in H. destruct (Method_decode (Buffer_of data)); tauto.
Qed.

(** C24: for each of the 39 methods, encoding a method whose values are in the
    range of their types, with its class and method ids, and decoding the bytes
    dispatches back to the same method with the same fields (field tables
    normalised); [encodedSize] is exactly the number of bytes written, which is
    what the frame header announces. *)
Theorem method_roundtrip (m : Method) (Hwf : Method_wf m = true) :
  (∃ b', Method_decode (Buffer_of (Method_encode m)) = Ok (Method_norm m) b') ∧
  length (Method_encode m) = Method_encodedSize m.
Proof.
  split; [| by apply length_method].
  apply (parses_method m Hwf) with (rest := []); auto with wire.
  by rewrite remaining_Buffer_of, app_nil_r.
Qed.

Definition is_confirm (m : Method) : bool :=
  match m with Method_Confirm _ => true | _ => false end.

(** The id of the method held by the class variant. *)
Definition Method_methodId (m : Method) : Z :=
  match m with
  | Method_unset => 0
  | Method_Basic v => c_methodId v
  | Method_Channel v => c_methodId v
  | Method_Confirm v => c_methodId v
  | Method_Connection v => c_methodId v
  | Method_Exchange v => c_methodId v
  | Method_Queue v => c_methodId v
  end.

(** [typeMatch] on two distinct, set methods holds exactly when class id and
    method id agree, except that two confirm methods never match: the switch on
    the class id lacks their case. *)
Theorem typeMatch_spec (lhs rhs : Method) :
  Method_typeMatch lhs rhs = true ↔
  (Method_classId lhs = Method_classId rhs ∧ Method_methodId lhs = Method_methodId rhs ∧
   lhs ≠ Method_unset ∧ is_confirm lhs = false).
Proof.
  unfold Method_typeMatch.
  destruct lhs, rhs; simpl; rewrite ?Z.eqb_eq; unfold CLASS_ID; simpl;
    intuition (congruence || discriminate || lia).
Qed.

End MethodTheorems.

Definition sample_method : Method :=
  Method_Queue (QueueMethod_Declare (mkQueueDeclare (str "orders") false true false true false
                                       sample_table)).

Lemma method_roundtrip_witness :
  Method_wf sample_method = true ∧
  (∃ b', Method_decode (Buffer_of (Method_encode sample_method))
         = Ok (Method_norm sample_method) b').
Proof.
  split; [vm_compute; reflexivity |].
  apply (method_roundtrip sample_method). vm_compute. reflexivity.
Defined.

Lemma method_decode_total_witness :
  match Method_decode (Buffer_of (str "garbage")) with
  | Ok _ b' | Err b' => extends (Buffer_of (str "garbage")) b'
  | Violation | OutOfFuel => False
  end.
Proof. apply (method_decode_total (str "garbage")). Defined.
