(* ===== verification/Frame.v ===== *)
(** * Frame: frames and the incremental frame decoder

    Models [rmqamqpt::Frame] (rmqamqpt_frame.cpp, rmqamqpt_frame.h),
    [rmqio::Decoder] (rmqio_decoder.cpp) and [rmqio::SerializedFrame]
    (rmqio_serializedframe.cpp).

    The theorems are about the byte stream of a connection: however the bytes
    are cut into reads, the decoder yields the frames of the stream in order,
    keeps the incomplete tail, and neither loses nor invents a byte. *)

From Stdlib Require Import ZArith Lia String Strings.Byte.
From stdpp Require Import base tactics list.
From S2P Require Import Prelude Constants Wire.

(** ** Frame *)

Record Frame := mkFrame {
  f_type : Z;
  f_channel : Z;
  f_serializedData : option bytes;
}.

Definition Frame_MAX_FRAME_SIZE : nat := 150 * 1000.

(** [sizeof(type) + sizeof(channel) + sizeof(payloadLength)] *)
Definition frameHeaderSize : nat := 1 + 2 + 4.

Definition frameOverhead : nat := frameHeaderSize + 1.

Definition calculateFrameSize (payloadSize : nat) : nat := payloadSize + frameOverhead.

(** An unsigned subtraction of [size_t]. *)
Definition Frame_payloadLength (f : Frame) : nat :=
  match f_serializedData f with
  | Some d => Z.to_nat (uwrap 64 (Z.of_nat (length d) - Z.of_nat frameOverhead))
  | None => 0
  end.

Definition Frame_rawData (f : Frame) : option bytes :=
  match f_serializedData f with
  | None => None
  | Some [] => None
  | Some d => Some d
  end.

(** The payload pointer; readers take [payloadLength()] bytes from it. *)
Definition Frame_payload (f : Frame) : option bytes :=
  match Frame_rawData f with
  | Some d => Some (drop frameHeaderSize d)
  | None => None
  end.

(** The bytes a reader of [(payload(), payloadLength())] sees. *)
Definition Frame_payloadBytes (f : Frame) : bytes :=
  take (Frame_payloadLength f) (default [] (Frame_payload f)).

Definition totalFrameSize (f : Frame) : nat :=
  match f_serializedData f with
  | Some d => length d
  | None => 0
  end.

Inductive FrameResult :=
| F_OK (frame : Frame) (readBytes : nat) (missingBytes : nat)
| F_PARTIAL
| F_DECODE_ERROR.

(** The [n] bytes at offset [i]. *)
Definition slice (i n : nat) (l : bytes) : bytes := take n (drop i l).

(** [Frame::decode]; [readBytes] and [missingBytes] are only set on success. *)
Definition Frame_decode (buffer : bytes) : FrameResult :=
  let bufferLen := length buffer in
  if bufferLen <? frameOverhead then F_PARTIAL
  else
    let payloadLength := Z.to_nat (be_decode (slice 3 4 buffer)) in
    if bufferLen <? frameOverhead + payloadLength then F_PARTIAL
    else
      let type := be_decode (slice 0 1 buffer) in
      let channel := be_decode (slice 1 2 buffer) in
      let buffer_len := frameHeaderSize + payloadLength in
      if negb (be_decode (slice buffer_len 1 buffer) =? FRAME_END)%Z then F_DECODE_ERROR
      else F_OK (mkFrame type channel (Some (take (frameOverhead + payloadLength) buffer)))
                (payloadLength + frameOverhead)
                (bufferLen - (frameOverhead + payloadLength)).

(** ** rmqio::Decoder *)

Record Decoder := mkDecoder {
  d_maxFrameSize : nat;
  d_buffer : bytes;
}.

Inductive DecoderResult := D_OK | D_MAX_FRAME_SIZE | D_DECODE_ERROR.

Definition Decoder_create (maxFrameSize : nat) : Decoder := mkDecoder maxFrameSize [].

(** The [while] loop of [appendBytes], from [readFrom] on: the frames pushed to
    [outFrames], the bytes read, and whether it stopped on an error ([true]) or on
    a partial frame. [None]: out of fuel. *)
Fixpoint appendBytes_loop (fuel : nat) (readFrom : bytes) : option (list Frame * nat * bool) :=
  match fuel with
  | O => None
  | S fuel' =>
      match Frame_decode readFrom with
      | F_OK frame readBytes _ =>
          '(frames, totalRead, err) ← appendBytes_loop fuel' (drop readBytes readFrom);
          Some (frame :: frames, readBytes + totalRead, err)
      | F_PARTIAL => Some ([], 0, false)
      | F_DECODE_ERROR => Some ([], 0, true)
      end
  end.

(** [Decoder::appendBytes]: the new state, the frames pushed to [outFrames] and
    the return code. Every frame takes at least [frameOverhead] bytes, so the
    buffer length bounds the iterations. *)
Definition Decoder_appendBytes (d : Decoder) (data : bytes)
  : option (Decoder * list Frame * DecoderResult) :=
  let buffer := d_buffer d ++ data in
  '(frames, totalRead, err) ← appendBytes_loop (S (length buffer)) buffer;
  if (err : bool) then
    Some (mkDecoder (d_maxFrameSize d) buffer, frames, D_DECODE_ERROR)
  else
    let buffer := drop totalRead buffer in
    let d' := mkDecoder (d_maxFrameSize d) buffer in
    if d_maxFrameSize d <? length buffer then Some (d', frames, D_MAX_FRAME_SIZE)
    else Some (d', frames, D_OK).

(** A connection's reads, one [appendBytes] per chunk, stopping at the first
    return code other than [OK]. *)
Fixpoint Decoder_feed (d : Decoder) (chunks : list bytes)
  : option (Decoder * list Frame * DecoderResult) :=
  match chunks with
  | [] => Some (d, [], D_OK)
  | chunk :: chunks' =>
      '(d', frames, rc) ← Decoder_appendBytes d chunk;
      match rc with
      | D_OK =>
          '(d'', frames', rc') ← Decoder_feed d' chunks';
          Some (d'', frames ++ frames', rc')
      | _ => Some (d', frames, rc)
      end
  end.

(** ** rmqio::SerializedFrame *)

Record SerializedFrame := mkSerializedFrame {
  sf_length : nat;
  sf_buffer : option bytes;
}.

Definition SerializedFrame_of_frame (f : Frame) : SerializedFrame :=
  mkSerializedFrame (totalFrameSize f) (f_serializedData f).

Definition SerializedFrame_of_data (data : bytes) : SerializedFrame :=
  mkSerializedFrame (length data) (Some data).

(** The bytes handed to the socket: [frameLength()] bytes from [serialized()]. *)
Definition SerializedFrame_bytes (s : SerializedFrame) : bytes :=
  if sf_length s =? 0 then [] else take (sf_length s) (default [] (sf_buffer s)).

(** ** Specification: the bytes of a frame *)

(** The bytes of a frame with a given end octet. *)
Definition framed (endOctet : Z) (type channel : Z) (payload : bytes) : bytes :=
  writeUint8 type ++ writeUint16 channel ++ writeUint32 (Z.of_nat (length payload)) ++
  payload ++ writeUint8 endOctet.

Definition frame_bytes (type channel : Z) (payload : bytes) : bytes :=
  framed FRAME_END type channel payload.

(** A frame whose serialized data are those bytes. *)
Definition frame_of (type channel : Z) (payload : bytes) : Frame :=
  mkFrame type channel (Some (frame_bytes type channel payload)).

Definition frame_wf (f : Frame) : Prop :=
  ∃ payload, f = frame_of (f_type f) (f_channel f) payload ∧
             u_in 8 (f_type f) = true ∧ u_in 16 (f_channel f) = true ∧
             u_in 32 (Z.of_nat (length payload)) = true.

Definition serialized (f : Frame) : bytes := default [] (f_serializedData f).

(** The bytes of a sequence of frames on the wire. *)
Definition wire_of (fs : list Frame) : bytes := concat (serialized <$> fs).

Lemma wire_of_cons f fs : wire_of (f :: fs) = serialized f ++ wire_of fs.
Proof. done. Qed.

Lemma wire_of_app fs gs : wire_of (fs ++ gs) = wire_of fs ++ wire_of gs.
Proof. unfold wire_of. by rewrite fmap_app, concat_app. Qed.

(** ** Facts about one frame *)

Lemma length_framed endOctet type channel payload :
  length (framed endOctet type channel payload) = frameOverhead + length payload.
Proof.
  unfold framed, writeUint8, writeUint16, writeUint32, frameOverhead, frameHeaderSize.
  rewrite 4!length_app, !length_be_encode. lia.
Qed.

Lemma length_frame_bytes type channel payload :
  length (frame_bytes type channel payload) = frameOverhead + length payload.
Proof. apply length_framed. Qed.

Lemma slice_app_skip i n (a b : bytes) :
  length a ≤ i → slice i n (a ++ b) = slice (i - length a) n b.
Proof. intros H. unfold slice. by rewrite drop_app_ge. Qed.

Lemma slice_head n (a b : bytes) : length a = n → slice 0 n (a ++ b) = a.
Proof. intros <-. unfold slice. rewrite drop_0. apply take_app_length. Qed.

Section Framed.
Context (endOctet type channel : Z) (payload rest : bytes).
Context (He : u_in 8 endOctet = true) (Ht : u_in 8 type = true) (Hc : u_in 16 channel = true)
        (Hp : u_in 32 (Z.of_nat (length payload)) = true).

Ltac skip_fields :=
  unfold framed; rewrite <- !app_assoc; repeat (rewrite slice_app_skip by
    (unfold writeUint8, writeUint16, writeUint32; rewrite ?length_be_encode; lia));
  unfold writeUint8, writeUint16, writeUint32; rewrite ?length_be_encode.

(** The fields at their offsets. *)
Lemma framed_fields :
  let buffer := framed endOctet type channel payload ++ rest in
  slice 0 1 buffer = be_encode 1 type ∧
  slice 1 2 buffer = be_encode 2 channel ∧
  slice 3 4 buffer = be_encode 4 (Z.of_nat (length payload)) ∧
  slice (frameHeaderSize + length payload) 1 buffer = be_encode 1 endOctet.
Proof.
  unfold frameHeaderSize. split; [| split; [| split]]; skip_fields;
    try (apply slice_head, length_be_encode).
  replace (_ - _ - _ - _ - _) with 0 by lia. apply slice_head, length_be_encode.
Qed.

(** Decoding bytes that start with those of a frame reads exactly that frame,
    when its end octet is right. *)
Lemma Frame_decode_framed :
  Frame_decode (framed endOctet type channel payload ++ rest)
  = if (endOctet =? FRAME_END)%Z
    then F_OK (mkFrame type channel (Some (framed endOctet type channel payload)))
              (frameOverhead + length payload) (length rest)
    else F_DECODE_ERROR.
Proof.
  destruct framed_fields as (Hs0 & Hs1 & Hs3 & Hs7).
  pose proof (length_framed endOctet type channel payload) as Hlen.
  unfold Frame_decode. rewrite length_app, Hlen, Hs3, Hs0, Hs1.
  rewrite !be_decode_encode, (uwrap_small _ (Z.of_nat _)), Nat2Z.id, Hs7 by done.
  rewrite be_decode_encode, !uwrap_small by done. set (n := length payload) in *.
  destruct (Nat.ltb_spec (frameOverhead + n + length rest) frameOverhead); [lia |].
  destruct (Nat.ltb_spec (frameOverhead + n + length rest) (frameOverhead + n)); [lia |].
  destruct (endOctet =? FRAME_END)%Z; cbn [negb]; [| done].
  f_equal; [| lia | lia]. f_equal. f_equal. by rewrite <- Hlen, take_app_length.
Qed.
End Framed.

Lemma Frame_decode_complete type channel payload rest :
  u_in 8 type = true → u_in 16 channel = true → u_in 32 (Z.of_nat (length payload)) = true →
  Frame_decode (frame_bytes type channel payload ++ rest)
  = F_OK (frame_of type channel payload) (frameOverhead + length payload) (length rest).
Proof. intros. unfold frame_bytes. by rewrite Frame_decode_framed. Qed.

(** What a successful decode read. *)
Lemma Frame_decode_ok buffer f n m :
  Frame_decode buffer = F_OK f n m →
  frameOverhead ≤ n ∧ n ≤ length buffer ∧ f_serializedData f = Some (take n buffer).
Proof.
  unfold Frame_decode. intros H.
  destruct (Nat.ltb_spec (length buffer) frameOverhead); [done |].
  destruct (Nat.ltb_spec (length buffer)
              (frameOverhead + Z.to_nat (be_decode (slice 3 4 buffer)))); [done |].
  destruct (negb _); [done |]. simplify_eq. cbn [f_serializedData].
  split; [lia |]. split; [lia |]. by rewrite Nat.add_comm.
Qed.

Lemma slice_take i n k (l : bytes) : i + n ≤ k → slice i n (take k l) = slice i n l.
Proof.
  intros H. unfold slice. rewrite skipn_firstn_comm, take_take. f_equal. lia.
Qed.

Lemma slice_app i n (a b : bytes) : i + n ≤ length a → slice i n (a ++ b) = slice i n a.
Proof.
  intros H. rewrite <- (slice_take i n (length a) (a ++ b)) by done. by rewrite take_app_length.
Qed.

(** More bytes do not change an answer other than [PARTIAL]. *)
Lemma Frame_decode_extend a b :
  Frame_decode a ≠ F_PARTIAL →
  Frame_decode (a ++ b) =
    match Frame_decode a with F_OK f n m => F_OK f n (m + length b) | r => r end.
Proof.
  unfold Frame_decode. rewrite length_app. intros H.
  destruct (Nat.ltb_spec (length a) frameOverhead) as [| Ha]; [done |].
  assert (slice 3 4 (a ++ b) = slice 3 4 a) as ->.
  { apply slice_app. unfold frameOverhead, frameHeaderSize in Ha. lia. }
  set (p := Z.to_nat (be_decode (slice 3 4 a))) in *.
  destruct (Nat.ltb_spec (length a) (frameOverhead + p)) as [| Hp]; [done |].
  destruct (Nat.ltb_spec (length a + length b) frameOverhead); [lia |].
  destruct (Nat.ltb_spec (length a + length b) (frameOverhead + p)); [lia |].
  rewrite !slice_app by (unfold frameOverhead, frameHeaderSize in *; lia).
  destruct (negb _); [done |]. f_equal; [| lia]. f_equal. f_equal.
  rewrite take_app_le by lia. done.
Qed.

Lemma Frame_decode_read_size buffer f n m :
  Frame_decode buffer = F_OK f n m → totalFrameSize f = n ∧ serialized f = take n buffer.
Proof.
  intros (H1 & H2 & H3)%Frame_decode_ok. unfold totalFrameSize, serialized. rewrite H3.
  rewrite length_take. simpl. split; [lia | done].
Qed.

Lemma Frame_payload_frame_of type channel payload :
  u_in 32 (Z.of_nat (length payload)) = true →
  Frame_payloadLength (frame_of type channel payload) = length payload ∧
  Frame_payload (frame_of type channel payload) = Some (payload ++ writeUint8 FRAME_END).
Proof.
  intros Hp%u_in_iff. unfold Frame_payloadLength, Frame_payload, Frame_rawData, frame_of.
  cbn [f_serializedData]. rewrite length_frame_bytes. split.
  - rewrite uwrap_small, Nat2Z.inj_add, Z.add_simpl_l, Nat2Z.id; [done |].
    rewrite Nat2Z.inj_add, Z.add_simpl_l. apply u_in_iff. split; [lia |].
    eapply Z.lt_trans; [apply Hp |]. by apply Z.pow_lt_mono_r.
  - unfold frame_bytes, framed. rewrite !app_assoc, <- (app_assoc _ payload).
    set (h := (writeUint8 type ++ _) ++ _).
    assert (length h = frameHeaderSize) as Hlen
      by (unfold h, writeUint8, writeUint16, writeUint32; by rewrite 2!length_app, !length_be_encode).
    rewrite <- Hlen. clearbody h. destruct h as [| x h]; [done |].
    cbn [app]. f_equal. apply (drop_app_length (x :: h)).
Qed.

(** ** The decoding loop *)

Lemma appendBytes_loop_fuel n m buffer :
  length buffer < n → length buffer < m → appendBytes_loop n buffer = appendBytes_loop m buffer.
Proof.
  revert m buffer. induction n as [| n IH]; intros m buffer Hn Hm; [lia |].
  destruct m as [| m]; [lia |]. simpl. destruct (Frame_decode buffer) as [f k mis | |] eqn:Hd; try done.
  destruct (Frame_decode_ok _ _ _ _ Hd) as (Hk & Hk' & _). unfold frameOverhead in Hk.
  rewrite (IH m (drop k buffer)); [done | |]; rewrite length_drop; lia.
Qed.

(** The loop with enough fuel. *)
Definition decode_all (buffer : bytes) : option (list Frame * nat * bool) :=
  appendBytes_loop (S (length buffer)) buffer.

Lemma decode_all_step buffer :
  decode_all buffer =
    match Frame_decode buffer with
    | F_OK frame readBytes _ =>
        '(frames, totalRead, err) ← decode_all (drop readBytes buffer);
        Some (frame :: frames, readBytes + totalRead, err)
    | F_PARTIAL => Some ([], 0, false)
    | F_DECODE_ERROR => Some ([], 0, true)
    end.
Proof.
  unfold decode_all at 1. simpl. destruct (Frame_decode buffer) as [f k mis | |] eqn:Hd; try done.
  destruct (Frame_decode_ok _ _ _ _ Hd) as (Hk & Hk' & _). unfold frameOverhead in Hk.
  unfold decode_all. rewrite (appendBytes_loop_fuel (length buffer) (S (length (drop k buffer))));
    [done | |]; rewrite length_drop; lia.
Qed.

(** Induction along the loop. *)
Lemma decode_all_ind (P : bytes → Prop) :
  (∀ buffer, (∀ f n m, Frame_decode buffer = F_OK f n m → P (drop n buffer)) → P buffer) →
  ∀ buffer, P buffer.
Proof.
  intros HP buffer. remember (length buffer) as k eqn:Hk. revert buffer Hk.
  induction (lt_wf k) as [k _ IH]. intros buffer ->. apply HP. intros f n m Hd.
  destruct (Frame_decode_ok _ _ _ _ Hd) as (Hn & Hn' & _). unfold frameOverhead in Hn.
  eapply IH; [| reflexivity]. rewrite length_drop. lia.
Qed.

(** The loop returns; it reads exactly the bytes of the frames it pushes. *)
Lemma decode_all_total buffer :
  ∃ fs n err, decode_all buffer = Some (fs, n, err) ∧ n ≤ length buffer ∧
              wire_of fs = take n buffer ∧
              Frame_decode (drop n buffer) = if err then F_DECODE_ERROR else F_PARTIAL.
Proof.
  induction buffer as [buffer IH] using decode_all_ind. rewrite decode_all_step.
  destruct (Frame_decode buffer) as [f k mis | |] eqn:Hd.
  - destruct (IH f k mis eq_refl) as (fs & n & err & -> & Hn & Hw & Hf). simpl.
    rewrite length_drop in Hn. destruct (Frame_decode_read_size _ _ _ _ Hd) as [Hs1 Hs2].
    destruct (Frame_decode_ok _ _ _ _ Hd) as (_ & Hk & _).
    eexists _, _, _. split; [reflexivity |]. split; [lia |]. split.
    + rewrite wire_of_cons, Hw, Hs2.
      rewrite <- (take_drop k (take (k + n) buffer)), take_take, skipn_firstn_comm.
      f_equal; f_equal; lia.
    + by rewrite drop_drop in Hf.
  - exists [], 0, false. rewrite drop_0. repeat split; [lia | done].
  - exists [], 0, true. rewrite drop_0. repeat split; [lia | done].
Qed.

(** Decoding resumes where it stopped. *)
Lemma decode_all_app a b fs n :
  decode_all a = Some (fs, n, false) →
  decode_all (a ++ b) =
    '(fs', n', err) ← decode_all (drop n a ++ b); Some (fs ++ fs', n + n', err).
Proof.
  revert fs n. induction a as [a IH] using decode_all_ind. intros fs n.
  rewrite decode_all_step. destruct (Frame_decode a) as [f k mis | |] eqn:Hd; intros H.
  - destruct (decode_all (drop k a)) as [[[fs' n'] err'] |] eqn:Hrest; [| done].
    simpl in H. simplify_eq. rewrite decode_all_step.
    rewrite Frame_decode_extend, Hd by (by rewrite Hd).
    destruct (Frame_decode_ok _ _ _ _ Hd) as (_ & Hk & _).
    rewrite drop_app_le by lia. rewrite (IH _ _ _ eq_refl _ _ Hrest), drop_drop.
    destruct (decode_all (drop (k + n') a ++ b)) as [[[fs'' n''] err''] |]; simpl; [| done].
    do 3 f_equal. lia.
  - simplify_eq. rewrite drop_0. by destruct (decode_all (a ++ b)) as [[[??]?] |].
  - done.
Qed.

(** ** Streams of frames *)

Lemma frame_wf_decode f rest :
  frame_wf f → Frame_decode (serialized f ++ rest) = F_OK f (length (serialized f)) (length rest).
Proof.
  intros (payload & Hf & Ht & Hc & Hp). destruct f as [ty ch sd].
  cbn [f_type f_channel] in *. unfold frame_of in Hf. injection Hf as ->.
  change (serialized _) with (frame_bytes ty ch payload).
  rewrite Frame_decode_complete, length_frame_bytes by done. done.
Qed.

Lemma decode_all_frames fs b :
  Forall frame_wf fs →
  decode_all (wire_of fs ++ b) =
    '(fs', n, err) ← decode_all b; Some (fs ++ fs', length (wire_of fs) + n, err).
Proof.
  induction 1 as [| f fs Hf Hfs IH].
  { simpl. by destruct (decode_all b) as [[[??]?] |]. }
  rewrite wire_of_cons, <- app_assoc, decode_all_step, frame_wf_decode by done.
  rewrite drop_app_length, IH. destruct (decode_all b) as [[[fs' n] err] |]; simpl; [| done].
  rewrite length_app. do 3 f_equal. lia.
Qed.

(** A strict prefix of a frame is a partial frame. *)
Lemma frame_wf_prefix f p q :
  frame_wf f → serialized f = p ++ q → q ≠ [] → Frame_decode p = F_PARTIAL.
Proof.
  intros Hf Hpq Hq. pose proof (frame_wf_decode f [] Hf) as Hd. rewrite app_nil_r, Hpq in Hd.
  destruct (Frame_decode p) as [f' n m | |] eqn:Hp; [| done |];
    rewrite Frame_decode_extend, Hp in Hd by (by rewrite Hp); [| done].
  simplify_eq. apply Frame_decode_ok in Hp as (_ & Hn & _). rewrite length_app in Hn.
  destruct q; [done |]. simpl in Hn. lia.
Qed.

(** Cutting a stream anywhere: complete frames, then a strict prefix of the next
    one, or a prefix of the tail. *)
Lemma stream_cut p q fs tail :
  Forall frame_wf fs → p ++ q = wire_of fs ++ tail →
  ∃ fs1 fs2 p', fs = fs1 ++ fs2 ∧ p = wire_of fs1 ++ p' ∧ p' ++ q = wire_of fs2 ++ tail ∧
    match fs2 with
    | [] => True
    | f :: _ => Frame_decode p' = F_PARTIAL ∧ length p' < totalFrameSize f
    end.
Proof.
  intros Hfs. revert p. induction Hfs as [| f fs Hf Hfs IH]; intros p Hpq.
  - by exists [], [], p.
  - rewrite wire_of_cons, <- app_assoc in Hpq.
    apply app_eq_inv in Hpq as [(k & -> & Hk) | (k & Hk1 & Hk2)].
    + destruct (IH k (eq_sym Hk)) as (fs1 & fs2 & p' & -> & -> & Hp' & Hm).
      exists (f :: fs1), fs2, p'. by rewrite wire_of_cons, app_assoc.
    + destruct k as [| x k].
      * rewrite app_nil_r in Hk1. simpl in Hk2. destruct (IH [] Hk2) as (fs1 & fs2 & p' & -> & Hn & Hp' & Hm).
        exists (f :: fs1), fs2, p'. rewrite wire_of_cons, <- app_assoc, <- Hn, app_nil_r.
        by rewrite Hk1.
      * exists [], (f :: fs), p. rewrite wire_of_cons, Hk1, Hk2, <- !app_assoc.
        split; [done |]. split; [done |]. split; [done |]. split.
        -- by eapply frame_wf_prefix.
        -- unfold totalFrameSize. unfold serialized in Hk1.
           destruct (f_serializedData f); simpl in Hk1; [| by destruct p].
           rewrite Hk1, length_app. simpl. lia.
Qed.

(** What may follow the frames: every prefix is a partial frame that fits the
    buffer limit, or a decode error. *)
Definition tail_ok (max : nat) (tail : bytes) : Prop :=
  ∀ p q, p ++ q = tail →
    (Frame_decode p = F_PARTIAL ∧ length p ≤ max) ∨ Frame_decode p = F_DECODE_ERROR.

Lemma appendBytes_cut max buf c q fs tail :
  Forall (fun f => frame_wf f ∧ totalFrameSize f ≤ max) fs → tail_ok max tail →
  buf ++ c ++ q = wire_of fs ++ tail →
  (∃ fs1 fs2 p', fs = fs1 ++ fs2 ∧ p' ++ q = wire_of fs2 ++ tail ∧ Frame_decode p' = F_PARTIAL ∧
     Decoder_appendBytes (mkDecoder max buf) c = Some (mkDecoder max p', fs1, D_OK)) ∨
  (∃ d', Decoder_appendBytes (mkDecoder max buf) c = Some (d', fs, D_DECODE_ERROR) ∧
         Frame_decode tail = F_DECODE_ERROR).
Proof.
  intros Hfs Htail Hs. rewrite app_assoc in Hs.
  assert (Forall frame_wf fs) as Hwf by (eapply Forall_impl; [done | by intros ? [? _]]).
  destruct (stream_cut _ _ _ _ Hwf Hs) as (fs1 & fs2 & p' & -> & Hp & Hp' & Hm).
  apply Forall_app in Hfs as [_ Hfs2], Hwf as [Hwf1 _].
  assert ((Frame_decode p' = F_PARTIAL ∧ length p' ≤ max) ∨
          (Frame_decode p' = F_DECODE_ERROR ∧ fs2 = [])) as Hcase.
  { destruct fs2 as [| f fs2]; [destruct (Htail p' q Hp'); auto |].
    apply Forall_cons in Hfs2 as [[_ Hmax] _]. destruct Hm. left. split; [done | lia]. }
  unfold Decoder_appendBytes. simpl d_buffer. simpl d_maxFrameSize. fold (decode_all (buf ++ c)).
  rewrite Hp, decode_all_frames, decode_all_step by done.
  destruct Hcase as [[Hd Hl] | [Hd ->]]; rewrite Hd; simpl.
  - left. exists fs1, fs2, p'. split; [done |]. split; [done |]. split; [done |].
    rewrite Nat.add_0_r, drop_app_length. destruct (Nat.ltb_spec max (length p')); [lia |].
    by rewrite app_nil_r.
  - right. rewrite app_nil_r. eexists. split; [done |]. simpl in Hp'. rewrite <- Hp'.
    rewrite Frame_decode_extend; rewrite Hd; done.
Qed.

Lemma feed_stream max chunks buf fs tail :
  Forall (fun f => frame_wf f ∧ totalFrameSize f ≤ max) fs → tail_ok max tail →
  Frame_decode buf = F_PARTIAL → buf ++ concat chunks = wire_of fs ++ tail →
  match Frame_decode tail with
  | F_DECODE_ERROR => ∃ d', Decoder_feed (mkDecoder max buf) chunks = Some (d', fs, D_DECODE_ERROR)
  | _ => Decoder_feed (mkDecoder max buf) chunks = Some (mkDecoder max tail, fs, D_OK)
  end.
Proof.
  intros Hfs Htail. revert buf fs Hfs. induction chunks as [| c cs IH]; intros buf fs Hfs Hbuf Hs.
  - simpl in Hs. rewrite app_nil_r in Hs. subst buf. destruct fs as [| f fs].
    + simpl in *. by rewrite Hbuf.
    + apply Forall_cons in Hfs as [[Hf _] _].
      rewrite wire_of_cons, <- app_assoc, frame_wf_decode in Hbuf; done.
  - simpl in Hs. simpl Decoder_feed.
    destruct (appendBytes_cut _ _ _ _ _ _ Hfs Htail Hs)
      as [(fs1 & fs2 & p' & -> & Hp' & Hd & ->) | (d' & -> & ->)]; simpl; [| by eexists].
    apply Forall_app in Hfs as [_ Hfs2]. specialize (IH p' fs2 Hfs2 Hd Hp').
    destruct (Frame_decode tail); [by rewrite IH .. |]. destruct IH as [d' ->]. by eexists.
Qed.

Lemma tail_ok_partial max tail :
  Frame_decode tail = F_PARTIAL → length tail ≤ max → tail_ok max tail.
Proof.
  intros Ht Hl p q <-. left. rewrite length_app in Hl. split; [| lia].
  destruct (Frame_decode p) eqn:Hp; [| done |];
    rewrite Frame_decode_extend, Hp in Ht by (by rewrite Hp); done.
Qed.

Lemma tail_ok_error max bad rest :
  Frame_decode bad = F_DECODE_ERROR → length bad ≤ max → tail_ok max (bad ++ rest).
Proof.
  intros Hb Hl p q Hpq. apply app_eq_inv in Hpq as [(k & -> & _) | (k & Hk & _)].
  - right. rewrite Frame_decode_extend; rewrite Hb; done.
  - destruct (Frame_decode p) eqn:Hp; [| left | by right].
    + rewrite Hk, Frame_decode_extend, Hp in Hb by (by rewrite Hp). done.
    + rewrite Hk, length_app in Hl. split; [done | lia].
Qed.

(** One call: it returns, and accounts for every byte. *)
Lemma appendBytes_accounts d c :
  ∃ d' fs rc, Decoder_appendBytes d c = Some (d', fs, rc) ∧ d_maxFrameSize d' = d_maxFrameSize d ∧
    match rc with
    | D_OK => d_buffer d ++ c = wire_of fs ++ d_buffer d' ∧ length (d_buffer d') ≤ d_maxFrameSize d
    | _ => wire_of fs `prefix_of` d_buffer d ++ c
    end.
Proof.
  unfold Decoder_appendBytes. fold (decode_all (d_buffer d ++ c)).
  destruct (decode_all_total (d_buffer d ++ c)) as (fs & n & err & -> & Hn & Hw & _). simpl.
  assert (d_buffer d ++ c = wire_of fs ++ drop n (d_buffer d ++ c)) as Heq
    by (by rewrite Hw, take_drop).
  destruct err; [| destruct (Nat.ltb_spec (d_maxFrameSize d) (length (drop n (d_buffer d ++ c))))];
    (eexists _, _, _; split; [reflexivity |]; split; [reflexivity |]; simpl);
    [by exists (drop n (d_buffer d ++ c)) .. | by split].
Qed.

(** ** Theorems *)

(** the decoder returns on every sequence of reads; as long as it answers
    [OK], the bytes received are exactly those of the frames handed out, in order,
    followed by what is buffered, and at most [maxFrameSize] bytes are buffered;
    when it answers with an error, the frames handed out are still a prefix of
    the stream. *)
Theorem decoder_accounts_for_bytes (max : nat) (chunks : list bytes) :
  ∃ d' fs rc, Decoder_feed (Decoder_create max) chunks = Some (d', fs, rc) ∧
    match rc with
    | D_OK => concat chunks = wire_of fs ++ d_buffer d' ∧ length (d_buffer d') ≤ max
    | _ => wire_of fs `prefix_of` concat chunks
    end.
Proof.
  assert (∀ d, length (d_buffer d) ≤ d_maxFrameSize d →
    ∃ d' fs rc, Decoder_feed d chunks = Some (d', fs, rc) ∧
      match rc with
      | D_OK => d_buffer d ++ concat chunks = wire_of fs ++ d_buffer d' ∧
                length (d_buffer d') ≤ d_maxFrameSize d
      | _ => wire_of fs `prefix_of` d_buffer d ++ concat chunks
      end) as H; [| apply (H (Decoder_create max)); simpl; lia].
  induction chunks as [| c cs IH]; intros d Hd; simpl.
  - exists d, [], D_OK. by rewrite app_nil_r.
  - rewrite app_assoc. destruct (appendBytes_accounts d c) as (d1 & fs1 & rc1 & -> & Hm & H1).
    destruct rc1; simpl; [| eexists _, _, _; split; [done |]; by apply prefix_app_r ..].
    destruct H1 as [-> Hl]. rewrite <- Hm in Hl.
    destruct (IH d1 Hl) as (d2 & fs2 & rc2 & -> & H2). simpl. rewrite <- Hm.
    eexists _, _, _. split; [done |]. rewrite wire_of_app, <- !app_assoc.
    destruct rc2; [by destruct H2 as [-> ?] | by apply prefix_app ..].
Qed.

(** C18: for a stream of well-formed frames of at most [maxFrameSize] bytes,
    followed by an incomplete one, the decoder hands out exactly those frames in
    order, buffers exactly the incomplete tail and never answers an error, however
    the stream is cut into reads. *)
Theorem decoder_any_chunking (max : nat) (fs : list Frame) (tail : bytes) (chunks : list bytes)
  (Hfs : Forall (fun f => frame_wf f ∧ totalFrameSize f ≤ max) fs)
  (Htail : Frame_decode tail = F_PARTIAL) (Hlen : length tail ≤ max)
  (Hstream : concat chunks = wire_of fs ++ tail) :
  Decoder_feed (Decoder_create max) chunks = Some (mkDecoder max tail, fs, D_OK).
Proof.
  pose proof (feed_stream max chunks [] fs tail Hfs (tail_ok_partial _ _ Htail Hlen) eq_refl Hstream)
    as H. by rewrite Htail in H.
Qed.

(** a frame with a wrong end octet is detected: the decoder hands out the
    frames before it and answers [DECODE_ERROR], however the stream is cut and
    whatever follows. *)
Theorem decoder_bad_end_detected (max : nat) (fs : list Frame) (endOctet type channel : Z)
  (payload rest : bytes) (chunks : list bytes)
  (Hfs : Forall (fun f => frame_wf f ∧ totalFrameSize f ≤ max) fs)
  (He : u_in 8 endOctet = true) (Hbad : endOctet ≠ FRAME_END)
  (Ht : u_in 8 type = true) (Hc : u_in 16 channel = true)
  (Hp : u_in 32 (Z.of_nat (length payload)) = true)
  (Hmax : frameOverhead + length payload ≤ max)
  (Hstream : concat chunks = wire_of fs ++ framed endOctet type channel payload ++ rest) :
  ∃ d', Decoder_feed (Decoder_create max) chunks = Some (d', fs, D_DECODE_ERROR).
Proof.
  assert (∀ r, Frame_decode (framed endOctet type channel payload ++ r) = F_DECODE_ERROR) as Herr.
  { intros r. rewrite Frame_decode_framed by done. by apply Z.eqb_neq in Hbad as ->. }
  pose proof (Herr []) as Herr0. rewrite app_nil_r in Herr0.
  pose proof (feed_stream max chunks [] fs _ Hfs (tail_ok_error max _ rest Herr0
    ltac:(by rewrite length_framed)) eq_refl Hstream) as H. by rewrite Herr in H.
Qed.

(** *** Witnesses *)

Definition sample_frames : list Frame :=
  [frame_of METHOD 1 (str "abc"); frame_of HEARTBEAT 0 []; frame_of BODY 7 (str "payload")].

(** The stream cut into reads of two bytes. *)
Fixpoint cut2 (fuel : nat) (l : bytes) : list bytes :=
  match fuel with
  | O => [l]
  | S fuel' => match l with
               | a :: b :: l' => [a; b] :: cut2 fuel' l'
               | _ => [l]
               end
  end.

Lemma frame_of_wf type channel payload :
  u_in 8 type = true → u_in 16 channel = true → u_in 32 (Z.of_nat (length payload)) = true →
  frame_wf (frame_of type channel payload).
Proof. intros. by exists payload. Qed.

Lemma sample_frames_ok : Forall (fun f => frame_wf f ∧ totalFrameSize f ≤ 64) sample_frames.
Proof.
  unfold sample_frames. repeat (apply Forall_cons; split); [.. | apply Forall_nil; exact I];
    (split; [by apply frame_of_wf | apply Nat.leb_le; vm_compute; reflexivity]).
Qed.

Lemma decoder_any_chunking_witness :
  Decoder_feed (Decoder_create 64) (cut2 40 (wire_of sample_frames ++ str "xy"))
  = Some (mkDecoder 64 (str "xy"), sample_frames, D_OK).
Proof.
  apply (decoder_any_chunking 64 sample_frames (str "xy")).
  - exact sample_frames_ok.
  - reflexivity.
  - simpl. lia.
  - vm_compute. reflexivity.
Defined.

Lemma decoder_bad_end_detected_witness :
  ∃ d', Decoder_feed (Decoder_create 64)
          (cut2 40 (wire_of sample_frames ++ framed 0 METHOD 2 (str "bad") ++ str "z"))
        = Some (d', sample_frames, D_DECODE_ERROR).
Proof.
  apply (decoder_bad_end_detected 64 sample_frames 0 METHOD 2 (str "bad") (str "z"));
    try reflexivity; try done.
  - exact sample_frames_ok.
  - vm_compute. lia.
Defined.
