(* ===== verification/Message.v ===== *)
(** * Message: application messages

    Models [rmqt::Message] (rmqt_message.cpp, rmqt_message.h). The GUID library
    ([bdlb::Guid], [bdlb::GuidUtil]) is a parameter: the class [GuidUtil]; the
    value [GuidUtil::generate] returns is an argument of the constructors. *)

From Stdlib Require Import ZArith Lia String Strings.Byte.
From stdpp Require Import base tactics list countable.
From S2P Require Import Prelude Wire FieldValue Props.

Class GuidUtil := {
  Guid : Type;
  Guid_eq_dec :: EqDecision Guid;
  Guid_countable :: Countable Guid;
  guidToString : Guid → bytes;
  (** [None] when it returns a non-zero status. *)
  guidFromString : bytes → option Guid;
}.

(** The documented contract: a GUID prints as 36 characters, and reads back. *)
Class GuidUtilLaws (G : GuidUtil) : Prop := {
  guidToString_length g : length (guidToString g) = 36;
  guidFrom_ToString g : guidFromString (guidToString g) = Some g;
}.

Section Message.
Context {E : EpochUtil} {G : GuidUtil}.

Record Message := mkMessage {
  d_guid : Guid;
  d_message : option bytes;
  d_properties : Properties;
}.

(** [rmqt::DeliveryMode] *)
Definition NON_PERSISTENT : Z := 1.
Definition PERSISTENT : Z := 2.

Definition set_messageId (p : Properties) (msgId : bytes) : Properties :=
  mkProperties (contentType p) (contentEncoding p) (headers p) (deliveryMode p) (priority p)
    (correlationId p) (replyTo p) (expiration p) (Some msgId) (timestamp p) (type_ p) (userId p)
    (appId p).

Definition initialiseProperties (msgId : bytes) (hdrs : option FieldTable) : Properties :=
  mkProperties None None hdrs (Some PERSISTENT) None None None None (Some msgId) None None None None.

(** [setMessageId]: [fresh] is what [GuidUtil::generate] returns. *)
Definition setMessageId (fresh : Guid) (p : Properties) : Properties * Guid :=
  let msgId := default [] (messageId p) in
  match msgId with
  | [] => (set_messageId p (guidToString fresh), fresh)
  | _ => match guidFromString msgId with
         | Some guid => (p, guid)
         | None => (p, fresh)
         end
  end.

(** [Message(rawData, properties)] *)
Definition Message_make (fresh : Guid) (rawData : option bytes) (p : Properties) : Message :=
  let (p', guid) := setMessageId fresh p in mkMessage guid rawData p'.

(** [Message(rawData, messageId, headers)] *)
Definition Message_make_id (fresh : Guid) (rawData : option bytes) (msgId : bytes)
  (hdrs : option FieldTable) : Message :=
  Message_make fresh rawData (initialiseProperties msgId hdrs).

(** [(payload(), payloadSize())] *)
Definition Message_payload (m : Message) : bytes := default [] (d_message m).

Definition Message_payloadSize (m : Message) : nat :=
  match d_message m with Some d => length d | None => 0 end.

Definition Message_isPersistent (m : Message) : bool :=
  (default NON_PERSISTENT (deliveryMode (d_properties m)) =? PERSISTENT)%Z.

(** A message built by a constructor has a non-empty id, and its GUID is the one
    the id spells when it spells one. *)
Definition Message_identified (m : Message) : Prop :=
  ∃ i, messageId (d_properties m) = Some i ∧ i ≠ [] ∧
       ∀ g, guidFromString i = Some g → d_guid m = g.

Lemma Message_payload_size m : length (Message_payload m) = Message_payloadSize m.
Proof. unfold Message_payload, Message_payloadSize. by destruct (d_message m). Qed.

Lemma set_messageId_same p i : messageId p = Some i → set_messageId p i = p.
Proof. destruct p. simpl. by intros ->. Qed.

Lemma setMessageId_nonempty fresh p i :
  messageId p = Some i → i ≠ [] →
  setMessageId fresh p = (p, default fresh (guidFromString i)).
Proof.
  intros Hi Hne. unfold setMessageId. rewrite Hi. simpl. destruct i; [done |].
  by destruct (guidFromString _).
Qed.

Context {GL : GuidUtilLaws G}.

Lemma guidToString_nonempty g : guidToString g ≠ [].
Proof. intros H. pose proof (guidToString_length g). by rewrite H in *. Qed.

Lemma Message_make_identified fresh rawData p : Message_identified (Message_make fresh rawData p).
Proof.
  unfold Message_make, setMessageId, Message_identified.
  destruct (messageId p) as [[| x i] |] eqn:Hp; simpl.
  1, 3: eexists; split; [reflexivity |]; split; [apply guidToString_nonempty |];
        intros g Hg; rewrite guidFrom_ToString in Hg; by simplify_eq.
  destruct (guidFromString (x :: i)) as [g |] eqn:Hg; simpl;
    (exists (x :: i); split; [done |]; split; [done |]; intros g' Hg'; by simplify_eq).
Qed.
End Message.

(** ** A concrete [GuidUtil], for the witnesses: 256 GUIDs *)

#[export] Instance byte_GuidUtil : GuidUtil := {
  Guid := byte;
  guidToString b := replicate 36 b;
  guidFromString s :=
    match s with
    | b :: _ => if decide (s = replicate 36 b) then Some b else None
    | [] => None
    end;
}.

#[export] Instance byte_GuidUtilLaws : GuidUtilLaws byte_GuidUtil.
Proof. constructor; intros g; simpl; [done |]. by rewrite decide_True. Qed.
