(* ===== verification/Framer.v ===== *)
(** * Framer: messages to frames and back

    Models [rmqamqp::Message] (rmqamqp_message.h), [rmqamqp::ContentMaker]
    (rmqamqp_contentmaker.cpp) and [rmqamqp::Framer] (rmqamqp_framer.cpp).

    A content message travels as a header frame and body frames of at most the
    negotiated size; frames of different channels may interleave. The theorems
    show that what [makeFrames] cuts, [appendFrame] puts together again, through
    the byte stream and in any interleaving. *)

From Stdlib Require Import ZArith Lia String Strings.Byte.
From stdpp Require Import base tactics list gmap.
From S2P Require Import Prelude Constants Wire FieldValue Props Methods Method Frame Message.

Section Framer.
Context {E : EpochUtil} {G : GuidUtil}.

(** [rmqamqp::Message], a variant *)
Inductive AmqpMessage :=
| AM_unset
| AM_Heartbeat
| AM_Message (m : Message)
| AM_Method (m : Method).

(** ** ContentMaker *)

Record ContentMaker := mkContentMaker {
  cm_header : ContentHeader;
  cm_body : bytes;
  cm_remainingContentBytes : Z;
}.

Inductive ContentMakerRC := CM_DONE | CM_PARTIAL | CM_ERROR.

Definition ContentMaker_make (contentHeader : ContentHeader) : ContentMaker :=
  mkContentMaker contentHeader [] (ch_bodySize contentHeader).

Definition ContentMaker_done (c : ContentMaker) : bool := (cm_remainingContentBytes c <=? 0)%Z.

Definition ContentMaker_message (fresh : Guid) (c : ContentMaker) : Message :=
  Message_make fresh (Some (cm_body c)) (ch_properties (cm_header c)).

Definition ContentMaker_appendContentBody (c : ContentMaker) (contentBody : ContentBody)
  : ContentMaker * ContentMakerRC :=
  if (cm_remainingContentBytes c <? Z.of_nat (ContentBody_dataLength contentBody))%Z
  then (c, CM_ERROR)
  else
    let c' := mkContentMaker (cm_header c) (cm_body c ++ cb_data contentBody)
                (uwrap 64 (cm_remainingContentBytes c - Z.of_nat (ContentBody_dataLength contentBody))) in
    (c', if ContentMaker_done c' then CM_DONE else CM_PARTIAL).

(** ** Framer: making frames *)

(** The bytes of a sequence of writes to a fresh [Writer]. *)
Definition written (chunks : list bytes) : bytes :=
  d_storage (foldl Writer_write Writer_make chunks).

Definition encodeFrameHeader (type channel : Z) (payloadLength : nat) : bytes :=
  writeUint8 type ++ writeUint16 channel ++ writeUint32 (Z.of_nat payloadLength).

Definition encodeFrameEnd : bytes := writeUint8 FRAME_END.

Definition makeMethodFrame (channel : Z) (method : Method) : Frame :=
  let encodedPayloadSize := Method_encodedSize method in
  let data := written [encodeFrameHeader METHOD channel encodedPayloadSize;
                       Method_encode method; encodeFrameEnd] in
  mkFrame METHOD channel (Some data).

(** [message] is the memory from the pointer on. *)
Definition makeContentBodyFrame (message : bytes) (encodedPayloadSize : nat) (channel : Z) : Frame :=
  let data := written [encodeFrameHeader BODY channel encodedPayloadSize;
                       take encodedPayloadSize message; encodeFrameEnd] in
  mkFrame BODY channel (Some data).

(** [ContentHeader(classId, message)] *)
Definition ContentHeader_of_message (classId : Z) (message : Message) : ContentHeader :=
  mkContentHeader classId (Z.of_nat (Message_payloadSize message)) (d_properties message).

Definition makeContentHeaderFrame (message : Message) (channel : Z) : Frame :=
  let header := ContentHeader_of_message BASIC message in
  let encodedPayloadSize := ContentHeader_encodedSize header in
  let data := written [encodeFrameHeader HEADER channel encodedPayloadSize;
                       ContentHeader_encode header; encodeFrameEnd] in
  mkFrame HEADER channel (Some data).

Definition makeHeartbeatFrame : Frame :=
  let data := written [encodeFrameHeader HEARTBEAT 0 0; encodeFrameEnd] in
  mkFrame HEARTBEAT 0 (Some data).

(** [for (i = 0; i < payloadSize; i += frameSize)]; [None]: out of fuel *)
Fixpoint body_frames (fuel : nat) (message : Message) (frameSize i : nat) (channel : Z)
  : option (list Frame) :=
  match fuel with
  | O => None
  | S fuel' =>
      if i <? Message_payloadSize message then
        let encodedPayloadSize := Nat.min frameSize (Message_payloadSize message - i) in
        let frame := makeContentBodyFrame (drop i (Message_payload message))
                       encodedPayloadSize channel in
        rest ← body_frames fuel' message frameSize (i + frameSize) channel;
        Some (frame :: rest)
      else Some []
  end.

Record Framer := mkFramer {
  d_channelContentMakers : gmap Z ContentMaker;
  fr_maxFrameSize : nat;
}.

Definition Framer_make : Framer := mkFramer ∅ Frame_MAX_FRAME_SIZE.

Definition Framer_setMaxFrameSize (fr : Framer) (maxSize : nat) : Framer * bool :=
  if maxSize <=? frameOverhead then (fr, false)
  else (mkFramer (d_channelContentMakers fr) maxSize, true).

(** [Framer::makeFrames] with [MessageSerializer]; [None]: the assertion on the
    frame size failed. With at least one byte per body frame, the payload size
    bounds the iterations. *)
Definition Framer_makeFrames (fr : Framer) (channel : Z) (message : AmqpMessage)
  : option (list Frame) :=
  match message with
  | AM_Message m =>
      if frameOverhead <? fr_maxFrameSize fr then
        let frameSize := fr_maxFrameSize fr - frameOverhead in
        bodies ← body_frames (S (Message_payloadSize m)) m frameSize 0 channel;
        Some (makeContentHeaderFrame m channel :: bodies)
      else None
  | AM_Heartbeat => Some [makeHeartbeatFrame]
  | AM_Method m => Some [makeMethodFrame channel m]
  | AM_unset => Some []
  end.

(** ** Framer: putting messages together *)

Inductive FramerRC := FR_OK | FR_PARTIAL | FR_CHANNEL_EXCEPTION | FR_CONNECTION_EXCEPTION.

(** What a call yields: the return code, and the message it put in
    [*receiveMessage] with [OK]. [FR_violation]: a decoder violated an assertion or
    read out of bounds. *)
Inductive FramerResult :=
| FR_message (m : AmqpMessage)
| FR_code (rc : FramerRC)
| FR_violation.

(** The buffer a payload decoder reads: [(payload(), payloadLength())]. *)
Definition payload_buffer (frame : Frame) : Buffer :=
  Buffer_make (default [] (Frame_payload frame)) (Frame_payloadLength frame).

Definition erase_maker (fr : Framer) (channel : Z) : Framer :=
  mkFramer (delete channel (d_channelContentMakers fr)) (fr_maxFrameSize fr).

Definition set_maker (fr : Framer) (channel : Z) (c : ContentMaker) : Framer :=
  mkFramer (<[channel := c]> (d_channelContentMakers fr)) (fr_maxFrameSize fr).

(** [Framer::appendFrame]. The makers are shared pointers held by the map only,
    so that updating the maker is updating its map entry. *)
Definition Framer_appendFrame (fr : Framer) (fresh : Guid) (frame : Frame)
  : Framer * FramerResult :=
  let channel := f_channel frame in
  let maker := d_channelContentMakers fr !! channel in
  if (f_type frame =? METHOD)%Z then
    match maker with
    | Some _ => (fr, FR_code FR_CHANNEL_EXCEPTION)
    | None =>
        match Method_decode (payload_buffer frame) with
        | Ok method _ => (fr, FR_message (AM_Method method))
        | Err _ => (fr, FR_code FR_CHANNEL_EXCEPTION)
        | Violation | OutOfFuel => (fr, FR_violation)
        end
    end
  else if (f_type frame =? HEARTBEAT)%Z then (fr, FR_message AM_Heartbeat)
  else if (f_type frame =? HEADER)%Z then
    match maker with
    | Some _ => (fr, FR_code FR_CHANNEL_EXCEPTION)
    | None =>
        match ContentHeader_decode (payload_buffer frame) with
        | Ok contentHeader _ =>
            let c := ContentMaker_make contentHeader in
            if ContentMaker_done c then (fr, FR_message (AM_Message (ContentMaker_message fresh c)))
            else (set_maker fr channel c, FR_code FR_PARTIAL)
        | Err _ => (fr, FR_code FR_CHANNEL_EXCEPTION)
        | Violation | OutOfFuel => (fr, FR_violation)
        end
    end
  else if (f_type frame =? BODY)%Z then
    match maker with
    | None => (fr, FR_code FR_CHANNEL_EXCEPTION)
    | Some c =>
        let contentBody := ContentBody_decode (Frame_payloadBytes frame) in
        let (c', rc) := ContentMaker_appendContentBody c contentBody in
        match rc with
        | CM_ERROR => (set_maker fr channel c', FR_code FR_CHANNEL_EXCEPTION)
        | CM_DONE => (erase_maker fr channel, FR_message (AM_Message (ContentMaker_message fresh c')))
        | CM_PARTIAL => (set_maker fr channel c', FR_code FR_PARTIAL)
        end
    end
  else (fr, FR_code FR_CONNECTION_EXCEPTION).

Definition Framer_clearChannel (fr : Framer) (channel : Z) : Framer := erase_maker fr channel.

(** A sequence of received frames, each with the GUID [generate] would return. *)
Fixpoint Framer_run (fr : Framer) (frames : list (Guid * Frame)) : Framer * list (Z * FramerResult) :=
  match frames with
  | [] => (fr, [])
  | (fresh, f) :: frames' =>
      let (fr', r) := Framer_appendFrame fr fresh f in
      let (fr'', rs) := Framer_run fr' frames' in
      (fr'', (f_channel f, r) :: rs)
  end.

(** The messages delivered, with their channels. *)
Definition delivered (rs : list (Z * FramerResult)) : list (Z * AmqpMessage) :=
  omap (fun cr => match cr.2 with FR_message m => Some (cr.1, m) | _ => None end) rs.

(** ** Well-formed messages and what arrives *)

Definition Message_wf (m : Message) : Prop :=
  Properties_wf (d_properties m) = true ∧ u_in 32 (Z.of_nat (Message_payloadSize m)) = true ∧
  u_in 32 (Z.of_nat (ContentHeader_encodedSize (ContentHeader_of_message BASIC m))) = true ∧
  Message_identified m.

Definition AmqpMessage_wf (m : AmqpMessage) : Prop :=
  match m with
  | AM_unset => False
  | AM_Heartbeat => True
  | AM_Message m => Message_wf m
  | AM_Method m => Method_wf m = true ∧ u_in 32 (Z.of_nat (Method_encodedSize m)) = true
  end.

(** The same payload and properties (normalised); the GUID the message id spells,
    otherwise the fresh one. *)
Definition Message_received (fresh : Guid) (m : Message) : Message :=
  mkMessage (default fresh (guidFromString (default [] (messageId (d_properties m)))))
            (Some (Message_payload m)) (Properties_norm (d_properties m)).

Definition AmqpMessage_received (fresh : Guid) (m : AmqpMessage) : AmqpMessage :=
  match m with
  | AM_Message m => AM_Message (Message_received fresh m)
  | AM_Method m => AM_Method (Method_norm m)
  | m => m
  end.

(** The channel the frames of a message carry. *)
Definition message_channel (channel : Z) (m : AmqpMessage) : Z :=
  match m with AM_Heartbeat => 0 | _ => channel end.
End Framer.

Section FramerFacts.
Context {E : EpochUtil} {G : GuidUtil}.

(** *** Frames made are frames *)

Lemma written_concat chunks : written chunks = concat chunks.
Proof. apply Writer_run_append. Qed.

Lemma written_frame type channel n payload :
  n = length payload →
  mkFrame type channel (Some (written [encodeFrameHeader type channel n; payload; encodeFrameEnd]))
  = frame_of type channel payload.
Proof.
  intros ->. rewrite written_concat. unfold frame_of, frame_bytes, framed.
  unfold encodeFrameHeader, encodeFrameEnd. cbn [concat]. by rewrite app_nil_r, <- !app_assoc.
Qed.

Lemma makeHeartbeatFrame_eq : makeHeartbeatFrame = frame_of HEARTBEAT 0 [].
Proof. reflexivity. Qed.

Lemma makeMethodFrame_eq {L : EpochUtilLaws E} channel m :
  Method_wf m = true → makeMethodFrame channel m = frame_of METHOD channel (Method_encode m).
Proof. intros Hwf. unfold makeMethodFrame. apply written_frame. by rewrite length_method. Qed.

Lemma header_wf m :
  Message_wf m → ContentHeader_wf (ContentHeader_of_message BASIC m) = true.
Proof.
  intros (Hp & Hs & _). unfold ContentHeader_wf. simpl. rewrite Hp, andb_true_r.
  apply u_in_iff in Hs. apply u_in_iff. split; [lia |]. eapply Z.lt_trans; [apply Hs |].
  by apply Z.pow_lt_mono_r.
Qed.

Lemma makeContentHeaderFrame_eq channel m :
  Message_wf m →
  makeContentHeaderFrame m channel
  = frame_of HEADER channel (ContentHeader_encode (ContentHeader_of_message BASIC m)).
Proof.
  intros Hwf. unfold makeContentHeaderFrame. apply written_frame.
  by rewrite length_contentHeader by (by apply header_wf).
Qed.

Lemma makeContentBodyFrame_eq message n channel :
  n ≤ length message → makeContentBodyFrame message n channel = frame_of BODY channel (take n message).
Proof. intros Hn. apply written_frame. rewrite length_take. lia. Qed.

(** The body is cut into non-empty pieces of at most [frameSize] bytes. *)
Lemma body_frames_spec fuel m frameSize i channel :
  0 < frameSize → Message_payloadSize m - i < fuel → i ≤ Message_payloadSize m + frameSize →
  ∃ bs, body_frames fuel m frameSize i channel = Some (frame_of BODY channel <$> bs) ∧
        concat bs = drop i (Message_payload m) ∧
        Forall (fun b => 0 < length b ∧ length b ≤ frameSize) bs.
Proof.
  intros Hfs. revert i. induction fuel as [| fuel IH]; intros i Hfuel Hi; [lia |]. simpl.
  pose proof (Message_payload_size m) as Hsz.
  destruct (Nat.ltb_spec i (Message_payloadSize m)) as [Hlt | Hge].
  - destruct (IH (i + frameSize)) as (bs & -> & Hc & Hall); [lia | lia |]. simpl.
    set (n := Nat.min frameSize (Message_payloadSize m - i)).
    rewrite makeContentBodyFrame_eq by (rewrite length_drop; lia).
    exists (take n (drop i (Message_payload m)) :: bs). split; [done |]. split.
    + simpl. rewrite Hc. destruct (decide (i + frameSize ≤ Message_payloadSize m)).
      * replace (i + frameSize) with (i + n) by lia. by rewrite <- drop_drop, take_drop.
      * rewrite (drop_ge _ (i + frameSize)) by lia. rewrite app_nil_r, take_ge; [done |].
        rewrite length_drop. lia.
    + constructor; [| done]. rewrite length_take, length_drop. lia.
  - exists []. rewrite drop_ge by lia. done.
Qed.

(** *** Receiving *)

Lemma payload_buffer_of type channel payload :
  u_in 32 (Z.of_nat (length payload)) = true →
  Buffer_wf (payload_buffer (frame_of type channel payload)) ∧
  remaining (payload_buffer (frame_of type channel payload)) = payload ∧
  Frame_payloadBytes (frame_of type channel payload) = payload.
Proof.
  intros Hp. destruct (Frame_payload_frame_of type channel payload Hp) as [Hl Hd].
  unfold payload_buffer, Frame_payloadBytes. rewrite Hl, Hd.
  unfold Buffer_wf, remaining, Buffer_available, Buffer_ptr, Buffer_make. simpl.
  rewrite drop_0, Nat.sub_0_r, length_app, take_app_length. split; [lia | done].
Qed.

Lemma parses_payload {A} (d : decoder A) type channel payload a :
  u_in 32 (Z.of_nat (length payload)) = true → parses d payload a →
  ∃ b', d (payload_buffer (frame_of type channel payload)) = Ok a b'.
Proof.
  intros Hp Hd. destruct (payload_buffer_of type channel payload Hp) as (Hwf & Hr & _).
  apply (Hd _ [] Hwf). by rewrite Hr, app_nil_r.
Qed.

Lemma Message_received_eq fresh m :
  Message_wf m →
  Message_make fresh (Some (Message_payload m)) (Properties_norm (d_properties m))
  = Message_received fresh m.
Proof.
  intros (_ & _ & _ & i & Hi & Hne & _). unfold Message_make.
  rewrite (setMessageId_nonempty _ _ i) by done. unfold Message_received. by rewrite Hi.
Qed.

Lemma erase_maker_set fr channel c :
  d_channelContentMakers fr !! channel = None →
  erase_maker (set_maker fr channel c) channel = fr.
Proof.
  intros H. unfold erase_maker, set_maker. simpl. rewrite delete_insert_id by done. by destruct fr.
Qed.

Lemma set_maker_set fr channel c c' :
  set_maker (set_maker fr channel c) channel c' = set_maker fr channel c'.
Proof. unfold set_maker. simpl. by rewrite insert_insert_eq. Qed.

(** The [METHOD] and [HEADER] cases. *)
Lemma appendFrame_method fr fresh channel payload :
  d_channelContentMakers fr !! channel = None →
  Framer_appendFrame fr fresh (frame_of METHOD channel payload) =
    match Method_decode (payload_buffer (frame_of METHOD channel payload)) with
    | Ok method _ => (fr, FR_message (AM_Method method))
    | Err _ => (fr, FR_code FR_CHANNEL_EXCEPTION)
    | Violation | OutOfFuel => (fr, FR_violation)
    end.
Proof. intros H. unfold Framer_appendFrame. simpl. by rewrite H. Qed.

Lemma appendFrame_header fr fresh channel payload :
  d_channelContentMakers fr !! channel = None →
  Framer_appendFrame fr fresh (frame_of HEADER channel payload) =
    match ContentHeader_decode (payload_buffer (frame_of HEADER channel payload)) with
    | Ok contentHeader _ =>
        let c := ContentMaker_make contentHeader in
        if ContentMaker_done c then (fr, FR_message (AM_Message (ContentMaker_message fresh c)))
        else (set_maker fr channel c, FR_code FR_PARTIAL)
    | Err _ => (fr, FR_code FR_CHANNEL_EXCEPTION)
    | Violation | OutOfFuel => (fr, FR_violation)
    end.
Proof. intros H. unfold Framer_appendFrame. simpl. by rewrite H. Qed.

(** The [BODY] case. *)
Lemma appendFrame_body fr fresh channel payload c :
  d_channelContentMakers fr !! channel = Some c → u_in 32 (Z.of_nat (length payload)) = true →
  Framer_appendFrame fr fresh (frame_of BODY channel payload) =
    let (c', rc) := ContentMaker_appendContentBody c (mkContentBody payload) in
    match rc with
    | CM_ERROR => (set_maker fr channel c', FR_code FR_CHANNEL_EXCEPTION)
    | CM_DONE => (erase_maker fr channel, FR_message (AM_Message (ContentMaker_message fresh c')))
    | CM_PARTIAL => (set_maker fr channel c', FR_code FR_PARTIAL)
    end.
Proof.
  intros Hc Hp. unfold Framer_appendFrame. cbn [f_type f_channel frame_of].
  destruct (payload_buffer_of BODY channel payload Hp) as (_ & _ & ->). by rewrite Hc.
Qed.

Lemma run_bodies fr channel h body bs gs :
  d_channelContentMakers fr !! channel = None → bs ≠ [] → length gs = length bs →
  Forall (fun b => 0 < length b) bs → u_in 32 (Z.of_nat (length (concat bs))) = true →
  ∃ fresh rs,
    Framer_run (set_maker fr channel (mkContentMaker h body (Z.of_nat (length (concat bs)))))
               (zip gs (frame_of BODY channel <$> bs)) = (fr, rs) ∧
    delivered rs = [(channel, AM_Message (Message_make fresh (Some (body ++ concat bs))
                                            (ch_properties h)))].
Proof.
  intros Hnone Hne Hlen Hpos Hsz. revert body gs Hne Hlen Hsz.
  induction Hpos as [| b bs Hb Hbs IH]; intros body gs Hne Hlen Hsz; [done |].
  destruct gs as [| g gs]; [done |]. simpl in Hlen. injection Hlen as Hlen.
  cbn [fmap list_fmap zip zip_with Framer_run concat] in *. rewrite length_app in *.
  apply u_in_iff in Hsz. rewrite Nat2Z.inj_add in Hsz.
  assert (u_in 32 (Z.of_nat (length b)) = true) as Hb32 by (apply u_in_iff; lia).
  assert (u_in 64 (Z.of_nat (length (concat bs))) = true) as H64.
  { apply u_in_iff. split; [lia |]. eapply Z.lt_trans; [| apply (Z.pow_lt_mono_r 2 32 64); lia]. lia. }
  erewrite appendFrame_body; [| apply lookup_insert_eq | done].
  unfold ContentMaker_appendContentBody, ContentBody_dataLength.
  cbn [cm_remainingContentBytes cm_header cm_body cb_data].
  destruct (Z.ltb_spec (Z.of_nat (length b + length (concat bs))) (Z.of_nat (length b))); [lia |].
  rewrite Nat2Z.inj_add, Z.add_simpl_l, uwrap_small by done.
  unfold ContentMaker_done. cbn [cm_remainingContentBytes].
  destruct bs as [| b' bs].
  - simpl. rewrite erase_maker_set by done. destruct gs; [| done]. simpl.
    rewrite app_nil_r. eexists _, _. split; reflexivity.
  - apply Forall_cons in Hbs as [Hb' _].
    destruct (Z.leb_spec (Z.of_nat (length (concat (b' :: bs)))) 0) as [Hle |];
      [cbn [concat] in Hle; rewrite length_app in Hle; lia |].
    rewrite set_maker_set.
    destruct (IH (body ++ b) gs) as (fresh & rs & -> & Hd); [done | done | |].
    { apply u_in_iff. lia. }
    eexists fresh, _. split; [reflexivity |]. simpl. rewrite app_assoc. exact Hd.
Qed.

Context {L : EpochUtilLaws E}.

Lemma run_header fr channel m g :
  d_channelContentMakers fr !! channel = None → Message_wf m →
  Framer_appendFrame fr g (makeContentHeaderFrame m channel) =
    if Message_payloadSize m =? 0
    then (fr, FR_message (AM_Message (Message_make g (Some []) (Properties_norm (d_properties m)))))
    else (set_maker fr channel
            (mkContentMaker (ContentHeader_norm (ContentHeader_of_message BASIC m)) []
               (Z.of_nat (Message_payloadSize m))), FR_code FR_PARTIAL).
Proof.
  intros Hnone Hwf. rewrite makeContentHeaderFrame_eq by done.
  pose proof (header_wf m Hwf) as Hh. pose proof Hwf as (_ & _ & H32 & _).
  destruct (parses_payload ContentHeader_decode HEADER channel
              (ContentHeader_encode (ContentHeader_of_message BASIC m)) _
              ltac:(by rewrite length_contentHeader) (parses_contentHeader _ Hh)) as [b' Hd].
  rewrite appendFrame_header, Hd by done.
  unfold ContentMaker_done, ContentMaker_make, ContentMaker_message. cbn.
  destruct (Message_payloadSize m); reflexivity.
Qed.

Lemma Framer_run_one fr g f fr' r :
  Framer_appendFrame fr g f = (fr', r) → Framer_run fr [(g, f)] = (fr', [(f_channel f, r)]).
Proof. intros H. simpl. by rewrite H. Qed.

(** What a message's frames look like, and that receiving them yields it. *)
Definition frames_deliver (maxFrameSize : nat) (receiver : Framer) (channel : Z) (m : AmqpMessage)
  (frames : list Frame) : Prop :=
  Forall (fun f => frame_wf f ∧ f_channel f = channel ∧
                   (f_type f = BODY → totalFrameSize f ≤ maxFrameSize)) frames ∧
  ∀ gs, length gs = length frames →
    ∃ fresh rs, Framer_run receiver (zip gs frames) = (receiver, rs) ∧
      delivered rs = [(channel, AmqpMessage_received fresh m)].

Lemma deliver_heartbeat n receiver :
  frames_deliver n receiver 0 AM_Heartbeat [makeHeartbeatFrame].
Proof.
  rewrite makeHeartbeatFrame_eq. split.
  - constructor; [| constructor]. split; [by apply frame_of_wf |]. done.
  - intros [| g [|]]; try done. intros _. exists g. eexists. split; reflexivity.
Qed.

Lemma deliver_method n receiver channel m :
  AmqpMessage_wf (AM_Method m) → u_in 16 channel = true →
  d_channelContentMakers receiver !! channel = None →
  frames_deliver n receiver channel (AM_Method m) [makeMethodFrame channel m].
Proof.
  intros [Hwf H32] Hc Hnone. rewrite <- length_method in H32 by done.
  rewrite makeMethodFrame_eq by done. split.
  - constructor; [| constructor]. split; [by apply frame_of_wf |]. done.
  - intros [| g [|]]; try done. intros _. exists g.
    destruct (parses_payload Method_decode METHOD channel (Method_encode m) _ H32
                (parses_method m Hwf)) as [b' Hd].
    eexists. split; [apply Framer_run_one; by rewrite appendFrame_method, Hd | reflexivity].
Qed.

Lemma deliver_content sender receiver channel m :
  Message_wf m → u_in 16 channel = true → frameOverhead < fr_maxFrameSize sender →
  d_channelContentMakers receiver !! channel = None →
  ∃ frames, Framer_makeFrames sender channel (AM_Message m) = Some frames ∧
    frames_deliver (fr_maxFrameSize sender) receiver channel (AM_Message m) frames.
Proof.
  intros Hwf Hc Hmax Hnone. pose proof Hwf as (_ & H32 & Hh32 & _). simpl.
  assert ((frameOverhead <? fr_maxFrameSize sender) = true) as -> by (by apply Nat.ltb_lt).
  set (frameSize := fr_maxFrameSize sender - frameOverhead).
  destruct (body_frames_spec (S (Message_payloadSize m)) m frameSize 0 channel)
    as (bs & Hbs & Hcat & Hall); [lia | lia | lia |].
  rewrite drop_0 in Hcat. simpl in Hbs. rewrite Hbs. simpl.
  eexists. split; [reflexivity |]. rewrite <- Message_payload_size, <- Hcat in H32. split.
  - constructor.
    + rewrite makeContentHeaderFrame_eq by done. split; [| done].
      apply frame_of_wf; [done | done |]. by rewrite length_contentHeader by (by apply header_wf).
    + apply Forall_fmap, list.Forall_forall. intros b Hin.
      rewrite list.Forall_forall in Hall. destruct (Hall b Hin) as [Hb1 Hb2].
      pose proof (length_elem_concat b bs Hin). split; [| split; [done |]].
      * apply frame_of_wf; [done | done |]. apply u_in_iff in H32. apply u_in_iff. lia.
      * intros _. change (totalFrameSize _) with (length (frame_bytes BODY channel b)).
        rewrite length_frame_bytes. lia.
  - intros [| g gs]; [done |]. intros Hlen. simpl in Hlen. injection Hlen as Hlen.
    rewrite length_fmap in Hlen. cbn [zip zip_with Framer_run].
    rewrite run_header by done. rewrite <- Message_payload_size, <- Hcat.
    destruct bs as [| b bs].
    + simpl. destruct gs; [| done]. simpl. exists g. eexists. split; [reflexivity |]. simpl.
      rewrite <- (Message_received_eq g m Hwf), <- Hcat. done.
    + apply Forall_cons in Hall as [Hb Hall].
      destruct (Nat.eqb_spec (length (concat (b :: bs))) 0) as [H0 |];
        [cbn [concat] in H0; rewrite length_app in H0; lia |].
      destruct (run_bodies receiver channel (ContentHeader_norm (ContentHeader_of_message BASIC m)) []
                  (b :: bs) gs) as (fresh & rs & Hrun & Hd); [done | done | done | | done |].
      { constructor; [lia |]. eapply Forall_impl; [exact Hall |]. simpl. lia. }
      rewrite Hrun. exists fresh. eexists. split; [reflexivity |]. simpl. rewrite Hd.
      by rewrite <- (Message_received_eq fresh m Hwf), <- Hcat.
Qed.

(** One message: frames are made, and received they yield the message. *)
Lemma framer_one sender receiver channel m :
  AmqpMessage_wf m → u_in 16 channel = true → frameOverhead < fr_maxFrameSize sender →
  d_channelContentMakers receiver !! (message_channel channel m) = None →
  ∃ frames, Framer_makeFrames sender channel m = Some frames ∧
    frames_deliver (fr_maxFrameSize sender) receiver (message_channel channel m) m frames.
Proof.
  intros Hwf Hc Hmax Hnone. destruct m as [| | m | m]; simpl in *.
  - done.
  - eexists. split; [reflexivity |]. apply deliver_heartbeat.
  - by apply deliver_content.
  - eexists. split; [reflexivity |]. by apply deliver_method.
Qed.

(** *** Sequences of messages *)

Lemma Framer_run_app fr fs1 fs2 :
  Framer_run fr (fs1 ++ fs2) =
    let (fr1, rs1) := Framer_run fr fs1 in
    let (fr2, rs2) := Framer_run fr1 fs2 in (fr2, rs1 ++ rs2).
Proof.
  revert fr. induction fs1 as [| [g f] fs1 IH]; intros fr; simpl.
  - by destruct (Framer_run fr fs2).
  - destruct (Framer_appendFrame fr g f) as [fr' r]. rewrite IH.
    destruct (Framer_run fr' fs1) as [fr1 rs1]. by destruct (Framer_run fr1 fs2).
Qed.

Lemma delivered_app rs1 rs2 : delivered (rs1 ++ rs2) = delivered rs1 ++ delivered rs2.
Proof. apply omap_app. Qed.

(** The frames of messages sent one after the other. *)
Fixpoint Framer_makeAll (fr : Framer) (ms : list (Z * AmqpMessage)) : option (list Frame) :=
  match ms with
  | [] => Some []
  | (channel, m) :: ms' =>
      frames ← Framer_makeFrames fr channel m;
      rest ← Framer_makeAll fr ms';
      Some (frames ++ rest)
  end.

(** [d] is the delivery of the sent message [cm]. *)
Definition is_delivery_of (cm d : Z * AmqpMessage) : Prop :=
  d.1 = message_channel cm.1 cm.2 ∧ ∃ fresh, d.2 = AmqpMessage_received fresh cm.2.

Lemma deliver_all sender receiver ms :
  Forall (fun cm => u_in 16 cm.1 = true ∧ AmqpMessage_wf cm.2) ms →
  frameOverhead < fr_maxFrameSize sender → d_channelContentMakers receiver = ∅ →
  ∃ frames, Framer_makeAll sender ms = Some frames ∧
    Forall (fun f => frame_wf f ∧ (f_type f = BODY → totalFrameSize f ≤ fr_maxFrameSize sender))
      frames ∧
    ∀ gs, length gs = length frames →
      ∃ rs, Framer_run receiver (zip gs frames) = (receiver, rs) ∧
            Forall2 is_delivery_of ms (delivered rs).
Proof.
  intros Hms Hmax Hempty. induction Hms as [| [channel m] ms [Hc Hm] Hms IH].
  - exists []. split; [done |]. split; [constructor |]. intros [|]; [| done]. intros _.
    exists []. by split; [| constructor].
  - destruct IH as (frames & Hall & Hwf & Hrun). simpl.
    destruct (framer_one sender receiver channel m Hm Hc Hmax) as (fs & -> & Hfs & Hdel).
    { by rewrite Hempty, lookup_empty. }
    simpl. rewrite Hall. simpl. eexists. split; [reflexivity |]. split.
    + apply Forall_app. split; [| done]. eapply Forall_impl; [exact Hfs |].
      by intros f (? & _ & ?).
    + intros gs Hlen. rewrite length_app in Hlen.
      rewrite <- (take_drop (length fs) gs).
      destruct (Hdel (take (length fs) gs)) as (fresh & rs1 & Hr1 & Hd1);
        [rewrite length_take; lia |].
      destruct (Hrun (drop (length fs) gs)) as (rs2 & Hr2 & Hd2); [rewrite length_drop; lia |].
      rewrite zip_with_app by (rewrite length_take; lia).
      rewrite Framer_run_app, Hr1, Hr2. eexists. split; [reflexivity |].
      rewrite delivered_app, Hd1. constructor; [| done]. split; [done |]. by exists fresh.
Qed.
End FramerFacts.

(** ** Theorems *)

Section FramerTheorems.
Context {E : EpochUtil} {G : GuidUtil} {L : EpochUtilLaws E}.

(** C1: a sequence of messages on any channels goes through end to end. Making
    frames never fails an assertion; every frame is well formed and body frames
    respect the negotiated size. When the frames fit the receiver's limit, then,
    however the byte stream is cut into reads, the receiving decoder hands out
    exactly these frames and buffers nothing, and the receiving framer delivers
    exactly the sent messages, in order, on their channels, with their payload and
    properties, and keeps no partial content. *)
Theorem messages_delivered_over_wire (sender receiver : Framer) (max : nat)
  (ms : list (Z * AmqpMessage))
  (Hms : Forall (fun cm => u_in 16 cm.1 = true ∧ AmqpMessage_wf cm.2) ms)
  (Hmax : frameOverhead < fr_maxFrameSize sender)
  (Hrecv : d_channelContentMakers receiver = ∅) :
  ∃ frames, Framer_makeAll sender ms = Some frames ∧
    Forall (fun f => frame_wf f ∧ (f_type f = BODY → totalFrameSize f ≤ fr_maxFrameSize sender))
      frames ∧
    (Forall (fun f => totalFrameSize f ≤ max) frames → ∀ chunks, concat chunks = wire_of frames →
       Decoder_feed (Decoder_create max) chunks = Some (mkDecoder max [], frames, D_OK)) ∧
    (∀ gs, length gs = length frames →
       ∃ rs, Framer_run receiver (zip gs frames) = (receiver, rs) ∧
             Forall2 is_delivery_of ms (delivered rs)).
Proof.
  destruct (deliver_all sender receiver ms Hms Hmax Hrecv) as (frames & Hall & Hwf & Hrun).
  exists frames. split; [done |]. split; [done |]. split; [| done].
  intros Hsz chunks Hchunks.
  assert (Forall (fun f => frame_wf f ∧ totalFrameSize f ≤ max) frames) as Hfs.
  { apply Forall_and. split; [| done]. eapply Forall_impl; [exact Hwf |]. by intros f [? _]. }
  pose proof (feed_stream max chunks [] frames [] Hfs (tail_ok_partial max [] eq_refl ltac:(simpl; lia))
                eq_refl) as H. rewrite app_nil_r in H. by apply H.
Qed.

(** *** Channels do not interfere *)

Lemma appendFrame_other fr g f fr' r channel :
  Framer_appendFrame fr g f = (fr', r) → channel ≠ f_channel f →
  d_channelContentMakers fr' !! channel = d_channelContentMakers fr !! channel.
Proof.
  unfold Framer_appendFrame. intros H Hne.
  repeat (case_match; simplify_eq; try done); simpl;
    rewrite ?lookup_insert_ne, ?lookup_delete_ne by done; done.
Qed.

Lemma appendFrame_local fr1 fr2 g f :
  d_channelContentMakers fr1 !! f_channel f = d_channelContentMakers fr2 !! f_channel f →
  (Framer_appendFrame fr1 g f).2 = (Framer_appendFrame fr2 g f).2 ∧
  d_channelContentMakers (Framer_appendFrame fr1 g f).1 !! f_channel f =
  d_channelContentMakers (Framer_appendFrame fr2 g f).1 !! f_channel f.
Proof.
  intros Heq. unfold Framer_appendFrame. rewrite Heq.
  repeat case_match; simpl; split; rewrite ?lookup_insert_eq, ?lookup_delete_eq; congruence.
Qed.

Lemma run_filter channel fs fr1 fr2 :
  d_channelContentMakers fr1 !! channel = d_channelContentMakers fr2 !! channel →
  filter (fun cr => cr.1 = channel) (Framer_run fr1 fs).2 =
    (Framer_run fr2 (filter (fun gf => f_channel gf.2 = channel) fs)).2 ∧
  d_channelContentMakers (Framer_run fr1 fs).1 !! channel =
    d_channelContentMakers (Framer_run fr2 (filter (fun gf => f_channel gf.2 = channel) fs)).1 !! channel.
Proof.
  revert fr1 fr2. induction fs as [| [g f] fs IH]; intros fr1 fr2 Heq; [done |].
  rewrite filter_cons. cbn [Framer_run]. destruct (Framer_appendFrame fr1 g f) as [fr1' r1] eqn:H1.
  destruct (decide (f_channel (g, f).2 = channel)) as [Hc | Hc]; simpl in Hc.
  - subst channel. destruct (appendFrame_local fr1 fr2 g f Heq) as [Hr Hs]. rewrite H1 in Hr, Hs.
    cbn [Framer_run]. destruct (Framer_appendFrame fr2 g f) as [fr2' r2]. simpl in Hr, Hs.
    destruct (IH fr1' fr2' Hs) as [IH1 IH2].
    destruct (Framer_run fr1' fs) as [fr1'' rs1], (Framer_run fr2' _) as [fr2'' rs2].
    simpl in *. rewrite filter_cons, decide_True, IH1, Hr by done. done.
  - pose proof (appendFrame_other _ _ _ _ _ channel H1 ltac:(done)) as Ho.
    destruct (IH fr1' fr2 ltac:(by rewrite Ho)) as [IH1 IH2].
    destruct (Framer_run fr1' fs) as [fr1'' rs1], (Framer_run fr2 _) as [fr2'' rs2].
    simpl in *. rewrite filter_cons, decide_False by done. done.
Qed.

(** the framer de-multiplexes: in any interleaving of the frames of several
    channels, what the frames of one channel yield, errors included, is what they
    yield when received alone. *)
Theorem framer_demultiplexes (fr : Framer) (frames : list (Guid * Frame)) (channel : Z) :
  filter (fun cr => cr.1 = channel) (Framer_run fr frames).2 =
  (Framer_run fr (filter (fun gf => f_channel gf.2 = channel) frames)).2.
Proof. by apply run_filter. Qed.

(** *** Announced and received sizes *)

(** Every content under construction has received part of the announced bytes,
    and still misses some. *)
Definition ContentMaker_inv (c : ContentMaker) : Prop :=
  (Z.of_nat (length (cm_body c)) + cm_remainingContentBytes c = ch_bodySize (cm_header c))%Z ∧
  (0 < cm_remainingContentBytes c)%Z ∧ u_in 64 (ch_bodySize (cm_header c)) = true.

Definition Framer_inv (fr : Framer) : Prop :=
  map_Forall (fun _ c => ContentMaker_inv c) (d_channelContentMakers fr) ∧
  frameOverhead < fr_maxFrameSize fr.

Lemma wp_contentHeader_size b :
  Buffer_wf b → wp ContentHeader_decode b (fun h _ => u_in 64 (ch_bodySize h) = true).
Proof.
  intros Hwf. unfold ContentHeader_decode.
  do 2 (apply wp_bind; [done |]; apply wp_copyUint; [done |]; intros ? _ _ ?).
  apply wp_bind; [done |]. apply wp_copyUint; [done |]. intros size _ Hsize Hwf'.
  apply wp_bind; [done |]. apply wp_safe; [| done |].
  - intros b' Hb'. unfold wp, on_subbuffer. destruct (subbuffer_rest b' Hb') as [Hs _].
    pose proof (dsafe_basicProperties _ Hs) as Hsafe. unfold wp in Hsafe.
    destruct (BasicProperties_decode _); auto with wire.
  - intros p b' _ Hb'. apply wp_ret; [done |]. by apply u_in_iff.
Qed.

Lemma appendContentBody_inv c body c' rc :
  ContentMaker_inv c → ContentMaker_appendContentBody c body = (c', rc) →
  match rc with
  | CM_ERROR => c' = c
  | CM_DONE => Z.of_nat (length (cm_body c')) = ch_bodySize (cm_header c') ∧ cm_header c' = cm_header c
  | CM_PARTIAL => ContentMaker_inv c' ∧ cm_header c' = cm_header c
  end.
Proof.
  intros (Hsum & Hpos & H64) H. unfold ContentMaker_appendContentBody in H.
  destruct (Z.ltb_spec (cm_remainingContentBytes c) (Z.of_nat (ContentBody_dataLength body)));
    simplify_eq; [done |].
  unfold ContentBody_dataLength in *. pose proof (proj1 (u_in_iff _ _) H64) as Hr.
  unfold ContentMaker_done. cbn [cm_remainingContentBytes].
  rewrite uwrap_small by (apply u_in_iff; lia).
  destruct (Z.leb_spec (cm_remainingContentBytes c - Z.of_nat (length (cb_data body))) 0);
    [| split; [| done]; split; [| split; [| done]]]; cbn; rewrite ?length_app; try split; try done; lia.
Qed.

(** A frame as the decoder hands them out, or as the framer makes them. *)
Definition frame_sized (f : Frame) : Prop :=
  match f_serializedData f with
  | Some d => frameOverhead ≤ length d ∧ u_in 64 (Z.of_nat (length d)) = true
  | None => True
  end.

Lemma payload_buffer_wf f : frame_sized f → Buffer_wf (payload_buffer f).
Proof.
  unfold frame_sized, payload_buffer, Frame_payload, Frame_payloadLength, Frame_rawData, Buffer_wf.
  destruct (f_serializedData f) as [d |]; simpl; [| lia]. intros [Hd H64%u_in_iff].
  unfold frameOverhead, frameHeaderSize in *. destruct d as [| x d]; [simpl in *; lia |].
  rewrite uwrap_small by (apply u_in_iff; lia).
  change (length (default [] _)) with (length (drop (1 + 2 + 4) (x :: d))). rewrite length_drop. lia.
Qed.

Lemma framer_inv_set fr channel c :
  Framer_inv fr → ContentMaker_inv c → Framer_inv (set_maker fr channel c).
Proof. intros [Hm Hs] Hc. split; [| done]. by apply map_Forall_insert_2. Qed.

Lemma framer_inv_erase fr channel : Framer_inv fr → Framer_inv (erase_maker fr channel).
Proof. intros [Hm Hs]. split; [| done]. by apply map_Forall_delete. Qed.

(** What one received frame may do. *)
Definition append_ok (fr : Framer) (f : Frame) (fr' : Framer) (r : FramerResult) : Prop :=
  Framer_inv fr' ∧
  match r with
  | FR_violation => False
  | FR_message (AM_Message m) =>
      f_type f = BODY → ∃ c, d_channelContentMakers fr !! f_channel f = Some c ∧
        Z.of_nat (Message_payloadSize m) = ch_bodySize (cm_header c)
  | _ => True
  end.

Lemma append_body_ok fr fresh f c :
  Framer_inv fr → d_channelContentMakers fr !! f_channel f = Some c → f_type f = BODY →
  let '(fr', r) := Framer_appendFrame fr fresh f in append_ok fr f fr' r.
Proof.
  intros Hinv Hc Ht. unfold Framer_appendFrame. rewrite Ht, Hc. cbn -[append_ok].
  assert (ContentMaker_inv c) as Hci by (by apply (proj1 Hinv) in Hc).
  destruct (ContentMaker_appendContentBody _ _) as [c' rc] eqn:Ha.
  pose proof (appendContentBody_inv _ _ _ _ Hci Ha) as H. destruct rc.
  - split; [by apply framer_inv_erase |]. intros _. exists c. split; [done |].
    destruct H as [H <-]. rewrite <- H. unfold ContentMaker_message, Message_make.
    by destruct (setMessageId _ _).
  - split; [| done]. apply framer_inv_set; [done | apply H].
  - subst c'. split; [| done]. by apply framer_inv_set.
Qed.

(** the framer accepts any frame without reading outside its payload and
    without violating an assertion; its invariant (a content under construction
    holds strictly fewer bytes than announced, and a frame has room for a payload)
    is preserved; and a content assembled from body frames is delivered only when
    its payload has exactly the size announced in its header. *)
Theorem framer_appendFrame_safe (fr : Framer) (fresh : Guid) (f : Frame)
  (Hinv : Framer_inv fr) (Hf : frame_sized f) :
  let '(fr', r) := Framer_appendFrame fr fresh f in append_ok fr f fr' r.
Proof.
  destruct (d_channelContentMakers fr !! f_channel f) as [c |] eqn:Hc.
  - destruct (Z.eqb_spec (f_type f) BODY) as [Ht | Ht]; [by eapply append_body_ok |].
    unfold Framer_appendFrame. rewrite Hc. apply Z.eqb_neq in Ht. rewrite Ht.
    repeat case_match; simplify_eq; by split.
  - unfold Framer_appendFrame. rewrite Hc.
    destruct (f_type f =? METHOD)%Z.
    { pose proof (dsafe_method _ (payload_buffer_wf f Hf)) as H. unfold wp in H.
      destruct (Method_decode _); by split. }
    destruct (f_type f =? HEARTBEAT)%Z; [by split |].
    destruct (Z.eqb_spec (f_type f) HEADER) as [Ht |].
    { pose proof (wp_contentHeader_size _ (payload_buffer_wf f Hf)) as H. unfold wp in H.
      destruct (ContentHeader_decode _) as [h b | | |]; [| by split | done | done].
      destruct H as [_ H64]. destruct (ContentMaker_done _) eqn:Hd; (split; [| by rewrite ?Ht]).
      - done.
      - apply framer_inv_set; [done |]. unfold ContentMaker_done in Hd.
        apply Z.leb_gt in Hd. split; [| by split]. done. }
    destruct (f_type f =? BODY)%Z; by split.
Qed.

(** *** Strings too long for their length octet *)

Definition publish (exchange routingKey : bytes) (mandatory : bool) : Method :=
  Method_Basic (BasicMethod_Publish (mkBasicPublish exchange routingKey mandatory false)).

Lemma length_publish exchange routingKey mandatory :
  length (Method_encode (publish exchange routingKey mandatory)) =
  9 + Nat.min (length exchange) 255 + Nat.min (length routingKey) 255.
Proof.
  unfold Method_encode, encode_class, publish, c_encode. cbn [BasicMethod_class BasicMethod_encode].
  unfold encode_method. cbn [m_encode BasicPublish_WireMethod]. unfold BasicPublish_encode.
  unfold writeUint16, writeUint8. rewrite 5!length_app, !length_be_encode, !length_encodeShortString.
  cbn. lia.
Qed.

(** publishing with a routing key longer than 255 bytes breaks the byte
    stream: the key is truncated, but the frame header announces the untruncated
    size, so that a decoder that has received the complete frame still waits for
    more bytes, and takes the bytes of the next frame for them. *)
Theorem long_routing_key_desyncs (channel : Z) (exchange routingKey : bytes) (mandatory : bool)
  (Hlong : 255 < length routingKey)
  (H32 : u_in 32 (Z.of_nat (9 + length exchange + length routingKey)) = true) :
  let f := makeMethodFrame channel (publish exchange routingKey mandatory) in
  Frame_decode (serialized f) = F_PARTIAL ∧
  totalFrameSize f < frameOverhead + Method_encodedSize (publish exchange routingKey mandatory).
Proof.
  set (m := publish exchange routingKey mandatory). cbn zeta.
  pose proof (length_publish exchange routingKey mandatory) as Hlen. fold m in Hlen.
  assert (Method_encodedSize m = 9 + length exchange + length routingKey) as Hsz.
  { unfold m, Method_encodedSize, publish, c_encodedSize. cbn. lia. }
  unfold makeMethodFrame, serialized, totalFrameSize. cbn [f_serializedData default from_option].
  rewrite written_concat. unfold encodeFrameHeader, encodeFrameEnd. cbn [concat].
  rewrite app_nil_r, <- !app_assoc, Hsz. set (n := 9 + length exchange + length routingKey) in *.
  set (data := writeUint8 METHOD ++ _).
  assert (length data = frameOverhead + length (Method_encode m)) as Hd.
  { unfold data, writeUint8, writeUint16, writeUint32, frameOverhead, frameHeaderSize.
    rewrite 4!length_app, !length_be_encode. lia. }
  assert (length data < frameOverhead + n) as Hlt by (rewrite Hd, Hlen; lia).
  split; [| exact Hlt]. unfold id, Frame_decode.
  destruct (Nat.ltb_spec (length data) frameOverhead); [done |].
  assert (slice 3 4 data = be_encode 4 (Z.of_nat n)) as ->.
  { unfold data. rewrite slice_app_skip, slice_app_skip;
      unfold writeUint8, writeUint16; rewrite ?length_be_encode; try lia.
    apply slice_head, length_be_encode. }
  rewrite be_decode_encode, uwrap_small, Nat2Z.id by done.
  by apply Nat.ltb_lt in Hlt as ->.
Qed.
End FramerTheorems.

(** ** Witnesses *)

Definition sample_guid : @Guid byte_GuidUtil := Byte.x07.

Definition sample_message : Message :=
  Message_make sample_guid (Some (str "hello world, hello world")) sample_properties.

Definition sample_traffic : list (Z * AmqpMessage) :=
  [(1%Z, AM_Method sample_method); (0%Z, AM_Heartbeat); (1%Z, AM_Message sample_message)].

Definition small_framer : Framer := (Framer_setMaxFrameSize Framer_make 13).1.

Lemma sample_traffic_ok :
  Forall (fun cm => u_in 16 cm.1 = true ∧ AmqpMessage_wf cm.2) sample_traffic.
Proof.
  unfold sample_traffic. repeat (apply Forall_cons; split); [.. | apply Forall_nil; exact I];
    (split; [reflexivity |]).
  - split; vm_compute; reflexivity.
  - exact I.
  - split; [vm_compute; reflexivity |]. split; [vm_compute; reflexivity |].
    split; [vm_compute; reflexivity |]. apply Message_make_identified.
Qed.

Lemma messages_delivered_over_wire_witness :
  frameOverhead < fr_maxFrameSize small_framer ∧
  ∃ frames, Framer_makeAll small_framer sample_traffic = Some frames ∧ length frames = 8 ∧
    (∀ gs, length gs = length frames →
       ∃ rs, Framer_run Framer_make (zip gs frames) = (Framer_make, rs) ∧
             Forall2 is_delivery_of sample_traffic (delivered rs)).
Proof.
  assert (frameOverhead < fr_maxFrameSize small_framer) as Hmax by (apply Nat.ltb_lt; reflexivity).
  split; [exact Hmax |].
  destruct (messages_delivered_over_wire small_framer Framer_make 4096 sample_traffic
              sample_traffic_ok Hmax eq_refl) as (frames & Hall & _ & _ & Hrun).
  exists frames. split; [exact Hall |]. split; [| exact Hrun].
  vm_compute in Hall. injection Hall as <-. reflexivity.
Defined.

Lemma framer_appendFrame_safe_witness :
  let '(fr', r) := Framer_appendFrame small_framer sample_guid (frame_of HEADER 3 (str "junk")) in
  append_ok small_framer (frame_of HEADER 3 (str "junk")) fr' r.
Proof.
  apply (framer_appendFrame_safe small_framer sample_guid (frame_of HEADER 3 (str "junk"))).
  - split; [apply map_Forall_empty | apply Nat.ltb_lt; reflexivity].
  - split; [apply Nat.leb_le; reflexivity | reflexivity].
Defined.

Lemma long_routing_key_desyncs_witness :
  Frame_decode (serialized (makeMethodFrame 1 (publish (str "ex") (replicate 256 Byte.x61) true)))
  = F_PARTIAL.
Proof.
  apply (long_routing_key_desyncs 1 (str "ex") (replicate 256 Byte.x61) true).
  - apply Nat.ltb_lt. reflexivity.
  - reflexivity.
Defined.
