(* ===== verification/MessageStore.v ===== *)
(** * MessageStore: unacknowledged messages by delivery tag and by GUID

    Models the class template [rmqamqp::MessageStore<Msg>]
    (rmqamqp_messagestore.h). The [bsl::map] from tags to messages is the list of
    its entries in key order; the [bsl::unordered_map] from GUIDs to iterators is a
    [gmap] from GUIDs to the tag the iterator points at, so that dereferencing an
    iterator whose element was erased is visible as [GuidDangling]. The class
    [HasGuid] is what the template requires of [Msg]. [bdlt::Datetime] values are
    points on the time line, as integers; the value of [CurrentTime::utc] is an
    argument of [MessageStore_insert]. *)

From Stdlib Require Import ZArith Lia Sorted.
From stdpp Require Import base tactics list gmap sorting.
From S2P Require Import Prelude Message.

#[local] Open Scope Z_scope.

(** [Msg::guid] *)
Class HasGuid {G : GuidUtil} (Msg : Type) := guid : Msg → Guid.

Section MessageStore.
Context {G : GuidUtil} {Msg : Type} {HG : HasGuid Msg}.

Definition Entry : Type := Z * (Msg * Z).

Record MessageStore := mkMessageStore {
  d_deliveryTagToMsg : list Entry;
  d_guidToMsg : gmap Guid Z;
  d_latestTagTilNow : Z;
  d_lifetimeId : Z;
}.

Definition MessageStore_make : MessageStore := mkMessageStore [] ∅ 0 0.

(** *** The operations of [bsl::map] the store uses *)

Fixpoint map_find (tag : Z) (l : list Entry) : option (Msg * Z) :=
  match l with
  | [] => None
  | (t, v) :: l' => if t =? tag then Some v else map_find tag l'
  end.

(** [emplace]: [None] when the key is present. *)
Fixpoint map_emplace (tag : Z) (v : Msg * Z) (l : list Entry) : option (list Entry) :=
  match l with
  | [] => Some [(tag, v)]
  | (t, w) :: l' =>
      if tag <? t then Some ((tag, v) :: l)
      else if tag =? t then None
      else match map_emplace tag v l' with
           | Some r => Some ((t, w) :: r)
           | None => None
           end
  end.

Fixpoint map_erase (tag : Z) (l : list Entry) : list Entry :=
  match l with
  | [] => []
  | (t, v) :: l' => if t =? tag then l' else (t, v) :: map_erase tag l'
  end.

(** *** The store's operations *)

(** [insert]: [unordered_map::insert] keeps an entry that is present. *)
Definition MessageStore_insert (now : Z) (deliveryTag : Z) (message : Msg) (s : MessageStore)
  : bool * MessageStore :=
  match map_emplace deliveryTag (message, now) (d_deliveryTagToMsg s) with
  | None => (false, s)
  | Some l =>
      let guids := match d_guidToMsg s !! guid message with
                   | Some _ => d_guidToMsg s
                   | None => <[guid message := deliveryTag]> (d_guidToMsg s)
                   end in
      (true, mkMessageStore l guids (Z.max (d_latestTagTilNow s) deliveryTag) (d_lifetimeId s))
  end.

Definition MessageStore_lookup (deliveryTag : Z) (s : MessageStore) : option Msg :=
  match map_find deliveryTag (d_deliveryTagToMsg s) with
  | Some (m, _) => Some m
  | None => None
  end.

Inductive GuidLookup :=
| GuidNotFound
| GuidFound (message : Msg) (deliveryTag : Z)
| GuidDangling.

Definition MessageStore_lookupGuid (g : Guid) (s : MessageStore) : GuidLookup :=
  match d_guidToMsg s !! g with
  | None => GuidNotFound
  | Some t => match map_find t (d_deliveryTagToMsg s) with
              | Some (m, _) => GuidFound m t
              | None => GuidDangling
              end
  end.

Definition MessageStore_remove (deliveryTag : Z) (s : MessageStore)
  : option (Msg * Z) * MessageStore :=
  match map_find deliveryTag (d_deliveryTagToMsg s) with
  | None => (None, s)
  | Some (m, t) =>
      (Some (m, t), mkMessageStore (map_erase deliveryTag (d_deliveryTagToMsg s))
                      (delete (guid m) (d_guidToMsg s)) (d_latestTagTilNow s) (d_lifetimeId s))
  end.

Definition MessageStore_count (s : MessageStore) : nat := length (d_deliveryTagToMsg s).

(** The loop of [removeUntil], from the iterator's position on: the removed
    entries, the entries from the final iterator on, and the GUID map. *)
Fixpoint removeUntil_loop (deliveryTag : Z) (l : list Entry) (guids : gmap Guid Z)
  (removed : list Entry) : list Entry * list Entry * gmap Guid Z :=
  match l with
  | [] => (removed, [], guids)
  | (t, (m, d)) :: l' =>
      if t <=? deliveryTag
      then removeUntil_loop deliveryTag l' (delete (guid m) guids) (removed ++ [(t, (m, d))])
      else (removed, l, guids)
  end.

Definition MessageStore_removeUntil (deliveryTag : Z) (s : MessageStore)
  : list Entry * MessageStore :=
  if Nat.eqb (MessageStore_count s) 0 then ([], s)
  else match map_find deliveryTag (d_deliveryTagToMsg s) with
       | None => ([], s)
       | Some _ =>
           match removeUntil_loop deliveryTag (d_deliveryTagToMsg s) (d_guidToMsg s) [] with
           | (removed, rest, guids) =>
               (removed, mkMessageStore rest guids (d_latestTagTilNow s) (d_lifetimeId s))
           end
       end.

(** [this->swap(other)], as the pair of the two stores afterwards. *)
Definition MessageStore_swap (this other : MessageStore) : MessageStore * MessageStore :=
  (mkMessageStore (d_deliveryTagToMsg other) (d_guidToMsg other) (d_latestTagTilNow other)
     (uwrap 64 (d_lifetimeId this + 1)),
   mkMessageStore (d_deliveryTagToMsg this) (d_guidToMsg this) (d_latestTagTilNow this)
     (d_lifetimeId other)).

Definition MessageStore_latestTagInStore (s : MessageStore) : Z :=
  match last (d_deliveryTagToMsg s) with Some (t, _) => t | None => 0 end.

Definition MessageStore_oldestTagInStore (s : MessageStore) : Z :=
  match d_deliveryTagToMsg s with (t, _) :: _ => t | [] => 0 end.

Fixpoint olderThan_loop (time : Z) (l : list Entry) : list Entry :=
  match l with
  | [] => []
  | (t, (m, d)) :: l' => if d <=? time then (t, (m, d)) :: olderThan_loop time l' else []
  end.

Definition MessageStore_getMessagesOlderThan (time : Z) (s : MessageStore) : list Entry :=
  olderThan_loop time (d_deliveryTagToMsg s).

(** *** Specification: a finite map from tags to messages *)

Definition contents (s : MessageStore) : gmap Z (Msg * Z) := list_to_map (d_deliveryTagToMsg s).

Record store_wf (s : MessageStore) : Prop := {
  wf_sorted : StronglySorted Z.lt (d_deliveryTagToMsg s).*1;
  wf_guid g t : d_guidToMsg s !! g = Some t →
                ∃ m d, (t, (m, d)) ∈ d_deliveryTagToMsg s ∧ guid m = g;
  wf_latest t : t ∈ (d_deliveryTagToMsg s).*1 → t ≤ d_latestTagTilNow s;
}.

(** Every stored message is found under its own GUID. *)
Definition guid_complete (s : MessageStore) : Prop :=
  ∀ t m d, (t, (m, d)) ∈ d_deliveryTagToMsg s → d_guidToMsg s !! guid m = Some t.

(** One call of an operation that changes a store. *)
Inductive store_step : MessageStore → MessageStore → Prop :=
| step_insert now t m s : store_step s (MessageStore_insert now t m s).2
| step_remove t s : store_step s (MessageStore_remove t s).2
| step_removeUntil t s : store_step s (MessageStore_removeUntil t s).2
| step_swap s : store_step s (MessageStore_swap s MessageStore_make).1.

(** The way the channels use a store: new tags are larger than all earlier ones
    and the clock does not run backwards. *)
Inductive fifo_step : MessageStore → MessageStore → Prop :=
| fifo_insert now t m s :
    d_latestTagTilNow s < t → (∀ e, e ∈ d_deliveryTagToMsg s → e.2.2 ≤ now) →
    fifo_step s (MessageStore_insert now t m s).2
| fifo_remove t s : fifo_step s (MessageStore_remove t s).2
| fifo_removeUntil t s : fifo_step s (MessageStore_removeUntil t s).2
| fifo_swap s : fifo_step s (MessageStore_swap s MessageStore_make).1.

(** *** Lemmas on the ordered map *)

Lemma sorted_NoDup (l : list Z) : StronglySorted Z.lt l → NoDup l.
Proof.
  induction 1 as [| t l Hs IH Hf]; constructor; [| done].
  intros Hin. rewrite Forall_forall in Hf. apply Hf in Hin. lia.
Qed.

Lemma map_find_Some l tag v : map_find tag l = Some v → (tag, v) ∈ l.
Proof.
  induction l as [| [t w] l IH]; simpl; [done |].
  destruct (Z.eqb_spec t tag) as [-> |]; intros; simplify_eq; set_solver.
Qed.

Lemma map_find_None l tag : map_find tag l = None ↔ tag ∉ l.*1.
Proof.
  induction l as [| [t w] l IH]; simpl; [set_solver |].
  destruct (Z.eqb_spec t tag) as [-> |]; set_solver.
Qed.

Lemma map_find_elem l tag v :
  StronglySorted Z.lt l.*1 → (tag, v) ∈ l → map_find tag l = Some v.
Proof.
  induction l as [| [t w] l IH]; simpl; intros Hs Hin; [set_solver |].
  apply elem_of_cons in Hin as [? | Hin]; [simplify_eq; by rewrite Z.eqb_refl |].
  inversion Hs as [| ? ? Hs' Hf]; subst. rewrite Forall_forall in Hf.
  assert (tag ∈ l.*1) as Ht by (by eapply elem_of_fst).
  apply Hf in Ht. destruct (Z.eqb_spec t tag); [lia | auto].
Qed.

Lemma map_find_list_to_map l tag : map_find tag l = (list_to_map l : gmap Z (Msg * Z)) !! tag.
Proof.
  induction l as [| [t w] l IH]; simpl; [by rewrite lookup_empty |].
  destruct (Z.eqb_spec t tag) as [-> |].
  - by rewrite lookup_insert_eq.
  - by rewrite lookup_insert_ne.
Qed.

Lemma map_emplace_None l tag v : map_emplace tag v l = None → tag ∈ l.*1.
Proof.
  induction l as [| [t w] l IH]; simpl; [done |]. intros H. repeat case_match; try done.
  - apply Z.eqb_eq in H1 as ->. set_solver.
  - set_solver.
Qed.

Lemma map_emplace_perm l l' tag v : map_emplace tag v l = Some l' → l' ≡ₚ (tag, v) :: l.
Proof.
  revert l'. induction l as [| [t w] l IH]; simpl; intros l' H; [by simplify_eq |].
  repeat case_match; simplify_eq; [done |]. rewrite (IH _ eq_refl). apply Permutation_swap.
Qed.

Lemma map_emplace_sorted l l' tag v :
  StronglySorted Z.lt l.*1 → map_emplace tag v l = Some l' →
  StronglySorted Z.lt l'.*1 ∧ tag ∉ l.*1.
Proof.
  revert l'. induction l as [| [t w] l IH]; simpl; intros l' Hs H.
  { simplify_eq. split; [repeat constructor | set_solver]. }
  inversion Hs as [| ? ? Hs' Hf]; subst. rewrite Forall_forall in Hf.
  destruct (Z.ltb_spec tag t) as [Hlt | Hge]; simplify_eq.
  - split.
    + constructor; [done |]. apply Forall_forall. simpl. intros x Hx.
      apply elem_of_cons in Hx as [-> | Hx]; [done |]. specialize (Hf x Hx). simpl in *. lia.
    + rewrite elem_of_cons. intros [-> | Hx]; [lia |]. apply Hf in Hx. lia.
  - destruct (Z.eqb_spec tag t) as [| Hne]; [done |].
    destruct (map_emplace tag v l) as [r |] eqn:Hr; simplify_eq.
    destruct (IH r Hs' eq_refl) as [Hsr Hni]. split; [| set_solver].
    constructor; [done |]. apply Forall_forall. intros x Hx.
    rewrite (map_emplace_perm _ _ _ _ Hr) in Hx. simpl in Hx.
    apply elem_of_cons in Hx as [-> | Hx]; [simpl; lia | by apply Hf].
Qed.

Lemma map_emplace_fresh l tag v : tag ∉ l.*1 → ∃ l', map_emplace tag v l = Some l'.
Proof.
  intros Hni. destruct (map_emplace tag v l) eqn:H; [eauto |].
  by apply map_emplace_None in H.
Qed.

Lemma map_emplace_last l tag v :
  (∀ t, t ∈ l.*1 → t < tag) → map_emplace tag v l = Some (l ++ [(tag, v)]).
Proof.
  induction l as [| [t w] l IH]; simpl; intros Hlt; [done |].
  assert (t < tag) by (apply Hlt; set_solver).
  destruct (Z.ltb_spec tag t); [lia |]. destruct (Z.eqb_spec tag t); [lia |].
  rewrite IH; [done |]. set_solver.
Qed.

Lemma map_erase_perm l tag v : map_find tag l = Some v → l ≡ₚ (tag, v) :: map_erase tag l.
Proof.
  induction l as [| [t w] l IH]; simpl; [done |].
  destruct (Z.eqb_spec t tag) as [-> | Hne]; intros H; simplify_eq; [done |].
  etrans; [apply perm_skip, IH, H |]. apply Permutation_swap.
Qed.

Lemma map_erase_sublist l tag : sublist (map_erase tag l) l.
Proof.
  induction l as [| [t w] l IH]; simpl; [done |].
  destruct (t =? tag); [by apply sublist_cons | by apply sublist_skip].
Qed.

Lemma sorted_sublist (l l' : list Entry) :
  sublist l l' → StronglySorted Z.lt l'.*1 → StronglySorted Z.lt l.*1.
Proof.
  induction 1 as [| [t v] l l' Hsub IH | [t v] l l' Hsub IH]; simpl; intros Hs; [done | |];
    inversion Hs as [| ? ? Hs' Hf]; subst; [| auto].
  constructor; [auto |]. apply (Forall_sublist _ _ _ (fmap_sublist fst _ _ Hsub) Hf).
Qed.

Lemma map_erase_spec l tag :
  StronglySorted Z.lt l.*1 → map_erase tag l = filter (λ e, e.1 ≠ tag) l.
Proof.
  induction l as [| [t w] l IH]; simpl; intros Hs; [done |].
  inversion Hs as [| ? ? Hs' Hf]; subst. rewrite filter_cons; simpl.
  destruct (Z.eqb_spec t tag) as [-> | Hne].
  - rewrite decide_False by auto. symmetry. apply filter_all.
    intros [t' w'] Hin. simpl. rewrite Forall_forall in Hf.
    intros ->. specialize (Hf tag ltac:(by eapply elem_of_fst)). lia.
  - rewrite decide_True by auto. f_equal. auto.
Qed.

Lemma removeUntil_loop_spec tag l gs acc :
  StronglySorted Z.lt l.*1 →
  ∃ gs', removeUntil_loop tag l gs acc
         = (acc ++ filter (λ e, e.1 ≤ tag) l, filter (λ e, tag < e.1) l, gs') ∧
         ∀ g, gs' !! g = if decide (g ∈ (λ e, guid e.2.1) <$> filter (λ e, e.1 ≤ tag) l)
                         then None else gs !! g.
Proof.
  revert gs acc. induction l as [| [t [m d]] l IH]; intros gs acc Hs; simpl.
  { exists gs. by rewrite app_nil_r. }
  inversion Hs as [| ? ? Hs' Hf]; subst. rewrite !filter_cons; simpl.
  destruct (Z.leb_spec t tag).
  - destruct (IH (delete (guid m) gs) (acc ++ [(t, (m, d))]) Hs') as (gs' & -> & Hg).
    rewrite decide_True, decide_False by lia. exists gs'. rewrite <- app_assoc. split; [done |].
    intros g. rewrite Hg. rewrite fmap_cons. simpl.
    destruct (decide (g = guid m)) as [-> | Hne].
    + rewrite lookup_delete_eq. repeat case_decide; set_solver.
    + rewrite lookup_delete_ne by done. do 2 case_decide; set_solver.
  - exists gs. rewrite decide_False, decide_True by lia.
    assert (∀ e, e ∈ l → tag < e.1) as Hall.
    { intros [t' w] Hin. rewrite Forall_forall in Hf. simpl.
      specialize (Hf t' ltac:(by eapply elem_of_fst)). lia. }
    rewrite (filter_all (λ e, tag < e.1) l) by done.
    rewrite (filter_none (λ e, e.1 ≤ tag) l) by (intros e He%Hall; lia).
    by rewrite app_nil_r.
Qed.

(** *** The operations keep the invariant *)

Lemma store_wf_make : store_wf MessageStore_make.
Proof. split; simpl; [constructor | by intros g t; rewrite lookup_empty | set_solver]. Qed.

Lemma MessageStore_insert_wf now t m s : store_wf s → store_wf (MessageStore_insert now t m s).2.
Proof.
  intros [Hs Hg Hl]. unfold MessageStore_insert.
  destruct (map_emplace t (m, now) (d_deliveryTagToMsg s)) as [l |] eqn:He; [| by split].
  destruct (map_emplace_sorted _ _ _ _ Hs He) as [Hs' _]. apply map_emplace_perm in He.
  split; simpl; [done | |].
  - intros g t' Hlk. setoid_rewrite He.
    assert (d_guidToMsg s !! g = Some t' ∨ g = guid m ∧ t' = t) as [Hlk' | [-> ->]].
    { case_match; [by left |]. apply lookup_insert_Some in Hlk. naive_solver. }
    + destruct (Hg _ _ Hlk') as (m' & d & ? & ?). exists m', d. set_solver.
    + exists m, now. set_solver.
  - intros t'. rewrite He. simpl. intros [-> | Ht%Hl]%elem_of_cons; lia.
Qed.

(** Removing entries together with the GUIDs of their messages. *)
Lemma store_wf_shrink s l gs :
  store_wf s → sublist l (d_deliveryTagToMsg s) →
  (∀ g t, gs !! g = Some t → d_guidToMsg s !! g = Some t) →
  (∀ t m d, (t, (m, d)) ∈ d_deliveryTagToMsg s → (t, (m, d)) ∉ l → gs !! guid m = None) →
  store_wf (mkMessageStore l gs (d_latestTagTilNow s) (d_lifetimeId s)).
Proof.
  intros [Hs Hg Hl] Hsub Hgs Hrm. split; simpl.
  - by eapply sorted_sublist.
  - intros g t Hlk. destruct (Hg g t) as (m & d & Hin & <-); [by apply Hgs |].
    exists m, d. split; [| done].
    destruct (decide (gs !! guid m = None)) as [Hn | Hn]; [congruence |].
    destruct (map_find t l) as [v |] eqn:Hf.
    + apply map_find_Some in Hf. pose proof (elem_of_sublist _ _ _ Hf Hsub) as Hin'.
      apply map_find_elem in Hin, Hin'; [| done..]. congruence.
    + destruct Hn. eapply Hrm; [done |]. intros Hin'%elem_of_fst.
      by apply map_find_None in Hf.
  - intros t Ht. apply Hl. eapply elem_of_sublist; [done |]. by apply fmap_sublist.
Qed.

Lemma MessageStore_remove_wf t s : store_wf s → store_wf (MessageStore_remove t s).2.
Proof.
  intros Hwf. unfold MessageStore_remove. destruct (map_find t _) as [[m d] |] eqn:Hf; [| done].
  apply store_wf_shrink; [done | apply map_erase_sublist | |]; simpl.
  - by intros g t' [? ?]%lookup_delete_Some.
  - intros t' m' d' Hin Hni. rewrite (map_erase_perm _ _ _ Hf) in Hin.
    apply elem_of_cons in Hin as [? |]; [| done]. simplify_eq. apply lookup_delete_eq.
Qed.

Lemma removeUntil_cases t s :
  store_wf s →
  (t ∉ (d_deliveryTagToMsg s).*1 ∧ MessageStore_removeUntil t s = ([], s)) ∨
  (t ∈ (d_deliveryTagToMsg s).*1 ∧ ∃ gs,
     MessageStore_removeUntil t s
     = (filter (λ e, e.1 ≤ t) (d_deliveryTagToMsg s),
        mkMessageStore (filter (λ e, t < e.1) (d_deliveryTagToMsg s)) gs
          (d_latestTagTilNow s) (d_lifetimeId s)) ∧
     ∀ g, gs !! g = if decide (g ∈ (λ e, guid e.2.1) <$>
                                     filter (λ e, e.1 ≤ t) (d_deliveryTagToMsg s))
                    then None else d_guidToMsg s !! g).
Proof.
  intros [Hs _ _]. unfold MessageStore_removeUntil, MessageStore_count.
  destruct (map_find t _) as [v |] eqn:Hf.
  - right. pose proof (map_find_Some _ _ _ Hf) as Hin. split; [by eapply elem_of_fst |].
    destruct (removeUntil_loop_spec t _ (d_guidToMsg s) [] Hs) as (gs & -> & Hgs).
    exists gs. split; [| done]. destruct (d_deliveryTagToMsg s); [by apply elem_of_nil in Hin | done].
  - left. split; [by apply map_find_None |]. by destruct (Nat.eqb _ _).
Qed.

Lemma sublist_filter {A} (P : A → Prop) `{∀ x, Decision (P x)} (l : list A) :
  sublist (filter P l) l.
Proof.
  induction l as [| x l IH]; [done |]. rewrite filter_cons. case_decide.
  - by apply sublist_skip.
  - by apply sublist_cons.
Qed.

Lemma MessageStore_removeUntil_wf t s : store_wf s → store_wf (MessageStore_removeUntil t s).2.
Proof.
  intros Hwf. destruct (removeUntil_cases t s Hwf) as [[_ ->] | [_ (gs & -> & Hgs)]]; [done |].
  apply store_wf_shrink; [done | apply sublist_filter | |]; simpl.
  - intros g t'. rewrite Hgs. by case_decide.
  - intros t' m d Hin Hni. rewrite Hgs, decide_True; [done |].
    apply list_elem_of_fmap. exists (t', (m, d)). split; [done |].
    apply list_elem_of_filter. split; [| done]. simpl.
    destruct (decide (t' ≤ t)); [done |]. destruct Hni. apply list_elem_of_filter. simpl.
    split; [lia | done].
Qed.

Lemma MessageStore_swap_wf s o :
  store_wf s → store_wf o →
  store_wf (MessageStore_swap s o).1 ∧ store_wf (MessageStore_swap s o).2.
Proof. intros [] []. by split; split. Qed.

Lemma store_step_wf s s' : store_wf s → store_step s s' → store_wf s'.
Proof.
  intros Hwf Hst. revert Hwf. destruct Hst; intros Hwf;
  [by apply MessageStore_insert_wf | by apply MessageStore_remove_wf
    | by apply MessageStore_removeUntil_wf | apply MessageStore_swap_wf; [done | apply store_wf_make]].
Qed.

Lemma lookupGuid_wf s g :
  store_wf s →
  match MessageStore_lookupGuid g s with
  | GuidNotFound => d_guidToMsg s !! g = None
  | GuidFound m t => guid m = g ∧ MessageStore_lookup t s = Some m
  | GuidDangling => False
  end.
Proof.
  intros [Hs Hg _]. unfold MessageStore_lookupGuid, MessageStore_lookup.
  destruct (d_guidToMsg s !! g) as [t |] eqn:Hlk; [| done].
  destruct (Hg _ _ Hlk) as (m & d & Hin & <-). by rewrite !(map_find_elem _ _ _ Hs Hin).
Qed.

(** *** GUID completeness *)

Lemma MessageStore_insert_complete now t m s :
  store_wf s → guid_complete s → d_guidToMsg s !! guid m = None →
  guid_complete (MessageStore_insert now t m s).2.
Proof.
  intros [Hs _ _] Hc Hn. unfold MessageStore_insert.
  destruct (map_emplace t (m, now) (d_deliveryTagToMsg s)) as [l |] eqn:He; [| done].
  apply map_emplace_perm in He. rewrite Hn. intros t' m' d'. simpl. rewrite He.
  intros [? | Hin]%elem_of_cons; simplify_eq; [by rewrite lookup_insert_eq |].
  pose proof (Hc _ _ _ Hin). rewrite lookup_insert_ne; [done |]. congruence.
Qed.

(** *** Functional behaviour, against [contents] *)

Lemma lookup_contents s t : contents s !! t = map_find t (d_deliveryTagToMsg s).
Proof. unfold contents. by rewrite map_find_list_to_map. Qed.

Lemma contents_perm s (l : list Entry) :
  NoDup l.*1 → d_deliveryTagToMsg s ≡ₚ l → contents s = list_to_map l.
Proof.
  intros Hnd Hp. unfold contents. symmetry. by apply list_to_map_proper.
Qed.

Lemma insert_contents now t m s :
  store_wf s →
  match contents s !! t with
  | Some _ => MessageStore_insert now t m s = (false, s)
  | None => ∃ s', MessageStore_insert now t m s = (true, s') ∧
                  contents s' = <[t := (m, now)]> (contents s)
  end.
Proof.
  intros [Hs _ _]. rewrite lookup_contents. unfold MessageStore_insert.
  destruct (map_emplace t (m, now) (d_deliveryTagToMsg s)) as [l |] eqn:He.
  - destruct (map_emplace_sorted _ _ _ _ Hs He) as [Hs' Hni].
    rewrite (proj2 (map_find_None _ _) Hni). eexists. split; [done |].
    rewrite (contents_perm _ ((t, (m, now)) :: d_deliveryTagToMsg s)); [done | |].
    + simpl. constructor; [done | by apply sorted_NoDup].
    + simpl. by apply map_emplace_perm.
  - apply map_emplace_None in He. destruct (map_find t _) eqn:Hf; [done |].
    by apply map_find_None in Hf.
Qed.

Lemma remove_contents t s :
  store_wf s →
  (MessageStore_remove t s).1 = contents s !! t ∧
  contents (MessageStore_remove t s).2 = delete t (contents s).
Proof.
  intros [Hs _ _]. rewrite lookup_contents. unfold MessageStore_remove.
  destruct (map_find t _) as [[m d] |] eqn:Hf; simpl.
  - split; [done |]. apply map_eq. intros t'. rewrite lookup_contents. simpl.
    rewrite map_erase_spec by done. rewrite map_find_list_to_map.
    unfold contents. apply option_eq. intros v.
    rewrite lookup_delete_Some.
    rewrite <- !elem_of_list_to_map; [| by apply sorted_NoDup |].
    + rewrite list_elem_of_filter. simpl. naive_solver.
    + apply sorted_NoDup. eapply sorted_sublist; [apply sublist_filter | done].
  - split; [done |]. rewrite delete_id; [done |]. by rewrite lookup_contents.
Qed.

Lemma removeUntil_contents t s :
  store_wf s → is_Some (contents s !! t) →
  (MessageStore_removeUntil t s).1 = filter (λ e, e.1 ≤ t) (d_deliveryTagToMsg s) ∧
  contents (MessageStore_removeUntil t s).2 = filter (λ e, t < e.1) (contents s).
Proof.
  intros Hwf Hsome. destruct (removeUntil_cases t s Hwf) as [[Hni _] | [_ (gs & -> & _)]].
  { apply map_find_None in Hni. rewrite lookup_contents, Hni in Hsome. by destruct Hsome. }
  split; [done |]. unfold contents. simpl. destruct Hwf as [Hs _ _].
  apply map_eq. intros t'. apply option_eq. intros v.
  rewrite map_lookup_filter_Some.
  rewrite <- !elem_of_list_to_map; [| by apply sorted_NoDup |].
  - rewrite list_elem_of_filter. simpl. naive_solver.
  - apply sorted_NoDup. eapply sorted_sublist; [apply sublist_filter | done].
Qed.

Lemma olderThan_sorted time (l : list Entry) :
  StronglySorted Z.le ((λ e, e.2.2) <$> l) →
  olderThan_loop time l = filter (λ e, e.2.2 ≤ time) l.
Proof.
  induction l as [| [t [m d]] l IH]; simpl; intros Hs; [done |].
  inversion Hs as [| ? ? Hs' Hf]; subst. rewrite filter_cons. simpl.
  destruct (Z.leb_spec d time).
  - rewrite decide_True by done. by rewrite IH.
  - rewrite decide_False by lia. symmetry. apply filter_none. intros e He.
    rewrite Forall_forall in Hf. specialize (Hf e.2.2). simpl in Hf.
    assert (d ≤ e.2.2); [| lia]. apply Hf, list_elem_of_fmap. by exists e.
Qed.

Lemma reachable_wf s : rtc store_step MessageStore_make s → store_wf s.
Proof.
  intros Hr. pose proof store_wf_make as Hwf. revert Hwf.
  induction Hr; eauto using store_step_wf.
Qed.

Lemma insert_newest now t m s :
  store_wf s → d_latestTagTilNow s < t →
  (MessageStore_insert now t m s).1 = true ∧
  d_deliveryTagToMsg (MessageStore_insert now t m s).2
  = d_deliveryTagToMsg s ++ [(t, (m, now))].
Proof.
  intros [_ _ Hl] Ht. unfold MessageStore_insert.
  rewrite map_emplace_last; [done |]. intros t' Ht'%Hl. lia.
Qed.

(** Insertion times do not decrease along the tags. *)
Definition times_sorted (s : MessageStore) : Prop :=
  StronglySorted Z.le ((λ e, e.2.2) <$> d_deliveryTagToMsg s).

Lemma times_sorted_snoc l (e : Entry) :
  StronglySorted Z.le ((λ e, e.2.2) <$> l) → (∀ e', e' ∈ l → e'.2.2 ≤ e.2.2) →
  StronglySorted Z.le ((λ e, e.2.2) <$> (l ++ [e])).
Proof.
  induction l as [| e' l IH]; simpl; intros Hs He; [repeat constructor |].
  inversion Hs as [| ? ? Hs' Hf]; subst. constructor; [apply IH; set_solver |].
  rewrite fmap_app. apply Forall_app. split; [done |]. simpl. constructor; [| constructor].
  apply He. left.
Qed.

Lemma times_sorted_sublist (l l' : list Entry) :
  sublist l l' → StronglySorted Z.le ((λ e, e.2.2) <$> l') →
  StronglySorted Z.le ((λ e, e.2.2) <$> l).
Proof.
  induction 1 as [| e l l' Hsub IH | e l l' Hsub IH]; simpl; intros Hs; [done | |];
    inversion Hs as [| ? ? Hs' Hf]; subst; [| auto].
  constructor; [auto |]. apply (Forall_sublist _ _ _ (fmap_sublist (λ e, e.2.2) _ _ Hsub) Hf).
Qed.

Lemma fifo_step_inv s s' :
  store_wf s ∧ times_sorted s → fifo_step s s' → store_wf s' ∧ times_sorted s'.
Proof.
  unfold times_sorted. intros [Hwf Hts] Hst. revert Hwf Hts.
  destruct Hst as [now t m s Ht Hnow | t s | t s | s]; intros Hwf Hts.
  - split; [by apply MessageStore_insert_wf |].
    destruct (insert_newest now t m s Hwf Ht) as [_ ->]. by apply times_sorted_snoc.
  - split; [by apply MessageStore_remove_wf |]. unfold MessageStore_remove.
    destruct (map_find t _) as [[m d] |]; [| done]. simpl.
    by eapply times_sorted_sublist; [apply map_erase_sublist |].
  - split; [by apply MessageStore_removeUntil_wf |].
    destruct (removeUntil_cases t s Hwf) as [[_ ->] | [_ (gs & -> & _)]]; [done |]. simpl.
    by eapply times_sorted_sublist; [apply sublist_filter |].
  - split; [apply MessageStore_swap_wf; [done | apply store_wf_make] | simpl; constructor].
Qed.

Lemma fifo_reachable s :
  rtc fifo_step MessageStore_make s → store_wf s ∧ times_sorted s.
Proof.
  intros Hr. assert (store_wf MessageStore_make ∧ times_sorted MessageStore_make) as Hi
    by (split; [apply store_wf_make | constructor]).
  revert Hi. induction Hr; eauto using fifo_step_inv.
Qed.

(** *** Theorems *)

(** Safety of the GUID index. In every store reached from an empty one by any
    sequence of insertions (also of duplicate GUIDs and duplicate tags), removals,
    bulk removals and swaps, no entry of the GUID index dangles: looking up a GUID
    never dereferences the iterator of an erased message, and what it yields is a
    stored message that carries this GUID and is found under the returned tag; the
    tags are strictly ordered and none exceeds [latestTagTilNow]. *)
Theorem messageStore_guid_index_safe s :
  rtc store_step MessageStore_make s →
  store_wf s ∧
  ∀ g, match MessageStore_lookupGuid g s with
       | GuidNotFound => True
       | GuidFound m t => guid m = g ∧ MessageStore_lookup t s = Some m
       | GuidDangling => False
       end.
Proof.
  intros Hr%reachable_wf. split; [done |]. intros g.
  pose proof (lookupGuid_wf s g Hr). by destruct (MessageStore_lookupGuid g s).
Qed.

(** C38: Refinement. A reachable store implements a finite map from delivery tags to
    messages with their insertion time: [insert] adds exactly one binding and is
    refused, changing nothing, when the tag is bound; [lookup] and [remove] are the
    map's; [removeUntil] of a stored tag returns all bindings up to it in tag
    order and leaves exactly the others, and of any other tag it does nothing;
    [swap] with an empty store hands over the whole content. *)
Theorem messageStore_refines_map s :
  rtc store_step MessageStore_make s →
  (∀ now t m,
     match contents s !! t with
     | Some _ => MessageStore_insert now t m s = (false, s)
     | None => ∃ s', MessageStore_insert now t m s = (true, s') ∧
                     contents s' = <[t := (m, now)]> (contents s)
     end) ∧
  (∀ t, MessageStore_lookup t s = fst <$> contents s !! t) ∧
  (∀ t, (MessageStore_remove t s).1 = contents s !! t ∧
        contents (MessageStore_remove t s).2 = delete t (contents s)) ∧
  (∀ t, match contents s !! t with
        | None => MessageStore_removeUntil t s = ([], s)
        | Some _ =>
            let (removed, s') := MessageStore_removeUntil t s in
            StronglySorted Z.lt removed.*1 ∧
            list_to_map removed = filter (λ e, e.1 ≤ t) (contents s) ∧
            contents s' = filter (λ e, t < e.1) (contents s)
        end) ∧
  contents (MessageStore_swap s MessageStore_make).1 = ∅ ∧
  contents (MessageStore_swap s MessageStore_make).2 = contents s.
Proof.
  intros Hwf%reachable_wf. pose proof (wf_sorted s Hwf) as Hs. split_and!.
  - intros. by apply insert_contents.
  - intros t. rewrite lookup_contents. unfold MessageStore_lookup.
    by destruct (map_find t _) as [[? ?] |].
  - intros. by apply remove_contents.
  - intros t. destruct (contents s !! t) as [v |] eqn:Hlk.
    + destruct (removeUntil_contents t s Hwf ltac:(by eexists)) as [Hrm Hrest].
      destruct (MessageStore_removeUntil t s) as [removed s']. simpl in *. subst removed.
      assert (StronglySorted Z.lt (filter (λ e, e.1 ≤ t) (d_deliveryTagToMsg s)).*1) as Hs'
        by (eapply sorted_sublist; [apply sublist_filter | done]).
      split_and!; [done | | done]. apply map_eq. intros t'. apply option_eq. intros w.
      unfold contents. rewrite map_lookup_filter_Some.
      rewrite <- !elem_of_list_to_map by (by apply sorted_NoDup).
      rewrite list_elem_of_filter. simpl. naive_solver.
    + destruct (removeUntil_cases t s Hwf) as [[_ ->] | [Hin _]]; [done |].
      rewrite lookup_contents in Hlk. by apply map_find_None in Hlk.
  - done.
  - done.
Qed.

(** [getMessagesOlderThan] is exact on the stores of the channels: after any
    sequence of insertions with growing tags under a clock that does not run
    backwards, interleaved with removals, bulk removals and swaps, it returns
    precisely the messages stored at or before the given time, although it stops
    at the first younger message. *)
Theorem getMessagesOlderThan_exact s time :
  rtc fifo_step MessageStore_make s →
  MessageStore_getMessagesOlderThan time s
  = filter (λ e, e.2.2 ≤ time) (d_deliveryTagToMsg s).
Proof. intros [_ Hts]%fifo_reachable. by apply olderThan_sorted. Qed.
End MessageStore.

Arguments MessageStore {_} _.
Arguments Entry : clear implicits.
Arguments GuidLookup : clear implicits.

(** *** Witnesses *)

(** A message type for the witnesses: a GUID and a number. *)
#[local] Instance pair_HasGuid : HasGuid (G := byte_GuidUtil) (Byte.byte * Z) := fst.

Definition sample_store : MessageStore (Byte.byte * Z) :=
  (MessageStore_removeUntil 2
     (MessageStore_insert 13 4 (Byte.x03, 40)
        (MessageStore_insert 12 3 (Byte.x01, 30)
           (MessageStore_insert 11 2 (Byte.x01, 20)
              (MessageStore_insert 10 1 (Byte.x02, 10) MessageStore_make).2).2).2).2).2.

Lemma sample_store_reachable : rtc store_step MessageStore_make sample_store.
Proof.
  unfold sample_store. eapply rtc_l; [apply (step_insert 10 1 (Byte.x02, 10)) |].
  eapply rtc_l; [apply (step_insert 11 2 (Byte.x01, 20)) |].
  eapply rtc_l; [apply (step_insert 12 3 (Byte.x01, 30)) |].
  eapply rtc_l; [apply (step_insert 13 4 (Byte.x03, 40)) |].
  eapply rtc_l; [apply (step_removeUntil 2) |]. apply rtc_refl.
Qed.

Lemma messageStore_guid_index_safe_witness :
  store_wf sample_store ∧ MessageStore_count sample_store = 2%nat.
Proof.
  split; [| reflexivity].
  exact (proj1 (messageStore_guid_index_safe sample_store sample_store_reachable)).
Defined.

Lemma messageStore_refines_map_witness :
  contents (MessageStore_remove 3 sample_store).2 = delete 3 (contents sample_store) ∧
  contents sample_store !! 3 = Some ((Byte.x01, 30), 12).
Proof.
  destruct (messageStore_refines_map sample_store sample_store_reachable) as (_ & _ & Hr & _).
  split; [exact (proj2 (Hr 3)) | reflexivity].
Defined.

Lemma getMessagesOlderThan_exact_witness :
  MessageStore_getMessagesOlderThan 12 sample_store = [(3, ((Byte.x01, 30), 12))].
Proof.
  rewrite (getMessagesOlderThan_exact sample_store 12); [reflexivity |].
  unfold sample_store.
  eapply rtc_l; [apply (fifo_insert 10 1 (Byte.x02, 10)); [vm_compute; reflexivity | vm_compute; set_solver] |].
  eapply rtc_l; [apply (fifo_insert 11 2 (Byte.x01, 20)); [vm_compute; reflexivity | vm_compute; set_solver] |].
  eapply rtc_l; [apply (fifo_insert 12 3 (Byte.x01, 30)); [vm_compute; reflexivity | vm_compute; set_solver] |].
  eapply rtc_l; [apply (fifo_insert 13 4 (Byte.x03, 40)); [vm_compute; reflexivity | vm_compute; set_solver] |].
  eapply rtc_l; [apply (fifo_removeUntil 2) |]. apply rtc_refl.
Defined.
