(* ===== verification/MultipleAck.v ===== *)
(** * MultipleAck: batching consumer acknowledgements

    Models [rmqamqp::MultipleAckHandler] (rmqamqp_multipleackhandler.cpp) and the
    values it works on, [rmqt::Envelope] and [rmqt::ConsumerAck]. The handler turns
    acknowledgements of single messages into [basic.ack]/[basic.nack] methods, some
    of them with the [multiple] flag; the calls of its two callbacks are a list of
    [AckCall]s. [bsl::sort] is a class: its result is a sorted permutation, in an
    unspecified order of elements that compare equal. Counters are 64-bit.

    The correctness statement is relative to the meaning AMQP gives to the two
    methods, the state machine [broker_run] on the unacknowledged deliveries of a
    channel. *)

From Stdlib Require Import ZArith Lia Sorted.
From stdpp Require Import base tactics list gmap sorting.
From S2P Require Import Prelude.

#[local] Open Scope Z_scope.

(** [rmqt::Envelope] *)
Record Envelope := mkEnvelope {
  env_deliveryTag : Z;
  env_channelLifetimeId : Z;
  env_consumerTag : bytes;
  env_exchange : bytes;
  env_routingKey : bytes;
  env_redelivered : bool;
}.

#[export] Instance Envelope_eq_dec : EqDecision Envelope.
Proof. solve_decision. Defined.

(** [rmqt::ConsumerAck::Type] *)
Inductive AckType := ACK | REJECT | REQUEUE.

#[export] Instance AckType_eq_dec : EqDecision AckType.
Proof. solve_decision. Defined.

(** [rmqt::ConsumerAck] *)
Record ConsumerAck := mkConsumerAck {
  ack_envelope : Envelope;
  ack_type : AckType;
}.

Definition ack_tag (a : ConsumerAck) : Z := env_deliveryTag (ack_envelope a).

(** [compare] *)
Definition ack_compare (a b : ConsumerAck) : bool := ack_tag a <? ack_tag b.

(** [bsl::sort] with [compare]. *)
Class AckSort := ack_sort : list ConsumerAck → list ConsumerAck.

Class AckSortLaws (AS : AckSort) : Prop := {
  ack_sort_perm l : ack_sort l ≡ₚ l;
  ack_sort_sorted l : StronglySorted (λ a b, ack_compare b a = false) (ack_sort l);
}.

(** A call of [d_onAck] or [d_onNack]. *)
Inductive AckCall :=
| OnAck (deliveryTag : Z) (multiple : bool)
| OnNack (deliveryTag : Z) (requeue multiple : bool).

Record MultipleAckHandler := mkMultipleAckHandler {
  d_totalAcked : Z;
  d_maxProcessedTag : Z;
}.

Definition MultipleAckHandler_make : MultipleAckHandler := mkMultipleAckHandler 0 0.

Definition MultipleAckHandler_reset (h : MultipleAckHandler) : MultipleAckHandler :=
  mkMultipleAckHandler 0 0.

(** [sendAck] *)
Definition MultipleAckHandler_sendAck (deliveryTag : Z) (type : AckType) (batchSize : Z)
  : AckCall :=
  let multiple := 1 <? batchSize in
  match type with
  | ACK => OnAck deliveryTag multiple
  | _ => OnNack deliveryTag (bool_decide (type = REQUEUE)) multiple
  end.

(** The loop of [process] from one index on, with its local variables, and the flush
    after it. *)
Fixpoint process_loop (acks : list ConsumerAck) (h : MultipleAckHandler) (batchLength : Z)
  (batchMaxTag : Z) (batchType : AckType) : list AckCall * MultipleAckHandler :=
  match acks with
  | [] =>
      ((if 0 <? batchLength then [MultipleAckHandler_sendAck batchMaxTag batchType batchLength]
        else []), h)
  | a :: acks' =>
      let tag := ack_tag a in
      let type := ack_type a in
      let h' := mkMultipleAckHandler (uwrap 64 (d_totalAcked h + 1))
                  (Z.max (d_maxProcessedTag h) tag) in
      if (d_totalAcked h =? d_maxProcessedTag h) && (tag =? uwrap 64 (d_maxProcessedTag h + 1))
      then
        let close := (0 <? batchLength) && bool_decide (type ≠ batchType) in
        let sent := if close
                    then [MultipleAckHandler_sendAck batchMaxTag batchType batchLength] else [] in
        let batchLength' := uwrap 64 ((if close then 0 else batchLength) + 1) in
        let (calls, h'') := process_loop acks' h' batchLength' tag type in
        (sent ++ calls, h'')
      else
        let sent := if 0 <? batchLength
                    then [MultipleAckHandler_sendAck batchMaxTag batchType batchLength] else [] in
        let batchLength' := if 0 <? batchLength then 0 else batchLength in
        let batchMaxTag' := if 0 <? batchLength then 0 else batchMaxTag in
        let (calls, h'') := process_loop acks' h' batchLength' batchMaxTag' batchType in
        (sent ++ [MultipleAckHandler_sendAck tag type 1] ++ calls, h'')
  end.

(** [process] *)
Definition MultipleAckHandler_process {AS : AckSort} (acks : list ConsumerAck)
  (h : MultipleAckHandler) : list AckCall * MultipleAckHandler :=
  process_loop (ack_sort acks) h 0 0 ACK.

(** ** The acknowledgement methods as the protocol defines them *)

(** The deliveries of a channel that await an acknowledgement, and how the others
    were settled. *)
Record Broker := mkBroker {
  unacked : gset Z;
  settled : gmap Z AckType;
}.

Definition AckCall_tag (c : AckCall) : Z := match c with OnAck t _ | OnNack t _ _ => t end.
Definition AckCall_multiple (c : AckCall) : bool :=
  match c with OnAck _ m | OnNack _ _ m => m end.
Definition AckCall_type (c : AckCall) : AckType :=
  match c with OnAck _ _ => ACK | OnNack _ true _ => REQUEUE | OnNack _ false _ => REJECT end.

(** [None]: an unknown delivery tag, a channel error. With [multiple] all
    outstanding deliveries up to and including the tag are settled. *)
Definition broker_step (c : AckCall) (b : Broker) : option Broker :=
  if decide (AckCall_tag c ∈ unacked b) then
    let X : gset Z := if AckCall_multiple c then filter (λ t, t ≤ AckCall_tag c) (unacked b)
                      else {[AckCall_tag c]} in
    Some (mkBroker (unacked b ∖ X) (gset_to_gmap (AckCall_type c) X ∪ settled b))
  else None.

Fixpoint broker_run (calls : list AckCall) (b : Broker) : option Broker :=
  match calls with
  | [] => Some b
  | c :: calls' => match broker_step c b with
                   | Some b' => broker_run calls' b'
                   | None => None
                   end
  end.

(** The next message of the channel: delivery tags count from 1. *)
Definition broker_deliver (n : Z) (b : Broker) : Broker :=
  mkBroker ({[n]} ∪ unacked b) (settled b).

Lemma broker_run_app c1 c2 b :
  broker_run (c1 ++ c2) b = match broker_run c1 b with Some b' => broker_run c2 b' | None => None end.
Proof. revert b. induction c1 as [| c c1 IH]; intros b; simpl; [done |]. by case_match. Qed.

(** What a sequence of acknowledgements is meant to do. *)
Definition acks_map (acks : list ConsumerAck) : gmap Z AckType :=
  list_to_map ((λ a, (ack_tag a, ack_type a)) <$> acks).

Definition acks_tags (acks : list ConsumerAck) : gset Z := list_to_set (ack_tag <$> acks).

(** ** The handler's invariant

    [n] messages were delivered on the channel, [A] are the tags passed to the handler, and
    the messages of the current batch, the [len] tags up to [last], are in [A]
    but not yet acknowledged to the broker. *)

Record handler_inv (n : Z) (A : gset Z) (b : Broker) (len last : Z) (h : MultipleAckHandler)
  : Prop := {
  hi_n : 0 ≤ n < 2 ^ 64 - 1;
  hi_delivered x : x ∈ unacked b ∨ x ∈ A ↔ 1 ≤ x ≤ n;
  hi_pending x : x ∈ unacked b ∧ x ∈ A ↔ last - len < x ≤ last;
  hi_total : d_totalAcked h = Z.of_nat (size A);
  hi_max x : x ∈ A → x ≤ d_maxProcessedTag h;
  hi_max_in : d_maxProcessedTag h = 0 ∨ d_maxProcessedTag h ∈ A;
  hi_len : 0 ≤ len ≤ last;
  hi_batch : 0 < len → d_totalAcked h = d_maxProcessedTag h ∧ last = d_maxProcessedTag h;
}.

(** The tags of the batch. *)
Definition batch_set (len last : Z) : gset Z := list_to_set (seqZ (last - len + 1) len).

Lemma elem_of_batch_set len last x : x ∈ batch_set len last ↔ last - len < x ≤ last.
Proof. unfold batch_set. rewrite elem_of_list_to_set, elem_of_seqZ. lia. Qed.

Lemma elem_of_acks_tags acks x : x ∈ acks_tags acks ↔ x ∈ ack_tag <$> acks.
Proof. unfold acks_tags. by rewrite elem_of_list_to_set. Qed.

(** All of 1..k were acknowledged when k were and k is the largest. *)
Lemma handler_contiguous n A b len last h x :
  handler_inv n A b len last h → d_totalAcked h = d_maxProcessedTag h →
  x ∈ A ↔ 1 ≤ x ≤ d_maxProcessedTag h.
Proof.
  intros [Hn Hd _ Htot Hmax _ _ _] Heq.
  assert (A = list_to_set (seqZ 1 (d_maxProcessedTag h))) as ->.
  { apply set_subseteq_size_eq.
    - intros y Hy. rewrite elem_of_list_to_set, elem_of_seqZ.
      pose proof (Hmax y Hy). assert (1 ≤ y ≤ n) by (apply Hd; by right). lia.
    - rewrite size_list_to_set by apply NoDup_seqZ. rewrite length_seqZ. lia. }
  rewrite elem_of_list_to_set, elem_of_seqZ. lia.
Qed.

Lemma sendAck_tag t ty k : AckCall_tag (MultipleAckHandler_sendAck t ty k) = t.
Proof. by destruct ty. Qed.

Lemma sendAck_type t ty k : AckCall_type (MultipleAckHandler_sendAck t ty k) = ty.
Proof. by destruct ty. Qed.

Lemma sendAck_multiple t ty k : AckCall_multiple (MultipleAckHandler_sendAck t ty k) = (1 <? k).
Proof. by destruct ty. Qed.

(** Closing a batch settles its messages and no others. *)
Lemma broker_step_batch n A b len last h ty :
  handler_inv n A b len last h → 0 < len →
  broker_step (MultipleAckHandler_sendAck last ty len) b
  = Some (mkBroker (unacked b ∖ batch_set len last)
            (gset_to_gmap ty (batch_set len last) ∪ settled b)).
Proof.
  intros Hi Hlen. destruct (hi_batch _ _ _ _ _ _ Hi Hlen) as [Heq Hlast].
  pose proof (handler_contiguous _ _ _ _ _ _ last Hi Heq) as Hlst.
  assert (∀ x, x ∈ unacked b → x ≤ last → x ∈ A) as HA.
  { intros x Hx Hle. apply (handler_contiguous _ _ _ _ _ _ x Hi Heq).
    assert (1 ≤ x ≤ n) by (apply (hi_delivered _ _ _ _ _ _ Hi); by left). lia. }
  unfold broker_step. rewrite sendAck_tag, sendAck_type, sendAck_multiple.
  rewrite decide_True by (apply (hi_pending _ _ _ _ _ _ Hi last); lia).
  assert ((if 1 <? len then filter (λ t, t ≤ last) (unacked b) else {[last]})
          = batch_set len last) as ->; [| done].
  apply set_eq. intros x. rewrite elem_of_batch_set.
  destruct (Z.ltb_spec 1 len).
  - rewrite elem_of_filter, <- (hi_pending _ _ _ _ _ _ Hi x). split.
    + intros [? ?]. auto.
    + intros Hx. pose proof (proj1 (hi_pending _ _ _ _ _ _ Hi x) Hx). naive_solver lia.
  - rewrite elem_of_singleton. lia.
Qed.

Lemma handler_inv_flushed n A b len last last' h ty :
  handler_inv n A b len last h → 0 ≤ last' →
  handler_inv n A (mkBroker (unacked b ∖ batch_set len last)
                     (gset_to_gmap ty (batch_set len last) ∪ settled b)) 0 last' h.
Proof.
  intros Hi Hl'. split; simpl; try apply Hi; [| | lia | lia].
  - intros x. rewrite <- (hi_delivered _ _ _ _ _ _ Hi x), elem_of_difference, elem_of_batch_set.
    rewrite <- (hi_pending _ _ _ _ _ _ Hi x). destruct (decide (x ∈ A)); naive_solver.
  - intros x. rewrite elem_of_difference, elem_of_batch_set.
    rewrite <- (hi_pending _ _ _ _ _ _ Hi x). split; [naive_solver | lia].
Qed.

(** Acknowledging a message on its own. *)
Lemma broker_step_single n A b last h tag ty :
  handler_inv n A b 0 last h → tag ∈ unacked b →
  broker_step (MultipleAckHandler_sendAck tag ty 1) b
  = Some (mkBroker (unacked b ∖ {[tag]}) (<[tag := ty]> (settled b))).
Proof.
  intros Hi Hin. unfold broker_step. rewrite sendAck_tag, sendAck_type, sendAck_multiple.
  rewrite decide_True by done. simpl. do 2 f_equal.
  rewrite insert_union_singleton_l. f_equal. apply map_eq. intros x. apply option_eq. intros y.
  rewrite lookup_gset_to_gmap_Some, elem_of_singleton, lookup_singleton_Some. naive_solver.
Qed.

Lemma handler_size n A b len last h : handler_inv n A b len last h → Z.of_nat (size A) ≤ n.
Proof.
  intros [Hn Hd _ _ _ _ _ _]. rewrite <- (Z2Nat.id n) by lia. apply Nat2Z.inj_le.
  rewrite <- (length_seqZ 1 n), <- (size_list_to_set (C := gset Z)) by apply NoDup_seqZ.
  apply subseteq_size. intros x Hx. rewrite elem_of_list_to_set, elem_of_seqZ.
  assert (1 ≤ x ≤ n) by (apply Hd; by right). lia.
Qed.

(** The counters after one more message. *)
Definition handler_bump (tag : Z) (h : MultipleAckHandler) : MultipleAckHandler :=
  mkMultipleAckHandler (uwrap 64 (d_totalAcked h + 1)) (Z.max (d_maxProcessedTag h) tag).

Lemma handler_bump_counters n A b len last h tag :
  handler_inv n A b len last h → tag ∈ unacked b → tag ∉ A →
  d_totalAcked (handler_bump tag h) = Z.of_nat (size ({[tag]} ∪ A)) ∧
  (∀ x, x ∈ {[tag]} ∪ A → x ≤ d_maxProcessedTag (handler_bump tag h)) ∧
  (d_maxProcessedTag (handler_bump tag h) = 0 ∨ d_maxProcessedTag (handler_bump tag h) ∈ {[tag]} ∪ A).
Proof.
  intros Hi Hin Hni. pose proof (handler_size _ _ _ _ _ _ Hi). pose proof (hi_n _ _ _ _ _ _ Hi).
  assert (1 ≤ tag ≤ n) by (apply (hi_delivered _ _ _ _ _ _ Hi); by left).
  unfold handler_bump. simpl. split_and!.
  - rewrite size_union by set_solver. rewrite size_singleton, (hi_total _ _ _ _ _ _ Hi).
    rewrite uwrap_small; [lia |]. apply u_in_iff. lia.
  - intros x [->%elem_of_singleton | Hx%(hi_max _ _ _ _ _ _ Hi)]%elem_of_union; lia.
  - destruct (hi_max_in _ _ _ _ _ _ Hi) as [Hz | Hz];
      destruct (Z.max_spec (d_maxProcessedTag h) tag) as [[? ->] | [? ->]]; set_solver by lia.
Qed.

Lemma handler_inv_extend n A b len last h tag :
  handler_inv n A b len last h → tag ∈ unacked b → tag ∉ A →
  d_totalAcked h = d_maxProcessedTag h → tag = d_maxProcessedTag h + 1 →
  handler_inv n ({[tag]} ∪ A) b (len + 1) tag (handler_bump tag h) ∧
  batch_set (len + 1) tag = {[tag]} ∪ batch_set len last.
Proof.
  intros Hi Hin Hni Heq Htag.
  destruct (handler_bump_counters _ _ _ _ _ _ _ Hi Hin Hni) as (Ht & Hm & Hmi).
  pose proof (hi_len _ _ _ _ _ _ Hi) as Hlen. pose proof (handler_size _ _ _ _ _ _ Hi).
  pose proof (hi_n _ _ _ _ _ _ Hi). pose proof (hi_total _ _ _ _ _ _ Hi).
  assert (len = 0 ∨ 0 < len ∧ last = tag - 1) as Hcase.
  { destruct (Z.eq_dec len 0); [by left |]. right.
    destruct (hi_batch _ _ _ _ _ _ Hi); lia. }
  split.
  - split; try done.
    + intros x. rewrite elem_of_union, elem_of_singleton, <- (hi_delivered _ _ _ _ _ _ Hi x).
      naive_solver.
    + intros x. pose proof (hi_pending _ _ _ _ _ _ Hi x) as Hp.
      rewrite elem_of_union, elem_of_singleton.
      destruct (decide (x = tag)) as [-> | Hne]; [naive_solver lia |].
      transitivity (x ∈ unacked b ∧ x ∈ A); [naive_solver | rewrite Hp; lia].
    + lia.
    + intros _. unfold handler_bump. simpl. rewrite uwrap_small; [lia |].
      apply u_in_iff. lia.
  - apply set_eq. intros x. rewrite elem_of_union, elem_of_singleton, !elem_of_batch_set. lia.
Qed.

Lemma handler_inv_single n A b last h tag ty :
  handler_inv n A b 0 last h → tag ∈ unacked b → tag ∉ A →
  handler_inv n ({[tag]} ∪ A) (mkBroker (unacked b ∖ {[tag]}) (<[tag := ty]> (settled b))) 0 last
    (handler_bump tag h).
Proof.
  intros Hi Hin Hni.
  destruct (handler_bump_counters _ _ _ _ _ _ _ Hi Hin Hni) as (Ht & Hm & Hmi).
  split; simpl; try apply Hi; try done.
  - intros x. rewrite <- (hi_delivered _ _ _ _ _ _ Hi x). destruct (decide (x = tag)); set_solver.
  - intros x. pose proof (hi_pending _ _ _ _ _ _ Hi x). set_solver.
Qed.

Lemma acks_map_cons a acks : acks_map (a :: acks) = <[ack_tag a := ack_type a]> (acks_map acks).
Proof. done. Qed.

Lemma acks_map_None acks tag : tag ∉ ack_tag <$> acks → acks_map acks !! tag = None.
Proof.
  intros Hni. unfold acks_map. apply not_elem_of_list_to_map. by rewrite <- list_fmap_compose.
Qed.

(** The broker after the batch and the acknowledgements [acks]. *)
Definition broker_after (b : Broker) (batch : gset Z) (ty : AckType) (acks : list ConsumerAck)
  : Broker :=
  mkBroker (unacked b ∖ batch ∖ acks_tags acks)
    (acks_map acks ∪ (gset_to_gmap ty batch ∪ settled b)).

Lemma broker_after_nil b ty : broker_after b ∅ ty [] = b.
Proof.
  destruct b as [O S]. unfold broker_after, acks_map, acks_tags. simpl. f_equal; [set_solver |].
  by rewrite gset_to_gmap_empty, !(left_id_L ∅ (∪)).
Qed.

Lemma broker_after_extend b X ty a acks :
  ack_tag a ∉ ack_tag <$> acks → X = ∅ ∨ ty = ack_type a →
  broker_after b ({[ack_tag a]} ∪ X) (ack_type a) acks = broker_after b X ty (a :: acks).
Proof.
  intros Hni HX. unfold broker_after. rewrite acks_map_cons. f_equal.
  - unfold acks_tags. set_solver.
  - rewrite gset_to_gmap_union_singleton, <- insert_union_l, <- insert_union_l.
    rewrite <- insert_union_r by (by apply acks_map_None).
    destruct HX as [-> | ->]; [| done]. by rewrite !gset_to_gmap_empty.
Qed.

Lemma broker_after_flush b X ty ty' a acks :
  broker_after (mkBroker (unacked b ∖ X) (gset_to_gmap ty X ∪ settled b)) ∅ ty' (a :: acks)
  = broker_after b X ty (a :: acks).
Proof.
  unfold broker_after. simpl. rewrite gset_to_gmap_empty, (left_id_L ∅ (∪)). f_equal. set_solver.
Qed.

Lemma broker_after_single b a acks ty :
  ack_tag a ∉ ack_tag <$> acks →
  broker_after (mkBroker (unacked b ∖ {[ack_tag a]}) (<[ack_tag a := ack_type a]> (settled b)))
    ∅ ty acks
  = broker_after b ∅ ty (a :: acks).
Proof.
  intros Hni. unfold broker_after. simpl. rewrite acks_map_cons. f_equal.
  - unfold acks_tags. set_solver.
  - rewrite !gset_to_gmap_empty, !(left_id_L ∅ (∪)), <- insert_union_l.
    by rewrite <- insert_union_r by (by apply acks_map_None).
Qed.

Lemma batch_set_empty last : batch_set 0 last = ∅.
Proof. done. Qed.

Definition flush (len last : Z) (ty : AckType) : list AckCall :=
  if 0 <? len then [MultipleAckHandler_sendAck last ty len] else [].

Lemma broker_run_flush n A b len last h ty :
  handler_inv n A b len last h →
  broker_run (flush len last ty) b
  = Some (mkBroker (unacked b ∖ batch_set len last)
            (gset_to_gmap ty (batch_set len last) ∪ settled b)).
Proof.
  intros Hi. unfold flush. destruct (Z.ltb_spec 0 len).
  - simpl. by rewrite (broker_step_batch _ _ _ _ _ _ _ Hi).
  - pose proof (hi_len _ _ _ _ _ _ Hi). replace len with 0 by lia. rewrite batch_set_empty.
    rewrite gset_to_gmap_empty, (left_id_L ∅ (∪)), difference_empty_L. by destruct b.
Qed.

(** What the loop must achieve from a state on. *)
Definition loop_correct (acks : list ConsumerAck) (n : Z) (A : gset Z) (b : Broker)
  (len last : Z) (ty : AckType) (h : MultipleAckHandler) : Prop :=
  broker_run (process_loop acks h len last ty).1 b
  = Some (broker_after b (batch_set len last) ty acks) ∧
  handler_inv n (acks_tags acks ∪ A) (broker_after b (batch_set len last) ty acks) 0 0
    (process_loop acks h len last ty).2.

Lemma process_loop_extend a acks n A b len last ty h :
  handler_inv n A b len last h → ack_tag a ∈ unacked b → ack_tag a ∉ A →
  ack_tag a ∉ ack_tag <$> acks →
  d_totalAcked h = d_maxProcessedTag h → ack_tag a = d_maxProcessedTag h + 1 →
  len = 0 ∨ ty = ack_type a →
  loop_correct acks n ({[ack_tag a]} ∪ A) b (len + 1) (ack_tag a) (ack_type a)
    (handler_bump (ack_tag a) h) →
  broker_run (process_loop acks (handler_bump (ack_tag a) h) (len + 1) (ack_tag a) (ack_type a)).1 b
  = Some (broker_after b (batch_set len last) ty (a :: acks)) ∧
  handler_inv n (acks_tags (a :: acks) ∪ A) (broker_after b (batch_set len last) ty (a :: acks)) 0 0
    (process_loop acks (handler_bump (ack_tag a) h) (len + 1) (ack_tag a) (ack_type a)).2.
Proof.
  intros Hi Hin Hni Hnd Heq Htag Hty [Hrun Hinv].
  destruct (handler_inv_extend _ _ _ _ _ _ _ Hi Hin Hni Heq Htag) as [_ Hset].
  assert (batch_set len last = ∅ ∨ ty = ack_type a) as HX
    by (destruct Hty as [-> | ->]; [left; apply batch_set_empty | by right]).
  rewrite Hset, (broker_after_extend b _ ty a acks Hnd HX) in Hrun, Hinv.
  split; [done |]. replace (acks_tags (a :: acks) ∪ A) with (acks_tags acks ∪ ({[ack_tag a]} ∪ A));
    [done |]. unfold acks_tags. set_solver.
Qed.

(** The facts about the head of the acknowledgements that both branches use. *)
Lemma head_facts a acks n A b len last ty h :
  handler_inv n A b len last h → NoDup (ack_tag <$> (a :: acks)) →
  (∀ x, x ∈ ack_tag <$> (a :: acks) → x ∈ unacked b ∧ x ∉ A) →
  let bf := mkBroker (unacked b ∖ batch_set len last)
              (gset_to_gmap ty (batch_set len last) ∪ settled b) in
  ack_tag a ∉ ack_tag <$> acks ∧ NoDup (ack_tag <$> acks) ∧
  ack_tag a ∈ unacked b ∧ ack_tag a ∉ A ∧ ack_tag a ∈ unacked bf ∧
  (∀ x, x ∈ ack_tag <$> acks → x ∈ unacked b ∧ x ∉ {[ack_tag a]} ∪ A) ∧
  (∀ x, x ∈ ack_tag <$> acks → x ∈ unacked bf ∧ x ∉ {[ack_tag a]} ∪ A) ∧
  (∀ last', 0 ≤ last' → handler_inv n A bf 0 last' h) ∧
  0 ≤ d_maxProcessedTag h ≤ n.
Proof.
  intros Hi Hnd Hacks bf. rewrite fmap_cons in Hnd. apply NoDup_cons in Hnd as [Hna Hnd].
  assert (∀ x, x ∈ ack_tag <$> (a :: acks) → x ∈ unacked bf) as Hbf.
  { intros x [Hx Hni]%Hacks. apply elem_of_difference. split; [done |].
    rewrite elem_of_batch_set, <- (hi_pending _ _ _ _ _ _ Hi). naive_solver. }
  pose proof (hi_n _ _ _ _ _ _ Hi). rewrite fmap_cons in Hacks, Hbf.
  assert (∀ x, x ∈ ack_tag <$> acks → x ∉ {[ack_tag a]} ∪ A) as Hrest.
  { intros x Hx [->%elem_of_singleton | HA]%elem_of_union; [done |].
    by apply (Hacks x); [right |]. }
  destruct (Hacks (ack_tag a) ltac:(left)) as [Hin Hni].
  split_and!; try done.
  - apply Hbf. left.
  - intros x Hx. split; [apply Hacks; by right | auto].
  - intros x Hx. split; [apply Hbf; by right | auto].
  - intros last' Hl. by apply handler_inv_flushed.
  - destruct (hi_max_in _ _ _ _ _ _ Hi) as [-> | Hm]; [lia |].
    assert (1 ≤ d_maxProcessedTag h ≤ n); [| lia].
    apply (hi_delivered _ _ _ _ _ _ Hi). by right.
  - destruct (hi_max_in _ _ _ _ _ _ Hi) as [-> | Hm]; [lia |].
    apply (hi_delivered _ _ _ _ _ _ Hi). by right.
Qed.

(** One iteration of the loop, by branch. *)
Section Iteration.
Variables (a : ConsumerAck) (acks : list ConsumerAck).

Hypothesis rest_correct : ∀ n A b len last ty h,
  handler_inv n A b len last h → NoDup (ack_tag <$> acks) →
  (∀ x, x ∈ ack_tag <$> acks → x ∈ unacked b ∧ x ∉ A) →
  loop_correct acks n A b len last ty h.

Context (n : Z) (A : gset Z) (b : Broker) (len last : Z) (ty : AckType) (h : MultipleAckHandler).
Hypothesis Hi : handler_inv n A b len last h.
Hypothesis Hnd : NoDup (ack_tag <$> (a :: acks)).
Hypothesis Hacks : ∀ x, x ∈ ack_tag <$> (a :: acks) → x ∈ unacked b ∧ x ∉ A.

Definition batchable : bool :=
  (d_totalAcked h =? d_maxProcessedTag h) && (ack_tag a =? uwrap 64 (d_maxProcessedTag h + 1)).

Lemma batchable_true :
  batchable = true → d_totalAcked h = d_maxProcessedTag h ∧ ack_tag a = d_maxProcessedTag h + 1.
Proof using Hi Hnd Hacks.
  destruct (head_facts a acks n A b len last ACK h Hi Hnd Hacks) as (_ & _ & _ & _ & _ & _ & _ & _ & Hm).
  pose proof (hi_n _ _ _ _ _ _ Hi). unfold batchable.
  rewrite (uwrap_small 64 (d_maxProcessedTag h + 1)) by (apply u_in_iff; lia).
  by intros [?%Z.eqb_eq ?%Z.eqb_eq]%andb_true_iff.
Qed.

Lemma iteration_closes_batch :
  batchable = true → (0 <? len) && bool_decide (ack_type a ≠ ty) = true →
  loop_correct (a :: acks) n A b len last ty h.
Proof using Hi Hnd Hacks rest_correct.
  intros Hb Hclose. destruct (batchable_true Hb) as [Heq Htag].
  destruct (head_facts a acks n A b len last ty h Hi Hnd Hacks)
    as (Hna & Hnd' & Hin & Hni & Hinf & _ & Hbf & Hif & _).
  set (bf := mkBroker _ _) in *. pose proof (hi_len _ _ _ _ _ _ Hi) as Hlen.
  unfold loop_correct. cbn [process_loop]. fold (handler_bump (ack_tag a) h). fold batchable.
  rewrite Hb, Hclose, (uwrap_small 64 (0 + 1)) by done.
  destruct (process_loop_extend a acks n A bf 0 last (ack_type a) h) as [Hrun Hinv];
    [apply Hif; lia | done.. | by left | |].
  { apply rest_correct; [| done..]. by eapply (handler_inv_extend n A bf 0 last);
      [apply Hif; lia | ..]. }
  rewrite batch_set_empty in Hrun, Hinv. unfold bf in Hrun, Hinv.
  rewrite broker_after_flush in Hrun, Hinv.
  destruct (process_loop acks _ (0 + 1) (ack_tag a) (ack_type a)) as [calls h'].
  cbn [fst snd] in *. split; [| done].
  rewrite broker_run_app. pose proof (broker_run_flush _ _ _ _ _ _ ty Hi) as Hfl.
  apply andb_true_iff in Hclose as [Hpos _]. unfold flush in Hfl. rewrite Hpos in Hfl. by rewrite Hfl.
Qed.

Lemma iteration_extends_batch :
  batchable = true → (0 <? len) && bool_decide (ack_type a ≠ ty) = false →
  loop_correct (a :: acks) n A b len last ty h.
Proof using Hi Hnd Hacks rest_correct.
  intros Hb Hclose. destruct (batchable_true Hb) as [Heq Htag].
  destruct (head_facts a acks n A b len last ty h Hi Hnd Hacks)
    as (Hna & Hnd' & Hin & Hni & _ & Hrest & _ & _ & Hmax).
  pose proof (hi_len _ _ _ _ _ _ Hi) as Hlen. pose proof (hi_n _ _ _ _ _ _ Hi) as Hn.
  unfold loop_correct. cbn [process_loop]. fold (handler_bump (ack_tag a) h). fold batchable.
  rewrite Hb, Hclose. apply andb_false_iff in Hclose.
  assert (len = 0 ∨ ty = ack_type a) as Hty.
  { destruct Hclose as [Hle%Z.ltb_ge | Heqt%bool_decide_eq_false]; [left; lia | right].
    by destruct (decide (ty = ack_type a)). }
  rewrite (uwrap_small 64 (len + 1)).
  2: { apply u_in_iff. destruct (Z.eq_dec len 0); [lia |].
       destruct (hi_batch _ _ _ _ _ _ Hi); lia. }
  destruct (process_loop_extend a acks n A b len last ty h) as [Hrun Hinv]; [done.. | |].
  { apply rest_correct; [| done..]. by eapply (handler_inv_extend n A b len last). }
  by destruct (process_loop acks _ (len + 1) (ack_tag a) (ack_type a)) as [calls h'].
Qed.

Lemma iteration_acks_single :
  batchable = false → loop_correct (a :: acks) n A b len last ty h.
Proof using Hi Hnd Hacks rest_correct.
  intros Hb. destruct (head_facts a acks n A b len last ty h Hi Hnd Hacks)
    as (Hna & Hnd' & Hin & Hni & Hinf & _ & Hbf & Hif & _).
  set (bf := mkBroker _ _) in *. pose proof (hi_len _ _ _ _ _ _ Hi) as Hlen.
  unfold loop_correct. cbn [process_loop]. fold (handler_bump (ack_tag a) h). fold batchable.
  rewrite Hb. set (len' := if 0 <? len then 0 else len). set (last' := if 0 <? len then 0 else last).
  assert (len' = 0) as Hl' by (unfold len'; destruct (Z.ltb_spec 0 len); lia).
  assert (0 ≤ last') as Hlast' by (unfold last'; destruct (0 <? len); lia).
  pose proof (handler_inv_single _ _ _ _ _ _ (ack_type a) (Hif last' Hlast') Hinf Hni) as His.
  destruct (rest_correct n ({[ack_tag a]} ∪ A) _ len' last' ty (handler_bump (ack_tag a) h)
              ltac:(rewrite Hl'; exact His) Hnd') as [Hrun Hinv]; [set_solver |].
  rewrite Hl', batch_set_empty in Hrun, Hinv. rewrite broker_after_single in Hrun, Hinv by done.
  unfold bf in Hrun, Hinv. rewrite broker_after_flush in Hrun, Hinv. rewrite Hl'.
  destruct (process_loop acks _ 0 last' ty) as [calls h']. cbn [fst snd] in *. split.
  - rewrite broker_run_app. fold (flush len last ty). rewrite (broker_run_flush _ _ _ _ _ _ _ Hi).
    fold bf. cbn [app broker_run].
    rewrite (broker_step_single _ _ _ _ _ _ _ (Hif last' Hlast') Hinf). exact Hrun.
  - replace (acks_tags (a :: acks) ∪ A) with (acks_tags acks ∪ ({[ack_tag a]} ∪ A)); [done |].
    unfold acks_tags. set_solver.
Qed.
End Iteration.

Lemma process_loop_correct acks : ∀ n A b len last ty h,
  handler_inv n A b len last h → NoDup (ack_tag <$> acks) →
  (∀ x, x ∈ ack_tag <$> acks → x ∈ unacked b ∧ x ∉ A) →
  loop_correct acks n A b len last ty h.
Proof.
  induction acks as [| a acks IH]; intros n A b len last ty h Hi Hnd Hacks.
  - unfold loop_correct. simpl. fold (flush len last ty).
    rewrite (broker_run_flush _ _ _ _ _ _ _ Hi). unfold broker_after, acks_tags, acks_map. simpl.
    rewrite difference_empty_L, (left_id_L ∅ (∪)), (left_id_L ∅ (∪)).
    split; [done |]. by apply handler_inv_flushed.
  - destruct (batchable a h) eqn:Hb; [| by apply iteration_acks_single].
    destruct ((0 <? len) && bool_decide (ack_type a ≠ ty)) eqn:Hc;
      [by apply iteration_closes_batch | by apply iteration_extends_batch].
Qed.

(** ** A channel's lifetime

    Deliveries with consecutive tags interleaved with batches of acknowledgements
    of distinct messages that are outstanding. *)
Inductive ack_session {AS : AckSort} : Z → Broker → MultipleAckHandler → Prop :=
| session_start : ack_session 0 (mkBroker ∅ ∅) MultipleAckHandler_make
| session_deliver n b h :
    ack_session n b h → n + 1 < 2 ^ 64 - 1 →
    ack_session (n + 1) (broker_deliver (n + 1) b) h
| session_process n b h acks b' :
    ack_session n b h → NoDup (ack_tag <$> acks) →
    (∀ x, x ∈ ack_tag <$> acks → x ∈ unacked b) →
    broker_run (MultipleAckHandler_process acks h).1 b = Some b' →
    ack_session n b' (MultipleAckHandler_process acks h).2.

Section Theorems.
Context {AS : AckSort} {SL : AckSortLaws AS}.

Lemma process_correct n A b h acks :
  handler_inv n A b 0 0 h → NoDup (ack_tag <$> acks) →
  (∀ x, x ∈ ack_tag <$> acks → x ∈ unacked b) →
  broker_run (MultipleAckHandler_process acks h).1 b
  = Some (mkBroker (unacked b ∖ acks_tags acks) (acks_map acks ∪ settled b)) ∧
  handler_inv n (acks_tags acks ∪ A)
    (mkBroker (unacked b ∖ acks_tags acks) (acks_map acks ∪ settled b)) 0 0
    (MultipleAckHandler_process acks h).2.
Proof using SL.
  intros Hi Hnd Hin. pose proof (ack_sort_perm acks) as Hp.
  assert (broker_after b (batch_set 0 0) ACK (ack_sort acks)
          = mkBroker (unacked b ∖ acks_tags acks) (acks_map acks ∪ settled b)) as Hba.
  { unfold broker_after. rewrite batch_set_empty, gset_to_gmap_empty, (left_id_L ∅ (∪)).
    rewrite difference_empty_L. f_equal.
    - unfold acks_tags. by rewrite Hp.
    - f_equal. unfold acks_map. apply list_to_map_proper; [| by rewrite Hp].
      rewrite <- list_fmap_compose. by rewrite Hp. }
  assert (acks_tags (ack_sort acks) = acks_tags acks) as Ht by (unfold acks_tags; by rewrite Hp).
  destruct (process_loop_correct (ack_sort acks) n A b 0 0 ACK h) as [Hrun Hinv].
  - done.
  - by rewrite Hp.
  - intros x. rewrite Hp. intros Hx. split; [auto |]. intros HA.
    pose proof (proj1 (hi_pending _ _ _ _ _ _ Hi x) (conj (Hin x Hx) HA)). lia.
  - rewrite Hba, Ht in *. done.
Qed.

(** The next message is delivered. *)
Lemma handler_inv_deliver n A b h :
  handler_inv n A b 0 0 h → n + 1 < 2 ^ 64 - 1 → handler_inv (n + 1) A (broker_deliver (n + 1) b) 0 0 h.
Proof using.
  intros Hi Hn. split; simpl; try apply Hi.
  - pose proof (hi_n _ _ _ _ _ _ Hi). lia.
  - intros x. rewrite elem_of_union, elem_of_singleton. pose proof (hi_n _ _ _ _ _ _ Hi).
    transitivity (x = n + 1 ∨ (x ∈ unacked b ∨ x ∈ A)); [tauto |].
    rewrite (hi_delivered _ _ _ _ _ _ Hi x). lia.
  - intros x. rewrite elem_of_union, elem_of_singleton.
    pose proof (hi_delivered _ _ _ _ _ _ Hi (n + 1)).
    pose proof (hi_pending _ _ _ _ _ _ Hi x). destruct (decide (x = n + 1)) as [-> |]; [| naive_solver].
    pose proof (hi_n _ _ _ _ _ _ Hi). naive_solver lia.
Qed.

Lemma ack_session_inv n b h : ack_session n b h → ∃ A, handler_inv n A b 0 0 h.
Proof using SL.
  induction 1 as [| n b h _ [A Hi] Hn | n b h acks b' _ [A Hi] Hnd Hin Hrun].
  - exists ∅. split; simpl; set_solver by lia.
  - exists A. by apply handler_inv_deliver.
  - destruct (process_correct n A b h acks Hi Hnd Hin) as [Hrun' Hinv].
    rewrite Hrun in Hrun'. simplify_eq. eauto.
Qed.

Lemma process_loop_contiguous ty acks : ∀ h len last ty',
  d_totalAcked h = d_maxProcessedTag h → 0 ≤ d_maxProcessedTag h →
  0 ≤ len ≤ d_maxProcessedTag h → d_maxProcessedTag h + Z.of_nat (length acks) < 2 ^ 64 - 1 →
  ack_tag <$> acks = seqZ (d_maxProcessedTag h + 1) (Z.of_nat (length acks)) →
  Forall (λ a, ack_type a = ty) acks →
  (0 < len → last = d_maxProcessedTag h ∧ ty' = ty) → 0 < len + Z.of_nat (length acks) →
  process_loop acks h len last ty'
  = ([MultipleAckHandler_sendAck (d_maxProcessedTag h + Z.of_nat (length acks)) ty
        (len + Z.of_nat (length acks))],
     mkMultipleAckHandler (d_maxProcessedTag h + Z.of_nat (length acks))
       (d_maxProcessedTag h + Z.of_nat (length acks))).
Proof using.
  induction acks as [| a acks IH]; intros h len last ty' Heq H0 Hlen Hn Htags Hty Hlast Hpos.
  - simpl in Hpos. destruct (Hlast ltac:(lia)) as [-> ->]. simpl.
    rewrite !Z.add_0_r in *. rewrite (proj2 (Z.ltb_lt 0 len)) by lia.
    destruct h. simpl in *. by subst.
  - simpl length in *. rewrite Nat2Z.inj_succ in *. rewrite fmap_cons in Htags.
    rewrite seqZ_cons in Htags by lia. apply (inj2 cons) in Htags as [Ht Htags].
    apply Forall_cons in Hty as [Hta Hty]. cbn [process_loop].
    rewrite (uwrap_small 64 (d_maxProcessedTag h + 1)) by (apply u_in_iff; lia).
    rewrite Heq, Ht, !Z.eqb_refl. cbn [andb].
    rewrite (uwrap_small 64 (d_maxProcessedTag h + 1)) by (apply u_in_iff; lia).
    rewrite Z.max_r by lia.
    replace ((0 <? len) && bool_decide (ack_type a ≠ ty')) with false.
    2: { destruct (Z.ltb_spec 0 len) as [Hl |]; [| done]. destruct (Hlast Hl) as [_ ->].
         symmetry. apply bool_decide_eq_false. naive_solver. }
    rewrite (uwrap_small 64 (len + 1)) by (apply u_in_iff; lia).
    rewrite IH; simpl; try lia; try done.
    + by rewrite !Zplus_assoc_reverse, !Z.add_1_l.
    + by replace (Z.pred (Z.succ (Z.of_nat (length acks)))) with (Z.of_nat (length acks)) in Htags by lia.
Qed.

Lemma ack_sort_tags acks l :
  ack_tag <$> acks ≡ₚ l → StronglySorted Z.le l → ack_tag <$> ack_sort acks = l.
Proof using SL.
  intros Hp Hl. apply (StronglySorted_unique Z.le); [| done | by rewrite ack_sort_perm].
  pose proof (ack_sort_sorted acks) as Hs. induction Hs as [| a l' Hs IH Hf]; [constructor |].
  rewrite fmap_cons. constructor; [done |]. apply Forall_fmap. eapply Forall_impl; [done |].
  intros x Hx. unfold ack_compare in Hx. apply Z.ltb_ge in Hx. done.
Qed.

Lemma seqZ_sorted m k : StronglySorted Z.le (seqZ m (Z.of_nat k)).
Proof using.
  revert m. induction k as [| k IH]; intros m; [constructor |].
  rewrite seqZ_cons by lia. replace (Z.pred (Z.of_nat (S k))) with (Z.of_nat k) by lia.
  constructor; [apply IH |]. apply Forall_forall. intros x Hx%elem_of_seqZ. lia.
Qed.

(** Batching is effective: when the consumer acknowledged everything up to tag
    [k], acknowledging the next [m] messages in the same way, in any order, sends a
    single method for the last of them, with the [multiple] flag unless [m] is 1,
    and leaves the handler ready to batch again. *)
Theorem contiguous_acks_single_method k m ty acks :
  0 ≤ k → 1 ≤ Z.of_nat m → k + Z.of_nat m < 2 ^ 64 - 1 →
  ack_tag <$> acks ≡ₚ seqZ (k + 1) (Z.of_nat m) → Forall (λ a, ack_type a = ty) acks →
  MultipleAckHandler_process acks (mkMultipleAckHandler k k)
  = ([MultipleAckHandler_sendAck (k + Z.of_nat m) ty (Z.of_nat m)],
     mkMultipleAckHandler (k + Z.of_nat m) (k + Z.of_nat m)).
Proof using SL.
  intros Hk Hm Hb Hp Hty. unfold MultipleAckHandler_process.
  pose proof (ack_sort_tags _ _ Hp (seqZ_sorted _ _)) as Hs.
  assert (length (ack_sort acks) = m) as Hlen.
  { rewrite <- (length_fmap ack_tag), Hs, length_seqZ. lia. }
  rewrite (process_loop_contiguous ty); simpl; rewrite ?Hlen; try done; try lia.
  by rewrite ack_sort_perm.
Qed.

(** C6: The acknowledgements sent to the broker are exactly the ones the consumer
    made. At any point of a channel's lifetime, for any batch of acknowledgements of
    distinct outstanding messages in any order, with any mix of acks, rejects
    and requeues, the methods [process] emits (with or without the [multiple]
    flag) never name an unknown delivery tag, and after them the broker has settled
    precisely the messages of the batch, each in the requested way; every other
    outstanding message, also one with a smaller tag, stays outstanding. *)
Theorem multiple_acks_exact n b h acks :
  ack_session n b h → NoDup (ack_tag <$> acks) →
  (∀ x, x ∈ ack_tag <$> acks → x ∈ unacked b) →
  broker_run (MultipleAckHandler_process acks h).1 b
  = Some (mkBroker (unacked b ∖ acks_tags acks) (acks_map acks ∪ settled b)).
Proof using SL.
  intros [A Hi]%ack_session_inv Hnd Hin. by apply (process_correct n A).
Qed.
End Theorems.

(** ** Witnesses *)

#[local] Instance tag_le_dec (a b : ConsumerAck) : Decision (ack_tag a ≤ ack_tag b) := _.

#[export] Instance merge_AckSort : AckSort := merge_sort (λ a b, ack_tag a ≤ ack_tag b).

#[export] Instance merge_AckSortLaws : AckSortLaws merge_AckSort.
Proof.
  split; intros l; unfold ack_sort, merge_AckSort.
  - apply merge_sort_Permutation.
  - assert (StronglySorted (λ a b, ack_tag a ≤ ack_tag b)
              (merge_sort (λ a b, ack_tag a ≤ ack_tag b) l)) as Hs.
    { apply StronglySorted_merge_sort; [intros a b c; lia | intros a b; lia]. }
    induction Hs as [| a l' Hs IH Hf]; constructor; [done |].
    eapply Forall_impl; [done |]. intros x Hx. unfold ack_compare. apply Z.ltb_ge. exact Hx.
Qed.

Definition sample_ack (tag : Z) (ty : AckType) : ConsumerAck :=
  mkConsumerAck (mkEnvelope tag 0 [] [] [] false) ty.

(** Five deliveries, the third acknowledged first: the handler cannot batch until
    the gap is filled. *)
Lemma sample_session :
  ack_session 5 (mkBroker {[1; 2; 4; 5]} {[3 := ACK]}) (mkMultipleAckHandler 1 3).
Proof.
  change (mkMultipleAckHandler 1 3)
    with (MultipleAckHandler_process [sample_ack 3 ACK] MultipleAckHandler_make).2.
  eapply (session_process 5 (mkBroker {[1; 2; 3; 4; 5]} ∅)).
  - replace (mkBroker {[1; 2; 3; 4; 5]} ∅)
      with (broker_deliver 5 (broker_deliver 4 (broker_deliver 3 (broker_deliver 2
              (broker_deliver 1 (mkBroker ∅ ∅)))))) by (vm_compute; reflexivity).
    apply (session_deliver 4); [| lia]. apply (session_deliver 3); [| lia].
    apply (session_deliver 2); [| lia]. apply (session_deliver 1); [| lia].
    apply (session_deliver 0); [constructor | lia].
  - repeat constructor; set_solver.
  - simpl. set_solver.
  - reflexivity.
Qed.

Lemma multiple_acks_exact_witness :
  broker_run (MultipleAckHandler_process [sample_ack 2 ACK; sample_ack 4 REJECT; sample_ack 1 ACK]
                (mkMultipleAckHandler 1 3)).1 (mkBroker {[1; 2; 4; 5]} {[3 := ACK]})
  = Some (mkBroker {[5]} {[1 := ACK; 2 := ACK; 3 := ACK; 4 := REJECT]}).
Proof.
  rewrite (multiple_acks_exact 5 _ _ _ sample_session).
  - reflexivity.
  - repeat constructor; set_solver.
  - simpl. set_solver.
Defined.

Lemma contiguous_acks_single_method_witness :
  MultipleAckHandler_process [sample_ack 6 ACK; sample_ack 4 ACK; sample_ack 5 ACK]
    (mkMultipleAckHandler 3 3)
  = ([OnAck 6 true], mkMultipleAckHandler 6 6).
Proof.
  apply (contiguous_acks_single_method 3 3 ACK); [lia.. | | by repeat constructor].
  simpl. change (seqZ (3 + 1) 3) with [4; 5; 6].
  apply (Permutation_cons_append [4; 5] 6).
Defined.

(** The acknowledgements must be of distinct messages: acknowledging message 1
    twice lets the handler believe that 1..3 are acknowledged, and message 2,
    which the consumer still holds, is settled by the next batch. The receive
    channel does not check this (it compares only the lifetime id); that a message
    is acknowledged at most once is up to the message guard of the application. *)
Example duplicate_ack_settles_other :
  ∃ b', broker_run (MultipleAckHandler_process
                      [sample_ack 3 ACK; sample_ack 4 ACK; sample_ack 5 ACK]
                      (mkMultipleAckHandler 2 1)).1 (mkBroker {[2; 3; 4; 5]} {[1 := ACK]}) = Some b' ∧
        settled b' !! 2 = Some ACK.
Proof. eexists. split; reflexivity. Qed.
