(* ===== verification/AckQueue.v ===== *)
(** * AckQueue: acknowledgements on their way to the channel

    Models [rmqt::ConsumerAckBatch] (rmqt_consumerackbatch.cpp), the queue of batches
    the application's consumer shares with the receive channel, and
    [rmqa::ConsumerImpl::ackMessage] (rmqa_consumerimpl.cpp), which fills it from the
    threads of the application.

    A batch is an object that both sides point to: the consumer keeps adding to
    the batch it created last until the channel has locked it. [ack_heap] holds the
    batches ever made, addressed by their position; [d_ackQueue] and [d_ackBatch]
    are pointers. Each call is atomic (the mutexes of batch and consumer). *)

From Stdlib Require Import ZArith Lia.
From stdpp Require Import base tactics list sets.
From S2P Require Import Prelude MultipleAck.

(** [rmqt::ConsumerAckBatch] *)
Record ConsumerAckBatch := mkConsumerAckBatch {
  d_locked : bool;
  d_acks : list ConsumerAck;
}.

Definition ConsumerAckBatch_make : ConsumerAckBatch := mkConsumerAckBatch false [].

Definition ConsumerAckBatch_addAck (ack : ConsumerAck) (b : ConsumerAckBatch)
  : bool * ConsumerAckBatch :=
  if d_locked b then (false, b) else (true, mkConsumerAckBatch false (d_acks b ++ [ack])).

Definition ConsumerAckBatch_lock (b : ConsumerAckBatch) : ConsumerAckBatch :=
  mkConsumerAckBatch true (d_acks b).

(** The shared queue, and the consumer's pointer to the batch it fills. *)
Record AckQueue := mkAckQueue {
  ack_heap : list ConsumerAckBatch;
  d_ackQueue : list nat;
  d_ackBatch : option nat;
}.

Definition AckQueue_make : AckQueue := mkAckQueue [] [] None.

(** The new batch of [ackMessage], pushed to the queue. *)
Definition ackMessage_newBatch (ack : ConsumerAck) (q : AckQueue) : AckQueue :=
  let address := length (ack_heap q) in
  mkAckQueue (ack_heap q ++ [(ConsumerAckBatch_addAck ack ConsumerAckBatch_make).2])
    (d_ackQueue q ++ [address]) (Some address).

(** [ConsumerImpl::ackMessage]; the result says whether [d_onNewAckBatch] is posted to
    the event loop. *)
Definition ConsumerImpl_ackMessage (ack : ConsumerAck) (q : AckQueue) : bool * AckQueue :=
  match d_ackBatch q with
  | None => (true, ackMessage_newBatch ack q)
  | Some address =>
      match ack_heap q !! address with
      | None => (true, ackMessage_newBatch ack q)
      | Some batch =>
          let (added, batch') := ConsumerAckBatch_addAck ack batch in
          if added
          then (false, mkAckQueue (<[address := batch']> (ack_heap q)) (d_ackQueue q) (d_ackBatch q))
          else (true, ackMessage_newBatch ack q)
      end
  end.

(** [batch->lock()] through a pointer. *)
Definition lock_at (heap : list ConsumerAckBatch) (address : nat) : list ConsumerAckBatch :=
  alter ConsumerAckBatch_lock address heap.

(** [d_ackQueue->popFront()->lock()]; [None] when the queue is empty. *)
Definition AckQueue_popFront (q : AckQueue) : option (list ConsumerAck * AckQueue) :=
  match d_ackQueue q with
  | [] => None
  | address :: rest =>
      Some (default [] (d_acks <$> ack_heap q !! address),
            mkAckQueue (lock_at (ack_heap q) address) rest (d_ackBatch q))
  end.

(** [d_ackQueue->removeAll(...)] and locking what was removed. *)
Definition AckQueue_removeAll (q : AckQueue) : AckQueue :=
  mkAckQueue (fold_left lock_at (d_ackQueue q) (ack_heap q)) [] (d_ackBatch q).

(** ** Specification: the acknowledgements waiting, batch by batch *)

Definition waiting (q : AckQueue) : list (list ConsumerAck) :=
  (λ address, default [] (d_acks <$> ack_heap q !! address)) <$> d_ackQueue q.

(** The batches were queued in the order of their addresses; those that left the queue,
    and only those, are locked. *)
Record queue_wf (q : AckQueue) : Prop := {
  qw_queue : d_ackQueue q = seq (length (ack_heap q) - length (d_ackQueue q)) (length (d_ackQueue q));
  qw_length : length (d_ackQueue q) ≤ length (ack_heap q);
  qw_locked i b : ack_heap q !! i = Some b → d_locked b = bool_decide (i ∉ d_ackQueue q);
  qw_batch : d_ackBatch q = match ack_heap q with [] => None | _ => Some (length (ack_heap q) - 1) end;
}.

Lemma elem_of_queue q i :
  queue_wf q →
  i ∈ d_ackQueue q ↔ length (ack_heap q) - length (d_ackQueue q) ≤ i < length (ack_heap q).
Proof.
  intros Hq. rewrite (qw_queue _ Hq) at 1. rewrite elem_of_seq. pose proof (qw_length _ Hq). lia.
Qed.

Lemma queue_wf_make : queue_wf AckQueue_make.
Proof. by split. Qed.

Lemma newBatch_spec ack q :
  queue_wf q →
  queue_wf (ackMessage_newBatch ack q) ∧
  waiting (ackMessage_newBatch ack q) = waiting q ++ [[ack]].
Proof.
  intros Hq. pose proof (qw_length _ Hq) as Hl. split.
  - split; simpl; rewrite ?length_app; simpl.
    + replace (length (ack_heap q) + 1 - (length (d_ackQueue q) + 1))
        with (length (ack_heap q) - length (d_ackQueue q)) by lia.
      rewrite seq_app, <- (qw_queue _ Hq), Nat.sub_add by done. done.
    + lia.
    + intros i b [Hb | [Hi Hb]]%lookup_app_Some.
      * rewrite (qw_locked _ Hq i b Hb). apply lookup_lt_Some in Hb. apply bool_decide_ext.
        rewrite elem_of_app, list_elem_of_singleton. naive_solver lia.
      * apply list_lookup_singleton_Some in Hb as [Hz <-]. symmetry. apply bool_decide_eq_false.
        intros Hn. apply Hn. rewrite elem_of_app, list_elem_of_singleton. right. lia.
    + rewrite Nat.add_sub. by destruct (ack_heap q).
  - unfold waiting. simpl. rewrite fmap_app. f_equal.
    + apply list_fmap_ext. intros i a Ha%list_elem_of_lookup_2%(elem_of_queue _ _ Hq).
      by rewrite lookup_app_l by lia.
    + simpl. by rewrite list_lookup_middle.
Qed.

(** Replacing a batch of the queue by a longer one. *)
Lemma queue_wf_insert q i b :
  queue_wf q → i ∈ d_ackQueue q → d_locked b = false →
  queue_wf (mkAckQueue (<[i := b]> (ack_heap q)) (d_ackQueue q) (d_ackBatch q)).
Proof.
  intros Hq Hi Hb. split; simpl; rewrite ?length_insert; try apply Hq.
  - intros j b' [(<- & <- & _) | [Hne Hl]]%list_lookup_insert_Some.
    + rewrite Hb. symmetry. by apply bool_decide_eq_false; naive_solver.
    + by apply (qw_locked _ Hq).
  - rewrite (qw_batch _ Hq). destruct (ack_heap q), i; done.
Qed.

Lemma queue_last q :
  queue_wf q → d_ackQueue q ≠ [] →
  ∃ front, d_ackQueue q = front ++ [length (ack_heap q) - 1] ∧ length (ack_heap q) - 1 ∉ front.
Proof.
  intros Hq Hne. pose proof (qw_length _ Hq) as Hl.
  destruct (length (d_ackQueue q)) as [| n] eqn:Hn; [by destruct (d_ackQueue q) |].
  exists (seq (length (ack_heap q) - S n) n). rewrite (qw_queue _ Hq), Hn, seq_S. split.
  - do 2 f_equal. lia.
  - rewrite elem_of_seq. lia.
Qed.

(** An acknowledgement joins the last waiting batch, or is a batch of its own, and then
    the channel is notified. *)
Lemma ackMessage_spec ack q :
  queue_wf q →
  let (posted, q') := ConsumerImpl_ackMessage ack q in
  queue_wf q' ∧
  if posted then waiting q' = waiting q ++ [[ack]]
  else ∃ front l, waiting q = front ++ [l] ∧ waiting q' = front ++ [l ++ [ack]].
Proof.
  intros Hq. pose proof (newBatch_spec ack q Hq) as Hnew. unfold ConsumerImpl_ackMessage.
  rewrite (qw_batch _ Hq). destruct (ack_heap q) as [| b0 heap] eqn:Hh; [done |]. rewrite <- Hh.
  destruct (ack_heap q !! (length (ack_heap q) - 1)) as [b |] eqn:Hb; [| done].
  unfold ConsumerAckBatch_addAck. destruct (d_locked b) eqn:Hlk; [done |].
  rewrite (qw_locked _ Hq _ _ Hb) in Hlk. apply bool_decide_eq_false in Hlk.
  apply dec_stable in Hlk.
  pose proof (queue_wf_insert q _ (mkConsumerAckBatch false (d_acks b ++ [ack])) Hq Hlk eq_refl) as Hins.
  rewrite (qw_batch _ Hq), Hh in Hins. rewrite <- Hh in Hins. split; [exact Hins |].
  destruct (queue_last q Hq) as (front & Hf & Hni); [intros Hnil; rewrite Hnil in Hlk; by apply elem_of_nil in Hlk |].
  unfold waiting. simpl. rewrite Hf, !fmap_app. eexists _, _. split; [reflexivity |].
  f_equal.
  - apply list_fmap_ext. intros i a Ha%list_elem_of_lookup_2. rewrite list_lookup_insert_ne; [done |].
    intros Heq. apply Hni. by rewrite Heq.
  - simpl. rewrite Hb, list_lookup_insert_eq; [done |]. by apply lookup_lt_Some in Hb.
Qed.

Lemma lock_at_lookup heap i j :
  lock_at heap i !! j = if decide (i = j) then ConsumerAckBatch_lock <$> heap !! j else heap !! j.
Proof.
  unfold lock_at. case_decide as Hd; [subst; apply list_lookup_alter_eq | by apply list_lookup_alter_ne].
Qed.

Lemma lock_all_lookup ptrs : ∀ heap j,
  fold_left lock_at ptrs heap !! j
  = if decide (j ∈ ptrs) then ConsumerAckBatch_lock <$> heap !! j else heap !! j.
Proof.
  induction ptrs as [| i ptrs IH]; intros heap j; simpl; [done |].
  rewrite IH, lock_at_lookup. repeat case_decide; try done; try set_solver.
  by destruct (heap !! j).
Qed.

Lemma lock_all_length ptrs : ∀ heap, length (fold_left lock_at ptrs heap) = length heap.
Proof.
  induction ptrs as [| i ptrs IH]; intros heap; simpl; [done |]. rewrite IH. apply length_alter.
Qed.

Lemma queue_batch_length q (heap : list ConsumerAckBatch) :
  queue_wf q → length heap = length (ack_heap q) →
  d_ackBatch q = match heap with [] => None | _ => Some (length heap - 1) end.
Proof.
  intros Hq Hl. rewrite (qw_batch _ Hq), Hl. by destruct heap, (ack_heap q).
Qed.

(** The channel takes the first waiting batch; nothing is added to it afterwards. *)
Lemma popFront_spec q :
  queue_wf q →
  match waiting q with
  | [] => AckQueue_popFront q = None
  | acks :: rest =>
      ∃ q', AckQueue_popFront q = Some (acks, q') ∧ queue_wf q' ∧ waiting q' = rest
  end.
Proof.
  intros Hq. pose proof (qw_queue _ Hq) as Hs. pose proof (qw_length _ Hq) as Hl.
  unfold waiting, AckQueue_popFront. destruct (d_ackQueue q) as [| i ptrs] eqn:Hqu; simpl; [done |].
  simpl in Hs, Hl. injection Hs as Hi His.
  eexists. split; [reflexivity |].
  assert (length (lock_at (ack_heap q) i) = length (ack_heap q)) as Hlen by apply length_alter.
  assert (i ∉ ptrs) as Hni by (rewrite His, elem_of_seq; lia). split; [split |]; simpl.
  - rewrite Hlen. rewrite His at 1. f_equal. lia.
  - lia.
  - intros j b. rewrite lock_at_lookup. case_decide as Hd.
    + subst j. destruct (ack_heap q !! i); [| done]. intros [= <-]. simpl. symmetry.
      by apply bool_decide_eq_true.
    + intros Hb. rewrite (qw_locked _ Hq _ _ Hb), Hqu. apply bool_decide_ext. set_solver.
  - by apply queue_batch_length.
  - apply list_fmap_ext. intros k j Hj%list_elem_of_lookup_2. rewrite lock_at_lookup.
    by rewrite decide_False by (by intros ->).
Qed.

Lemma removeAll_spec q :
  queue_wf q → queue_wf (AckQueue_removeAll q) ∧ waiting (AckQueue_removeAll q) = [].
Proof.
  intros Hq. split; [| done]. split; simpl.
  - done.
  - lia.
  - intros j b. rewrite lock_all_lookup. case_decide as Hd.
    + destruct (ack_heap q !! j); [| done]. by intros [= <-].
    + intros Hb. rewrite (qw_locked _ Hq _ _ Hb). by rewrite !bool_decide_eq_true_2 by set_solver.
  - apply queue_batch_length; [done |]. apply lock_all_length.
Qed.
