(* ===== verification/Topology.v ===== *)
(** * Topology: declaring and updating queues, exchanges and bindings

    Models the topology values of rmqt (rmqt_queue.h, rmqt_exchange.h,
    rmqt_binding.h, rmqt_queuebinding.h, rmqt_exchangebinding.h,
    rmqt_queueunbinding.h, rmqt_queuedelete.h, rmqt_topology.h,
    rmqt_topologyupdate.h), [rmqamqp::TopologyTransformer]
    (rmqamqp_topologytransformer.cpp), which turns a topology or an update into
    AMQP methods and checks the broker's replies against them, and
    [rmqamqp::TopologyMerger] (rmqamqp_topologymerger.cpp), which folds a confirmed
    update into the topology that is declared again after a reconnection.

    Bindings refer to queues and exchanges by [weak_ptr]: a handle is an address and
    [Heap] says which objects are alive, so that [lock] can fail. *)

From Stdlib Require Import ZArith Lia String Strings.Byte.
From stdpp Require Import base tactics list gmap.
From S2P Require Import Prelude Wire FieldValue Props Methods Method Message Framer.

Section Topology.
Context {E : EpochUtil} {G : GuidUtil}.

(** ** Topology values *)

Record rmqt_Queue := mk_rmqt_Queue {
  queue_name : bytes;
  queue_passive : bool;
  queue_autoDelete : bool;
  queue_durable : bool;
  queue_args : FieldTable;
}.

Record rmqt_Exchange := mk_rmqt_Exchange {
  exchange_name : bytes;
  exchange_type : bytes;
  exchange_passive : bool;
  exchange_autoDelete : bool;
  exchange_durable : bool;
  exchange_internal : bool;
  exchange_args : FieldTable;
}.

Definition DEFAULT_EXCHANGE : bytes := [].
Definition ExchangeType_DIRECT : bytes := str "direct".

Definition Exchange_isDefault (x : rmqt_Exchange) : bool :=
  bool_decide (exchange_name x = DEFAULT_EXCHANGE) &&
  bool_decide (exchange_type x = ExchangeType_DIRECT) &&
  negb (exchange_autoDelete x) && exchange_durable x && negb (exchange_internal x) &&
  Nat.eqb (length (exchange_args x)) 0.

(** [bsl::weak_ptr<Queue>], [bsl::weak_ptr<Exchange>] *)
Definition QueueHandle : Type := positive.
Definition ExchangeHandle : Type := positive.

Record Heap := mkHeap {
  live_queues : gmap positive rmqt_Queue;
  live_exchanges : gmap positive rmqt_Exchange;
}.

Definition lockQueue (hp : Heap) (h : QueueHandle) : option rmqt_Queue := live_queues hp !! h.
Definition lockExchange (hp : Heap) (h : ExchangeHandle) : option rmqt_Exchange :=
  live_exchanges hp !! h.

(** [rmqt::Binding] is the base class of the three bindings: a key and arguments. *)
Record rmqt_QueueBinding := mk_rmqt_QueueBinding {
  qb_exchange : ExchangeHandle;
  qb_queue : QueueHandle;
  qb_bindingKey : bytes;
  qb_args : FieldTable;
}.

Record rmqt_QueueUnbinding := mk_rmqt_QueueUnbinding {
  qu_exchange : ExchangeHandle;
  qu_queue : QueueHandle;
  qu_bindingKey : bytes;
  qu_args : FieldTable;
}.

Record rmqt_ExchangeBinding := mk_rmqt_ExchangeBinding {
  xb_sourceExchange : ExchangeHandle;
  xb_destinationExchange : ExchangeHandle;
  xb_bindingKey : bytes;
  xb_args : FieldTable;
}.

Record rmqt_QueueDelete := mk_rmqt_QueueDelete {
  qd_name : bytes;
  qd_ifUnused : bool;
  qd_ifEmpty : bool;
  qd_noWait : bool;
}.

Record Topology := mkTopology {
  queues : list rmqt_Queue;
  exchanges : list rmqt_Exchange;
  queueBindings : list rmqt_QueueBinding;
  exchangeBindings : list rmqt_ExchangeBinding;
}.

(** [TopologyUpdate::SupportedUpdate], a variant *)
Inductive SupportedUpdate :=
| Update_unset
| Update_QueueBinding (b : rmqt_QueueBinding)
| Update_QueueUnbinding (b : rmqt_QueueUnbinding)
| Update_QueueDelete (d : rmqt_QueueDelete).

Definition TopologyUpdate : Type := list SupportedUpdate.

(** ** TopologyTransformer *)

Inductive Reply :=
| REPLY_QUEUE | REPLY_EXCHANGE | REPLY_QUEUE_BINDING | REPLY_EXCHANGE_BINDING
| REPLY_QUEUE_UNBINDING | REPLY_QUEUE_DELETE.

#[global] Instance Reply_eq_dec : EqDecision Reply.
Proof using. solve_decision. Defined.

Record TopologyTransformer := mkTransformer {
  d_messages : list AmqpMessage;
  d_sentMessageCount : nat;
  d_error : bool;
  d_expectedReplies : list Reply;
  d_expectedQueueNames : list bytes;
}.

Definition Transformer_empty : TopologyTransformer := mkTransformer [] 0 false [] [].

(** [d_messages.push_back(m); d_expectedReplies.push(r)] *)
Definition push_request (m : AmqpMessage) (r : Reply) (t : TopologyTransformer)
  : TopologyTransformer :=
  mkTransformer (d_messages t ++ [m]) (d_sentMessageCount t) (d_error t)
    (d_expectedReplies t ++ [r]) (d_expectedQueueNames t).

Definition set_error (t : TopologyTransformer) : TopologyTransformer :=
  mkTransformer (d_messages t) (d_sentMessageCount t) true (d_expectedReplies t)
    (d_expectedQueueNames t).

Definition QueueMessage (m : QueueMethod) : AmqpMessage := AM_Method (Method_Queue m).
Definition ExchangeMessage (m : ExchangeMethod) : AmqpMessage := AM_Method (Method_Exchange m).

Definition processQueue (t : TopologyTransformer) (q : rmqt_Queue) : TopologyTransformer :=
  let declare := mkQueueDeclare (queue_name q) (queue_passive q) (queue_durable q) false
                   (queue_autoDelete q) false (queue_args q) in
  mkTransformer (d_messages t ++ [QueueMessage (QueueMethod_Declare declare)])
    (d_sentMessageCount t) (d_error t) (d_expectedReplies t ++ [REPLY_QUEUE])
    (d_expectedQueueNames t ++ [queue_name q]).

Definition processExchange (t : TopologyTransformer) (x : rmqt_Exchange) : TopologyTransformer :=
  if Exchange_isDefault x then t
  else
    let declare := mkExchangeDeclare (exchange_name x) (exchange_type x) (exchange_passive x)
                     (exchange_durable x) (exchange_autoDelete x) (exchange_internal x) false
                     (exchange_args x) in
    push_request (ExchangeMessage (ExchangeMethod_Declare declare)) REPLY_EXCHANGE t.

Definition processQueueBinding (hp : Heap) (t : TopologyTransformer) (b : rmqt_QueueBinding)
  : TopologyTransformer :=
  match lockQueue hp (qb_queue b) with
  | None => set_error t
  | Some queue =>
      match lockExchange hp (qb_exchange b) with
      | None => set_error t
      | Some exchange =>
          let bind := mkQueueBind (queue_name queue) (exchange_name exchange) (qb_bindingKey b)
                        false (qb_args b) in
          push_request (QueueMessage (QueueMethod_Bind bind)) REPLY_QUEUE_BINDING t
      end
  end.

Definition processQueueUnbinding (hp : Heap) (t : TopologyTransformer) (b : rmqt_QueueUnbinding)
  : TopologyTransformer :=
  match lockQueue hp (qu_queue b) with
  | None => set_error t
  | Some queue =>
      match lockExchange hp (qu_exchange b) with
      | None => set_error t
      | Some exchange =>
          let bind := mkQueueUnbind (queue_name queue) (exchange_name exchange) (qu_bindingKey b)
                        (qu_args b) in
          push_request (QueueMessage (QueueMethod_Unbind bind)) REPLY_QUEUE_UNBINDING t
      end
  end.

Definition processQueueDelete (t : TopologyTransformer) (d : rmqt_QueueDelete)
  : TopologyTransformer :=
  let qd := mkQueueDelete (qd_name d) (qd_ifUnused d) (qd_ifEmpty d) (qd_noWait d) in
  push_request (QueueMessage (QueueMethod_Delete qd)) REPLY_QUEUE_DELETE t.

Definition processExchangeBinding (hp : Heap) (t : TopologyTransformer)
  (b : rmqt_ExchangeBinding) : TopologyTransformer :=
  match lockExchange hp (xb_sourceExchange b) with
  | None => set_error t
  | Some sourceX =>
      match lockExchange hp (xb_destinationExchange b) with
      | None => set_error t
      | Some destinationX =>
          let bind := mkExchangeBind (exchange_name destinationX) (exchange_name sourceX)
                        (xb_bindingKey b) false (xb_args b) in
          push_request (ExchangeMessage (ExchangeMethod_Bind bind)) REPLY_EXCHANGE_BINDING t
      end
  end.

Definition processUpdate (hp : Heap) (t : TopologyTransformer) (u : SupportedUpdate)
  : TopologyTransformer :=
  match u with
  | Update_QueueBinding b => processQueueBinding hp t b
  | Update_QueueUnbinding b => processQueueUnbinding hp t b
  | Update_QueueDelete d => processQueueDelete t d
  | Update_unset => set_error t
  end.

(** [TopologyTransformer(const rmqt::Topology&)] *)
Definition TopologyTransformer_make (hp : Heap) (tp : Topology) : TopologyTransformer :=
  let t := fold_left processQueue (queues tp) Transformer_empty in
  let t := fold_left processExchange (exchanges tp) t in
  let t := fold_left (processQueueBinding hp) (queueBindings tp) t in
  fold_left (processExchangeBinding hp) (exchangeBindings tp) t.

(** [TopologyTransformer(const rmqt::TopologyUpdate&)] *)
Definition TopologyTransformer_makeUpdate (hp : Heap) (u : TopologyUpdate) : TopologyTransformer :=
  fold_left (processUpdate hp) u Transformer_empty.

Definition Transformer_hasNext (t : TopologyTransformer) : bool :=
  Nat.ltb (d_sentMessageCount t) (length (d_messages t)).

Definition Transformer_hasError (t : TopologyTransformer) : bool := d_error t.

(** [None]: the assertion fails. *)
Definition Transformer_getNextMessage (t : TopologyTransformer)
  : option (AmqpMessage * TopologyTransformer) :=
  match d_messages t !! d_sentMessageCount t with
  | Some m => Some (m, mkTransformer (d_messages t) (S (d_sentMessageCount t)) (d_error t)
                         (d_expectedReplies t) (d_expectedQueueNames t))
  | None => None
  end.

Definition Transformer_isDone (t : TopologyTransformer) : bool :=
  match d_expectedReplies t with
  | [] => Nat.eqb (d_sentMessageCount t) (length (d_messages t))
  | _ => false
  end.

Definition set_replies (err : bool) (replies : list Reply) (names : list bytes)
  (t : TopologyTransformer) : TopologyTransformer :=
  mkTransformer (d_messages t) (d_sentMessageCount t) err replies names.

(** [processReplyMessage], with its result. *)
Definition Transformer_processReplyMessage (message : AmqpMessage) (t : TopologyTransformer)
  : bool * TopologyTransformer :=
  match message with
  | AM_Method method =>
      match d_expectedReplies t with
      | [] => (false, set_error t)
      | expected :: replies =>
          let finish (valid : bool) (names : list bytes) :=
            (valid, set_replies (negb valid) replies names t) in
          let names := d_expectedQueueNames t in
          match method with
          | Method_Queue (QueueMethod_DeclareOk ok) =>
              match names with
              | [] => (false, set_replies true replies [] t)
              | name :: names' =>
                  let valid :=
                    bool_decide (expected = REPLY_QUEUE) &&
                    (bool_decide (name = []) || bool_decide (name = QueueDeclareOk_name ok)) in
                  finish valid names'
              end
          | Method_Queue (QueueMethod_BindOk _) =>
              finish (bool_decide (expected = REPLY_QUEUE_BINDING)) names
          | Method_Queue (QueueMethod_UnbindOk _) =>
              finish (bool_decide (expected = REPLY_QUEUE_UNBINDING)) names
          | Method_Queue (QueueMethod_DeleteOk _) =>
              finish (bool_decide (expected = REPLY_QUEUE_DELETE)) names
          | Method_Exchange (ExchangeMethod_DeclareOk _) =>
              finish (bool_decide (expected = REPLY_EXCHANGE)) names
          | Method_Exchange (ExchangeMethod_BindOk _) =>
              finish (bool_decide (expected = REPLY_EXCHANGE_BINDING)) names
          | _ => finish false names
          end
      end
  | _ => (false, set_error t)
  end.

(** All messages handed out. *)
Definition Transformer_sent (t : TopologyTransformer) : TopologyTransformer :=
  mkTransformer (d_messages t) (length (d_messages t)) (d_error t) (d_expectedReplies t)
    (d_expectedQueueNames t).

(** The replies one after the other; [None] after a refused one. *)
Fixpoint processReplies (replies : list AmqpMessage) (t : TopologyTransformer)
  : option TopologyTransformer :=
  match replies with
  | [] => Some t
  | m :: replies' => match Transformer_processReplyMessage m t with
                     | (true, t') => processReplies replies' t'
                     | (false, _) => None
                     end
  end.

(** ** TopologyMerger *)

(** [findByBinding] *)
Definition findByBinding (hp : Heap) (exchangeName queueName bindingKey : bytes)
  (b : rmqt_QueueBinding) : bool :=
  match lockExchange hp (qb_exchange b) with
  | None => false
  | Some exchange =>
      match lockQueue hp (qb_queue b) with
      | None => false
      | Some queue => bool_decide (exchangeName = exchange_name exchange) &&
                      bool_decide (queueName = queue_name queue) &&
                      bool_decide (bindingKey = qb_bindingKey b)
      end
  end.

(** One iteration of [merge]'s loop, on the queue bindings, the only part of the
    topology it changes. *)
Definition merge_update (hp : Heap) (bs : list rmqt_QueueBinding) (u : SupportedUpdate)
  : list rmqt_QueueBinding :=
  match u with
  | Update_QueueBinding b =>
      match lockExchange hp (qb_exchange b), lockQueue hp (qb_queue b) with
      | Some exchange, Some queue =>
          if existsb (findByBinding hp (exchange_name exchange) (queue_name queue)
                        (qb_bindingKey b)) bs
          then bs else bs ++ [b]
      | _, _ => bs
      end
  | Update_QueueUnbinding b =>
      match lockExchange hp (qu_exchange b), lockQueue hp (qu_queue b) with
      | Some exchange, Some queue =>
          List.filter (λ x, negb (findByBinding hp (exchange_name exchange) (queue_name queue)
                                    (qu_bindingKey b) x)) bs
      | _, _ => bs
      end
  | _ => bs
  end.

Definition TopologyMerger_merge (hp : Heap) (tp : Topology) (u : TopologyUpdate) : Topology :=
  mkTopology (queues tp) (exchanges tp) (fold_left (merge_update hp) u (queueBindings tp))
    (exchangeBindings tp).

(** ** Specification *)

(** The reply that confirms a request. *)
Definition reply_kind (req : AmqpMessage) : option Reply :=
  match req with
  | AM_Method (Method_Queue (QueueMethod_Declare _)) => Some REPLY_QUEUE
  | AM_Method (Method_Queue (QueueMethod_Bind _)) => Some REPLY_QUEUE_BINDING
  | AM_Method (Method_Queue (QueueMethod_Unbind _)) => Some REPLY_QUEUE_UNBINDING
  | AM_Method (Method_Queue (QueueMethod_Delete _)) => Some REPLY_QUEUE_DELETE
  | AM_Method (Method_Exchange (ExchangeMethod_Declare _)) => Some REPLY_EXCHANGE
  | AM_Method (Method_Exchange (ExchangeMethod_Bind _)) => Some REPLY_EXCHANGE_BINDING
  | _ => None
  end.

Definition declared_name (req : AmqpMessage) : option bytes :=
  match req with
  | AM_Method (Method_Queue (QueueMethod_Declare d)) => Some (QueueDeclare_name d)
  | _ => None
  end.

Definition confirms (req reply : AmqpMessage) : bool :=
  match req, reply with
  | AM_Method (Method_Queue (QueueMethod_Declare d)),
    AM_Method (Method_Queue (QueueMethod_DeclareOk ok)) =>
      bool_decide (QueueDeclare_name d = []) ||
      bool_decide (QueueDeclare_name d = QueueDeclareOk_name ok)
  | AM_Method (Method_Queue (QueueMethod_Bind _)),
    AM_Method (Method_Queue (QueueMethod_BindOk _)) => true
  | AM_Method (Method_Queue (QueueMethod_Unbind _)),
    AM_Method (Method_Queue (QueueMethod_UnbindOk _)) => true
  | AM_Method (Method_Queue (QueueMethod_Delete _)),
    AM_Method (Method_Queue (QueueMethod_DeleteOk _)) => true
  | AM_Method (Method_Exchange (ExchangeMethod_Declare _)),
    AM_Method (Method_Exchange (ExchangeMethod_DeclareOk _)) => true
  | AM_Method (Method_Exchange (ExchangeMethod_Bind _)),
    AM_Method (Method_Exchange (ExchangeMethod_BindOk _)) => true
  | _, _ => false
  end.

(** [reqs] are the requests whose replies are outstanding. *)
Record transformer_wf (t : TopologyTransformer) (reqs : list AmqpMessage) : Prop := {
  tw_replies : Some <$> d_expectedReplies t = reply_kind <$> reqs;
  tw_names : d_expectedQueueNames t = omap declared_name reqs;
}.

(** The request a queue, exchange, binding or update stands for; [None] when the
    exchange is the default one, which exists already, or a handle expired. *)
Definition queue_request (q : rmqt_Queue) : AmqpMessage :=
  QueueMessage (QueueMethod_Declare
    (mkQueueDeclare (queue_name q) (queue_passive q) (queue_durable q) false
       (queue_autoDelete q) false (queue_args q))).

Definition exchange_request (x : rmqt_Exchange) : option AmqpMessage :=
  if Exchange_isDefault x then None
  else Some (ExchangeMessage (ExchangeMethod_Declare
         (mkExchangeDeclare (exchange_name x) (exchange_type x) (exchange_passive x)
            (exchange_durable x) (exchange_autoDelete x) (exchange_internal x) false
            (exchange_args x)))).

Definition queueBinding_request (hp : Heap) (b : rmqt_QueueBinding) : option AmqpMessage :=
  match lockQueue hp (qb_queue b), lockExchange hp (qb_exchange b) with
  | Some q, Some x => Some (QueueMessage (QueueMethod_Bind
      (mkQueueBind (queue_name q) (exchange_name x) (qb_bindingKey b) false (qb_args b))))
  | _, _ => None
  end.

Definition exchangeBinding_request (hp : Heap) (b : rmqt_ExchangeBinding) : option AmqpMessage :=
  match lockExchange hp (xb_sourceExchange b), lockExchange hp (xb_destinationExchange b) with
  | Some s, Some d => Some (ExchangeMessage (ExchangeMethod_Bind
      (mkExchangeBind (exchange_name d) (exchange_name s) (xb_bindingKey b) false (xb_args b))))
  | _, _ => None
  end.

Definition update_request (hp : Heap) (u : SupportedUpdate) : option AmqpMessage :=
  match u with
  | Update_QueueBinding b => queueBinding_request hp b
  | Update_QueueUnbinding b =>
      match lockQueue hp (qu_queue b), lockExchange hp (qu_exchange b) with
      | Some q, Some x => Some (QueueMessage (QueueMethod_Unbind
          (mkQueueUnbind (queue_name q) (exchange_name x) (qu_bindingKey b) (qu_args b))))
      | _, _ => None
      end
  | Update_QueueDelete d => Some (QueueMessage (QueueMethod_Delete
      (mkQueueDelete (qd_name d) (qd_ifUnused d) (qd_ifEmpty d) (qd_noWait d))))
  | Update_unset => None
  end.

(** What the transformer of a topology sends, in this order. *)
Definition topology_requests (hp : Heap) (tp : Topology) : list AmqpMessage :=
  (queue_request <$> queues tp) ++ omap exchange_request (exchanges tp) ++
  omap (queueBinding_request hp) (queueBindings tp) ++
  omap (exchangeBinding_request hp) (exchangeBindings tp).

(** All handles of the bindings are alive. *)
Definition topology_alive (hp : Heap) (tp : Topology) : bool :=
  forallb (λ b, bool_decide (is_Some (queueBinding_request hp b))) (queueBindings tp) &&
  forallb (λ b, bool_decide (is_Some (exchangeBinding_request hp b))) (exchangeBindings tp).

(** The names a live binding connects. *)
Definition binding_id (hp : Heap) (b : rmqt_QueueBinding) : option (bytes * bytes * bytes) :=
  match lockExchange hp (qb_exchange b), lockQueue hp (qb_queue b) with
  | Some x, Some q => Some (exchange_name x, queue_name q, qb_bindingKey b)
  | _, _ => None
  end.

(** The effect of an update on the set of bindings. *)
Definition apply_update (hp : Heap) (s : gset (bytes * bytes * bytes)) (u : SupportedUpdate)
  : gset (bytes * bytes * bytes) :=
  match u with
  | Update_QueueBinding b =>
      match binding_id hp b with Some k => {[k]} ∪ s | None => s end
  | Update_QueueUnbinding b =>
      match lockExchange hp (qu_exchange b), lockQueue hp (qu_queue b) with
      | Some x, Some q => s ∖ {[(exchange_name x, queue_name q, qu_bindingKey b)]}
      | _, _ => s
      end
  | _ => s
  end.

Definition binding_ids (hp : Heap) (bs : list rmqt_QueueBinding) : gset (bytes * bytes * bytes) :=
  list_to_set (omap (binding_id hp) bs).

(** ** The transformer *)

(** A transformer under construction: its requests so far and whether it failed. *)
Definition collects (t : TopologyTransformer) (reqs : list AmqpMessage) (err : bool) : Prop :=
  transformer_wf t reqs ∧ d_messages t = reqs ∧ d_sentMessageCount t = 0 ∧ d_error t = err.

Lemma collects_push t reqs err m r :
  collects t reqs err → reply_kind m = Some r → declared_name m = None →
  collects (push_request m r t) (reqs ++ [m]) err.
Proof using.
  intros ([Hr Hn] & Hm & Hs & He) Hk Hd. unfold collects, push_request. simpl. split_and!; try done.
  - split; simpl.
    + by rewrite !fmap_app, Hr; simpl; rewrite Hk.
    + rewrite omap_app, Hn. simpl. by rewrite Hd, app_nil_r.
  - by rewrite Hm.
Qed.

Lemma collects_error t reqs err : collects t reqs err → collects (set_error t) reqs true.
Proof using. intros ([Hr Hn] & Hm & Hs & He). by repeat split. Qed.

(** A step of a constructor's loop adds the request of its item, or fails. *)
Definition step_collects {A} (f : TopologyTransformer → A → TopologyTransformer)
  (req : A → option AmqpMessage) (fails : A → bool) : Prop :=
  ∀ t reqs err a, collects t reqs err →
    collects (f t a) (reqs ++ option_list (req a)) (err || fails a).

Lemma fold_collects {A} (f : TopologyTransformer → A → TopologyTransformer) req fails l :
  step_collects f req fails →
  ∀ t reqs err, collects t reqs err →
    collects (fold_left f l t) (reqs ++ omap req l) (err || existsb fails l).
Proof using.
  intros Hf. induction l as [| a l IH]; intros t reqs err Ht; simpl.
  - by rewrite app_nil_r, orb_false_r.
  - apply (Hf _ _ _ a) in Ht. apply IH in Ht. rewrite <- app_assoc, <- orb_assoc in Ht.
    by destruct (req a).
Qed.

Ltac step_collects_tac :=
  let H := fresh "H" in
  intros t reqs err a H; simpl;
  repeat (case_match; simplify_eq/=);
  rewrite ?app_nil_r, ?orb_false_r, ?orb_true_r;
  first [ done | by apply collects_push | by eapply collects_error ].

Lemma processQueue_collects : step_collects processQueue (λ q, Some (queue_request q)) (λ _, false).
Proof using.
  intros t reqs err q ([Hr Hn] & Hm & Hs & He). rewrite orb_false_r.
  unfold collects, processQueue. simpl. split_and!; try done.
  - split; simpl; [by rewrite !fmap_app, Hr |]. by rewrite omap_app, Hn.
  - by rewrite Hm.
Qed.

Lemma processExchange_collects : step_collects processExchange exchange_request (λ _, false).
Proof using. unfold processExchange, exchange_request. step_collects_tac. Qed.

Definition fails {A} (req : A → option AmqpMessage) (a : A) : bool :=
  match req a with Some _ => false | None => true end.

Lemma processQueueBinding_collects hp :
  step_collects (processQueueBinding hp) (queueBinding_request hp) (fails (queueBinding_request hp)).
Proof using. unfold processQueueBinding, fails, queueBinding_request. step_collects_tac. Qed.

Lemma processExchangeBinding_collects hp :
  step_collects (processExchangeBinding hp) (exchangeBinding_request hp)
    (fails (exchangeBinding_request hp)).
Proof using. unfold processExchangeBinding, fails, exchangeBinding_request. step_collects_tac. Qed.

Lemma processUpdate_collects hp :
  step_collects (processUpdate hp) (update_request hp) (fails (update_request hp)).
Proof using.
  unfold processUpdate, processQueueBinding, processQueueUnbinding, processQueueDelete, fails,
    update_request, queueBinding_request. step_collects_tac.
Qed.

Lemma collects_empty : collects Transformer_empty [] false.
Proof using. by repeat split. Qed.

Lemma existsb_fails {A} (req : A → option AmqpMessage) (l : list A) :
  existsb (fails req) l = negb (forallb (λ a, bool_decide (is_Some (req a))) l).
Proof using.
  induction l as [| a l IH]; [done |]. simpl. rewrite IH. unfold fails.
  by destruct (req a).
Qed.

Lemma omap_Some {A B} (f : A → B) (l : list A) : omap (λ a, Some (f a)) l = f <$> l.
Proof using. induction l as [| a l IH]; [done |]. simpl. by f_equal. Qed.

Lemma existsb_false {A} (l : list A) : existsb (λ _, false) l = false.
Proof using. by induction l. Qed.

Lemma TopologyTransformer_make_collects hp tp :
  collects (TopologyTransformer_make hp tp) (topology_requests hp tp) (negb (topology_alive hp tp)).
Proof using.
  pose proof collects_empty as H.
  apply (fold_collects _ _ _ (queues tp) processQueue_collects) in H.
  apply (fold_collects _ _ _ (exchanges tp) processExchange_collects) in H.
  apply (fold_collects _ _ _ (queueBindings tp) (processQueueBinding_collects hp)) in H.
  apply (fold_collects _ _ _ (exchangeBindings tp) (processExchangeBinding_collects hp)) in H.
  rewrite omap_Some, !existsb_false, !existsb_fails in H. simpl in H.
  rewrite <- negb_andb, <- !app_assoc in H. exact H.
Qed.

(** ** The replies *)

Lemma processReply_step t r reqs m :
  transformer_wf t (r :: reqs) →
  ∃ t', Transformer_processReplyMessage m t = (confirms r m, t') ∧
        (confirms r m = true → transformer_wf t' reqs ∧ d_error t' = false ∧
           d_messages t' = d_messages t ∧ d_sentMessageCount t' = d_sentMessageCount t).
Proof using.
  intros [Hr Hn]. unfold Transformer_processReplyMessage.
  destruct (d_expectedReplies t) as [| e replies] eqn:He; [done |].
  rewrite !fmap_cons in Hr. apply (inj2 cons) in Hr as [Hk Hr].
  simpl in Hn. rewrite Hn.
  unfold reply_kind in Hk. unfold declared_name.
  repeat case_match; simplify_eq/=; eexists; (split; [reflexivity |]); intros; simplify_eq/=;
    split_and!; simpl; try done. by apply negb_false_iff.
Qed.

Lemma processReply_none t m : transformer_wf t [] → (Transformer_processReplyMessage m t).1 = false.
Proof using.
  intros [Hr _]. simpl in Hr. apply fmap_nil_inv in Hr. unfold Transformer_processReplyMessage.
  rewrite Hr. by destruct m.
Qed.

Lemma wf_isDone t reqs :
  transformer_wf t reqs → d_sentMessageCount t = length (d_messages t) →
  Transformer_isDone t = true ↔ reqs = [].
Proof using.
  intros [Hr _] Hs. unfold Transformer_isDone. rewrite Hs, Nat.eqb_refl.
  destruct (d_expectedReplies t), reqs; naive_solver.
Qed.

Lemma processReplies_spec replies : ∀ t reqs,
  transformer_wf t reqs → d_sentMessageCount t = length (d_messages t) →
  match processReplies replies t with
  | Some t' => ∃ now later, reqs = now ++ later ∧
                 Forall2 (λ req rep, confirms req rep = true) now replies ∧
                 Transformer_isDone t' = bool_decide (later = [])
  | None => ¬ ∃ now later, reqs = now ++ later ∧
                 Forall2 (λ req rep, confirms req rep = true) now replies
  end.
Proof using.
  induction replies as [| m replies IH]; intros t reqs Hwf Hs; simpl.
  - exists [], reqs. split_and!; [done | constructor |].
    pose proof (wf_isDone _ _ Hwf Hs). case_bool_decide; destruct (Transformer_isDone t); naive_solver.
  - destruct reqs as [| r reqs].
    + pose proof (processReply_none t m Hwf) as Hf.
      destruct (Transformer_processReplyMessage m t) as [b t']. simpl in Hf. subst b.
      intros (now & later & Heq & HF). symmetry in Heq. apply app_eq_nil in Heq as [-> _].
      by inversion HF.
    + destruct (processReply_step t r reqs m Hwf) as (t' & -> & Hok).
      destruct (confirms r m) eqn:Hc.
      * destruct (Hok eq_refl) as (Hwf' & _ & Hm & Hs'). specialize (IH t' reqs Hwf').
        rewrite Hm, Hs' in IH. specialize (IH Hs). destruct (processReplies replies t') as [t'' |].
        -- destruct IH as (now & later & -> & HF & Hd). exists (r :: now), later.
           split_and!; [done | by constructor | done].
        -- intros (now & later & Heq & HF). destruct now as [| r' now]; [by inversion HF |].
           apply Forall2_cons in HF as [_ HF]. simplify_eq/=. eauto.
      * intros (now & later & Heq & HF). destruct now as [| r' now]; [by inversion HF |].
        apply Forall2_cons in HF as [Hc' _]. simplify_eq/=. congruence.
Qed.

Lemma sent_wf t reqs err :
  collects t reqs err →
  transformer_wf (Transformer_sent t) reqs ∧
  d_sentMessageCount (Transformer_sent t) = length (d_messages (Transformer_sent t)).
Proof using. intros ([Hr Hn] & _). by repeat split. Qed.

Lemma collects_done_iff t reqs err replies :
  collects t reqs err →
  (∃ t', processReplies replies (Transformer_sent t) = Some t' ∧ Transformer_isDone t' = true)
  ↔ Forall2 (λ req rep, confirms req rep = true) reqs replies.
Proof using.
  intros Hc. destruct (sent_wf _ _ _ Hc) as [Hwf Hs].
  pose proof (processReplies_spec replies _ _ Hwf Hs) as Hp. split.
  - intros (t' & Ht & Hd). rewrite Ht in Hp. destruct Hp as (now & later & -> & HF & Hd').
    rewrite Hd in Hd'. symmetry in Hd'. apply bool_decide_eq_true in Hd' as ->. by rewrite app_nil_r.
  - intros HF. destruct (processReplies replies (Transformer_sent t)) as [t' |].
    + exists t'. split; [done |]. destruct Hp as (now & later & -> & HF' & ->).
      apply Forall2_length in HF, HF'. rewrite length_app in HF.
      apply bool_decide_eq_true. apply length_zero_iff_nil. lia.
    + destruct Hp. exists reqs, []. by rewrite app_nil_r.
Qed.

(** ** The merger *)

Lemma findByBinding_id hp x q k b :
  findByBinding hp x q k b = true ↔ binding_id hp b = Some (x, q, k).
Proof using.
  unfold findByBinding, binding_id. destruct (lockExchange hp (qb_exchange b)), (lockQueue hp (qb_queue b)); try (split; discriminate).
  rewrite !andb_true_iff, !bool_decide_eq_true. split; [intros [[-> ->] ->]; done | naive_solver].
Qed.

Lemma existsb_find hp x q k bs :
  existsb (findByBinding hp x q k) bs = true ↔ (x, q, k) ∈ binding_ids hp bs.
Proof using.
  unfold binding_ids. rewrite elem_of_list_to_set, list_elem_of_omap, existsb_exists.
  setoid_rewrite list_elem_of_In. setoid_rewrite findByBinding_id. naive_solver.
Qed.

Lemma binding_ids_app hp bs bs' : binding_ids hp (bs ++ bs') = binding_ids hp bs ∪ binding_ids hp bs'.
Proof using. unfold binding_ids. by rewrite omap_app, list_to_set_app_L. Qed.

Lemma binding_ids_filter hp x q k bs :
  binding_ids hp (List.filter (λ b, negb (findByBinding hp x q k b)) bs)
  = binding_ids hp bs ∖ {[(x, q, k)]}.
Proof using.
  apply set_eq. intros i. unfold binding_ids.
  rewrite elem_of_difference, elem_of_singleton, !elem_of_list_to_set, !list_elem_of_omap.
  setoid_rewrite list_elem_of_In. setoid_rewrite filter_In. setoid_rewrite negb_true_iff.
  split.
  - intros (b & [Hb Hf] & Hi). split; [by exists b |]. intros ->.
    apply findByBinding_id in Hi. congruence.
  - intros [(b & Hb & Hi) Hne]. exists b. split_and!; [done | | done].
    apply not_true_iff_false. rewrite findByBinding_id. congruence.
Qed.

Lemma merge_update_ids hp bs u :
  binding_ids hp (merge_update hp bs u) = apply_update hp (binding_ids hp bs) u.
Proof using.
  destruct u as [| b | b | d]; simpl; try done.
  - unfold binding_id. destruct (lockExchange hp _) as [x |] eqn:Hx; [| done].
    destruct (lockQueue hp _) as [q |] eqn:Hq; [| done].
    destruct (existsb _ bs) eqn:He.
    + apply existsb_find in He. set_solver.
    + rewrite binding_ids_app. unfold binding_ids at 2. simpl. unfold binding_id.
      rewrite Hx, Hq. set_solver.
  - destruct (lockExchange hp _) as [x |]; [| done]. destruct (lockQueue hp _) as [q |]; [| done].
    apply binding_ids_filter.
Qed.

Lemma merge_update_NoDup hp bs u :
  NoDup (omap (binding_id hp) bs) → NoDup (omap (binding_id hp) (merge_update hp bs u)).
Proof using.
  intros Hnd. destruct u as [| b | b | d]; simpl; try done.
  - destruct (lockExchange hp _) as [x |] eqn:Hx; [| done].
    destruct (lockQueue hp _) as [q |] eqn:Hq; [| done].
    destruct (existsb _ bs) eqn:He; [done |].
    rewrite omap_app. simpl. unfold binding_id at 2. rewrite Hx, Hq.
    apply NoDup_app. split_and!; [done | | apply NoDup_singleton].
    intros i Hi ->%list_elem_of_singleton. apply not_true_iff_false in He. apply He, existsb_find.
    unfold binding_ids. by apply elem_of_list_to_set.
  - destruct (lockExchange hp _) as [x |]; [| done]. destruct (lockQueue hp _) as [q |]; [| done].
    clear -Hnd. induction bs as [| b' bs IH]; [done |]. simpl in *.
    destruct (binding_id hp b') as [i |] eqn:Hi.
    + apply NoDup_cons in Hnd as [Hni Hnd]. destruct (findByBinding _ _ _ _ b'); simpl; [auto |].
      rewrite Hi. constructor; [| auto]. intros Hin. apply Hni.
      apply list_elem_of_omap in Hin as (c & Hc & Hci). apply list_elem_of_omap.
      exists c. split; [| done]. apply list_elem_of_In in Hc. apply filter_In in Hc.
      apply list_elem_of_In. tauto.
    + destruct (findByBinding _ _ _ _ b'); simpl; [auto |]. rewrite Hi. auto.
Qed.

(** ** Theorems *)

(** A topology counts as declared exactly when the broker confirmed every part
    of it. The transformer reports an error iff a binding refers to a queue or an
    exchange that no longer exists; it sends the declarations of the queues, then
    of the exchanges other than the default one, then the queue bindings and the
    exchange bindings, so that nothing is bound before it is declared; and for
    any sequence of replies, all are accepted and [isDone] holds after them iff
    they confirm the requests one by one, in order, queue names included
    (any name when the broker was asked to choose one). *)
Theorem topology_done_iff_confirmed hp tp replies :
  let t := TopologyTransformer_make hp tp in
  Transformer_hasError t = negb (topology_alive hp tp) ∧
  d_messages t = topology_requests hp tp ∧
  ((∃ t', processReplies replies (Transformer_sent t) = Some t' ∧ Transformer_isDone t' = true)
   ↔ Forall2 (λ req rep, confirms req rep = true) (topology_requests hp tp) replies).
Proof using.
  simpl. pose proof (TopologyTransformer_make_collects hp tp) as Hc.
  split_and!; [apply Hc.. |]. by eapply collects_done_iff.
Qed.

(** The same for an update: the transformer sends one request per binding,
    unbinding and queue deletion, in the order the application asked for them,
    fails iff a handle expired, and is done exactly when the broker confirmed
    each of them in turn. *)
Theorem update_done_iff_confirmed hp (u : TopologyUpdate) replies :
  let t := TopologyTransformer_makeUpdate hp u in
  Transformer_hasError t = negb (forallb (λ x, bool_decide (is_Some (update_request hp x))) u) ∧
  d_messages t = omap (update_request hp) u ∧
  ((∃ t', processReplies replies (Transformer_sent t) = Some t' ∧ Transformer_isDone t' = true)
   ↔ Forall2 (λ req rep, confirms req rep = true) (omap (update_request hp) u) replies).
Proof using.
  simpl. pose proof (fold_collects _ _ _ u (processUpdate_collects hp) _ _ _ collects_empty) as Hc.
  rewrite existsb_fails in Hc. simpl in Hc.
  split_and!; [apply Hc.. |]. by eapply collects_done_iff.
Qed.

(** Merging a confirmed update into the topology gives, after a reconnection, the
    bindings the broker had before it: the set of (exchange, queue, key) triples of
    the merged topology is that of the topology with the update's bindings
    added and unbindings removed in order; no triple is declared twice when
    none was; queues, exchanges and exchange bindings are kept. *)
Theorem merge_applies_update hp tp (u : TopologyUpdate) :
  let tp' := TopologyMerger_merge hp tp u in
  binding_ids hp (queueBindings tp')
  = fold_left (apply_update hp) u (binding_ids hp (queueBindings tp)) ∧
  (NoDup (omap (binding_id hp) (queueBindings tp)) →
   NoDup (omap (binding_id hp) (queueBindings tp'))) ∧
  queues tp' = queues tp ∧ exchanges tp' = exchanges tp ∧
  exchangeBindings tp' = exchangeBindings tp.
Proof using.
  simpl. split_and!; try done.
  - generalize (queueBindings tp). induction u as [| x u IH]; intros bs; [done |].
    simpl. by rewrite IH, merge_update_ids.
  - generalize (queueBindings tp). induction u as [| x u IH]; intros bs Hnd; [done |].
    simpl. apply IH. by apply merge_update_NoDup.
Qed.

(** The merger identifies bindings without their arguments: an update that binds
    a queue to an exchange under a key that is bound already, with other arguments
    (another binding to the broker, the usual case with a headers exchange), is
    sent to the broker but leaves the topology unchanged, so the binding is not
    declared again after a reconnection; and an unbinding removes the bindings of
    all arguments. *)
Theorem merge_ignores_arguments hp tp b args :
  is_Some (binding_id hp b) → b ∈ queueBindings tp →
  let b' := mk_rmqt_QueueBinding (qb_exchange b) (qb_queue b) (qb_bindingKey b) args in
  let ub := mk_rmqt_QueueUnbinding (qb_exchange b) (qb_queue b) (qb_bindingKey b) args in
  is_Some (update_request hp (Update_QueueBinding b')) ∧
  TopologyMerger_merge hp tp [Update_QueueBinding b'] = tp ∧
  b ∉ queueBindings (TopologyMerger_merge hp tp [Update_QueueUnbinding ub]).
Proof using.
  intros [i Hi] Hb b' ub.
  assert (i ∈ binding_ids hp (queueBindings tp)) as Hin.
  { unfold binding_ids. apply elem_of_list_to_set, list_elem_of_omap. eauto. }
  unfold binding_id in Hi.
  destruct (lockExchange hp (qb_exchange b)) as [x |] eqn:Hx; [| done].
  destruct (lockQueue hp (qb_queue b)) as [q |] eqn:Hq; [| done]. simplify_eq.
  split_and!.
  - simpl. unfold queueBinding_request. simpl. rewrite Hx, Hq. eauto.
  - unfold TopologyMerger_merge. simpl. rewrite Hx, Hq.
    rewrite (proj2 (existsb_find _ _ _ _ _) Hin). by destruct tp.
  - simpl. rewrite Hx, Hq. rewrite list_elem_of_In, filter_In.
    intros [_ Hf%negb_true_iff]. apply not_true_iff_false in Hf. apply Hf, findByBinding_id.
    unfold binding_id. by rewrite Hx, Hq.
Qed.
End Topology.

(** ** Witness *)

Lemma merge_ignores_arguments_witness :
  let q := mk_rmqt_Queue (str "jobs") false false true [] in
  let x := mk_rmqt_Exchange (str "hdr") (str "headers") false false true false [] in
  let hp := mkHeap {[1%positive := q]} {[2%positive := x]} in
  let b := mk_rmqt_QueueBinding 2%positive 1%positive [] [(str "type", FV_bool true)] in
  let b' := mk_rmqt_QueueBinding 2%positive 1%positive [] [(str "type", FV_bool false)] in
  TopologyMerger_merge hp (mkTopology [q] [x] [b] []) [Update_QueueBinding b']
  = mkTopology [q] [x] [b] [].
Proof.
  apply (merge_ignores_arguments (G := byte_GuidUtil)
           (mkHeap {[1%positive := mk_rmqt_Queue (str "jobs") false false true []]}
              {[2%positive := mk_rmqt_Exchange (str "hdr") (str "headers") false false true false []]})
           (mkTopology [mk_rmqt_Queue (str "jobs") false false true []]
              [mk_rmqt_Exchange (str "hdr") (str "headers") false false true false []]
              [mk_rmqt_QueueBinding 2%positive 1%positive [] [(str "type", FV_bool true)]] [])
           (mk_rmqt_QueueBinding 2%positive 1%positive [] [(str "type", FV_bool true)])).
  - eexists. vm_compute. reflexivity.
  - simpl. left.
Defined.
