(* ===== verification/Channel.v ===== *)
(** * Channel: the AMQP channel state machine

    Models the base class [rmqamqp::Channel] (rmqamqp_channel.cpp,
    rmqamqp_channel.h): opening a channel, declaring its topology, topology
    updates, flow control, closing and reopening.

    - [Channel D X] is the object: the members of the base class, the members [D]
      of the derived class, and [c_trace], the calls the object made to its
      collaborators so far, in order ([Effect]): writes handed to the connection
      with their completion handlers, the hung-channel timer, the retry handler,
      futures, counters of the metric publisher, and the derived class's own
      callbacks [X]. An [Effect] [Fault] stands
      for a failed assertion or an invalid dereference.
    - The virtual functions are the class [ChannelHooks], which the derived
      classes instantiate; the theorems here hold for every instance.
    - The completion handler [onWriteComplete], the timer handler [channelHung]
      and the retry handler's callback [retry] are operations of the object: they
      are invoked later by the event loop. The [weak_ptr] to the channel they
      carry is alive as long as the object is.
    - Futures are numbered by the caller; [d_readyMade] is the list of the makers
      that [callBothMakers] chains. Of the metrics only the counters are modelled,
      without their tags; timings and logging are left out. *)

From Stdlib Require Import ZArith Lia String Strings.Byte.
From stdpp Require Import base tactics list gmap.
From S2P Require Import Prelude Constants Wire FieldValue Props Methods Method Message.
From S2P Require Import Framer Topology.

(** [Channel::State] *)
Inductive ChannelState :=
| CHANNEL_OPEN_SENT | OPEN | DECLARING_TOPOLOGY | TOPOLOGY_LOADED | AWAITING_REPLY | READY
| CHANNEL_CLOSE_SENT | CLOSED.

#[export] Instance ChannelState_eq_dec : EqDecision ChannelState.
Proof. solve_decision. Defined.

(** [Channel::CleanupIndicator] *)
Inductive CleanupIndicator := KEEP | CLEANUP.

(** Completion handlers of writes: [Channel::onWriteComplete], [noopWriteHandler] and, on
    receive channels, [ReceiveChannel::removeMessagesFromStore]. *)
Inductive WriteHandler :=
| OnWriteComplete
| NoopWriteHandler
| RemoveMessagesFromStore (deliveryTag : Z) (multiple : bool).

Definition FutureId : Type := nat.

(** The counters published to the metric publisher. *)
Inductive Metric :=
| channel_ready | channel_disconnected | client_sent_messages | published_messages
| received_messages | consumer_pause_total | consumer_resume_total.

(** [TopologyUpdateConfirmCallback]: empty, [topologyDeclaredCb], or a future's maker. *)
Inductive TopologyCallback := TC_none | TC_declared | TC_future (f : FutureId).

Section Channel.
Context {E : EpochUtil} {G : GuidUtil} {D X : Type}.

Inductive Effect :=
| AsyncWrite (m : AmqpMessage) (handler : WriteHandler)
| TimerStart
| TimerReset
| TimerCancel
| Retry
| RetryError (text : bytes) (code : Z)
| FutureSet (f : FutureId) (ok : bool)
| ConnError
| Counter (name : Metric)
| Callback (x : X)
| Fault.

Record Channel := mkChannel {
  d_flow : bool;
  d_state : ChannelState;
  d_topology : Topology;
  d_topologyTransformer : option TopologyTransformer * TopologyCallback;
  d_updateQueue : list (TopologyUpdate * FutureId);
  d_permanentlyClosing : bool;
  d_readyMade : list FutureId;
  c_derived : D;
  c_trace : list Effect;
}.

(** *** Member assignments *)

Definition set_flow (b : bool) (c : Channel) : Channel :=
  mkChannel b (d_state c) (d_topology c) (d_topologyTransformer c) (d_updateQueue c)
    (d_permanentlyClosing c) (d_readyMade c) (c_derived c) (c_trace c).

Definition set_state (s : ChannelState) (c : Channel) : Channel :=
  mkChannel (d_flow c) s (d_topology c) (d_topologyTransformer c) (d_updateQueue c)
    (d_permanentlyClosing c) (d_readyMade c) (c_derived c) (c_trace c).

Definition set_topology (tp : Topology) (c : Channel) : Channel :=
  mkChannel (d_flow c) (d_state c) tp (d_topologyTransformer c) (d_updateQueue c)
    (d_permanentlyClosing c) (d_readyMade c) (c_derived c) (c_trace c).

Definition set_transformer (t : option TopologyTransformer * TopologyCallback) (c : Channel)
  : Channel :=
  mkChannel (d_flow c) (d_state c) (d_topology c) t (d_updateQueue c)
    (d_permanentlyClosing c) (d_readyMade c) (c_derived c) (c_trace c).

Definition set_updateQueue (q : list (TopologyUpdate * FutureId)) (c : Channel) : Channel :=
  mkChannel (d_flow c) (d_state c) (d_topology c) (d_topologyTransformer c) q
    (d_permanentlyClosing c) (d_readyMade c) (c_derived c) (c_trace c).

Definition set_permanentlyClosing (b : bool) (c : Channel) : Channel :=
  mkChannel (d_flow c) (d_state c) (d_topology c) (d_topologyTransformer c) (d_updateQueue c)
    b (d_readyMade c) (c_derived c) (c_trace c).

Definition set_readyMade (l : list FutureId) (c : Channel) : Channel :=
  mkChannel (d_flow c) (d_state c) (d_topology c) (d_topologyTransformer c) (d_updateQueue c)
    (d_permanentlyClosing c) l (c_derived c) (c_trace c).

Definition set_derived (d : D) (c : Channel) : Channel :=
  mkChannel (d_flow c) (d_state c) (d_topology c) (d_topologyTransformer c) (d_updateQueue c)
    (d_permanentlyClosing c) (d_readyMade c) d (c_trace c).

Definition emits (es : list Effect) (c : Channel) : Channel :=
  mkChannel (d_flow c) (d_state c) (d_topology c) (d_topologyTransformer c) (d_updateQueue c)
    (d_permanentlyClosing c) (d_readyMade c) (c_derived c) (c_trace c ++ es).

Definition emit (e : Effect) (c : Channel) : Channel := emits [e] c.

(** The constructor. *)
Definition Channel_make (tp : Topology) (d : D) : Channel :=
  mkChannel true CLOSED tp (None, TC_none) [] false [] d [].

(** *** Functions that call no virtual function *)

Definition Channel_ready (c : Channel) : Channel :=
  let c := set_state READY (emit TimerCancel c) in
  emit (Counter channel_ready)
    (set_readyMade [] (emits ((λ f, FutureSet f true) <$> d_readyMade c) c)).

Definition Channel_updateState (s : ChannelState) (c : Channel) : Channel :=
  match s with
  | READY => Channel_ready c
  | _ => set_state s c
  end.

(** [writeMessage(message, newState)] *)
Definition Channel_writeState (m : AmqpMessage) (newState : ChannelState) (c : Channel) : Channel :=
  emit (AsyncWrite m OnWriteComplete) (Channel_updateState newState c).

(** [writeMessage(message, &noopWriteHandler)] *)
Definition Channel_write (m : AmqpMessage) (c : Channel) : Channel :=
  emit (AsyncWrite m NoopWriteHandler) c.

Definition ChannelMessage (m : ChannelMethod) : AmqpMessage := AM_Method (Method_Channel m).

Definition Channel_close (replyCode : Z) (replyText : bytes) (failingClassId failingMethodId : Z)
  (c : Channel) : Channel :=
  Channel_writeState
    (ChannelMessage (ChannelMethod_Close
       (mkChannelClose replyCode replyText failingClassId failingMethodId)))
    CHANNEL_CLOSE_SENT c.

Definition Channel_gracefulClose (c : Channel) : Channel :=
  let c := set_permanentlyClosing true c in
  match d_state c with
  | CLOSED | CHANNEL_CLOSE_SENT => c
  | _ => Channel_close REPLY_SUCCESS (str "Closing Channel") NO_CLASS NO_METHOD c
  end.

Definition Channel_open (c : Channel) : Channel :=
  if d_permanentlyClosing c then c
  else Channel_writeState (ChannelMessage (ChannelMethod_Open mkChannelOpen)) CHANNEL_OPEN_SENT
         (emit TimerStart c).

(** [retry]: the retry handler's callback. *)
Definition Channel_retry (c : Channel) : Channel := Channel_open c.

(** [channelHung]; [cancelled] is [reason == Timer::CANCEL]. *)
Definition Channel_channelHung (cancelled : bool) (c : Channel) : Channel :=
  if cancelled then c else emit ConnError c.

(** [waitForReady]: [None] when the future is ready at once. *)
Definition Channel_waitForReady (f : FutureId) (c : Channel) : option FutureId * Channel :=
  match d_state c with
  | READY => (None, c)
  | _ => (Some f, set_readyMade (d_readyMade c ++ [f]) c)
  end.

(** The loops [while (hasNext()) writeMessage(getNextMessage(), ...)]: the messages in
    order and the transformer afterwards. *)
Fixpoint drain (fuel : nat) (t : TopologyTransformer) : list AmqpMessage * TopologyTransformer :=
  match fuel with
  | O => ([], t)
  | S fuel' =>
      if Transformer_hasNext t then
        match Transformer_getNextMessage t with
        | Some (m, t') => let (ms, t'') := drain fuel' t' in (m :: ms, t'')
        | None => ([], t)
        end
      else ([], t)
  end.

Definition Transformer_drain (t : TopologyTransformer) : list AmqpMessage * TopologyTransformer :=
  drain (S (length (d_messages t))) t.

Definition text_declaring : bytes := str "Error occurred, while declaring topology".
Definition text_updating : bytes := str "Error occurred, while updating topology".

(** The loop of [sendNextUpdate], on the queue from its front, and what follows it. *)
Fixpoint sendNextUpdate_loop (hp : Heap) (queue : list (TopologyUpdate * FutureId)) (c : Channel)
  : Channel :=
  match queue with
  | [] => c
  | (u, f) :: queue' =>
      let t := TopologyTransformer_makeUpdate hp u in
      if Transformer_hasError t then
        emit (FutureSet f false)
          (Channel_close CHANNEL_ERROR text_updating NO_CLASS NO_METHOD c)
      else if Transformer_isDone t then
        sendNextUpdate_loop hp queue' (set_updateQueue queue' (emit (FutureSet f true) c))
      else
        let (ms, t') := Transformer_drain t in
        emits ((λ m, AsyncWrite m NoopWriteHandler) <$> ms)
          (set_transformer (Some t', TC_future f) c)
  end.

Definition Channel_sendNextUpdate (hp : Heap) (c : Channel) : Channel :=
  sendNextUpdate_loop hp (d_updateQueue c) c.

(** [updateTopology], [f] the new future. *)
Definition Channel_updateTopology (hp : Heap) (u : TopologyUpdate) (f : FutureId) (c : Channel)
  : Channel :=
  let c := set_updateQueue (d_updateQueue c ++ [(u, f)]) c in
  match d_topologyTransformer c with
  | (Some t, _) => if Transformer_isDone t then Channel_sendNextUpdate hp c else c
  | (None, _) => Channel_sendNextUpdate hp c
  end.
End Channel.

Arguments Channel {_ _} _ _.
Arguments Effect {_ _} _.

(** *** The virtual functions *)

Class ChannelHooks {E : EpochUtil} {G : GuidUtil} (D X : Type) := {
  processBasicMethod : BasicMethod → Channel D X → Channel D X;
  processConfirmMethod : ConfirmMethod → Channel D X → Channel D X;
  processMessage : Message → Channel D X → Channel D X;
  onOpen : Channel D X → Channel D X;
  onReset : Channel D X → Channel D X;
  onFlowAllowed : Channel D X → Channel D X;
  processFailures : Channel D X → Channel D X;
}.

Section Hooked.
Context {E : EpochUtil} {G : GuidUtil} {D X : Type} {H : ChannelHooks D X}.

Definition Channel_topologyDeclared (ok : bool) (c : Channel D X) : Channel D X :=
  if ok then onOpen (emit TimerCancel (Channel_updateState TOPOLOGY_LOADED c))
  else Channel_close CHANNEL_ERROR text_declaring NO_CLASS NO_METHOD c.

(** [d_topologyTransformer.second(result)], when it is set. *)
Definition call_topologyCallback (ok : bool) (c : Channel D X) : Channel D X :=
  match snd (d_topologyTransformer c) with
  | TC_none => c
  | TC_declared => Channel_topologyDeclared ok c
  | TC_future f => emit (FutureSet f ok) c
  end.

(** [d_topologyTransformer.first.reset()] *)
Definition reset_transformer (c : Channel D X) : Channel D X :=
  set_transformer (None, snd (d_topologyTransformer c)) c.

Definition Channel_declareTopology (hp : Heap) (c : Channel D X) : Channel D X :=
  let t := TopologyTransformer_make hp (d_topology c) in
  if Transformer_hasError t then
    reset_transformer (Channel_close CHANNEL_ERROR text_declaring NO_CLASS NO_METHOD c)
  else if Transformer_isDone t then
    Channel_sendNextUpdate hp (Channel_topologyDeclared true c)
  else
    let (ms, t') := Transformer_drain t in
    fold_left (λ c m, Channel_writeState m DECLARING_TOPOLOGY c) ms
      (set_transformer (Some t', TC_declared) c).

Definition Channel_processTopologyMethod (hp : Heap) (method : Method) (c : Channel D X)
  : Channel D X :=
  if negb (bool_decide (d_state c = DECLARING_TOPOLOGY) || bool_decide (d_state c = READY) ||
           bool_decide (d_state c = AWAITING_REPLY))
  then c
  else
    match fst (d_topologyTransformer c) with
    | None =>
        reset_transformer (call_topologyCallback false
          (Channel_close CHANNEL_ERROR text_declaring NO_CLASS NO_METHOD c))
    | Some t =>
        let c := if bool_decide (d_state c = DECLARING_TOPOLOGY) then emit TimerReset c else c in
        let (status, t') := Transformer_processReplyMessage (AM_Method method) t in
        let c := set_transformer (Some t', snd (d_topologyTransformer c)) c in
        if negb status then
          reset_transformer (call_topologyCallback false
            (Channel_close CHANNEL_ERROR text_declaring NO_CLASS NO_METHOD c))
        else if Transformer_isDone t' then
          let done c := Channel_sendNextUpdate hp (reset_transformer (call_topologyCallback true c)) in
          if bool_decide (d_state c = DECLARING_TOPOLOGY) then done c
          else
            match d_updateQueue c with
            | [] => c
            | (u, _) :: queue =>
                done (set_updateQueue queue
                        (set_topology (TopologyMerger_merge hp (d_topology c) u) c))
            end
        else c
    end.

Definition Channel_reset (startRetry : bool) (c : Channel D X) : CleanupIndicator * Channel D X :=
  let c := onReset (processFailures (Channel_updateState CLOSED c)) in
  let c := emit (Counter channel_disconnected) (if startRetry then emit Retry c else c) in
  ((if d_permanentlyClosing c then CLEANUP else KEEP), c).

Definition Channel_onWriteComplete (c : Channel D X) : Channel D X :=
  match d_state c with
  | CLOSED => snd (Channel_reset (negb (d_permanentlyClosing c)) c)
  | _ => c
  end.

(** [ChannelMethodProcessor] *)
Definition Channel_processChannelMethod (hp : Heap) (m : ChannelMethod) (c : Channel D X)
  : CleanupIndicator * Channel D X :=
  match m with
  | ChannelMethod_OpenOk _ =>
      let c := emit TimerReset c in
      if bool_decide (d_state c ≠ CHANNEL_OPEN_SENT) then
        (KEEP, Channel_close UNEXPECTED_FRAME (str "Unexpected frame") CHANNEL CHANNEL_OPENOK c)
      else (KEEP, Channel_declareTopology hp (Channel_updateState DECLARING_TOPOLOGY c))
  | ChannelMethod_Flow fl =>
      if ChannelFlow_activeFlow fl then
        (KEEP, Channel_write (ChannelMessage (ChannelMethod_FlowOk (mkChannelFlowOk true)))
                 (onFlowAllowed (set_flow true c)))
      else
        (KEEP, Channel_write (ChannelMessage (ChannelMethod_FlowOk (mkChannelFlowOk false)))
                 (set_flow false c))
  | ChannelMethod_Close cl =>
      let c := Channel_writeState (ChannelMessage (ChannelMethod_CloseOk mkChannelCloseOk)) CLOSED c in
      if negb (ChannelClose_classId cl =? 0)%Z || negb (ChannelClose_methodId cl =? 0)%Z
      then (KEEP, emit (RetryError (str "Channel error " ++ ChannelClose_replyText cl)
                          (ChannelClose_replyCode cl)) c)
      else (KEEP, c)
  | ChannelMethod_CloseOk _ =>
      if d_permanentlyClosing c then (CLEANUP, c) else (KEEP, snd (Channel_reset true c))
  | ChannelMethod_Open _ | ChannelMethod_FlowOk _ | ChannelMethod_unset => (KEEP, c)
  end.

Definition Channel_processReceived (hp : Heap) (message : AmqpMessage) (c : Channel D X)
  : CleanupIndicator * Channel D X :=
  match d_state c with
  | CLOSED => (KEEP, c)
  | _ =>
      match message with
      | AM_Method (Method_Channel m) => Channel_processChannelMethod hp m c
      | AM_Method (Method_Basic m) => (KEEP, processBasicMethod m c)
      | AM_Method (Method_Confirm m) => (KEEP, processConfirmMethod m c)
      | AM_Method (Method_Queue m) => (KEEP, Channel_processTopologyMethod hp (Method_Queue m) c)
      | AM_Method (Method_Exchange m) => (KEEP, Channel_processTopologyMethod hp (Method_Exchange m) c)
      | AM_Message m => (KEEP, processMessage m c)
      | _ => (KEEP, c)
      end
  end.
End Hooked.

(** *** What a derived class may do

    The members [d_topology], [d_topologyTransformer], [d_updateQueue] and
    [d_permanentlyClosing] are private to the base class, and [d_flow] is only
    read by derived classes; a virtual function can add to the trace, but it does not
    open the channel. *)

Definition is_open_write {E : EpochUtil} {G : GuidUtil} {X} (e : Effect X) : bool :=
  match e with
  | AsyncWrite (AM_Method (Method_Channel (ChannelMethod_Open _))) _ => true
  | _ => false
  end.

(** The effects of the base class other than opening and resetting the channel. *)
Definition base_effect {E : EpochUtil} {G : GuidUtil} {X} (e : Effect X) : bool :=
  match e with
  | AsyncWrite (AM_Method (Method_Channel m)) _ =>
      match m with ChannelMethod_Open _ => false | _ => true end
  | AsyncWrite (AM_Method (Method_Queue _)) _ | AsyncWrite (AM_Method (Method_Exchange _)) _ => true
  | AsyncWrite _ _ => false
  | TimerStart | TimerReset | TimerCancel | Retry | RetryError _ _ | FutureSet _ _ | ConnError
  | Counter channel_ready => true
  | Counter _ | Callback _ | Fault => false
  end.

Section Frame.
Context {E : EpochUtil} {G : GuidUtil} {D X : Type}.

Record base_frame (c c' : Channel D X) : Prop := {
  bf_flow : d_flow c' = d_flow c;
  bf_topology : d_topology c' = d_topology c;
  bf_transformer : d_topologyTransformer c' = d_topologyTransformer c;
  bf_updateQueue : d_updateQueue c' = d_updateQueue c;
  bf_closing : d_permanentlyClosing c' = d_permanentlyClosing c;
  bf_trace : ∃ es, c_trace c' = c_trace c ++ es ∧ Forall (λ e, is_open_write e = false) es;
}.

#[global] Instance base_frame_preorder : PreOrder base_frame.
Proof using.
  split.
  - intros c. split; try done. exists []. by rewrite app_nil_r.
  - intros c1 c2 c3 [] []. split; try congruence.
    destruct bf_trace0 as (es1 & He1 & H1), bf_trace1 as (es2 & He2 & H2).
    exists (es1 ++ es2). rewrite He2, He1, app_assoc. split; [done |]. by apply Forall_app.
Qed.

Lemma base_frame_set_state s (c : Channel D X) : base_frame c (set_state s c).
Proof using. split; try done. exists []. by rewrite app_nil_r. Qed.

Lemma base_frame_set_derived d (c : Channel D X) : base_frame c (set_derived d c).
Proof using. split; try done. exists []. by rewrite app_nil_r. Qed.

Lemma base_frame_set_readyMade l (c : Channel D X) : base_frame c (set_readyMade l c).
Proof using. split; try done. exists []. by rewrite app_nil_r. Qed.

Lemma base_frame_emits es (c : Channel D X) :
  Forall (λ e, is_open_write e = false) es → base_frame c (emits es c).
Proof using. intros Hes. split; try done. by exists es. Qed.

Lemma base_frame_emit e (c : Channel D X) : is_open_write e = false → base_frame c (emit e c).
Proof using. intros He. apply base_frame_emits. by constructor. Qed.

Lemma base_frame_ready (c : Channel D X) : base_frame c (Channel_ready c).
Proof using.
  unfold Channel_ready. etrans; [by apply (base_frame_emit TimerCancel) |].
  etrans; [apply (base_frame_set_state READY) |].
  etrans; [| by apply base_frame_emit].
  etrans; [| apply base_frame_set_readyMade]. apply base_frame_emits.
  apply Forall_fmap, Forall_forall. done.
Qed.

Lemma base_frame_updateState s (c : Channel D X) : base_frame c (Channel_updateState s c).
Proof using.
  destruct s; simpl; first [apply base_frame_ready | apply base_frame_set_state].
Qed.

Lemma base_frame_writeState m s (c : Channel D X) :
  (∀ h, is_open_write (X := X) (AsyncWrite m h) = false) → base_frame c (Channel_writeState m s c).
Proof using.
  intros Hm. unfold Channel_writeState. etrans; [apply (base_frame_updateState s) |].
  by apply base_frame_emit.
Qed.

Lemma base_frame_write m (c : Channel D X) :
  (∀ h, is_open_write (X := X) (AsyncWrite m h) = false) → base_frame c (Channel_write m c).
Proof using. intros Hm. by apply base_frame_emit. Qed.

Lemma base_frame_close code text cl me (c : Channel D X) :
  base_frame c (Channel_close code text cl me c).
Proof using. by apply base_frame_writeState. Qed.
End Frame.

Class ChannelHooksLaws {E : EpochUtil} {G : GuidUtil} {D X : Type} (H : ChannelHooks D X) : Prop := {
  processBasicMethod_frame m (c : Channel D X) : base_frame c (processBasicMethod m c);
  processConfirmMethod_frame m (c : Channel D X) : base_frame c (processConfirmMethod m c);
  processMessage_frame m (c : Channel D X) : base_frame c (processMessage m c);
  onOpen_frame (c : Channel D X) : base_frame c (onOpen c);
  onReset_frame (c : Channel D X) : base_frame c (onReset c);
  onFlowAllowed_frame (c : Channel D X) : base_frame c (onFlowAllowed c);
  processFailures_frame (c : Channel D X) : base_frame c (processFailures c);
}.

Create HintDb channel.
#[export] Hint Resolve base_frame_set_state base_frame_set_derived base_frame_set_readyMade
  base_frame_emit base_frame_emits base_frame_ready base_frame_updateState base_frame_writeState
  base_frame_write base_frame_close processBasicMethod_frame processConfirmMethod_frame
  processMessage_frame onOpen_frame onReset_frame onFlowAllowed_frame processFailures_frame : channel.

(** A call of an operation of the channel, by the application, the connection or
    the event loop. *)
Inductive ChannelOp {E : EpochUtil} {G : GuidUtil} :=
| Op_open
| Op_reset (startRetry : bool)
| Op_close (code : Z) (text : bytes) (classId methodId : Z)
| Op_processReceived (hp : Heap) (m : AmqpMessage)
| Op_gracefulClose
| Op_waitForReady (f : FutureId)
| Op_updateTopology (hp : Heap) (u : TopologyUpdate) (f : FutureId)
| Op_onWriteComplete
| Op_retry
| Op_channelHung (cancelled : bool).

Definition channel_op {E : EpochUtil} {G : GuidUtil} {D X} {H : ChannelHooks D X} (op : ChannelOp)
  (c : Channel D X) : Channel D X :=
  match op with
  | Op_open => Channel_open c
  | Op_reset b => snd (Channel_reset b c)
  | Op_close code text cl me => Channel_close code text cl me c
  | Op_processReceived hp m => snd (Channel_processReceived hp m c)
  | Op_gracefulClose => Channel_gracefulClose c
  | Op_waitForReady f => snd (Channel_waitForReady f c)
  | Op_updateTopology hp u f => Channel_updateTopology hp u f c
  | Op_onWriteComplete => Channel_onWriteComplete c
  | Op_retry => Channel_retry c
  | Op_channelHung b => Channel_channelHung b c
  end.

(** Two derived classes that differ only in how they handle basic methods and contents
    behave the same on operations that bring neither. *)
Lemma channel_op_ext {E : EpochUtil} {G : GuidUtil} {D X : Type} (H1 H2 : ChannelHooks D X) op (c : Channel D X) :
  processConfirmMethod (ChannelHooks := H1) = processConfirmMethod (ChannelHooks := H2) →
  onOpen (ChannelHooks := H1) = onOpen (ChannelHooks := H2) →
  onReset (ChannelHooks := H1) = onReset (ChannelHooks := H2) →
  onFlowAllowed (ChannelHooks := H1) = onFlowAllowed (ChannelHooks := H2) →
  processFailures (ChannelHooks := H1) = processFailures (ChannelHooks := H2) →
  match op with
  | Op_processReceived _ (AM_Method (Method_Basic m)) =>
      processBasicMethod (ChannelHooks := H1) m c = processBasicMethod (ChannelHooks := H2) m c
  | Op_processReceived _ (AM_Message m) =>
      processMessage (ChannelHooks := H1) m c = processMessage (ChannelHooks := H2) m c
  | _ => True
  end →
  channel_op (H := H1) op c = channel_op (H := H2) op c.
Proof.
  destruct H1, H2. simpl. intros -> -> -> -> -> Hop.
  destruct op as [| b | | hp m | | | | | |]; cbn [channel_op].
  4: { unfold Channel_processReceived.
       destruct (d_state c); [| | | | | | | exact eq_refl];
         (destruct m as [| | m | [| m | m | m | m | m | m]];
          [exact eq_refl | exact eq_refl | exact Hop | exact eq_refl | exact Hop | | | | |]);
         by cbv [Channel_processChannelMethod Channel_processTopologyMethod Channel_declareTopology
                 call_topologyCallback Channel_topologyDeclared Channel_reset processFailures onReset onOpen
                 onFlowAllowed processConfirmMethod]. }
  all: by cbv [Channel_onWriteComplete Channel_reset processFailures onReset].
Qed.

(** *** Draining a transformer *)

Section Drain.
Context {E : EpochUtil} {G : GuidUtil}.

Lemma drain_spec fuel (t : TopologyTransformer) :
  d_sentMessageCount t ≤ length (d_messages t) →
  length (d_messages t) - d_sentMessageCount t < fuel →
  drain fuel t = (drop (d_sentMessageCount t) (d_messages t), Transformer_sent t).
Proof using.
  revert t. induction fuel as [| fuel IH]; intros t Hle Hf; [lia |]. simpl.
  unfold Transformer_hasNext. destruct (Nat.ltb_spec (d_sentMessageCount t) (length (d_messages t))).
  - unfold Transformer_getNextMessage.
    destruct (lookup_lt_is_Some_2 (d_messages t) (d_sentMessageCount t)) as [m Hm]; [done |].
    rewrite Hm, IH by (simpl; lia). simpl. by rewrite (drop_S _ _ _ Hm).
  - rewrite drop_ge by lia. f_equal. unfold Transformer_sent.
    replace (length (d_messages t)) with (d_sentMessageCount t) by lia. by destruct t.
Qed.

(** The loops write all messages in order, and end. *)
Lemma Transformer_drain_spec t reqs err :
  collects t reqs err → Transformer_drain t = (reqs, Transformer_sent t).
Proof using.
  intros (_ & Hm & Hs & _). unfold Transformer_drain. rewrite drain_spec by lia.
  by rewrite Hs, Hm, drop_0.
Qed.

Lemma makeUpdate_collects hp u :
  collects (TopologyTransformer_makeUpdate hp u) (omap (update_request hp) u)
    (negb (forallb (λ x, bool_decide (is_Some (update_request hp x))) u)).
Proof using.
  pose proof (fold_collects _ _ _ u (processUpdate_collects hp) _ _ _ collects_empty) as Hc.
  rewrite existsb_fails in Hc. exact Hc.
Qed.

Lemma collects_isDone t reqs err : collects t reqs err → Transformer_isDone t = bool_decide (reqs = []).
Proof using.
  intros ([Hr _] & Hm & Hs & _). unfold Transformer_isDone. rewrite Hs, Hm.
  destruct (d_expectedReplies t), reqs; done.
Qed.

(** Topology requests are queue and exchange methods. *)
Lemma collects_base_effects {X} t reqs err h :
  collects t reqs err →
  Forall (λ e, base_effect e = true) ((λ m, AsyncWrite m h : Effect X) <$> reqs).
Proof using.
  intros ([Hr _] & _). apply Forall_fmap, Forall_forall. intros m Hm. simpl.
  assert (is_Some (reply_kind m)) as Hk.
  { apply (list_elem_of_fmap_2 reply_kind) in Hm. rewrite <- Hr in Hm.
    apply list_elem_of_fmap in Hm as (r & -> & _). eauto. }
  destruct m as [| | | [| | [] | | | |]]; try done; by destruct Hk.
Qed.
End Drain.

(** *** A proof rule for the operations of a channel

    A preorder on channels relates a channel to the result of every operation on it
    if it does so for the assignments and effects of the base class, for opening and
    for resetting, and for the virtual functions. *)

Section Rule.
Context {E : EpochUtil} {G : GuidUtil} {D X : Type} {H : ChannelHooks D X}.

Record channel_closed (R : relation (Channel D X)) : Prop := {
  cl_preorder : PreOrder R;
  cl_state s c : R c (set_state s c);
  cl_transformer t c : R c (set_transformer t c);
  cl_updateQueue q c : R c (set_updateQueue q c);
  cl_topology tp c : R c (set_topology tp c);
  cl_flow b c : R c (set_flow b c);
  cl_closing c : R c (set_permanentlyClosing true c);
  cl_readyMade l c : R c (set_readyMade l c);
  cl_emit e c : base_effect e = true → R c (emit e c);
  cl_open c : R c (Channel_open c);
  cl_reset b c : R c (Channel_reset b c).2;
  cl_basic m c : R c (processBasicMethod m c);
  cl_confirm m c : R c (processConfirmMethod m c);
  cl_message m c : R c (processMessage m c);
  cl_onOpen c : R c (onOpen c);
  cl_onFlowAllowed c : R c (onFlowAllowed c);
}.

Context (R : relation (Channel D X)) (HR : channel_closed R).

#[local] Instance R_preorder : PreOrder R := cl_preorder R HR.

Lemma R_emits es c : Forall (λ e, base_effect e = true) es → R c (emits es c).
Proof using HR.
  revert c. induction es as [| e es IH]; intros c Hes.
  - unfold emits. rewrite app_nil_r. by destruct c.
  - apply Forall_cons in Hes as [He Hes]. etrans; [by apply (cl_emit R HR e) |].
    etrans; [by apply IH |]. unfold emit, emits. simpl. by rewrite <- app_assoc.
Qed.

Lemma R_ready c : R c (Channel_ready c).
Proof using HR.
  unfold Channel_ready. etrans; [by apply (cl_emit R HR TimerCancel) |].
  etrans; [apply (cl_state R HR READY) |]. etrans; [| by apply (cl_emit R HR)].
  etrans; [| apply (cl_readyMade R HR)]. apply R_emits.
  apply Forall_fmap, Forall_forall. done.
Qed.

Lemma R_updateState s c : R c (Channel_updateState s c).
Proof using HR. destruct s; simpl; first [apply R_ready | apply (cl_state R HR)]. Qed.

Lemma R_writeState m s c :
  base_effect (X := X) (AsyncWrite m OnWriteComplete) = true → R c (Channel_writeState m s c).
Proof using HR.
  intros Hm. unfold Channel_writeState. etrans; [apply (R_updateState s) |]. by apply (cl_emit R HR).
Qed.

Lemma R_close code text cl me c : R c (Channel_close code text cl me c).
Proof using HR. by apply R_writeState. Qed.

(** One step back through a composed operation. *)
Ltac R_step :=
  first
    [ reflexivity
    | etrans; [| apply (cl_transformer R HR)]
    | etrans; [| apply (cl_updateQueue R HR)]
    | etrans; [| apply (cl_topology R HR)]
    | etrans; [| apply (cl_flow R HR)]
    | etrans; [| apply (cl_state R HR)]
    | etrans; [| apply (cl_readyMade R HR)]
    | etrans; [| apply R_close]
    | etrans; [| apply R_updateState]
    | etrans; [| by apply R_writeState]
    | etrans; [| by apply (cl_emit R HR)]
    | etrans; [| apply (cl_onOpen R HR)]
    | etrans; [| apply (cl_onFlowAllowed R HR)] ].

Lemma sendNextUpdate_closed hp queue c : R c (sendNextUpdate_loop hp queue c).
Proof using HR.
  revert c. induction queue as [| [u f] queue IH]; intros c; simpl; [done |].
  case_match; [by repeat R_step |]. case_match.
  - etrans; [| apply IH]. by repeat R_step.
  - pose proof (makeUpdate_collects hp u) as Hc. rewrite (Transformer_drain_spec _ _ _ Hc).
    etrans; [| apply R_emits; by eapply collects_base_effects]. by repeat R_step.
Qed.

Lemma topologyDeclared_closed ok c : R c (Channel_topologyDeclared ok c).
Proof using HR. unfold Channel_topologyDeclared. destruct ok; by repeat R_step. Qed.

Lemma call_topologyCallback_closed ok c : R c (call_topologyCallback ok c).
Proof using HR.
  unfold call_topologyCallback. case_match; [done | apply topologyDeclared_closed | by repeat R_step].
Qed.

Lemma declareTopology_closed hp c : R c (Channel_declareTopology hp c).
Proof using HR.
  unfold Channel_declareTopology. case_match; [unfold reset_transformer; by repeat R_step |].
  case_match.
  - etrans; [| apply sendNextUpdate_closed]. apply topologyDeclared_closed.
  - pose proof (TopologyTransformer_make_collects hp (d_topology c)) as Hc.
    rewrite (Transformer_drain_spec _ _ _ Hc).
    pose proof (collects_base_effects (X := X) _ _ _ OnWriteComplete Hc) as Hbe. clear Hc.
    set (t := (Some _, TC_declared)). etrans; [apply (cl_transformer R HR t) |].
    generalize (set_transformer t c).
    induction (topology_requests hp (d_topology c)) as [| m ms IH]; intros c'; [done |].
    rewrite fmap_cons in Hbe. apply Forall_cons in Hbe as [Hm Hbe].
    simpl. etrans; [| by apply IH]. by apply R_writeState.
Qed.

Lemma processTopologyMethod_closed hp m c : R c (Channel_processTopologyMethod hp m c).
Proof using HR.
  unfold Channel_processTopologyMethod. case_match; [done |].
  case_match.
  - destruct (Transformer_processReplyMessage _ _) as [status t'].
    set (c1 := if bool_decide _ then emit TimerReset c else c).
    assert (R c c1) as Hc1 by (unfold c1; case_match; by repeat R_step).
    etrans; [exact Hc1 |].
    case_match; [unfold reset_transformer; R_step; etrans; [| apply call_topologyCallback_closed];
                 by repeat R_step |].
    case_match; [| by repeat R_step].
    case_match; [| case_match; [by repeat R_step |]; case_match];
      (etrans; [| apply sendNextUpdate_closed]; unfold reset_transformer; R_step;
       etrans; [| apply call_topologyCallback_closed]; by repeat R_step).
  - unfold reset_transformer. R_step. etrans; [| apply call_topologyCallback_closed].
    by repeat R_step.
Qed.

Lemma processChannelMethod_closed hp m c : R c (Channel_processChannelMethod hp m c).2.
Proof using HR.
  destruct m; simpl; try done.
  - case_match; simpl; [by repeat R_step |].
    etrans; [| apply declareTopology_closed]. by repeat R_step.
  - case_match; simpl; by repeat R_step.
  - case_match; simpl; by repeat R_step.
  - case_match; [done |]. apply (cl_reset R HR true).
Qed.

Lemma processReceived_closed hp m c : R c (Channel_processReceived hp m c).2.
Proof using HR.
  unfold Channel_processReceived. destruct (d_state c); try done;
    (destruct m as [| | m | [| m | m | m | m | m | m]]; simpl; try done;
     first [apply processChannelMethod_closed | apply processTopologyMethod_closed
           | apply (cl_basic R HR) | apply (cl_confirm R HR) | apply (cl_message R HR)]).
Qed.

Lemma channel_op_closed op c : R c (channel_op op c).
Proof using HR.
  destruct op as [| b | code text cl me | hp m | | f | hp u f | | | b]; simpl.
  - apply (cl_open R HR).
  - apply (cl_reset R HR).
  - apply R_close.
  - apply processReceived_closed.
  - unfold Channel_gracefulClose. etrans; [apply (cl_closing R HR) |].
    case_match; by repeat R_step.
  - unfold Channel_waitForReady. case_match; simpl; by repeat R_step.
  - unfold Channel_updateTopology. simpl. case_match. case_match; [case_match |];
      try (etrans; [| apply sendNextUpdate_closed]); by repeat R_step.
  - unfold Channel_onWriteComplete. case_match; try done. apply (cl_reset R HR).
  - apply (cl_open R HR).
  - unfold Channel_channelHung. case_match; by repeat R_step.
Qed.
End Rule.

(** *** Operations on a channel that closes for good *)

Section Quiet.
Context {E : EpochUtil} {G : GuidUtil} {D X : Type} {H : ChannelHooks D X} {HL : ChannelHooksLaws H}.

(** From a channel that closes for good, no step to [c'] opens the channel or takes
    back [gracefulClose]. *)
Definition quiet (c c' : Channel D X) : Prop :=
  d_permanentlyClosing c = true →
  d_permanentlyClosing c' = true ∧
  ∃ es, c_trace c' = c_trace c ++ es ∧ Forall (λ e, is_open_write e = false) es.

Lemma quiet_refl c c' : c_trace c' = c_trace c → d_permanentlyClosing c' = d_permanentlyClosing c →
  quiet c c'.
Proof using. intros Ht Hp Hc. split; [congruence |]. exists []. by rewrite app_nil_r. Qed.

#[global] Instance quiet_preorder : PreOrder quiet.
Proof using.
  split.
  - intros c. by apply quiet_refl.
  - intros c1 c2 c3 H12 H23 Hc. destruct (H12 Hc) as [Hp2 (es1 & He1 & H1)].
    destruct (H23 Hp2) as [Hp3 (es2 & He2 & H2)]. split; [done |].
    exists (es1 ++ es2). rewrite He2, He1, app_assoc. split; [done |]. by apply Forall_app.
Qed.

Lemma frame_quiet c c' : base_frame c c' → quiet c c'.
Proof using. intros [] Hc. split; [congruence | done]. Qed.

Lemma quiet_closed : channel_closed quiet.
Proof using HL.
  split; intros; try (by apply quiet_refl); try apply _; try (apply frame_quiet; by auto with channel).
  - intros Hc. split; [done |]. exists []. by rewrite app_nil_r.
  - apply frame_quiet, base_frame_emit. by destruct e as [[| | | [| | [] | | | |]] | | | | | | | | | |].
  - unfold Channel_open. intros Hc. rewrite Hc. split; [done |]. exists []. by rewrite app_nil_r.
  - apply frame_quiet. unfold Channel_reset. simpl.
    etrans; [| by apply base_frame_emit]. etrans; [apply (base_frame_set_state CLOSED) |].
    etrans; [apply processFailures_frame |]. etrans; [apply onReset_frame |].
    case_match; [by auto with channel | done].
Qed.
End Quiet.

#[local] Arguments Transformer_processReplyMessage : simpl never.
#[local] Arguments Transformer_isDone : simpl never.

(** *** The opening handshake *)

Section Opening.
Context {E : EpochUtil} {G : GuidUtil} {D X : Type} {H : ChannelHooks D X}.

(** Frames received one after the other. *)
Definition receives (hp : Heap) (ms : list AmqpMessage) (c : Channel D X) : Channel D X :=
  fold_left (λ c m, (Channel_processReceived hp m c).2) ms c.

Lemma receives_cons hp m ms c :
  receives hp (m :: ms) c = receives hp ms (Channel_processReceived hp m c).2.
Proof using. done. Qed.

(** The channel [c] with another state, transformer and additional effects. *)
Definition progress_of (c : Channel D X) (s : ChannelState)
  (t : option TopologyTransformer * TopologyCallback) (es : list (Effect X)) : Channel D X :=
  mkChannel (d_flow c) s (d_topology c) t (d_updateQueue c) (d_permanentlyClosing c)
    (d_readyMade c) (c_derived c) (c_trace c ++ es).

Definition opening_effects (reqs : list AmqpMessage) : list (Effect X) :=
  [TimerStart; AsyncWrite (ChannelMessage (ChannelMethod_Open mkChannelOpen)) OnWriteComplete;
   TimerReset] ++ ((λ m, AsyncWrite m OnWriteComplete) <$> reqs).

Lemma fold_writeState ms (c : Channel D X) :
  d_state c = DECLARING_TOPOLOGY →
  fold_left (λ c m, Channel_writeState m DECLARING_TOPOLOGY c) ms c
  = emits ((λ m, AsyncWrite m OnWriteComplete) <$> ms) c.
Proof using.
  revert c. induction ms as [| m ms IH]; intros c Hs; simpl.
  - unfold emits. rewrite app_nil_r. by destruct c.
  - rewrite IH by done. unfold Channel_writeState, emit, emits. simpl. rewrite <- app_assoc. simpl.
    by rewrite Hs.
Qed.

Lemma open_declares hp (c : Channel D X) :
  d_state c = CLOSED → d_permanentlyClosing c = false → topology_alive hp (d_topology c) = true →
  topology_requests hp (d_topology c) ≠ [] →
  receives hp [ChannelMessage (ChannelMethod_OpenOk mkChannelOpenOk)] (Channel_open c)
  = progress_of c DECLARING_TOPOLOGY
      (Some (Transformer_sent (TopologyTransformer_make hp (d_topology c))), TC_declared)
      (opening_effects (topology_requests hp (d_topology c))).
Proof using.
  intros Hs Hp Ha Hne. pose proof (TopologyTransformer_make_collects hp (d_topology c)) as Hc.
  rewrite Ha in Hc. unfold receives, Channel_open. rewrite Hp. simpl.
  unfold Channel_processReceived. simpl. unfold Channel_declareTopology. simpl.
  unfold Transformer_hasError. rewrite (proj2 (proj2 (proj2 Hc))). simpl.
  rewrite (collects_isDone _ _ _ Hc), bool_decide_eq_false_2 by done.
  rewrite (Transformer_drain_spec _ _ _ Hc), fold_writeState by done.
  unfold progress_of, opening_effects, set_transformer, emits. simpl. by rewrite <- !app_assoc.
Qed.

(** The states in which topology replies are expected, and the timer reset they
    cause while the topology is declared. *)
Definition expects_replies (s : ChannelState) : bool :=
  match s with DECLARING_TOPOLOGY | READY | AWAITING_REPLY => true | _ => false end.

Definition reply_effects (s : ChannelState) : list (Effect X) :=
  match s with DECLARING_TOPOLOGY => [TimerReset] | _ => [] end.

(** Replies reach [processTopologyMethod]. *)
Lemma receive_reply hp r m c s t es :
  confirms r (AM_Method m) = true → expects_replies s = true →
  (Channel_processReceived hp (AM_Method m) (progress_of c s t es)).2
  = Channel_processTopologyMethod hp m (progress_of c s t es).
Proof using.
  intros Hc Hs. unfold Channel_processReceived. destruct s; try done;
    (destruct m as [| | | | | |]; try done; unfold confirms in Hc; repeat case_match; done).
Qed.

(** A confirmed reply that is not the last one. *)
Lemma reply_progress hp c s t m cb r reqs es :
  expects_replies s = true →
  transformer_wf t (r :: reqs) → reqs ≠ [] → d_sentMessageCount t = length (d_messages t) →
  confirms r (AM_Method m) = true →
  ∃ t', transformer_wf t' reqs ∧ d_sentMessageCount t' = length (d_messages t') ∧
  (Channel_processReceived hp (AM_Method m) (progress_of c s (Some t, cb) es)).2
  = progress_of c s (Some t', cb) (es ++ reply_effects s).
Proof using.
  intros He Hwf Hne Hs Hc.
  destruct (processReply_step t r reqs (AM_Method m) Hwf) as (t' & Hpr & Hok).
  rewrite Hc in Hpr, Hok. destruct (Hok eq_refl) as (Hwf' & _ & Hm & Hs'). exists t'.
  rewrite Hm, Hs'. split; [done |]. split; [done |]. rewrite (receive_reply _ r) by done.
  assert (Transformer_isDone t' = false) as Hd.
  { pose proof (wf_isDone t' reqs Hwf' ltac:(congruence)). by destruct (Transformer_isDone t'); naive_solver. }
  unfold Channel_processTopologyMethod. destruct s; try done; simpl; rewrite Hpr; simpl; rewrite Hd;
    unfold progress_of, set_transformer, emit, emits; simpl; by rewrite <- ?app_assoc, ?app_nil_r.
Qed.

Lemma replies_progress hp c s cb replies : ∀ t reqs es,
  expects_replies s = true →
  transformer_wf t reqs → d_sentMessageCount t = length (d_messages t) →
  length replies < length reqs →
  Forall2 (λ req m, confirms req (AM_Method m) = true) (take (length replies) reqs) replies →
  ∃ t', transformer_wf t' (drop (length replies) reqs) ∧
  d_sentMessageCount t' = length (d_messages t') ∧
  receives hp (AM_Method <$> replies) (progress_of c s (Some t, cb) es)
  = progress_of c s (Some t', cb) (es ++ concat (replicate (length replies) (reply_effects s))).
Proof using.
  induction replies as [| m replies IH]; intros t reqs es He Hwf Hs Hlen HF.
  - exists t. simpl. rewrite app_nil_r. done.
  - rewrite fmap_cons, receives_cons. destruct reqs as [| r reqs]; [simpl in Hlen; lia |].
    simpl in Hlen, HF. apply Forall2_cons in HF as [Hc HF].
    destruct (reply_progress hp c s t m cb r reqs es He Hwf) as (t1 & Hwf1 & Hs1 & ->);
      [destruct reqs; simpl in *; [lia | done] | done.. |].
    destruct (IH t1 reqs (es ++ reply_effects s) He Hwf1 Hs1 ltac:(lia) HF) as (t' & Hwf' & Hs' & Hr).
    exists t'. split; [done |]. split; [done |]. rewrite Hr. simpl. by rewrite <- app_assoc.
Qed.

(** What the last confirmed reply does. *)
Definition completes (hp : Heap) (c : Channel D X) : Channel D X :=
  Channel_sendNextUpdate hp (reset_transformer (call_topologyCallback true c)).

Lemma reply_completes hp c s t m cb r es :
  expects_replies s = true →
  transformer_wf t [r] → d_sentMessageCount t = length (d_messages t) →
  confirms r (AM_Method m) = true →
  s = DECLARING_TOPOLOGY ∨ d_updateQueue c ≠ [] →
  ∃ t', (Channel_processReceived hp (AM_Method m) (progress_of c s (Some t, cb) es)).2
  = let c' := progress_of c s (Some t', cb) (es ++ reply_effects s) in
    match s, d_updateQueue c with
    | DECLARING_TOPOLOGY, _ | _, [] => completes hp c'
    | _, (u, _) :: queue =>
        completes hp (set_updateQueue queue (set_topology (TopologyMerger_merge hp (d_topology c) u) c'))
    end.
Proof using.
  intros He Hwf Hs Hc Hq. destruct (processReply_step t r [] (AM_Method m) Hwf) as (t' & Hpr & Hok).
  rewrite Hc in Hpr, Hok. destruct (Hok eq_refl) as (Hwf' & _ & Hm & Hs'). exists t'.
  rewrite (receive_reply _ r) by done.
  pose proof (proj2 (wf_isDone t' [] Hwf' ltac:(congruence)) eq_refl) as Hd.
  unfold Channel_processTopologyMethod. destruct s; try done; simpl; rewrite Hpr; simpl; rewrite Hd.
  - unfold completes, progress_of, set_transformer, emit, emits. simpl. by rewrite <- !app_assoc.
  - destruct (d_updateQueue c) as [| [u f] q]; [naive_solver |].
    unfold completes, progress_of, set_transformer. simpl. by rewrite app_nil_r.
  - destruct (d_updateQueue c) as [| [u f] q]; [naive_solver |].
    unfold completes, progress_of, set_transformer. simpl. by rewrite app_nil_r.
Qed.

Lemma receives_app hp ms1 ms2 (c : Channel D X) :
  receives hp (ms1 ++ ms2) c = receives hp ms2 (receives hp ms1 c).
Proof using. apply fold_left_app. Qed.

(** All replies: the transformer before the last one and the last reply. *)
Lemma replies_split hp c s cb t reqs es replies :
  expects_replies s = true → reqs ≠ [] →
  transformer_wf t reqs → d_sentMessageCount t = length (d_messages t) →
  Forall2 (λ req m, confirms req (AM_Method m) = true) reqs replies →
  ∃ t' r m, transformer_wf t' [r] ∧ d_sentMessageCount t' = length (d_messages t') ∧
    confirms r (AM_Method m) = true ∧
    receives hp (AM_Method <$> replies) (progress_of c s (Some t, cb) es)
    = (Channel_processReceived hp (AM_Method m)
         (progress_of c s (Some t', cb)
            (es ++ concat (replicate (length replies - 1) (reply_effects s))))).2.
Proof using.
  intros He Hne Hwf Hs HF. pose proof (Forall2_length _ _ _ HF) as Hlen.
  destruct (exists_last (l := reqs)) as (front & r & ->); [by destruct reqs |].
  apply Forall2_app_inv_l in HF as (rf & rl & HF & Hl & ->).
  apply Forall2_cons_inv_l in Hl as (m & ? & Hm & Hnil & ->).
  apply Forall2_nil_inv_l in Hnil as ->.
  pose proof (Forall2_length _ _ _ HF) as Hlf.
  destruct (replies_progress hp c s cb rf t (front ++ [r]) es He Hwf Hs) as (t' & Hwf' & Hs' & Hr).
  - rewrite length_app. simpl. lia.
  - by rewrite <- Hlf, take_app_length.
  - exists t', r, m. rewrite <- Hlf, drop_app_length in Hwf'. split_and!; try done.
    rewrite fmap_app, receives_app, Hr, length_app. simpl. by rewrite Nat.add_sub.
Qed.
End Opening.

(** *** Theorems *)

Section Theorems.
Context {E : EpochUtil} {G : GuidUtil} {D X : Type} {H : ChannelHooks D X}.

Lemma concat_replicate_singleton {A} n (x : A) : concat (replicate n [x]) = replicate n x.
Proof using. induction n as [| n IH]; [done |]. simpl. by rewrite IH. Qed.

(** The channel when its topology is declared, before [onOpen]. *)
Definition opened (hp : Heap) (c : Channel D X) (t : option TopologyTransformer * TopologyCallback)
  : Channel D X :=
  let reqs := topology_requests hp (d_topology c) in
  progress_of c TOPOLOGY_LOADED t
    (opening_effects reqs ++ replicate (length reqs) TimerReset ++ [TimerCancel]).

Lemma open_sequence hp c replies :
  d_state c = CLOSED → d_permanentlyClosing c = false → topology_alive hp (d_topology c) = true →
  Forall2 (λ req m, confirms req (AM_Method m) = true) (topology_requests hp (d_topology c)) replies →
  ∃ t c', receives hp (ChannelMessage (ChannelMethod_OpenOk mkChannelOpenOk) :: (AM_Method <$> replies))
            (Channel_open c)
          = Channel_sendNextUpdate hp c' ∧
          (c' = onOpen (opened hp c t) ∨ c' = reset_transformer (onOpen (opened hp c t))).
Proof using.
  intros Hs Hp Ha HF. pose proof (TopologyTransformer_make_collects hp (d_topology c)) as Hc.
  rewrite Ha in Hc. rewrite receives_cons.
  destruct (decide (topology_requests hp (d_topology c) = [])) as [Hnil | Hne].
  - rewrite Hnil in HF. apply Forall2_nil_inv_l in HF as ->. simpl.
    exists (d_topologyTransformer c), (onOpen (opened hp c (d_topologyTransformer c))).
    split; [| by left]. unfold Channel_open. rewrite Hp. simpl.
    unfold Channel_processReceived. simpl. unfold Channel_declareTopology. simpl.
    unfold Transformer_hasError. rewrite (proj2 (proj2 (proj2 Hc))). simpl.
    rewrite (collects_isDone _ _ _ Hc), bool_decide_eq_true_2 by done.
    unfold Channel_topologyDeclared, opened, progress_of, emit, emits. rewrite Hnil. simpl.
    by rewrite <- !app_assoc.
  - pose proof (open_declares hp c Hs Hp Ha Hne) as Hod. rewrite receives_cons in Hod. simpl receives in Hod.
    rewrite Hod. destruct (sent_wf _ _ _ Hc) as [Hwf Hsent].
    destruct (replies_split hp c DECLARING_TOPOLOGY TC_declared _ _
                (opening_effects (topology_requests hp (d_topology c))) _ eq_refl Hne Hwf Hsent HF)
      as (t1 & r & m & Hwf1 & Hs1 & Hcf & ->).
    destruct (reply_completes hp c DECLARING_TOPOLOGY t1 m TC_declared r
                (opening_effects (topology_requests hp (d_topology c)) ++
                   concat (replicate (length replies - 1) (reply_effects DECLARING_TOPOLOGY)))
                eq_refl Hwf1 Hs1 Hcf ltac:(by left)) as (t2 & ->).
    exists (Some t2, TC_declared). eexists. split; [reflexivity |]. right.
    unfold call_topologyCallback, Channel_topologyDeclared, opened. simpl. do 2 f_equal.
    unfold progress_of, emit, emits. simpl. f_equal. rewrite <- !app_assoc. f_equal. simpl.
    rewrite concat_replicate_singleton. pose proof (Forall2_length _ _ _ HF) as Hlen.
    replace (length (topology_requests hp (d_topology c))) with (S (length replies - 1)).
    2: { destruct replies; simpl in *; [by destruct (topology_requests hp (d_topology c)) | lia]. }
    rewrite replicate_S_end, <- !app_assoc. done.
Qed.

(** Declarations and bindings and their replies. *)
Definition topology_method (m : Method) : bool :=
  match m with Method_Queue _ | Method_Exchange _ => true | _ => false end.

Definition declaration_close : Effect X :=
  AsyncWrite (ChannelMessage (ChannelMethod_Close
    (mkChannelClose CHANNEL_ERROR text_declaring NO_CLASS NO_METHOD))) OnWriteComplete.

(** A reply that does not confirm the request it answers. *)
Lemma reply_refused hp c t m r reqs es :
  transformer_wf t (r :: reqs) → topology_method m = true → confirms r (AM_Method m) = false →
  ∃ t' n, (Channel_processReceived hp (AM_Method m) (progress_of c DECLARING_TOPOLOGY (Some t, TC_declared) es)).2
  = progress_of c CHANNEL_CLOSE_SENT (None, t') (es ++ TimerReset :: replicate (S n) declaration_close).
Proof using.
  intros Hwf Hm Hc. destruct (processReply_step t r reqs (AM_Method m) Hwf) as (t' & Hpr & _). rewrite Hc in Hpr.
  exists TC_declared, 1.
  assert ((Channel_processReceived hp (AM_Method m) (progress_of c DECLARING_TOPOLOGY (Some t, TC_declared) es)).2
    = Channel_processTopologyMethod hp m (progress_of c DECLARING_TOPOLOGY (Some t, TC_declared) es)) as -> by (by destruct m).
  unfold Channel_processTopologyMethod. simpl. rewrite Hpr. simpl. unfold progress_of, declaration_close. simpl.
  unfold reset_transformer, set_transformer. simpl. by rewrite <- !app_assoc.
Qed.

Lemma closing_ignores_replies hp c t es replies :
  Forall (λ m, topology_method m = true) replies →
  receives hp (AM_Method <$> replies) (progress_of c CHANNEL_CLOSE_SENT t es) = progress_of c CHANNEL_CLOSE_SENT t es.
Proof using.
  induction 1 as [| m replies Hm _ IH]; [done |]. rewrite fmap_cons, receives_cons.
  assert ((Channel_processReceived hp (AM_Method m) (progress_of c CHANNEL_CLOSE_SENT t es)).2
    = progress_of c CHANNEL_CLOSE_SENT t es) as -> by (by destruct m). exact IH.
Qed.

(** C19: Opening a channel. From CLOSED, [open] and the broker's [channel.open-ok]
    write the topology's requests in order; after the broker confirmed all of
    them, and not before, the derived class's [onOpen] runs in state
    TOPOLOGY_LOADED and the queued topology updates are started. In the meantime
    the channel stays in DECLARING_TOPOLOGY and the derived class is not involved; the
    hung-channel timer is started once, reset by every reply and cancelled at the
    end. A reply of another kind, or for another queue, than the request it answers does
    not count: the channel is closed, and stays so whatever is confirmed afterwards. *)
Theorem channel_opens_when_topology_confirmed hp c replies :
  d_state c = CLOSED → d_permanentlyClosing c = false → topology_alive hp (d_topology c) = true →
  Forall2 (λ req m, confirms req (AM_Method m) = true) (topology_requests hp (d_topology c)) replies →
  (∃ t c', receives hp (ChannelMessage (ChannelMethod_OpenOk mkChannelOpenOk) :: (AM_Method <$> replies))
             (Channel_open c)
           = Channel_sendNextUpdate hp c' ∧
           (c' = onOpen (opened hp c t) ∨ c' = reset_transformer (onOpen (opened hp c t)))) ∧
  ∀ k req, topology_requests hp (d_topology c) !! k = Some req →
    let c' := receives hp (ChannelMessage (ChannelMethod_OpenOk mkChannelOpenOk) ::
                             (AM_Method <$> take k replies)) (Channel_open c) in
    (d_state c' = DECLARING_TOPOLOGY ∧ c_derived c' = c_derived c ∧
     c_trace c' = c_trace c ++ opening_effects (topology_requests hp (d_topology c)) ++
                    replicate k TimerReset) ∧
    ∀ m later, topology_method m = true → confirms req (AM_Method m) = false →
      Forall (λ m, topology_method m = true) later →
      let c'' := receives hp (AM_Method <$> m :: later) c' in
      d_state c'' = CHANNEL_CLOSE_SENT ∧ c_derived c'' = c_derived c ∧
      ∃ n, c_trace c'' = c_trace c' ++ TimerReset :: replicate (S n) declaration_close.
Proof using.
  intros Hs Hp Ha HF. split; [by apply open_sequence |]. intros k req Hreq. simpl.
  assert (k < length replies) as Hk by (rewrite <- (Forall2_length _ _ _ HF); by eapply lookup_lt_Some).
  pose proof (Forall2_length _ _ _ HF) as Hlen.
  assert (topology_requests hp (d_topology c) ≠ []) as Hne
    by (intros Hn; rewrite Hn in Hlen; simpl in Hlen; lia).
  pose proof (TopologyTransformer_make_collects hp (d_topology c)) as Hc. rewrite Ha in Hc.
  pose proof (open_declares hp c Hs Hp Ha Hne) as Hod.
  rewrite receives_cons in *. simpl receives in Hod. rewrite Hod.
  destruct (sent_wf _ _ _ Hc) as [Hwf Hsent].
  destruct (replies_progress hp c DECLARING_TOPOLOGY TC_declared (take k replies) _ _
              (opening_effects (topology_requests hp (d_topology c))) eq_refl Hwf Hsent)
    as (t' & Hwf' & _ & ->).
  - rewrite length_take. lia.
  - rewrite length_take, Nat.min_l by lia. by apply Forall2_take.
  - change (reply_effects DECLARING_TOPOLOGY) with [@TimerReset _ _ X].
    rewrite concat_replicate_singleton, length_take, Nat.min_l in * by lia. split; [done |].
    intros m later Hm Hno Hl. rewrite (drop_S _ _ _ Hreq) in Hwf'.
    destruct (reply_refused hp c t' m req _ (opening_effects (topology_requests hp (d_topology c)) ++ replicate k TimerReset)
                Hwf' Hm Hno) as (cb & n & ->).
    change (list_fmap _ _ AM_Method later) with (AM_Method <$> later). rewrite closing_ignores_replies by done.
    split_and!; [done | done |]. exists n. cbn [c_trace progress_of]. by rewrite app_assoc.
Qed.

Lemma update_starts hp (c : Channel D X) u f :
  d_state c = READY → (d_topologyTransformer c).1 = None → d_updateQueue c = [] →
  forallb (λ x, bool_decide (is_Some (update_request hp x))) u = true →
  omap (update_request hp) u ≠ [] →
  Channel_updateTopology hp u f c
  = progress_of (set_updateQueue [(u, f)] c) READY
      (Some (Transformer_sent (TopologyTransformer_makeUpdate hp u)), TC_future f)
      ((λ m, AsyncWrite m NoopWriteHandler) <$> omap (update_request hp) u).
Proof using.
  intros Hs Ht Hq Ha Hne. pose proof (makeUpdate_collects hp u) as Hc. rewrite Ha in Hc.
  unfold Channel_updateTopology. simpl. destruct (d_topologyTransformer c) as [t cb]. simpl in Ht. subst t.
  unfold Channel_sendNextUpdate. simpl. rewrite Hq. simpl.
  unfold Transformer_hasError. rewrite (proj2 (proj2 (proj2 Hc))). simpl.
  rewrite (collects_isDone _ _ _ Hc), bool_decide_eq_false_2 by done.
  rewrite (Transformer_drain_spec _ _ _ Hc). unfold progress_of, set_transformer, emits. simpl.
  by rewrite Hs.
Qed.

(** A topology update on a ready channel: its requests are written in order; when
    the broker confirmed all of them, and not before, the update is merged into
    the topology that later reconnections declare, the future is resolved with
    success and the channel is free for the next update; the channel stays
    ready throughout. *)
Theorem topology_update_applied hp (c : Channel D X) u f replies :
  d_state c = READY → (d_topologyTransformer c).1 = None → d_updateQueue c = [] →
  forallb (λ x, bool_decide (is_Some (update_request hp x))) u = true →
  omap (update_request hp) u ≠ [] →
  Forall2 (λ req m, confirms req (AM_Method m) = true) (omap (update_request hp) u) replies →
  let writes := (λ m, AsyncWrite m NoopWriteHandler : Effect X) <$> omap (update_request hp) u in
  let c' := receives hp (AM_Method <$> replies) (Channel_updateTopology hp u f c) in
  (d_state c' = READY ∧ d_topology c' = TopologyMerger_merge hp (d_topology c) u ∧
   d_updateQueue c' = [] ∧ (d_topologyTransformer c').1 = None ∧
   c_trace c' = c_trace c ++ writes ++ [FutureSet f true]) ∧
  ∀ k, k < length replies →
    let c'' := receives hp (AM_Method <$> take k replies) (Channel_updateTopology hp u f c) in
    d_state c'' = READY ∧ d_topology c'' = d_topology c ∧ c_trace c'' = c_trace c ++ writes.
Proof using.
  intros Hs Ht Hq Ha Hne HF. cbv zeta. pose proof (makeUpdate_collects hp u) as Hc. rewrite Ha in Hc.
  destruct (sent_wf _ _ _ Hc) as [Hwf Hsent]. rewrite (update_starts hp c u f Hs Ht Hq Ha Hne).
  pose proof (Forall2_length _ _ _ HF) as Hlen.
  assert (∀ n, concat (replicate n (reply_effects (X := X) READY)) = []) as Hnil
    by (intros n; by induction n).
  split.
  - destruct (replies_split hp (set_updateQueue [(u, f)] c) READY (TC_future f) _ _
                ((λ m, AsyncWrite m NoopWriteHandler) <$> omap (update_request hp) u) _
                eq_refl Hne Hwf Hsent HF) as (t1 & r & m & Hwf1 & Hs1 & Hcf & ->).
    rewrite Hnil. destruct (reply_completes hp (set_updateQueue [(u, f)] c) READY t1 m (TC_future f) r
                ((λ m, AsyncWrite m NoopWriteHandler) <$> omap (update_request hp) u ++ [])
                eq_refl Hwf1 Hs1 Hcf ltac:(by right)) as (t2 & Hr).
    rewrite app_nil_r in *. rewrite Hr. simpl. rewrite !app_nil_r, <- !app_assoc. done.
  - intros k Hk.
    destruct (replies_progress hp (set_updateQueue [(u, f)] c) READY (TC_future f) (take k replies) _ _
                ((λ m, AsyncWrite m NoopWriteHandler) <$> omap (update_request hp) u) eq_refl Hwf Hsent)
      as (t' & _ & _ & ->).
    + rewrite length_take. lia.
    + rewrite length_take, Nat.min_l by lia. by apply Forall2_take.
    + rewrite Hnil, app_nil_r. done.
Qed.

(** A reply the transformer refuses while the topology is declared makes the
    channel write [channel.close] twice: once in [processTopologyMethod], and once
    more in [topologyDeclared], which it calls with the error. *)
Theorem refused_topology_closes_twice hp c t t' method :
  d_state c = DECLARING_TOPOLOGY → d_topologyTransformer c = (Some t, TC_declared) →
  Transformer_processReplyMessage (AM_Method method) t = (false, t') →
  let close := AsyncWrite (ChannelMessage (ChannelMethod_Close
                 (mkChannelClose CHANNEL_ERROR text_declaring NO_CLASS NO_METHOD))) OnWriteComplete in
  c_trace (Channel_processTopologyMethod hp method c) = c_trace c ++ [TimerReset; close; close] ∧
  d_state (Channel_processTopologyMethod hp method c) = CHANNEL_CLOSE_SENT.
Proof using.
  intros Hs Ht Hp. unfold Channel_processTopologyMethod. simpl. rewrite Hs, Ht. simpl. rewrite Hp. simpl.
  unfold call_topologyCallback. simpl. rewrite Ht. simpl. by rewrite <- !app_assoc.
Qed.

Context {HL : ChannelHooksLaws H}.

(** [gracefulClose] is final. Whatever the application, the broker, the
    connection and the event loop do afterwards, in any order, the channel stays
    marked as closing for good and never again writes [channel.open], for
    every derived class that keeps to its interface. *)
Theorem gracefulClose_final c ops :
  let c' := fold_left (λ c op, channel_op op c) ops (Channel_gracefulClose c) in
  d_permanentlyClosing c' = true ∧
  ∃ es, c_trace c' = c_trace (Channel_gracefulClose c) ++ es ∧
        Forall (λ e, is_open_write e = false) es.
Proof using HL.
  simpl. assert (d_permanentlyClosing (Channel_gracefulClose c) = true) as Hp.
  { unfold Channel_gracefulClose. by case_match. }
  revert Hp. generalize (Channel_gracefulClose c). induction ops as [| op ops IH]; intros c' Hp; simpl.
  - split; [done |]. exists []. by rewrite app_nil_r.
  - destruct (channel_op_closed _ quiet_closed op c' Hp) as [Hp' (es1 & He1 & H1)].
    destruct (IH (channel_op op c') Hp') as [Hp'' (es2 & He2 & H2)].
    split; [done |]. exists (es1 ++ es2). rewrite He2, He1, app_assoc. split; [done |].
    by apply Forall_app.
Qed.

(** An update that cannot be sent blocks the channel. If the update at the front
    of the queue refers to a queue or exchange that was destroyed, then every time
    the channel is reopened, with its topology confirmed, it closes itself again
    and reports the failure of the same update again; the update stays in the
    queue, so this repeats after every reconnection. *)
Theorem failed_update_closes_every_reopening hp c u f queue replies :
  d_state c = CLOSED → d_permanentlyClosing c = false → topology_alive hp (d_topology c) = true →
  Forall2 (λ req m, confirms req (AM_Method m) = true) (topology_requests hp (d_topology c)) replies →
  d_updateQueue c = (u, f) :: queue →
  Exists (λ x, update_request hp x = None) u →
  let c' := receives hp (ChannelMessage (ChannelMethod_OpenOk mkChannelOpenOk) ::
                           (AM_Method <$> replies)) (Channel_open c) in
  d_state c' = CHANNEL_CLOSE_SENT ∧ d_updateQueue c' = d_updateQueue c ∧
  ∃ es, c_trace c' = c_trace c ++ es ++
    [AsyncWrite (ChannelMessage (ChannelMethod_Close
       (mkChannelClose CHANNEL_ERROR text_updating NO_CLASS NO_METHOD))) OnWriteComplete;
     FutureSet f false].
Proof using HL.
  intros Hs Hp Ha HF Hq Hex. cbv zeta.
  destruct (open_sequence hp c replies Hs Hp Ha HF) as (t & c1 & -> & Hc1).
  pose proof (onOpen_frame (opened hp c t)) as Hfr.
  assert (d_updateQueue c1 = (u, f) :: queue ∧ ∃ es, c_trace c1 = c_trace c ++ es) as [Hq1 (es & Htr)].
  { pose proof (bf_updateQueue _ _ Hfr) as Hbq. destruct (bf_trace _ _ Hfr) as (es & Hes & _).
    destruct Hc1 as [-> | ->]; simpl; rewrite ?Hbq; (split; [done |]); rewrite Hes; simpl;
      rewrite <- !app_assoc; eauto. }
  unfold Channel_sendNextUpdate. rewrite Hq1. simpl.
  destruct (makeUpdate_collects hp u) as (_ & _ & _ & Herr). unfold Transformer_hasError. rewrite Herr.
  assert (forallb (λ x, bool_decide (is_Some (update_request hp x))) u = false) as ->.
  { apply not_true_iff_false. rewrite forallb_forall. intros Hall.
    apply Exists_exists in Hex as (x & Hx & Hxn). apply list_elem_of_In, Hall in Hx.
    rewrite Hxn in Hx. by apply bool_decide_eq_true in Hx as []. }
  simpl. split; [done |]. split; [by rewrite Hq1, Hq |]. exists es. rewrite Htr.
  by rewrite <- !app_assoc.
Qed.
End Theorems.

(** *** Channels only add to their trace *)

Section Traces.
Context {E : EpochUtil} {G : GuidUtil} {D X : Type} {H : ChannelHooks D X} {HL : ChannelHooksLaws H}.

Definition trace_grows (c c' : Channel D X) : Prop := ∃ es, c_trace c' = c_trace c ++ es.

#[global] Instance trace_grows_preorder : PreOrder trace_grows.
Proof using.
  split; [intros c; exists []; by rewrite app_nil_r |].
  intros c1 c2 c3 [es He] [es' He']. exists (es ++ es'). by rewrite He', He, app_assoc.
Qed.

Lemma base_frame_grows c c' : base_frame c c' → trace_grows c c'.
Proof using. intros [_ _ _ _ _ (es & He & _)]. by exists es. Qed.

Lemma trace_grows_same c c' : c_trace c' = c_trace c → trace_grows c c'.
Proof using. intros He. exists []. by rewrite He, app_nil_r. Qed.

Lemma trace_grows_emit e (c : Channel D X) : trace_grows c (emit e c).
Proof using. by exists [e]. Qed.

Lemma trace_grows_updateState s (c : Channel D X) : trace_grows c (Channel_updateState s c).
Proof using. auto using base_frame_grows with channel. Qed.

Lemma trace_grows_closed : channel_closed trace_grows.
Proof using HL.
  split; intros; try (by apply trace_grows_same); try apply _;
    try (auto using base_frame_grows, trace_grows_emit with channel; fail).
  - unfold Channel_open, Channel_writeState. case_match; [done |].
    etrans; [apply trace_grows_emit |]. etrans; [apply trace_grows_updateState |].
    apply trace_grows_emit.
  - unfold Channel_reset. cbn [snd]. etrans; [| apply trace_grows_emit].
    etrans; [apply (trace_grows_updateState CLOSED) |].
    etrans; [apply base_frame_grows, processFailures_frame |].
    etrans; [apply base_frame_grows, onReset_frame |]. destruct b; [apply trace_grows_emit | done].
Qed.
End Traces.

(** *** The base class's own virtual functions

    [onOpen], [onReset], [onFlowAllowed], [processConfirmMethod] and [processMessage] as
    [Channel] defines them; the pure virtual ones do nothing here. *)

Section Defaults.
Context {E : EpochUtil} {G : GuidUtil} {D X : Type}.

Definition default_ChannelHooks : ChannelHooks D X := {|
  processBasicMethod _ c := c;
  processConfirmMethod _ c := c;
  processMessage _ c := c;
  onOpen := Channel_ready;
  onReset c := c;
  onFlowAllowed c := c;
  processFailures c := c;
|}.

#[export] Instance default_ChannelHooksLaws : ChannelHooksLaws default_ChannelHooks.
Proof using. split; intros; simpl; by auto with channel. Qed.
End Defaults.

(** *** Witnesses *)

Section Witnesses.
#[local] Existing Instances byte_GuidUtil.
#[local] Instance sample_hooks : ChannelHooks unit unit := default_ChannelHooks.
#[local] Instance sample_hooksLaws : ChannelHooksLaws sample_hooks := default_ChannelHooksLaws.

Definition sample_queue : rmqt_Queue := mk_rmqt_Queue (str "jobs") false false true [].
Definition sample_exchange : rmqt_Exchange :=
  mk_rmqt_Exchange (str "work") (str "topic") false false true false [].
Definition sample_heap : Heap :=
  mkHeap {[1%positive := sample_queue]} {[2%positive := sample_exchange]}.
Definition sample_binding : rmqt_QueueBinding :=
  mk_rmqt_QueueBinding 2%positive 1%positive (str "key") [].
Definition sample_topology : Topology :=
  mkTopology [sample_queue] [sample_exchange] [sample_binding] [].
Definition sample_replies : list Method :=
  [Method_Queue (QueueMethod_DeclareOk (mkQueueDeclareOk (str "jobs") 0 0));
   Method_Exchange (ExchangeMethod_DeclareOk mkExchangeDeclareOk);
   Method_Queue (QueueMethod_BindOk mkQueueBindOk)].
Definition sample_channel : Channel unit unit := Channel_make sample_topology tt.
Definition sample_update : TopologyUpdate :=
  [Update_QueueBinding (mk_rmqt_QueueBinding 2%positive 1%positive (str "other") [])].
Definition sample_ready : Channel unit unit := set_state READY sample_channel.

(** Two replies confirm their requests; then the broker answers with the wrong method. *)
Lemma channel_opens_when_topology_confirmed_witness :
  let c := receives sample_heap
    (ChannelMessage (ChannelMethod_OpenOk mkChannelOpenOk) :: (AM_Method <$> take 2 sample_replies))
    (Channel_open sample_channel) in
  d_state c = DECLARING_TOPOLOGY ∧
  d_state (receives sample_heap (AM_Method <$> Method_Queue (QueueMethod_UnbindOk mkQueueUnbindOk) :: drop 2 sample_replies) c)
  = CHANNEL_CLOSE_SENT.
Proof.
  destruct (channel_opens_when_topology_confirmed sample_heap sample_channel sample_replies) as [_ H];
    [reflexivity | reflexivity | vm_compute; reflexivity | repeat constructor |].
  assert (∃ req, topology_requests sample_heap (d_topology sample_channel) !! 2 = Some req ∧
    confirms req (AM_Method (Method_Queue (QueueMethod_UnbindOk mkQueueUnbindOk))) = false) as (req & Hreq & Hc)
    by (eexists; split; reflexivity).
  destruct (H 2 req Hreq) as [H1 H2]. cbv zeta. split; [exact (proj1 H1) |].
  refine (proj1 (H2 _ _ _ _ _)); [reflexivity | exact Hc | repeat constructor].
Defined.

Lemma topology_update_applied_witness :
  d_topology (receives sample_heap
    (AM_Method <$> [Method_Queue (QueueMethod_BindOk mkQueueBindOk)])
    (Channel_updateTopology sample_heap sample_update 7 sample_ready))
  = TopologyMerger_merge sample_heap sample_topology sample_update.
Proof.
  refine (proj1 (proj2 (proj1 (topology_update_applied sample_heap sample_ready sample_update 7
    [Method_Queue (QueueMethod_BindOk mkQueueBindOk)] _ _ _ _ _ _)))).
  - reflexivity.
  - reflexivity.
  - reflexivity.
  - vm_compute. reflexivity.
  - intros Hn%(f_equal length). vm_compute in Hn. discriminate.
  - repeat constructor.
Defined.

Lemma refused_topology_closes_twice_witness :
  length (c_trace (Channel_processTopologyMethod sample_heap
    (Method_Queue (QueueMethod_BindOk mkQueueBindOk))
    (set_state DECLARING_TOPOLOGY (set_transformer
       (Some (TopologyTransformer_make sample_heap sample_topology), TC_declared) sample_channel)))) = 3.
Proof.
  destruct (refused_topology_closes_twice sample_heap
    (set_state DECLARING_TOPOLOGY (set_transformer
       (Some (TopologyTransformer_make sample_heap sample_topology), TC_declared) sample_channel))
    (TopologyTransformer_make sample_heap sample_topology)
    (Transformer_processReplyMessage (AM_Method (Method_Queue (QueueMethod_BindOk mkQueueBindOk)))
       (TopologyTransformer_make sample_heap sample_topology)).2
    (Method_Queue (QueueMethod_BindOk mkQueueBindOk))) as [-> _];
    [reflexivity | reflexivity | | reflexivity].
  apply injective_projections; [vm_compute; reflexivity | reflexivity].
Defined.

Lemma gracefulClose_final_witness :
  d_permanentlyClosing (fold_left (λ c op, channel_op op c)
    [Op_open; Op_onWriteComplete; Op_retry] (Channel_gracefulClose sample_ready)) = true.
Proof.
  exact (proj1 (gracefulClose_final sample_ready [Op_open; Op_onWriteComplete; Op_retry])).
Defined.

Lemma failed_update_closes_every_reopening_witness :
  d_state (receives sample_heap
    (ChannelMessage (ChannelMethod_OpenOk mkChannelOpenOk) :: (AM_Method <$> sample_replies))
    (Channel_open (set_updateQueue
       [([Update_QueueBinding (mk_rmqt_QueueBinding 2%positive 9%positive [] [])], 7)]
       sample_channel))) = CHANNEL_CLOSE_SENT.
Proof.
  eapply (failed_update_closes_every_reopening sample_heap (set_updateQueue
       [([Update_QueueBinding (mk_rmqt_QueueBinding 2%positive 9%positive [] [])], 7)]
       sample_channel) _ _ _ sample_replies);
    [reflexivity | reflexivity | vm_compute; reflexivity | repeat constructor | reflexivity |].
  apply Exists_exists. eexists. split; [left | reflexivity].
Defined.
End Witnesses.
