(* ===== verification/SendChannel.v ===== *)
(** * SendChannel: publishing with confirms

    Models [rmqamqp::SendChannel] (rmqamqp_sendchannel.cpp, rmqamqp_sendchannel.h) on
    top of [Channel], with [rmqamqp::MessageWithRoute] and [rmqt::ConfirmResponse].
    The derived members are [SendState], the virtual functions the instance
    [SendChannel_hooks], and a call of the confirm callback is a [Callback] effect
    with the message, the routing key and the response. [d_confirmCallback] is
    modelled by whether it is set; calling it unset is a [Fault].

    [clock t] is the time [CurrentTime::utc] returns when the message with delivery
    tag [t] is stored; it only matters for latency metrics. Delivery tags are
    64-bit. *)

From Stdlib Require Import ZArith Lia Sorted String Strings.Byte.
From stdpp Require Import base tactics list gmap.
From S2P Require Import Prelude Constants Wire FieldValue Props Methods Method Message.
From S2P Require Import Framer MessageStore Topology Channel.

(** [rmqt::Mandatory::Value] *)
Inductive Mandatory := DISCARD_UNROUTABLE | RETURN_UNROUTABLE.

(** [rmqt::ConfirmResponse] *)
Inductive ConfirmStatus := CR_ACK | CR_REJECT | CR_RETURN.

Record ConfirmResponse := mkConfirmResponse {
  cr_status : ConfirmStatus;
  cr_code : option Z;
  cr_reason : option bytes;
}.

Definition ConfirmResponse_status (s : ConfirmStatus) : ConfirmResponse := mkConfirmResponse s None None.
Definition ConfirmResponse_return (code : Z) (reason : bytes) : ConfirmResponse :=
  mkConfirmResponse CR_RETURN (Some code) (Some reason).

Section SendChannel.
Context {E : EpochUtil} {G : GuidUtil}.

Record MessageWithRoute := mkMessageWithRoute {
  mw_message : Message;
  mw_routingKey : bytes;
  mw_mandatory : Mandatory;
}.

#[global] Instance MessageWithRoute_guid : HasGuid MessageWithRoute := λ m, d_guid (mw_message m).

Record SendState := mkSendState {
  d_messageStore : MessageStore MessageWithRoute;
  d_confirmCallback : bool;
  d_pendingMessages : list MessageWithRoute;
  d_exchangeName : bytes;
  d_deliveryCounter : Z;
  d_basicReturn : option BasicReturn;
  d_returnedTagResponse : gmap Z ConfirmResponse;
}.

(** A call of the confirm callback. *)
Record Confirmation := mkConfirmation {
  cf_message : Message;
  cf_routingKey : bytes;
  cf_response : ConfirmResponse;
}.

Abbreviation SendChannel := (Channel SendState Confirmation).

Definition SendChannel_make (tp : Topology) (exchangeName : bytes) : SendChannel :=
  Channel_make tp (mkSendState MessageStore_make false [] exchangeName 1 None ∅).

(** *** Member assignments *)

Definition set_messageStore (s : MessageStore MessageWithRoute) (d : SendState) : SendState :=
  mkSendState s (d_confirmCallback d) (d_pendingMessages d) (d_exchangeName d) (d_deliveryCounter d)
    (d_basicReturn d) (d_returnedTagResponse d).

Definition set_confirmCallback (d : SendState) : SendState :=
  mkSendState (d_messageStore d) true (d_pendingMessages d) (d_exchangeName d) (d_deliveryCounter d)
    (d_basicReturn d) (d_returnedTagResponse d).

Definition set_pending (l : list MessageWithRoute) (d : SendState) : SendState :=
  mkSendState (d_messageStore d) (d_confirmCallback d) l (d_exchangeName d) (d_deliveryCounter d)
    (d_basicReturn d) (d_returnedTagResponse d).

Definition set_deliveryCounter (n : Z) (d : SendState) : SendState :=
  mkSendState (d_messageStore d) (d_confirmCallback d) (d_pendingMessages d) (d_exchangeName d) n
    (d_basicReturn d) (d_returnedTagResponse d).

Definition set_basicReturn (r : option BasicReturn) (d : SendState) : SendState :=
  mkSendState (d_messageStore d) (d_confirmCallback d) (d_pendingMessages d) (d_exchangeName d)
    (d_deliveryCounter d) r (d_returnedTagResponse d).

Definition set_returnedTags (r : gmap Z ConfirmResponse) (d : SendState) : SendState :=
  mkSendState (d_messageStore d) (d_confirmCallback d) (d_pendingMessages d) (d_exchangeName d)
    (d_deliveryCounter d) (d_basicReturn d) r.

Definition modify (f : SendState → SendState) (c : SendChannel) : SendChannel :=
  set_derived (f (c_derived c)) c.

(** *** Publishing *)

Definition SendChannel_setCallback (c : SendChannel) : SendChannel := modify set_confirmCallback c.

(** The [basic.publish] of a message. *)
Definition publish_method (exchangeName : bytes) (m : MessageWithRoute) : BasicPublish :=
  mkBasicPublish exchangeName (mw_routingKey m)
    (match mw_mandatory m with RETURN_UNROUTABLE => true | DISCARD_UNROUTABLE => false end) false.

Definition SendChannel_readyToPublishMsg (clock : Z → Z) (m : MessageWithRoute) (c : SendChannel)
  : SendChannel :=
  let d := c_derived c in
  let tag := d_deliveryCounter d in
  let (inserted, store) := MessageStore_insert (clock tag) tag m (d_messageStore d) in
  let d := set_messageStore store d in
  let d := if inserted then set_deliveryCounter (uwrap 64 (tag + 1)) d else d in
  let c := set_derived d c in
  let c := Channel_write (AM_Method (Method_Basic (BasicMethod_Publish
             (publish_method (d_exchangeName d) m)))) c in
  let c := emit (Counter published_messages) c in
  Channel_write (AM_Message (mw_message m)) c.

(** The loop of [publishPendingMessages], on the queue. *)
Fixpoint publishPending_loop (clock : Z → Z) (queue : list MessageWithRoute) (c : SendChannel)
  : SendChannel :=
  match queue with
  | [] => c
  | m :: queue' =>
      let c := SendChannel_readyToPublishMsg clock m c in
      publishPending_loop clock queue'
        (modify (λ d, set_pending (tail (d_pendingMessages d)) d) c)
  end.

Definition SendChannel_publishPendingMessages (clock : Z → Z) (c : SendChannel) : SendChannel :=
  publishPending_loop clock (d_pendingMessages (c_derived c)) c.

Definition SendChannel_publishMessage (clock : Z → Z) (m : MessageWithRoute) (c : SendChannel)
  : SendChannel :=
  if negb (d_confirmCallback (c_derived c)) then emit Fault c
  else
    let c := emit (Counter client_sent_messages) c in
    if bool_decide (d_state c ≠ READY) || negb (d_flow c)
    then modify (λ d, set_pending (d_pendingMessages d ++ [m]) d) c
    else SendChannel_readyToPublishMsg clock m c.

(** *** Virtual functions *)

Definition SendChannel_onReset (c : SendChannel) : SendChannel :=
  modify (λ d, set_basicReturn None (set_deliveryCounter 1 d)) c.

Definition SendChannel_onFlowAllowed (clock : Z → Z) (c : SendChannel) : SendChannel :=
  match d_state c with READY => SendChannel_publishPendingMessages clock c | _ => c end.

(** The loop of [processFailures]. *)
Fixpoint requeue_loop (fuel : nat) (store : MessageStore MessageWithRoute)
  (pending : list MessageWithRoute) : list MessageWithRoute :=
  match fuel with
  | O => pending
  | S fuel' =>
      if Nat.ltb 0 (MessageStore_count store) then
        match MessageStore_remove (MessageStore_oldestTagInStore store) store with
        | (Some (m, _), store') => requeue_loop fuel' store' (pending ++ [m])
        | (None, _) => pending
        end
      else pending
  end.

Definition SendChannel_processFailures (c : SendChannel) : SendChannel :=
  let (this, store) := MessageStore_swap (d_messageStore (c_derived c)) MessageStore_make in
  let pending := requeue_loop (S (MessageStore_count store)) store (d_pendingMessages (c_derived c)) in
  modify (λ d, set_returnedTags ∅ (set_pending pending (set_messageStore this d))) c.

Definition SendChannel_onOpen (c : SendChannel) : SendChannel :=
  Channel_writeState (AM_Method (Method_Confirm (ConfirmMethod_Select (mkConfirmSelect false))))
    AWAITING_REPLY c.

Definition SendChannel_processConfirmMethod (clock : Z → Z) (m : ConfirmMethod) (c : SendChannel)
  : SendChannel :=
  match m with
  | ConfirmMethod_SelectOk _ => SendChannel_publishPendingMessages clock (Channel_ready c)
  | _ => c
  end.

Definition SendChannel_processMessage (m : Message) (c : SendChannel) : SendChannel :=
  match d_basicReturn (c_derived c) with
  | None => Channel_close UNEXPECTED_FRAME (str "Expected BasicReturn") NO_CLASS NO_METHOD c
  | Some br =>
      match MessageStore_lookupGuid (d_guid m) (d_messageStore (c_derived c)) with
      | GuidNotFound =>
          Channel_close NOT_ALLOWED (str "Unknown returned message") NO_CLASS NO_METHOD c
      | GuidFound _ tag =>
          let returned := d_returnedTagResponse (c_derived c) in
          let response := ConfirmResponse_return (BasicReturn_replyCode br) (BasicReturn_replyText br) in
          let returned := match returned !! tag with
                          | Some _ => returned
                          | None => <[tag := response]> returned
                          end in
          modify (λ d, set_basicReturn None (set_returnedTags returned d)) c
      | GuidDangling => emit Fault c
      end
  end.

(** The loop of [callbackMessages]. *)
Fixpoint SendChannel_callbackMessages (confs : list (Entry MessageWithRoute))
  (response : ConfirmResponse) (c : SendChannel) : SendChannel :=
  match confs with
  | [] => c
  | (tag, (m, _)) :: confs' =>
      let actual := default response (d_returnedTagResponse (c_derived c) !! tag) in
      let c := if d_confirmCallback (c_derived c)
               then emit (Callback (mkConfirmation (mw_message m) (mw_routingKey m) actual)) c
               else emit Fault c in
      let c := modify (λ d, set_returnedTags (delete tag (d_returnedTagResponse d)) d) c in
      SendChannel_callbackMessages confs' response c
  end.

Definition SendChannel_processAckNack (multiple : bool) (deliveryTag : Z)
  (response : ConfirmResponse) (c : SendChannel) : SendChannel :=
  let store := d_messageStore (c_derived c) in
  if multiple then
    let (msgs, store') := MessageStore_removeUntil deliveryTag store in
    let c := modify (set_messageStore store') c in
    match msgs with
    | [] => c
    | _ => SendChannel_callbackMessages msgs response c
    end
  else
    match MessageStore_remove deliveryTag store with
    | (Some msgTime, store') =>
        SendChannel_callbackMessages [(deliveryTag, msgTime)] response
          (modify (set_messageStore store') c)
    | (None, store') => modify (set_messageStore store') c
    end.

(** [BasicMethodProcessor] *)
Definition SendChannel_processBasicMethod (m : BasicMethod) (c : SendChannel) : SendChannel :=
  match m with
  | BasicMethod_Nack n =>
      SendChannel_processAckNack (BasicNack_multiple n) (BasicNack_deliveryTag n)
        (ConfirmResponse_status CR_REJECT) c
  | BasicMethod_Ack a =>
      SendChannel_processAckNack (BasicAck_multiple a) (BasicAck_deliveryTag a)
        (ConfirmResponse_status CR_ACK) c
  | BasicMethod_Return r =>
      match d_basicReturn (c_derived c) with
      | Some _ => Channel_close UNEXPECTED_FRAME (str "Expected Content") NO_CLASS NO_METHOD c
      | None => modify (set_basicReturn (Some r)) c
      end
  | _ => c
  end.

#[global] Instance SendChannel_hooks (clock : Z → Z) : ChannelHooks SendState Confirmation := {|
  processBasicMethod := SendChannel_processBasicMethod;
  processConfirmMethod := SendChannel_processConfirmMethod clock;
  processMessage := SendChannel_processMessage;
  onOpen := SendChannel_onOpen;
  onReset := SendChannel_onReset;
  onFlowAllowed := SendChannel_onFlowAllowed clock;
  processFailures := SendChannel_processFailures;
|}.

(** A call of an operation of a send channel. *)
Inductive SendOp :=
| Send_channel (op : ChannelOp)
| Send_publish (m : MessageWithRoute)
| Send_setCallback.

Definition send_op (clock : Z → Z) (op : SendOp) (c : SendChannel) : SendChannel :=
  match op with
  | Send_channel op => channel_op (H := SendChannel_hooks clock) op c
  | Send_publish m => SendChannel_publishMessage clock m c
  | Send_setCallback => SendChannel_setCallback c
  end.

(** *** The virtual functions keep to the interface *)

Lemma readyToPublishMsg_frame clock m c : base_frame c (SendChannel_readyToPublishMsg clock m c).
Proof using.
  unfold SendChannel_readyToPublishMsg.
  destruct (MessageStore_insert _ _ _ _) as [ins store].
  etrans; [apply base_frame_set_derived |].
  etrans; [| by apply base_frame_write]. etrans; [| by apply base_frame_emit].
  by apply base_frame_write.
Qed.

Lemma modify_frame f c : base_frame c (modify f c).
Proof using. apply base_frame_set_derived. Qed.

Lemma publishPending_frame clock c : base_frame c (SendChannel_publishPendingMessages clock c).
Proof using.
  unfold SendChannel_publishPendingMessages. generalize (d_pendingMessages (c_derived c)) as queue.
  intros queue. revert c. induction queue as [| m queue IH]; intros c; simpl; [done |].
  etrans; [apply (readyToPublishMsg_frame clock m) |]. etrans; [| apply IH]. apply modify_frame.
Qed.

Lemma callbackMessages_frame confs response c :
  base_frame c (SendChannel_callbackMessages confs response c).
Proof using.
  revert c. induction confs as [| [tag [m t]] confs IH]; intros c; simpl; [done |].
  etrans; [| apply IH]. etrans; [| apply modify_frame]. case_match; by apply base_frame_emit.
Qed.

Lemma processAckNack_frame multiple tag response c :
  base_frame c (SendChannel_processAckNack multiple tag response c).
Proof using.
  unfold SendChannel_processAckNack. repeat case_match; try apply modify_frame;
    (etrans; [apply modify_frame | apply callbackMessages_frame]).
Qed.

#[global] Instance SendChannel_hooksLaws clock : ChannelHooksLaws (SendChannel_hooks clock).
Proof using.
  split; intros; simpl.
  - destruct m; simpl; try done; try apply processAckNack_frame.
    case_match; [apply base_frame_close | apply modify_frame].
  - destruct m; simpl; try done. etrans; [apply base_frame_ready | apply publishPending_frame].
  - unfold SendChannel_processMessage. repeat case_match; try apply base_frame_close;
      first [apply modify_frame | by apply base_frame_emit].
  - by apply base_frame_writeState.
  - apply modify_frame.
  - unfold SendChannel_onFlowAllowed. case_match; try done. apply publishPending_frame.
  - unfold SendChannel_processFailures. simpl. apply modify_frame.
Qed.

(** ** Specification *)

(** The publications the connection is asked to write since the last reset, as the
    broker reads them: a [basic.publish] whose content follows. The first component
    is a [basic.publish] that still awaits its content; another method in between
    would discard it. *)
Definition wire_step (acc : option BasicPublish * list (BasicPublish * Message))
  (e : Effect Confirmation) : option BasicPublish * list (BasicPublish * Message) :=
  match e with
  | AsyncWrite (AM_Method (Method_Basic (BasicMethod_Publish p))) _ => (Some p, acc.2)
  | AsyncWrite (AM_Message m) _ =>
      match acc.1 with Some p => (None, acc.2 ++ [(p, m)]) | None => acc end
  | AsyncWrite _ _ => (None, acc.2)
  | Counter channel_disconnected => (None, [])
  | _ => acc
  end.

Definition wire_state (es : list (Effect Confirmation))
  : option BasicPublish * list (BasicPublish * Message) := fold_left wire_step es (None, []).

Definition publications (c : SendChannel) : list (BasicPublish * Message) := (wire_state (c_trace c)).2.

(** The confirmations handed to the application. *)
Definition confirmations (es : list (Effect Confirmation)) : list Confirmation :=
  omap (λ e, match e with Callback cf => Some cf | _ => None end) es.

Definition route_of (m : MessageWithRoute) : Message * bytes := (mw_message m, mw_routingKey m).

Definition confirmed (c : SendChannel) : list (Message * bytes) :=
  (λ cf, (cf_message cf, cf_routingKey cf)) <$> confirmations (c_trace c).

(** The messages in flight, in the order of their tags. *)
Definition stored (c : SendChannel) : list MessageWithRoute :=
  (λ e, e.2.1) <$> d_deliveryTagToMsg (d_messageStore (c_derived c)).

(** The channel's invariant; [sent] are the messages passed to [publishMessage],
    [extra] those a function has in its hands at the moment, and [k] the number of
    those it has yet to publish. *)
Record send_inv (k : nat) (extra sent : list MessageWithRoute) (c : SendChannel) : Prop := {
  si_bound : (Z.of_nat (length sent) < 2 ^ 64 - 1)%Z;
  si_wf : store_wf (d_messageStore (c_derived c));
  si_latest : d_latestTagTilNow (d_messageStore (c_derived c)) = (d_deliveryCounter (c_derived c) - 1)%Z;
  si_tags e : e ∈ d_deliveryTagToMsg (d_messageStore (c_derived c)) → (1 ≤ e.1)%Z;
  si_counter : (1 ≤ d_deliveryCounter (c_derived c))%Z;
  si_total : (d_deliveryCounter (c_derived c) - 1
              + Z.of_nat (length (d_pendingMessages (c_derived c)) + k) ≤ Z.of_nat (length sent))%Z;
  si_conserved : route_of <$> sent ≡ₚ
    confirmed c ++ (route_of <$> stored c) ++ (route_of <$> d_pendingMessages (c_derived c)) ++
    (route_of <$> extra);
  si_wire_state : (wire_state (c_trace c)).1 = None;
  si_wire_len : Z.of_nat (length (publications c)) = (d_deliveryCounter (c_derived c) - 1)%Z;
  si_wire t m d : (t, (m, d)) ∈ d_deliveryTagToMsg (d_messageStore (c_derived c)) →
    publications c !! Z.to_nat (t - 1)
    = Some (publish_method (d_exchangeName (c_derived c)) m, mw_message m);
  si_callback : d_confirmCallback (c_derived c) = false → sent = [];
  si_fault : Fault ∉ c_trace c;
}.

Lemma wire_state_app es es' : wire_state (es ++ es') = fold_left wire_step es' (wire_state es).
Proof using. apply fold_left_app. Qed.

Lemma confirmations_app es es' : confirmations (es ++ es') = confirmations es ++ confirmations es'.
Proof using. apply omap_app. Qed.

(** Effects the invariant does not depend on. *)
Definition neutral (e : Effect Confirmation) : bool :=
  match e with
  | AsyncWrite (AM_Method (Method_Basic (BasicMethod_Publish _))) _ | AsyncWrite (AM_Message _) _
  | Counter channel_disconnected | Callback _ | Fault => false
  | _ => true
  end.

Lemma base_effect_neutral e : base_effect e = true → neutral e = true.
Proof using.
  unfold base_effect, neutral. repeat case_match; done.
Qed.

Lemma neutral_effects es acc :
  Forall (λ e, neutral e = true) es → acc.1 = None →
  fold_left wire_step es acc = acc ∧ confirmations es = [] ∧ Fault ∉ es.
Proof using.
  intros Hes. revert acc. induction Hes as [| e es He Hes IH]; intros [p l] Hp; simpl in *; subst.
  - split; [done |]. split; [done | set_solver].
  - assert (wire_step (None, l) e = (None, l)) as ->
      by (unfold neutral in He; unfold wire_step; repeat case_match; done).
    destruct (IH (None, l) eq_refl) as (-> & Hc & Hf). split; [done |].
    split; [destruct e; done |]. rewrite not_elem_of_cons. split; [by intros <- | done].
Qed.

Lemma inv_neutral k extra sent c c' es :
  send_inv k extra sent c → c_derived c' = c_derived c → c_trace c' = c_trace c ++ es →
  Forall (λ e, neutral e = true) es → send_inv k extra sent c'.
Proof using.
  intros Hi Hd Ht Hes.
  destruct (neutral_effects es (wire_state (c_trace c)) Hes (si_wire_state _ _ _ _ Hi)) as (Hw & Hc & Hf).
  assert (publications c' = publications c) as Hp
    by (unfold publications; by rewrite Ht, wire_state_app, Hw).
  assert (confirmed c' = confirmed c) as Hcf
    by (unfold confirmed; by rewrite Ht, confirmations_app, Hc, app_nil_r).
  split; unfold stored; rewrite ?Hd, ?Hp, ?Hcf; try apply Hi.
  - rewrite Ht, wire_state_app, Hw. apply Hi.
  - rewrite Ht, elem_of_app. intros [? | ?]; [by apply (si_fault _ _ _ _ Hi) | done].
Qed.

Lemma inv_emit k extra sent c e :
  neutral e = true → send_inv k extra sent c → send_inv k extra sent (emit e c).
Proof using. intros He Hi. eapply inv_neutral; [done.. |]. by constructor. Qed.

(** Assignments to members the invariant does not depend on. *)
Lemma inv_same k extra sent c c' :
  c_derived c' = c_derived c → c_trace c' = c_trace c →
  send_inv k extra sent c → send_inv k extra sent c'.
Proof using.
  intros Hd Ht Hi. eapply (inv_neutral _ _ _ _ _ []); [done.. | by rewrite app_nil_r | constructor].
Qed.

Lemma inv_modify k extra sent f c :
  (∀ d, d_messageStore (f d) = d_messageStore d ∧ d_confirmCallback (f d) = d_confirmCallback d ∧
        d_pendingMessages (f d) = d_pendingMessages d ∧ d_exchangeName (f d) = d_exchangeName d ∧
        d_deliveryCounter (f d) = d_deliveryCounter d) →
  send_inv k extra sent c → send_inv k extra sent (modify f c).
Proof using.
  intros Hf Hi. destruct (Hf (c_derived c)) as (Hs & Hcb & Hp & He & Hc).
  split; unfold publications, confirmed, stored in *; simpl; rewrite ?Hs, ?Hcb, ?Hp, ?He, ?Hc; apply Hi.
Qed.

(** *** Publishing *)

Lemma readyToPublishMsg_inv clock m extra k sent c :
  send_inv (S k) (m :: extra) sent c →
  send_inv k extra sent (SendChannel_readyToPublishMsg clock m c).
Proof using.
  intros Hi. unfold SendChannel_readyToPublishMsg.
  pose proof (si_latest _ _ _ _ Hi) as Hl. pose proof (si_total _ _ _ _ Hi) as Ht.
  pose proof (si_bound _ _ _ _ Hi) as Hb. pose proof (si_counter _ _ _ _ Hi) as H1.
  set (d := c_derived c) in *. set (tag := d_deliveryCounter d) in *.
  destruct (insert_newest (clock tag) tag m (d_messageStore d) (si_wf _ _ _ _ Hi)) as [Hins Happ];
    [lia |].
  pose proof (MessageStore_insert_wf (clock tag) tag m _ (si_wf _ _ _ _ Hi)) as Hwf.
  assert (d_latestTagTilNow (MessageStore_insert (clock tag) tag m (d_messageStore d)).2 = tag) as Hlat.
  { unfold MessageStore_insert in *. destruct (map_emplace _ _ _); [simpl; lia | done]. }
  fold d in Hwf. destruct (MessageStore_insert _ _ _ _) as [ins store]. simpl in Hins, Happ, Hwf, Hlat. subst ins.
  rewrite (uwrap_small 64 (tag + 1)) by (apply u_in_iff; lia).
  set (c' := Channel_write _ _).
  assert (c_trace c' = c_trace c ++
    [AsyncWrite (AM_Method (Method_Basic (BasicMethod_Publish (publish_method (d_exchangeName d) m))))
       NoopWriteHandler; Counter published_messages; AsyncWrite (AM_Message (mw_message m)) NoopWriteHandler])
    as Htr by (unfold c'; simpl; by rewrite <- !app_assoc).
  assert (wire_state (c_trace c')
          = (None, publications c ++ [(publish_method (d_exchangeName d) m, mw_message m)])) as Hws.
  { rewrite Htr, wire_state_app. done. }
  assert (publications c' = publications c ++ [(publish_method (d_exchangeName d) m, mw_message m)]) as Hp
    by (unfold publications; by rewrite Hws).
  assert (confirmed c' = confirmed c) as Hcf
    by (unfold confirmed; by rewrite Htr, confirmations_app, app_nil_r).
  assert (Fault ∉ c_trace c') as Hflt
    by (rewrite Htr, elem_of_app; intros [Hf | Hf]; [by apply (si_fault _ _ _ _ Hi) | set_solver]).
  pose proof (si_wire_len _ _ _ _ Hi) as Hwl.
  split; unfold stored; rewrite ?Hp, ?Hcf, ?Hws; simpl; rewrite ?Happ; try (by apply Hi).
  - done.
  - rewrite Hlat. fold tag. lia.
  - intros e [He | ->%list_elem_of_singleton]%elem_of_app; [by apply (si_tags _ _ _ _ Hi) | done].
  - fold d tag. lia.
  - fold d tag. lia.
  - rewrite (si_conserved _ _ _ _ Hi). unfold stored. fold d.
    rewrite !fmap_app, !fmap_cons, !fmap_nil. solve_Permutation.
  - done.
  - rewrite length_app, Nat2Z.inj_add, Hwl. fold d tag. simpl. lia.
  - intros t m' d' [Hin | Hin]%elem_of_app.
    + apply lookup_app_l_Some. by apply (si_wire _ _ _ _ Hi) in Hin.
    + apply list_elem_of_singleton in Hin. injection Hin as -> -> ->.
      rewrite lookup_app_r by (unfold tag, d; lia).
      replace (Z.to_nat (tag - 1) - length (publications c)) with 0 by (unfold tag, d; lia). done.
  - exact Hflt.
Qed.

(** Taking the first pending message in hand, and adding a message. *)
Lemma inv_pop m queue extra k sent c :
  d_pendingMessages (c_derived c) = m :: queue → send_inv k extra sent c →
  send_inv (S k) (m :: extra) sent (modify (λ d, set_pending (tail (d_pendingMessages d)) d) c).
Proof using.
  intros Hq Hi. pose proof (si_total _ _ _ _ Hi) as Ht.
  split; unfold publications, confirmed, stored in *; simpl; rewrite ?Hq; try apply Hi.
  - rewrite Hq in Ht. simpl in *. lia.
  - rewrite (si_conserved _ _ _ _ Hi). unfold confirmed, stored. rewrite Hq, !fmap_cons. simpl.
    solve_Permutation.
Qed.

Lemma publishPending_inv clock queue : ∀ k extra sent c,
  d_pendingMessages (c_derived c) = queue → send_inv k extra sent c →
  send_inv k extra sent (publishPending_loop clock queue c).
Proof using.
  induction queue as [| m queue IH]; intros k extra sent c Hq Hi; simpl; [done |].
  assert (modify (λ d, set_pending (tail (d_pendingMessages d)) d)
            (SendChannel_readyToPublishMsg clock m c)
          = SendChannel_readyToPublishMsg clock m
              (modify (λ d, set_pending (tail (d_pendingMessages d)) d) c)) as ->.
  { unfold SendChannel_readyToPublishMsg. simpl. by destruct (MessageStore_insert _ _ _ _) as [[] ?]. }
  apply IH.
  - unfold SendChannel_readyToPublishMsg. simpl.
    destruct (MessageStore_insert _ _ _ _) as [[] ?]; simpl; by rewrite Hq.
  - apply readyToPublishMsg_inv. by apply (inv_pop m queue).
Qed.

Lemma publishPendingMessages_inv clock k extra sent c :
  send_inv k extra sent c → send_inv k extra sent (SendChannel_publishPendingMessages clock c).
Proof using. by apply publishPending_inv. Qed.

Lemma inv_sent m extra sent k c :
  d_confirmCallback (c_derived c) = true → (Z.of_nat (length sent + 1) < 2 ^ 64 - 1)%Z →
  send_inv k extra sent c → send_inv (S k) (m :: extra) (sent ++ [m]) c.
Proof using.
  intros Hcb Hb Hi. pose proof (si_total _ _ _ _ Hi) as Ht.
  split; try apply Hi; rewrite ?length_app; simpl; [lia | lia | |].
  - rewrite fmap_app, (si_conserved _ _ _ _ Hi). simpl. solve_Permutation.
  - congruence.
Qed.

Lemma inv_push m extra sent k c :
  send_inv (S k) (m :: extra) sent c →
  send_inv k extra sent (modify (λ d, set_pending (d_pendingMessages d ++ [m]) d) c).
Proof using.
  intros Hi. pose proof (si_total _ _ _ _ Hi) as Ht.
  split; unfold publications, confirmed, stored in *; simpl; try apply Hi.
  - rewrite length_app. simpl. lia.
  - rewrite (si_conserved _ _ _ _ Hi). unfold confirmed, stored. rewrite fmap_app, !fmap_cons. simpl.
    solve_Permutation.
Qed.

Lemma publishMessage_inv clock m sent c :
  d_confirmCallback (c_derived c) = true → (Z.of_nat (length sent + 1) < 2 ^ 64 - 1)%Z →
  send_inv 0 [] sent c → send_inv 0 [] (sent ++ [m]) (SendChannel_publishMessage clock m c).
Proof using.
  intros Hcb Hb Hi. unfold SendChannel_publishMessage. rewrite Hcb. simpl.
  apply (inv_emit _ _ _ _ (Counter client_sent_messages)) in Hi; [| done].
  apply (inv_sent m) in Hi; [| done | done].
  case_match; [by apply inv_push | by apply readyToPublishMsg_inv].
Qed.

(** *** Confirms *)

Lemma inv_sent_nonempty k m extra sent c :
  send_inv k (m :: extra) sent c → d_confirmCallback (c_derived c) = true.
Proof using.
  intros Hi. destruct (d_confirmCallback (c_derived c)) eqn:Hcb; [done |].
  pose proof (si_conserved _ _ _ _ Hi) as Hp. rewrite (si_callback _ _ _ _ Hi Hcb) in Hp.
  simpl in Hp. apply Permutation_nil in Hp.
  by destruct (confirmed c), (stored c), (d_pendingMessages (c_derived c)).
Qed.

Lemma callbackMessages_inv response confs : ∀ extra sent c,
  send_inv 0 (((λ e, e.2.1) <$> confs) ++ extra) sent c →
  send_inv 0 extra sent (SendChannel_callbackMessages confs response c).
Proof using.
  induction confs as [| [tag [m t]] confs IH]; intros extra sent c Hi; simpl; [done |].
  simpl in Hi. rewrite (inv_sent_nonempty _ _ _ _ _ Hi).
  apply IH, inv_modify; [by intros d |].
  split; unfold publications, confirmed, stored in *; simpl; try apply Hi.
  - rewrite confirmations_app, fmap_app. simpl.
    rewrite (si_conserved _ _ _ _ Hi). unfold confirmed, stored. rewrite fmap_cons.
    unfold route_of at 3. solve_Permutation.
  - rewrite wire_state_app. simpl. apply Hi.
  - rewrite wire_state_app. simpl. apply Hi.
  - rewrite wire_state_app. simpl. apply Hi.
  - rewrite elem_of_app, list_elem_of_singleton. intros [Hf | Hf]; [by apply (si_fault _ _ _ _ Hi) | done].
Qed.

(** Taking messages out of the store. *)
Lemma inv_unstore extra sent c removed store' :
  store_wf store' → d_latestTagTilNow store' = d_latestTagTilNow (d_messageStore (c_derived c)) →
  d_deliveryTagToMsg (d_messageStore (c_derived c)) ≡ₚ removed ++ d_deliveryTagToMsg store' →
  send_inv 0 extra sent c →
  send_inv 0 (((λ e, e.2.1) <$> removed) ++ extra) sent (modify (set_messageStore store') c).
Proof using.
  intros Hwf Hl Hp Hi. split; unfold publications, confirmed, stored in *; simpl; try apply Hi; try done.
  - rewrite Hl. apply Hi.
  - intros e He. apply (si_tags _ _ _ _ Hi). rewrite Hp. set_solver.
  - rewrite (si_conserved _ _ _ _ Hi). unfold confirmed, stored. rewrite Hp, !fmap_app.
    solve_Permutation.
  - intros t m d He. apply (si_wire _ _ _ _ Hi t m d). rewrite Hp. set_solver.
Qed.

Lemma modify_same_store c : modify (set_messageStore (d_messageStore (c_derived c))) c = c.
Proof using. destruct c as [? ? ? ? ? ? ? [] ?]. done. Qed.

Lemma filter_split_tags (t : Z) (l : list (Entry MessageWithRoute)) :
  l ≡ₚ filter (λ e, (e.1 ≤ t)%Z) l ++ filter (λ e, (t < e.1)%Z) l.
Proof using.
  rewrite <- (filter_app_complement (λ e, (e.1 ≤ t)%Z) l) at 1. apply Permutation_app_head.
  rewrite (list_filter_iff _ (λ e, (t < e.1)%Z)); [done |]. intros e. lia.
Qed.

Lemma processAckNack_inv multiple tag response sent c :
  send_inv 0 [] sent c → send_inv 0 [] sent (SendChannel_processAckNack multiple tag response c).
Proof using.
  intros Hi. pose proof (si_wf _ _ _ _ Hi) as Hwf. unfold SendChannel_processAckNack. destruct multiple.
  - pose proof (MessageStore_removeUntil_wf tag _ Hwf) as Hwf'.
    destruct (removeUntil_cases tag _ Hwf) as [[_ Hr] | [_ (gs & Hr & _)]]; rewrite Hr in *; simpl in Hwf'.
    + by rewrite modify_same_store.
    + pose proof (filter_split_tags tag (d_deliveryTagToMsg (d_messageStore (c_derived c)))) as Hsplit.
      set (removed := filter (λ e, (e.1 ≤ tag)%Z) _) in *.
      eapply (inv_unstore _ _ _ removed) in Hi; [| exact Hwf' | done | exact Hsplit].
      apply (callbackMessages_inv response removed) in Hi. by destruct removed.
  - pose proof (MessageStore_remove_wf tag _ Hwf) as Hwf'. unfold MessageStore_remove in *.
    destruct (map_find tag _) as [[m t] |] eqn:Hf; simpl in Hwf'.
    + eapply (inv_unstore _ _ _ [(tag, (m, t))]) in Hi; [| exact Hwf' | done |].
      * by apply (callbackMessages_inv response [(tag, (m, t))]) in Hi.
      * by apply map_erase_perm.
    + by rewrite modify_same_store.
Qed.

(** *** Resetting *)

Lemma requeue_loop_spec fuel l : ∀ gs lt id pending,
  length l < fuel →
  requeue_loop fuel (mkMessageStore l gs lt id) pending = pending ++ ((λ e, e.2.1) <$> l).
Proof using.
  revert l. induction fuel as [| fuel IH]; intros l gs lt id pending Hf; [lia |].
  destruct l as [| [t [m d]] l]; simpl; [by rewrite app_nil_r |].
  unfold MessageStore_remove, MessageStore_oldestTagInStore. simpl. rewrite Z.eqb_refl.
  simpl. rewrite IH by (simpl in Hf; lia). by rewrite <- app_assoc.
Qed.

Lemma processFailures_spec c :
  SendChannel_processFailures c
  = modify (λ d, set_returnedTags ∅ (set_pending (d_pendingMessages (c_derived c) ++ stored c)
      (set_messageStore
         (mkMessageStore [] ∅ 0 (uwrap 64 (d_lifetimeId (d_messageStore (c_derived c)) + 1))) d))) c.
Proof using.
  unfold SendChannel_processFailures, MessageStore_swap.
  rewrite requeue_loop_spec by (unfold MessageStore_count; simpl; lia). done.
Qed.

Lemma reset_inv clock b sent c :
  send_inv 0 [] sent c →
  send_inv 0 [] sent (Channel_reset (H := SendChannel_hooks clock) b c).2.
Proof using.
  intros Hi. set (c' := snd _).
  assert (c_derived c' = mkSendState
            (mkMessageStore [] ∅ 0 (uwrap 64 (d_lifetimeId (d_messageStore (c_derived c)) + 1)))
            (d_confirmCallback (c_derived c)) (d_pendingMessages (c_derived c) ++ stored c)
            (d_exchangeName (c_derived c)) 1 None ∅) as Hd.
  { unfold c', Channel_reset, processFailures, SendChannel_hooks.
    rewrite processFailures_spec. by destruct b. }
  assert (∃ es, c_trace c' = c_trace c ++ es ++ [Counter channel_disconnected] ∧
            (es = [] ∨ es = [Retry])) as (es & Htr & Hes).
  { unfold c', Channel_reset. simpl. destruct b; simpl.
    - exists [Retry]. rewrite <- app_assoc. auto.
    - exists []. auto. }
  assert (wire_state (c_trace c') = (None, [])) as Hws
    by (rewrite Htr, app_assoc, wire_state_app; done).
  assert (confirmed c' = confirmed c) as Hcf.
  { unfold confirmed. rewrite Htr, !confirmations_app. destruct Hes as [-> | ->]; simpl; by rewrite app_nil_r. }
  assert (Fault ∉ c_trace c') as Hflt.
  { rewrite Htr, !elem_of_app, list_elem_of_singleton.
    intros [Hf | [Hf | Hf]]; [by apply (si_fault _ _ _ _ Hi) | | done].
    destruct Hes as [-> | ->]; set_solver. }
  pose proof (Permutation_length (si_conserved _ _ _ _ Hi)) as Hlen.
  rewrite !length_app, !length_fmap in Hlen. clearbody c'.
  split; unfold publications, stored; rewrite ?Hcf, ?Hws, ?Hd; simpl; try done; try apply Hi; try set_solver.
  - split; simpl; [constructor | intros g t; by rewrite lookup_empty | set_solver].
  - rewrite length_app. lia.
  - rewrite (si_conserved _ _ _ _ Hi). rewrite fmap_app. solve_Permutation.
Qed.

(** *** Every operation keeps the invariant *)

Definition keeps (c c' : SendChannel) : Prop :=
  ∀ sent, send_inv 0 [] sent c → send_inv 0 [] sent c'.

#[global] Instance keeps_preorder : PreOrder keeps.
Proof using. split; [by intros c sent | intros c1 c2 c3 H12 H23 sent Hi; auto]. Qed.

Lemma ready_trace (c : SendChannel) :
  ∃ es, c_trace (Channel_ready c) = c_trace c ++ es ∧ Forall (λ e, neutral e = true) es.
Proof using.
  exists (TimerCancel :: ((λ f, FutureSet f true) <$> d_readyMade c) ++ [Counter channel_ready]).
  split; [simpl; by rewrite <- ?app_assoc |].
  constructor; [done |]. apply Forall_app. split; [| by constructor].
  apply Forall_fmap, Forall_forall. done.
Qed.

Lemma keeps_ready c : keeps c (Channel_ready c).
Proof using.
  intros sent Hi. destruct (ready_trace c) as (es & He & Hn). by eapply inv_neutral.
Qed.

Lemma publications_ready k extra sent c :
  send_inv k extra sent c → publications (Channel_ready c) = publications c.
Proof using.
  intros Hi. destruct (ready_trace c) as (es & He & Hn).
  unfold publications. rewrite He, wire_state_app.
  by rewrite (proj1 (neutral_effects es _ Hn (si_wire_state _ _ _ _ Hi))).
Qed.

Lemma keeps_writeState m s c :
  neutral (AsyncWrite m OnWriteComplete) = true → keeps c (Channel_writeState m s c).
Proof using.
  intros Hm sent Hi. apply inv_emit; [done |].
  destruct s; try (by apply (inv_same _ _ _ c)). by apply keeps_ready.
Qed.

Lemma keeps_close code text cl me c : keeps c (Channel_close code text cl me c).
Proof using. by apply keeps_writeState. Qed.

Lemma processMessage_keeps m c : keeps c (SendChannel_processMessage m c).
Proof using.
  unfold SendChannel_processMessage. destruct (d_basicReturn _); [| apply keeps_close].
  intros sent Hi. pose proof (lookupGuid_wf _ (d_guid m) (si_wf _ _ _ _ Hi)) as Hg.
  destruct (MessageStore_lookupGuid _ _); [by apply keeps_close | by apply inv_modify | done].
Qed.

Lemma keeps_closed clock : channel_closed (H := SendChannel_hooks clock) keeps.
Proof using.
  split; simpl; intros; try apply _; try (intros sent Hi; by apply (inv_same _ _ _ c)).
  - intros sent Hi. apply inv_emit; [by apply base_effect_neutral | done].
  - unfold Channel_open. case_match; [done |]. etrans; [| by apply keeps_writeState].
    intros sent Hi. by apply inv_emit.
  - intros sent Hi. by apply (reset_inv clock b).
  - destruct m; simpl; try done; try (intros sent Hi; by apply processAckNack_inv).
    destruct (d_basicReturn _); [apply keeps_close |]. intros sent Hi. by apply inv_modify.
  - destruct m; simpl; try done. etrans; [apply keeps_ready |].
    intros sent Hi. by apply publishPendingMessages_inv.
  - apply processMessage_keeps.
  - by apply keeps_writeState.
  - unfold SendChannel_onFlowAllowed. destruct (d_state c); try done.
    intros sent Hi. by apply publishPendingMessages_inv.
Qed.

(** *** Runs *)

(** The calls of a channel's lifetime, each with the clock during the call. *)
Definition send_run (ops : list ((Z → Z) * SendOp)) (c : SendChannel) : SendChannel :=
  fold_left (λ c op, send_op op.1 op.2 c) ops c.

Definition published (ops : list ((Z → Z) * SendOp)) : list MessageWithRoute :=
  omap (λ op, match op.2 with Send_publish m => Some m | _ => None end) ops.

(** A new channel whose confirm callback is set. *)
Definition SendChannel_start (tp : Topology) (exchangeName : bytes) : SendChannel :=
  SendChannel_setCallback (SendChannel_make tp exchangeName).

Lemma start_inv tp x : send_inv 0 [] [] (SendChannel_start tp x).
Proof using.
  split; simpl; try done; try set_solver. apply store_wf_make.
Qed.

Lemma channel_op_callback clock op c :
  d_confirmCallback (c_derived c) = true →
  d_confirmCallback (c_derived (channel_op (H := SendChannel_hooks clock) op c)) = true.
Proof using.
  pose (R := λ c c' : SendChannel, d_confirmCallback (c_derived c) = true →
                                   d_confirmCallback (c_derived c') = true).
  assert (channel_closed (H := SendChannel_hooks clock) R) as HR; [| exact (channel_op_closed R HR op c)].
  assert (PreOrder R) as HP by (split; [by intros ? ? | intros ? ? ? H12 H23 ?; by apply H23, H12]).
  assert (∀ c, R c (SendChannel_publishPendingMessages clock c)) as Hpp.
  { intros c'. unfold SendChannel_publishPendingMessages. generalize (d_pendingMessages (c_derived c')).
    intros q. revert c'. induction q as [| m q IH]; intros c'; simpl; [by intros ? |].
    etrans; [| apply IH]. intros Hc. unfold SendChannel_readyToPublishMsg.
    destruct (MessageStore_insert _ _ _ _) as [[] ?]; done. }
  assert (∀ confs r c, R c (SendChannel_callbackMessages confs r c)) as Hcm.
  { intros confs r. induction confs as [| [t [m d]] confs IH]; intros c'; simpl; [by intros ? |].
    etrans; [| apply IH]. intros Hc. by rewrite Hc. }
  split; simpl; intros; try exact HP; try (by intros Hc).
  - intros Hc. unfold Channel_open. by case_match.
  - intros Hc. unfold Channel_reset. simpl. by destruct b.
  - intros Hc. destruct m; simpl; try done; unfold SendChannel_processAckNack; repeat case_match;
      try done; by apply Hcm.
  - intros Hc. destruct m; simpl; try done. by apply Hpp.
  - intros Hc. unfold SendChannel_processMessage. repeat case_match; done.
  - intros Hc. unfold SendChannel_onFlowAllowed. case_match; try done. by apply Hpp.
Qed.

Lemma send_op_callback clock op c :
  d_confirmCallback (c_derived c) = true → d_confirmCallback (c_derived (send_op clock op c)) = true.
Proof using.
  intros Hcb. destruct op as [op | m |]; simpl; [by apply channel_op_callback | | done].
  unfold SendChannel_publishMessage. rewrite Hcb. simpl. case_match; [done |].
  unfold SendChannel_readyToPublishMsg. by destruct (MessageStore_insert _ _ _ _) as [[] ?].
Qed.

Lemma send_run_inv ops : ∀ sent c,
  send_inv 0 [] sent c → d_confirmCallback (c_derived c) = true →
  (Z.of_nat (length sent + length (published ops)) < 2 ^ 64 - 1)%Z →
  send_inv 0 [] (sent ++ published ops) (send_run ops c).
Proof using.
  induction ops as [| [clock op] ops IH]; intros sent c Hi Hcb Hb; simpl.
  { by rewrite app_nil_r. }
  pose proof (send_op_callback clock op c Hcb) as Hcb'. destruct op as [op | m |]; simpl in *.
  - apply IH; [| done | done]. apply (channel_op_closed _ (keeps_closed clock)), Hi.
  - change (sent ++ m :: ?l) with (sent ++ [m] ++ l). rewrite app_assoc. apply IH.
    + apply publishMessage_inv; [done | lia | done].
    + done.
    + rewrite length_app. simpl. lia.
  - apply IH; [| done | done]. destruct Hi. by split.
Qed.

(** *** Confirms, precisely *)

(** The callback for an entry of the store, given the broker's response. *)
Definition confirmation (response : ConfirmResponse) (returned : gmap Z ConfirmResponse)
  (e : Entry MessageWithRoute) : Effect Confirmation :=
  Callback (mkConfirmation (mw_message e.2.1) (mw_routingKey e.2.1)
              (default response (returned !! e.1))).

Lemma callbackMessages_trace response confs : ∀ c,
  d_confirmCallback (c_derived c) = true → NoDup confs.*1 →
  c_trace (SendChannel_callbackMessages confs response c)
  = c_trace c ++ (confirmation response (d_returnedTagResponse (c_derived c)) <$> confs).
Proof using.
  induction confs as [| [t [m d]] confs IH]; intros c Hcb Hnd; simpl; [by rewrite app_nil_r |].
  apply NoDup_cons in Hnd as [Hni Hnd]. rewrite Hcb, IH by done. simpl. rewrite <- app_assoc. simpl.
  f_equal. f_equal. apply list_fmap_ext. intros i [t' [m' d']] Hl. unfold confirmation. simpl.
  rewrite lookup_delete_ne; [done |]. intros ->. apply Hni.
  apply list_elem_of_lookup_2 in Hl. by eapply elem_of_fst.
Qed.

Lemma callbackMessages_store confs response : ∀ c,
  d_messageStore (c_derived (SendChannel_callbackMessages confs response c))
  = d_messageStore (c_derived c).
Proof using.
  induction confs as [| [t [m d]] confs IH]; intros c; simpl; [done |]. rewrite IH.
  by destruct (d_confirmCallback _).
Qed.

(** The entries of the store an acknowledgement covers. *)
Definition covered (multiple : bool) (tag : Z) (store : MessageStore MessageWithRoute)
  : list (Entry MessageWithRoute) :=
  if multiple then
    if decide (tag ∈ (d_deliveryTagToMsg store).*1)
    then filter (λ e, (e.1 ≤ tag)%Z) (d_deliveryTagToMsg store) else []
  else filter (λ e, e.1 = tag) (d_deliveryTagToMsg store).

Lemma covered_sorted multiple tag store :
  store_wf store → StronglySorted Z.lt (covered multiple tag store).*1.
Proof using.
  intros [Hs _ _]. unfold covered. repeat case_match; try constructor;
    (eapply sorted_sublist; [apply sublist_filter | done]).
Qed.

Lemma single_entry (store : MessageStore MessageWithRoute) tag v :
  store_wf store → map_find tag (d_deliveryTagToMsg store) = Some v →
  filter (λ e, e.1 = tag) (d_deliveryTagToMsg store) = [(tag, v)].
Proof using.
  intros [Hs _ _]. revert Hs. generalize (d_deliveryTagToMsg store) as l.
  induction l as [| [t w] l IH]; simpl; intros Hs Hf; [done |].
  inversion Hs as [| ? ? Hs' Hall]; subst. rewrite filter_cons. simpl.
  destruct (Z.eqb_spec t tag) as [-> | Hne].
  - rewrite decide_True by done. simplify_eq. f_equal. apply filter_none. intros [t' w'] Hin. simpl.
    intros ->. rewrite Forall_forall in Hall. specialize (Hall tag ltac:(by eapply elem_of_fst)). lia.
  - rewrite decide_False by done. auto.
Qed.

Lemma processAckNack_spec multiple tag response sent c :
  send_inv 0 [] sent c → d_confirmCallback (c_derived c) = true →
  let c' := SendChannel_processAckNack multiple tag response c in
  let acked := covered multiple tag (d_messageStore (c_derived c)) in
  c_trace c' = c_trace c ++ (confirmation response (d_returnedTagResponse (c_derived c)) <$> acked) ∧
  (∀ e, e ∈ d_deliveryTagToMsg (d_messageStore (c_derived c'))
        ↔ e ∈ d_deliveryTagToMsg (d_messageStore (c_derived c)) ∧ e ∉ acked).
Proof using.
  intros Hi Hcb. pose proof (si_wf _ _ _ _ Hi) as Hwf. cbv zeta.
  unfold SendChannel_processAckNack.
  pose proof (covered_sorted multiple tag _ Hwf) as Hsort. unfold covered in *. destruct multiple.
  - destruct (removeUntil_cases tag _ Hwf) as [[Hni ->] | [Hin (gs & -> & _)]].
    + rewrite modify_same_store, decide_False by done. simpl. rewrite app_nil_r. set_solver.
    + rewrite decide_True in * by done. set (removed := filter (λ e, (e.1 ≤ tag)%Z) _) in *.
      assert (match removed with
              | [] => modify (set_messageStore _) c
              | _ => SendChannel_callbackMessages removed response (modify (set_messageStore _) c)
              end = SendChannel_callbackMessages removed response (modify (set_messageStore _) c)) as ->
        by (by destruct removed).
      rewrite callbackMessages_trace, callbackMessages_store by (done || by apply sorted_NoDup).
      split; [done |]. intros e. simpl. unfold removed.
      rewrite !list_elem_of_filter. destruct (decide (e.1 ≤ tag)%Z); naive_solver lia.
  - unfold MessageStore_remove. destruct (map_find tag _) as [[m t] |] eqn:Hf.
    + rewrite callbackMessages_trace, callbackMessages_store; [| done | apply NoDup_singleton].
      rewrite (single_entry _ _ _ Hwf Hf). split; [done |]. intros e. simpl.
      rewrite (map_erase_spec _ _ (wf_sorted _ Hwf)), list_elem_of_filter, list_elem_of_singleton.
      split; [intros [? ?]; split; [done |]; by intros -> |]. intros [He Hne]. split; [| done].
      destruct e as [t' v]. simpl. intros ->. apply Hne.
      apply (map_find_elem _ _ _ (wf_sorted _ Hwf)) in He. congruence.
    + rewrite modify_same_store. apply map_find_None in Hf.
      assert (filter (λ e, e.1 = tag) (d_deliveryTagToMsg (d_messageStore (c_derived c))) = []) as ->.
      { apply filter_none. intros [t v] He%elem_of_fst Heq. simpl in Heq. congruence. }
      simpl. rewrite app_nil_r. set_solver.
Qed.

(** The broker's answer to publications. *)
Definition confirm_method (nack multiple : bool) (tag : Z) : AmqpMessage :=
  AM_Method (Method_Basic (if nack then BasicMethod_Nack (mkBasicNack tag multiple false)
                           else BasicMethod_Ack (mkBasicAck tag multiple))).

Lemma run_inv tp x ops :
  (Z.of_nat (length (published ops)) < 2 ^ 64 - 1)%Z →
  let c := send_run ops (SendChannel_start tp x) in
  send_inv 0 [] (published ops) c ∧ d_confirmCallback (c_derived c) = true.
Proof using.
  intros Hb. split.
  - apply (send_run_inv ops [] (SendChannel_start tp x)); [apply start_inv | done | done].
  - assert (d_confirmCallback (c_derived (SendChannel_start tp x)) = true) as Hcb by done.
    revert Hcb. generalize (SendChannel_start tp x). clear.
    induction ops as [| [clock op] ops IH]; intros c Hcb; simpl; [done |].
    apply IH. by apply send_op_callback.
Qed.

(** *** Publishing, precisely *)

Definition wire_of (x : bytes) (m : MessageWithRoute) : BasicPublish * Message :=
  (publish_method x m, mw_message m).

Lemma readyToPublishMsg_spec clock m extra k sent c :
  send_inv (S k) (m :: extra) sent c →
  let c' := SendChannel_readyToPublishMsg clock m c in
  stored c' = stored c ++ [m] ∧
  publications c' = publications c ++ [wire_of (d_exchangeName (c_derived c)) m] ∧
  d_pendingMessages (c_derived c') = d_pendingMessages (c_derived c) ∧
  d_exchangeName (c_derived c') = d_exchangeName (c_derived c) ∧
  d_state c' = d_state c.
Proof using.
  intros Hi. cbv zeta. pose proof (si_latest _ _ _ _ Hi) as Hl.
  unfold SendChannel_readyToPublishMsg.
  destruct (insert_newest (clock (d_deliveryCounter (c_derived c))) (d_deliveryCounter (c_derived c)) m
              (d_messageStore (c_derived c)) (si_wf _ _ _ _ Hi)) as [_ Happ]; [lia |].
  destruct (MessageStore_insert _ _ _ _) as [ins store]. simpl in Happ.
  unfold stored, publications. destruct ins; simpl; rewrite Happ, fmap_app, <- !app_assoc;
    (split; [done |]; rewrite wire_state_app; done).
Qed.

Lemma publishPending_spec clock queue : ∀ sent c,
  d_pendingMessages (c_derived c) = queue → send_inv 0 [] sent c →
  let c' := publishPending_loop clock queue c in
  stored c' = stored c ++ queue ∧
  publications c' = publications c ++ (wire_of (d_exchangeName (c_derived c)) <$> queue) ∧
  d_pendingMessages (c_derived c') = [] ∧ d_state c' = d_state c.
Proof using.
  induction queue as [| m queue IH]; intros sent c Hq Hi; simpl; [by rewrite !app_nil_r |].
  set (c0 := modify (λ d, set_pending (tail (d_pendingMessages d)) d) c).
  assert (modify (λ d, set_pending (tail (d_pendingMessages d)) d)
            (SendChannel_readyToPublishMsg clock m c) = SendChannel_readyToPublishMsg clock m c0) as ->.
  { unfold SendChannel_readyToPublishMsg. simpl. by destruct (MessageStore_insert _ _ _ _) as [[] ?]. }
  assert (send_inv 1 [m] sent c0) as Hi0 by (by apply (inv_pop m queue)).
  destruct (readyToPublishMsg_spec clock m [] 0 sent c0 Hi0) as (Hs & Hp & Hpd & Hx & Hst).
  destruct (IH sent (SendChannel_readyToPublishMsg clock m c0)) as (Hs' & Hp' & Hpd' & Hst').
  - rewrite Hpd. simpl. by rewrite Hq.
  - by apply readyToPublishMsg_inv.
  - rewrite Hs', Hs, Hp', Hp, Hx, <- !app_assoc, Hst', Hst. done.
Qed.

(** ** Theorems *)

(** C3: No message is lost and none is confirmed twice. After any sequence of calls
    by the application, the broker (any frames in any order), the connection and
    the event loop, with resets and reopenings at any point, the messages the
    application published are exactly, counted with multiplicity, those whose
    confirm callback ran, those in flight and those waiting to be sent; no
    assertion failed, no iterator of an erased message was dereferenced and the callback was
    never called unset. *)
Theorem send_channel_conserves_messages tp x ops :
  (Z.of_nat (length (published ops)) < 2 ^ 64 - 1)%Z →
  let c := send_run ops (SendChannel_start tp x) in
  route_of <$> published ops ≡ₚ
    confirmed c ++ (route_of <$> stored c) ++ (route_of <$> d_pendingMessages (c_derived c)) ∧
  Fault ∉ c_trace c.
Proof using.
  intros Hb. cbv zeta. destruct (run_inv tp x ops Hb) as [Hi _]. split; [| apply Hi].
  rewrite (si_conserved _ _ _ _ Hi). by rewrite app_nil_r.
Qed.

(** C4: Confirms reach the right messages. The delivery tags the channel assigns are
    the positions of its publications on the wire since the last reset, which is
    how the broker numbers them: a message in flight under tag [t] is the [t]-th
    publication. When an ack or nack arrives, the confirm callback runs exactly
    for the messages in flight under the acknowledged tag, or, with [multiple], under
    all tags up to it, in the order of the tags, each once, with the
    response of the broker or the earlier [basic.return]; these and no others
    leave the channel. An ack of an unknown tag changes nothing. *)
Theorem confirms_reach_published_messages tp x ops hp nack multiple tag clock :
  (Z.of_nat (length (published ops)) < 2 ^ 64 - 1)%Z →
  let c := send_run ops (SendChannel_start tp x) in
  d_state c ≠ CLOSED →
  let c' := (Channel_processReceived (H := SendChannel_hooks clock) hp
               (confirm_method nack multiple tag) c).2 in
  let store := d_deliveryTagToMsg (d_messageStore (c_derived c)) in
  let acked := covered multiple tag (d_messageStore (c_derived c)) in
  (∀ t m d, (t, (m, d)) ∈ store →
     publications c !! Z.to_nat (t - 1) = Some (wire_of (d_exchangeName (c_derived c)) m)) ∧
  StronglySorted Z.lt acked.*1 ∧
  c_trace c' = c_trace c ++
    (confirmation (ConfirmResponse_status (if nack then CR_REJECT else CR_ACK))
       (d_returnedTagResponse (c_derived c)) <$> acked) ∧
  (∀ e, e ∈ d_deliveryTagToMsg (d_messageStore (c_derived c')) ↔ e ∈ store ∧ e ∉ acked).
Proof using.
  intros Hb. cbv zeta. destruct (run_inv tp x ops Hb) as [Hi Hcb]. cbv zeta in Hi, Hcb.
  set (c := send_run ops (SendChannel_start tp x)) in *. intros Hst.
  assert ((Channel_processReceived (H := SendChannel_hooks clock) hp (confirm_method nack multiple tag) c).2
          = SendChannel_processAckNack multiple tag
              (ConfirmResponse_status (if nack then CR_REJECT else CR_ACK)) c) as ->.
  { unfold Channel_processReceived, confirm_method. destruct (d_state c), nack; done. }
  destruct (processAckNack_spec multiple tag
              (ConfirmResponse_status (if nack then CR_REJECT else CR_ACK)) _ c Hi Hcb) as [Htr Hstore].
  split; [apply (si_wire _ _ _ _ Hi) |]. split; [apply covered_sorted, Hi | done].
Qed.

(** After a reconnection everything unconfirmed is sent again. A reset puts the
    messages in flight, oldest first, behind the waiting ones; when the reopened
    channel has confirms enabled ([confirm.select-ok]) all of them are published in
    this order, the [k]-th as the [k]-th publication of the channel, and are in
    flight again. *)
Theorem reset_requeues_and_reopening_republishes tp x ops hp clock startRetry :
  (Z.of_nat (length (published ops)) < 2 ^ 64 - 1)%Z →
  let c := send_run ops (SendChannel_start tp x) in
  let r := (Channel_reset (H := SendChannel_hooks clock) startRetry c).2 in
  stored r = [] ∧ publications r = [] ∧ d_state r = CLOSED ∧
  d_pendingMessages (c_derived r) = d_pendingMessages (c_derived c) ++ stored c ∧
  (d_state c ≠ CLOSED →
   let o := (Channel_processReceived (H := SendChannel_hooks clock) hp
               (AM_Method (Method_Confirm (ConfirmMethod_SelectOk mkConfirmSelectOk))) c).2 in
   d_state o = READY ∧ d_pendingMessages (c_derived o) = [] ∧
   stored o = stored c ++ d_pendingMessages (c_derived c) ∧
   publications o = publications c ++
     (wire_of (d_exchangeName (c_derived c)) <$> d_pendingMessages (c_derived c))).
Proof using.
  intros Hb. cbv zeta. destruct (run_inv tp x ops Hb) as [Hi Hcb]. cbv zeta in Hi, Hcb.
  set (c := send_run ops (SendChannel_start tp x)) in *.
  pose proof (reset_inv clock startRetry _ c Hi) as Hri.
  assert (d_pendingMessages (c_derived (Channel_reset (H := SendChannel_hooks clock) startRetry c).2)
          = d_pendingMessages (c_derived c) ++ stored c) as Hpend.
  { unfold Channel_reset, processFailures, SendChannel_hooks. rewrite processFailures_spec.
    by destruct startRetry. }
  split_and!.
  - by destruct startRetry.
  - pose proof (si_wire_len _ _ _ _ Hri) as Hl. destruct (publications _); [done |].
    exfalso. unfold Channel_reset in Hl. destruct startRetry; simpl in Hl; lia.
  - by destruct startRetry.
  - done.
  - intros Hst.
    assert ((Channel_processReceived (H := SendChannel_hooks clock) hp
               (AM_Method (Method_Confirm (ConfirmMethod_SelectOk mkConfirmSelectOk))) c).2
            = SendChannel_publishPendingMessages clock (Channel_ready c)) as ->.
    { unfold Channel_processReceived. destruct (d_state c); done. }
    pose proof (keeps_ready c _ Hi) as Hi'.
    destruct (publishPending_spec clock _ _ (Channel_ready c) eq_refl Hi') as (Hs & Hp & Hpd & Hd).
    unfold SendChannel_publishPendingMessages. rewrite Hd, Hpd, Hs, Hp. split_and!; try done.
    f_equal. by eapply publications_ready.
Qed.

Lemma publishPending_state clock queue : ∀ c,
  d_state (publishPending_loop clock queue c) = d_state c.
Proof using.
  induction queue as [| m queue IH]; intros c; simpl; [done |]. rewrite IH. simpl.
  unfold SendChannel_readyToPublishMsg. by destruct (MessageStore_insert _ _ _ _) as [[] ?].
Qed.

Lemma receives_callback clock hp ms : ∀ c,
  d_confirmCallback (c_derived c) = true →
  d_confirmCallback (c_derived (receives (H := SendChannel_hooks clock) hp ms c)) = true.
Proof using.
  induction ms as [| m ms IH]; intros c Hcb; [done |]. rewrite receives_cons. apply IH.
  exact (channel_op_callback clock (Op_processReceived hp m) c Hcb).
Qed.

(** The frames of a successful reopening of a send channel. *)
Definition reopening (replies : list Method) : list AmqpMessage :=
  (ChannelMessage (ChannelMethod_OpenOk mkChannelOpenOk) :: (AM_Method <$> replies)) ++
  [AM_Method (Method_Confirm (ConfirmMethod_SelectOk mkConfirmSelectOk))].

Lemma reopening_ready clock hp (c : SendChannel) replies :
  d_state c = CLOSED → d_permanentlyClosing c = false → topology_alive hp (d_topology c) = true →
  d_updateQueue c = [] →
  Forall2 (λ req m, confirms req (AM_Method m) = true) (topology_requests hp (d_topology c)) replies →
  let o := receives (H := SendChannel_hooks clock) hp (reopening replies) (Channel_open c) in
  d_state o = READY ∧ d_flow o = d_flow c.
Proof using.
  intros Hs Hp Ha Hq HF. cbv zeta. unfold reopening. rewrite receives_app.
  destruct (open_sequence (H := SendChannel_hooks clock) hp c replies Hs Hp Ha HF) as (t & c1 & -> & Hc1).
  assert (d_updateQueue c1 = [] ∧ d_flow c1 = d_flow c ∧ d_state c1 = AWAITING_REPLY) as (Hq1 & Hf1 & Hs1)
    by (by destruct Hc1 as [-> | ->]).
  unfold Channel_sendNextUpdate. rewrite Hq1. simpl. unfold Channel_processReceived. rewrite Hs1. simpl.
  unfold SendChannel_publishPendingMessages. rewrite publishPending_state.
  pose proof (publishPending_frame clock (Channel_ready c1)) as Hfr.
  unfold SendChannel_publishPendingMessages in Hfr. rewrite (bf_flow _ _ Hfr). simpl. done.
Qed.

(** A broker's [channel.flow] stop outlives the channel it was sent on. If the
    channel is reset while the flow is stopped and then reopened, with the
    topology and [confirm.select] confirmed, it is READY again, but the flag still
    says stopped: a message published now is queued and nothing is written, until the
    broker sends another [channel.flow]. *)
Theorem flow_stop_survives_reopening tp x ops hp clock startRetry replies m :
  let c := send_run ops (SendChannel_start tp x) in
  (Z.of_nat (length (published ops)) < 2 ^ 64 - 1)%Z →
  d_flow c = false → d_permanentlyClosing c = false → d_updateQueue c = [] →
  topology_alive hp (d_topology c) = true →
  Forall2 (λ req m, confirms req (AM_Method m) = true) (topology_requests hp (d_topology c)) replies →
  let r := (Channel_reset (H := SendChannel_hooks clock) startRetry c).2 in
  let o := receives (H := SendChannel_hooks clock) hp (reopening replies) (Channel_open r) in
  let p := SendChannel_publishMessage clock m o in
  d_state p = READY ∧ d_flow p = false ∧
  d_pendingMessages (c_derived p) = d_pendingMessages (c_derived o) ++ [m] ∧
  c_trace p = c_trace o ++ [Counter client_sent_messages].
Proof using.
  cbv zeta. intros Hb Hf Hp Hq Ha HF. destruct (run_inv tp x ops Hb) as [_ Hcb]. cbv zeta in Hcb.
  set (c := send_run ops (SendChannel_start tp x)) in *.
  set (r := (Channel_reset (H := SendChannel_hooks clock) startRetry c).2).
  assert (base_frame c r) as Hfr.
  { unfold r, Channel_reset. simpl. etrans; [apply (base_frame_set_state CLOSED) |].
    etrans; [apply (processFailures_frame (H := SendChannel_hooks clock)) |].
    etrans; [apply (onReset_frame (H := SendChannel_hooks clock)) |].
    etrans; [| by apply base_frame_emit]. destruct startRetry; [by apply base_frame_emit | done]. }
  assert (d_state r = CLOSED) as Hsr by (by destruct startRetry).
  pose proof (channel_op_callback clock (Op_reset startRetry) c Hcb) as Hcbr.
  pose proof (channel_op_callback clock Op_open r Hcbr) as Hcbo.
  pose proof (receives_callback clock hp (reopening replies) _ Hcbo) as Hcb'. cbn [channel_op] in Hcb'.
  destruct (reopening_ready clock hp r replies Hsr) as [Hst Hfl].
  - by rewrite (bf_closing _ _ Hfr).
  - by rewrite (bf_topology _ _ Hfr).
  - by rewrite (bf_updateQueue _ _ Hfr).
  - by rewrite (bf_topology _ _ Hfr).
  - rewrite (bf_flow _ _ Hfr), Hf in Hfl. unfold SendChannel_publishMessage.
    rewrite Hcb'. cbn [negb]. set (o := receives _ _ _) in *.
    assert (d_flow (emit (Counter client_sent_messages) o) = false) as -> by done.
    rewrite orb_true_r. by rewrite <- Hst, <- Hfl at 1.
Qed.
End SendChannel.

(** ** Witnesses *)

Section Witnesses.
#[local] Existing Instances byte_GuidUtil.

Definition sample_message (g : Guid) : MessageWithRoute :=
  mkMessageWithRoute (Message_make g (Some [g]) Properties_empty) (str "key") RETURN_UNROUTABLE.

Definition at_time (t : Z) (op : SendOp) : (Z → Z) * SendOp := (λ _, t, op).

(** A message is published before the channel is open; then the channel opens, two more
    are published, and the broker acknowledges the first. *)
Definition sample_ops : list ((Z → Z) * SendOp) :=
  [at_time 0 (Send_publish (sample_message Byte.x01)); at_time 1 (Send_channel Op_open)] ++
  ((λ m, at_time 2 (Send_channel (Op_processReceived sample_heap m))) <$> reopening sample_replies) ++
  [at_time 3 (Send_publish (sample_message Byte.x02));
   at_time 4 (Send_publish (sample_message Byte.x03));
   at_time 5 (Send_channel (Op_processReceived sample_heap (confirm_method false false 1)))].

Lemma sample_ops_bound : (Z.of_nat (length (published sample_ops)) < 2 ^ 64 - 1)%Z.
Proof. vm_compute. reflexivity. Qed.

Lemma send_channel_conserves_messages_witness :
  let c := send_run sample_ops (SendChannel_start sample_topology (str "work")) in
  route_of <$> published sample_ops ≡ₚ
    confirmed c ++ (route_of <$> stored c) ++ (route_of <$> d_pendingMessages (c_derived c)) ∧
  length (confirmed c) = 1 ∧ length (stored c) = 2.
Proof.
  split; [| vm_compute; split; reflexivity].
  exact (proj1 (send_channel_conserves_messages sample_topology (str "work") sample_ops sample_ops_bound)).
Defined.

Lemma confirms_reach_published_messages_witness :
  let c := send_run sample_ops (SendChannel_start sample_topology (str "work")) in
  length (covered true 3 (d_messageStore (c_derived c))) = 2 ∧
  c_trace (Channel_processReceived (H := SendChannel_hooks (λ _, 6%Z)) sample_heap
             (confirm_method true true 3) c).2
  = c_trace c ++ (confirmation (ConfirmResponse_status CR_REJECT)
       (d_returnedTagResponse (c_derived c)) <$> covered true 3 (d_messageStore (c_derived c))).
Proof.
  split; [vm_compute; reflexivity |].
  refine (proj1 (proj2 (proj2 (confirms_reach_published_messages sample_topology (str "work")
    sample_ops sample_heap true true 3 (λ _, 6%Z) sample_ops_bound _)))).
  vm_compute. discriminate.
Defined.

Lemma reset_requeues_and_reopening_republishes_witness :
  let c := send_run sample_ops (SendChannel_start sample_topology (str "work")) in
  d_pendingMessages (c_derived (Channel_reset (H := SendChannel_hooks (λ _, 6%Z)) true c).2)
  = d_pendingMessages (c_derived c) ++ stored c.
Proof.
  exact (proj1 (proj2 (proj2 (proj2 (reset_requeues_and_reopening_republishes sample_topology
    (str "work") sample_ops sample_heap (λ _, 6%Z) true sample_ops_bound))))).
Defined.

Definition sample_flow_ops : list ((Z → Z) * SendOp) :=
  [at_time 0 (Send_channel Op_open);
   at_time 1 (Send_channel (Op_processReceived sample_heap
     (ChannelMessage (ChannelMethod_Flow (mkChannelFlow false)))))].

Lemma flow_stop_survives_reopening_witness :
  let c := send_run sample_flow_ops (SendChannel_start sample_topology (str "work")) in
  let r := (Channel_reset (H := SendChannel_hooks (λ _, 7%Z)) true c).2 in
  let o := receives (H := SendChannel_hooks (λ _, 7%Z)) sample_heap (reopening sample_replies)
             (Channel_open r) in
  d_state (SendChannel_publishMessage (λ _, 7%Z) (sample_message Byte.x04) o) = READY ∧
  d_flow (SendChannel_publishMessage (λ _, 7%Z) (sample_message Byte.x04) o) = false.
Proof.
  cbv zeta.
  destruct (flow_stop_survives_reopening sample_topology (str "work") sample_flow_ops sample_heap
    (λ _, 7%Z) true sample_replies (sample_message Byte.x04)) as (Hs & Hf & _).
  - reflexivity.
  - reflexivity.
  - reflexivity.
  - reflexivity.
  - reflexivity.
  - repeat constructor.
  - exact (conj Hs Hf).
Defined.
End Witnesses.
