(* ===== verification/ReceiveChannel.v ===== *)
(** * ReceiveChannel: consuming and acknowledging

    Models [rmqamqp::ReceiveChannel] and its [Consumer] (rmqamqp_receivechannel.cpp) on
    top of [Channel], [MessageStore], [MultipleAck] and [AckQueue]. The derived
    members are [ReceiveState], the virtual functions the instance
    [ReceiveChannel_hooks].

    - The consumer's callback and the futures of [consume], [cancel], [pause],
      [resume] and [drain] are [Callback] effects ([ReceiveEvent]); the futures are
      numbered by the caller, and an operation that returns a future returns a
      [FutureValue].
    - [removeMessagesFromStore] is the completion handler of the write of an
      acknowledgement: it is an operation of the object, invoked later by the event
      loop.
    - [BSLS_ASSERT(!d_consumer)] is a [Fault] when it fails.
    - [clock t] is the time [CurrentTime::utc] returns when the message with delivery
      tag [t] is stored. The start times of pause and resume only serve latency
      metrics and are left out, as are logging and metric tags. *)

From Stdlib Require Import ZArith Lia Sorted String Strings.Byte.
From stdpp Require Import base tactics list gmap.
From S2P Require Import Prelude Constants Wire FieldValue Props Methods Method Message.
From S2P Require Import Framer MessageStore MultipleAck AckQueue Topology Channel.

(** [ReceiveChannel::Consumer::State], in the order of the enumeration. *)
Inductive ConsumerState :=
| NOT_CONSUMING | STARTING | CONSUMING | PAUSING | PAUSED | CANCELLING | CANCELLED.

#[export] Instance ConsumerState_eq_dec : EqDecision ConsumerState.
Proof. solve_decision. Defined.

Definition ConsumerState_value (s : ConsumerState) : Z :=
  match s with
  | NOT_CONSUMING => 0 | STARTING => 1 | CONSUMING => 2 | PAUSING => 3 | PAUSED => 4
  | CANCELLING => 5 | CANCELLED => 6
  end.

(** [rmqt::ConsumerConfig], as far as the channel uses it. *)
Record ConsumerConfig := mkConsumerConfig {
  d_prefetchCount : Z;
  d_exclusiveFlag : bool;
  d_consumerPriority : option Z;
}.

(** What an operation returns as a future: a result that is there at once, or the
    future with this number. *)
Inductive FutureValue := Resolved (ok : bool) | Pending (f : FutureId).

Section ReceiveChannel.
Context {E : EpochUtil} {G : GuidUtil}.

(** ** The consumer *)

Record Consumer := mkConsumer {
  cs_state : ConsumerState;
  cs_tag : bytes;
  cs_queue : rmqt_Queue;
}.

Definition Consumer_make (queue : rmqt_Queue) (consumerTag : bytes) (channelPausedOnOpen : bool)
  : Consumer :=
  mkConsumer (if channelPausedOnOpen then PAUSED else NOT_CONSUMING) consumerTag queue.

Definition Consumer_set (s : ConsumerState) (k : Consumer) : Consumer :=
  mkConsumer s (cs_tag k) (cs_queue k).

Definition Consumer_is (s : ConsumerState) (k : Consumer) : bool := bool_decide (cs_state k = s).

Definition Consumer_isStarted (k : Consumer) : bool := bool_decide (cs_state k ≠ NOT_CONSUMING).
Definition Consumer_isNotConsuming (k : Consumer) : bool := Consumer_is NOT_CONSUMING k.
Definition Consumer_isStarting (k : Consumer) : bool := Consumer_is STARTING k.
Definition Consumer_isActive (k : Consumer) : bool := Consumer_is CONSUMING k.
Definition Consumer_isPaused (k : Consumer) : bool := Consumer_is PAUSED k.
Definition Consumer_isPausing (k : Consumer) : bool := Consumer_is PAUSING k.

Definition Consumer_shouldRestart (k : Consumer) : bool :=
  (ConsumerState_value (cs_state k) <? ConsumerState_value CANCELLING)%Z.
Definition Consumer_canPause (k : Consumer) : bool :=
  (ConsumerState_value (cs_state k) <=? ConsumerState_value CONSUMING)%Z.

Definition Consumer_reset (k : Consumer) : Consumer :=
  if Consumer_shouldRestart k then Consumer_set NOT_CONSUMING k else k.

Definition Consumer_cancelMethod (k : Consumer) : BasicMethod :=
  BasicMethod_Cancel (mkBasicCancel (cs_tag k) false).

Definition Consumer_consumeOk (k : Consumer) : option BasicMethod * Consumer :=
  match cs_state k with
  | STARTING => (None, Consumer_set CONSUMING k)
  | CANCELLING | PAUSING => (Some (Consumer_cancelMethod k), k)
  | _ => (None, k)
  end.

Definition Consumer_handleCancelAfterPause (k : Consumer) : Consumer :=
  match cs_state k with
  | PAUSING => Consumer_set CANCELLING k
  | PAUSED => Consumer_set CANCELLED k
  | _ => k
  end.

Definition Consumer_setPaused (k : Consumer) : Consumer := Consumer_set PAUSED k.

(** [Consumer::process]: the envelope handed to the application. *)
Definition Consumer_envelope (deliver : BasicDeliver) (lifetimeId : Z) : Envelope :=
  mkEnvelope (BasicDeliver_deliveryTag deliver) lifetimeId (BasicDeliver_consumerTag deliver)
    (BasicDeliver_exchange deliver) (BasicDeliver_routingKey deliver)
    (BasicDeliver_redelivered deliver).

Definition getBasicConsumeArguments (config : ConsumerConfig) : FieldTable :=
  match d_consumerPriority config with
  | Some priority => FieldTable_insert (str "x-priority") (FV_int64 priority) []
  | None => []
  end.

Definition Consumer_consumeMethod (config : ConsumerConfig) (k : Consumer) : BasicConsume :=
  mkBasicConsume (queue_name (cs_queue k)) (cs_tag k) false false (d_exclusiveFlag config) false
    (getBasicConsumeArguments config).

Definition Consumer_consume (config : ConsumerConfig) (k : Consumer) : option BasicMethod * Consumer :=
  match cs_state k with
  | NOT_CONSUMING | PAUSED =>
      (Some (BasicMethod_Consume (Consumer_consumeMethod config k)), Consumer_set STARTING k)
  | _ => (None, k)
  end.

Definition Consumer_cancel (pause : bool) (k : Consumer) : option BasicMethod * Consumer :=
  let k := if negb pause && Consumer_isPausing k then Consumer_set CANCELLING k else k in
  if pause && Consumer_isNotConsuming k then (None, Consumer_set PAUSED k)
  else
    let k' := Consumer_set (if pause then PAUSING else CANCELLING) k in
    if negb (Consumer_isActive k) then (None, k') else (Some (Consumer_cancelMethod k), k').

Definition Consumer_cancelOk (k : Consumer) : Consumer :=
  match cs_state k with
  | CANCELLING => Consumer_set CANCELLED k
  | PAUSING => Consumer_set PAUSED k
  | _ => k
  end.

(** ** The channel *)

#[global] Instance Message_guid : HasGuid Message := d_guid.

Inductive ReceiveEvent :=
| OnNewMessage (m : Message) (env : Envelope)
| FutureMake (f : FutureId)
| FutureResult (f : FutureId) (ok : bool)
| DrainResult (f : FutureId) (ok : bool)
| NewAckBatch.

Record ReceiveState := mkReceiveState {
  d_consumerConfig : ConsumerConfig;
  d_consumer : option Consumer;
  d_nextMessage : option BasicDeliver;
  d_messageStore : MessageStore Message;
  d_ackQ : AckQueue;
  d_multipleAckHandler : MultipleAckHandler;
  d_consumeFuture : option FutureId;
  d_cancelFuture : option FutureId;
  d_drainFuture : option FutureId;
  d_channelPausedOnOpen : bool;
}.

Abbreviation ReceiveChannel := (Channel ReceiveState ReceiveEvent).

Definition ReceiveChannel_make (tp : Topology) (config : ConsumerConfig) (pausedOnOpen : bool)
  : ReceiveChannel :=
  Channel_make tp (mkReceiveState config None None MessageStore_make AckQueue_make
                     MultipleAckHandler_make None None None pausedOnOpen).

(** *** Member assignments *)

Definition modify (f : ReceiveState → ReceiveState) (c : ReceiveChannel) : ReceiveChannel :=
  set_derived (f (c_derived c)) c.

Definition set_consumer (k : option Consumer) (d : ReceiveState) : ReceiveState :=
  mkReceiveState (d_consumerConfig d) k (d_nextMessage d) (d_messageStore d) (d_ackQ d)
    (d_multipleAckHandler d) (d_consumeFuture d) (d_cancelFuture d) (d_drainFuture d)
    (d_channelPausedOnOpen d).

Definition set_nextMessage (m : option BasicDeliver) (d : ReceiveState) : ReceiveState :=
  mkReceiveState (d_consumerConfig d) (d_consumer d) m (d_messageStore d) (d_ackQ d)
    (d_multipleAckHandler d) (d_consumeFuture d) (d_cancelFuture d) (d_drainFuture d)
    (d_channelPausedOnOpen d).

Definition set_messageStore (s : MessageStore Message) (d : ReceiveState) : ReceiveState :=
  mkReceiveState (d_consumerConfig d) (d_consumer d) (d_nextMessage d) s (d_ackQ d)
    (d_multipleAckHandler d) (d_consumeFuture d) (d_cancelFuture d) (d_drainFuture d)
    (d_channelPausedOnOpen d).

Definition set_acks (q : AckQueue) (h : MultipleAckHandler) (d : ReceiveState) : ReceiveState :=
  mkReceiveState (d_consumerConfig d) (d_consumer d) (d_nextMessage d) (d_messageStore d) q h
    (d_consumeFuture d) (d_cancelFuture d) (d_drainFuture d) (d_channelPausedOnOpen d).

Definition set_consumeFuture (f : option FutureId) (d : ReceiveState) : ReceiveState :=
  mkReceiveState (d_consumerConfig d) (d_consumer d) (d_nextMessage d) (d_messageStore d) (d_ackQ d)
    (d_multipleAckHandler d) f (d_cancelFuture d) (d_drainFuture d) (d_channelPausedOnOpen d).

Definition set_cancelFuture (f : option FutureId) (d : ReceiveState) : ReceiveState :=
  mkReceiveState (d_consumerConfig d) (d_consumer d) (d_nextMessage d) (d_messageStore d) (d_ackQ d)
    (d_multipleAckHandler d) (d_consumeFuture d) f (d_drainFuture d) (d_channelPausedOnOpen d).

Definition set_drainFuture (f : option FutureId) (d : ReceiveState) : ReceiveState :=
  mkReceiveState (d_consumerConfig d) (d_consumer d) (d_nextMessage d) (d_messageStore d) (d_ackQ d)
    (d_multipleAckHandler d) (d_consumeFuture d) (d_cancelFuture d) f (d_channelPausedOnOpen d).

Definition set_channelPausedOnOpen (b : bool) (d : ReceiveState) : ReceiveState :=
  mkReceiveState (d_consumerConfig d) (d_consumer d) (d_nextMessage d) (d_messageStore d) (d_ackQ d)
    (d_multipleAckHandler d) (d_consumeFuture d) (d_cancelFuture d) (d_drainFuture d) b.

(** Calling the maker of [d_consumeFuturePair], [d_cancelFuturePair] or [d_drainFuture]
    with the following [reset()], when it is set. *)
Definition resolve_consume (ok : bool) (c : ReceiveChannel) : ReceiveChannel :=
  match d_consumeFuture (c_derived c) with
  | Some f => modify (set_consumeFuture None) (emit (Callback (FutureResult f ok)) c)
  | None => c
  end.

Definition resolve_cancel (ok : bool) (c : ReceiveChannel) : ReceiveChannel :=
  match d_cancelFuture (c_derived c) with
  | Some f => modify (set_cancelFuture None) (emit (Callback (FutureResult f ok)) c)
  | None => c
  end.

Definition resolve_drain (ok : bool) (c : ReceiveChannel) : ReceiveChannel :=
  match d_drainFuture (c_derived c) with
  | Some f => modify (set_drainFuture None) (emit (Callback (DrainResult f ok)) c)
  | None => c
  end.

(** A basic method written with the new state AWAITING_REPLY. *)
Definition write_request (m : BasicMethod) (c : ReceiveChannel) : ReceiveChannel :=
  Channel_writeState (AM_Method (Method_Basic m)) AWAITING_REPLY c.

Definition write_optional (m : option BasicMethod) (c : ReceiveChannel) : ReceiveChannel :=
  match m with Some m => write_request m c | None => c end.

(** [state() == READY || state() == AWAITING_REPLY] *)
Definition is_open (c : ReceiveChannel) : bool :=
  bool_decide (d_state c = READY) || bool_decide (d_state c = AWAITING_REPLY).

Definition ReceiveChannel_lifetimeId (c : ReceiveChannel) : Z := d_lifetimeId (d_messageStore (c_derived c)).

(** *** Starting and stopping the consumer *)

Definition ReceiveChannel_restartConsumers (c : ReceiveChannel) : ReceiveChannel :=
  match d_consumer (c_derived c) with
  | Some k =>
      let (method, k') := Consumer_consume (d_consumerConfig (c_derived c)) k in
      let c := modify (set_consumer (Some k')) c in
      match method with
      | Some m => write_request m (emit TimerReset c)
      | None => c
      end
  | None => c
  end.

Definition ReceiveChannel_failPendingResume (c : ReceiveChannel) : ReceiveChannel :=
  resolve_consume false c.

(** The result is [false] when the queue handle has expired. *)
Definition ReceiveChannel_consume (hp : Heap) (queue : QueueHandle) (consumerTag : bytes)
  (c : ReceiveChannel) : bool * ReceiveChannel :=
  match lockQueue hp queue with
  | None => (false, c)
  | Some q =>
      match d_consumer (c_derived c) with
      | Some _ => (false, emit Fault c)
      | None =>
          let k := Consumer_make q consumerTag (d_channelPausedOnOpen (c_derived c)) in
          let c := modify (set_consumer (Some k)) c in
          if Consumer_isPaused k then (true, c)
          else if is_open c then (true, ReceiveChannel_restartConsumers c)
          else (true, c)
      end
  end.

Definition ReceiveChannel_resume (f : FutureId) (c : ReceiveChannel) : FutureValue * ReceiveChannel :=
  if d_permanentlyClosing c then (Resolved false, c)
  else
    match d_consumer (c_derived c), d_consumeFuture (c_derived c) with
    | Some k, pending =>
        if negb (Consumer_shouldRestart k) then (Resolved false, c)
        else
          match pending with
          | Some g => (Pending g, c)
          | None =>
              if Consumer_isActive k || Consumer_isStarting k then (Resolved false, c)
              else
                let wasPaused := d_channelPausedOnOpen (c_derived c) || Consumer_isPaused k ||
                                 Consumer_isPausing k in
                let c := modify (set_channelPausedOnOpen false) c in
                let c := if wasPaused then emit (Counter consumer_resume_total) c else c in
                let c := modify (set_consumeFuture (Some f)) (emit (Callback (FutureMake f)) c) in
                if Consumer_isPaused k then
                  if is_open c then (Pending f, ReceiveChannel_restartConsumers c)
                  else (Pending f, modify (set_consumer (Some (Consumer_reset k))) c)
                else if Consumer_isNotConsuming k && is_open c
                then (Pending f, ReceiveChannel_restartConsumers c)
                else (Pending f, c)
          end
    | None, Some g => (Pending g, c)
    | None, None => (Resolved false, modify (set_channelPausedOnOpen false) c)
    end.

Definition ReceiveChannel_cancel (f : FutureId) (c : ReceiveChannel) : FutureValue * ReceiveChannel :=
  let c := ReceiveChannel_failPendingResume c in
  match d_cancelFuture (c_derived c) with
  | Some g =>
      match d_consumer (c_derived c) with
      | Some k =>
          if Consumer_isPausing k
          then (Pending g, modify (set_consumer (Some (Consumer_handleCancelAfterPause k))) c)
          else (Pending g, c)
      | None => (Pending g, emit Fault c)
      end
  | None =>
      match d_consumer (c_derived c) with
      | None => (Resolved false, c)
      | Some k =>
          if Consumer_isPaused k then (Resolved true, modify (set_consumer None) c)
          else if Consumer_isStarted k then
            let c := modify (set_cancelFuture (Some f)) (emit (Callback (FutureMake f)) c) in
            let (method, k') := Consumer_cancel false k in
            (Pending f, write_optional method (modify (set_consumer (Some k')) c))
          else (Resolved true, modify (set_consumer None) c)
      end
  end.

Definition ReceiveChannel_pause (f : FutureId) (c : ReceiveChannel) : FutureValue * ReceiveChannel :=
  if d_permanentlyClosing c then (Resolved false, c)
  else if match d_consumer (c_derived c) with Some k => negb (Consumer_shouldRestart k) | None => false end
  then (Resolved false, c)
  else
    let c := ReceiveChannel_failPendingResume (modify (set_channelPausedOnOpen true) c) in
    match d_cancelFuture (c_derived c) with
    | Some g => (Pending g, c)
    | None =>
        match d_consumer (c_derived c) with
        | None => (Resolved false, c)
        | Some k =>
            if Consumer_canPause k then
              let c := emit (Counter consumer_pause_total) c in
              let (method, k') := Consumer_cancel true k in
              let c := modify (set_consumer (Some k')) c in
              if Consumer_isPaused k' then (Resolved true, c)
              else
                let c := modify (set_cancelFuture (Some f)) (emit (Callback (FutureMake f)) c) in
                (Pending f, write_optional method c)
            else (Resolved false, c)
        end
    end.

Definition ReceiveChannel_drain (f : FutureId) (c : ReceiveChannel) : FutureValue * ReceiveChannel :=
  match d_consumer (c_derived c) with
  | None =>
      if Nat.ltb 0 (MessageStore_count (d_messageStore (c_derived c)))
      then (Pending f, modify (set_drainFuture (Some f)) c)
      else (Resolved true, c)
  | Some _ => (Resolved false, c)
  end.

Definition ReceiveChannel_getMessagesOlderThan (cutoffTime : Z) (c : ReceiveChannel)
  : list (Entry Message) :=
  MessageStore_getMessagesOlderThan cutoffTime (d_messageStore (c_derived c)).

(** The destructor. *)
Definition ReceiveChannel_destroy (c : ReceiveChannel) : ReceiveChannel :=
  resolve_drain false (resolve_cancel false (resolve_consume false c)).

(** *** Acknowledgements *)

Definition AckCall_method (a : AckCall) : BasicMethod :=
  match a with
  | OnAck deliveryTag multiple => BasicMethod_Ack (mkBasicAck deliveryTag multiple)
  | OnNack deliveryTag requeue multiple => BasicMethod_Nack (mkBasicNack deliveryTag multiple requeue)
  end.

(** [sendAck], [sendNack] and [sendAckOrNack]: what the handler's callbacks are bound to. *)
Definition ReceiveChannel_sendAckOrNack (a : AckCall) (c : ReceiveChannel) : ReceiveChannel :=
  emit (AsyncWrite (AM_Method (Method_Basic (AckCall_method a)))
          (RemoveMessagesFromStore (AckCall_tag a) (AckCall_multiple a))) c.

(** The loop that keeps the acknowledgements of the current lifetime, in place. *)
Fixpoint valid_acks (lifetimeId : Z) (acks : list ConsumerAck) : list ConsumerAck :=
  match acks with
  | [] => []
  | a :: acks' =>
      if (env_channelLifetimeId (ack_envelope a) =? lifetimeId)%Z
      then a :: valid_acks lifetimeId acks' else valid_acks lifetimeId acks'
  end.

Definition ReceiveChannel_consumeAckBatchFromQueue {AS : AckSort} (c : ReceiveChannel) : ReceiveChannel :=
  match AckQueue_popFront (d_ackQ (c_derived c)) with
  | None => c
  | Some (acks, queue) =>
      let handler := d_multipleAckHandler (c_derived c) in
      match d_state c with
      | CHANNEL_CLOSE_SENT | CLOSED => modify (set_acks queue handler) c
      | _ =>
          let (calls, handler) :=
            MultipleAckHandler_process (valid_acks (ReceiveChannel_lifetimeId c) acks) handler in
          fold_left (λ c a, ReceiveChannel_sendAckOrNack a c) calls (modify (set_acks queue handler) c)
      end
  end.

(** [removeSingleMessageFromStore], [removeMultipleMessagesFromStore] and
    [removeMessagesFromStore]. *)
Definition ReceiveChannel_removeMessagesFromStore (deliveryTag : Z) (multiple : bool)
  (c : ReceiveChannel) : ReceiveChannel :=
  let store := d_messageStore (c_derived c) in
  let store := if multiple then (MessageStore_removeUntil deliveryTag store).2
               else (MessageStore_remove deliveryTag store).2 in
  let c := modify (set_messageStore store) c in
  match MessageStore_count store, d_drainFuture (c_derived c) with
  | O, Some f => emit (Callback (DrainResult f true)) c
  | _, _ => c
  end.

(** The application acknowledges a message. *)
Definition ReceiveChannel_ackMessage (a : ConsumerAck) (c : ReceiveChannel) : ReceiveChannel :=
  let (posted, queue) := ConsumerImpl_ackMessage a (d_ackQ (c_derived c)) in
  let c := modify (λ d, set_acks queue (d_multipleAckHandler d) d) c in
  if posted then emit (Callback NewAckBatch) c else c.

(** *** Virtual functions *)

Definition ReceiveChannel_onOpen (c : ReceiveChannel) : ReceiveChannel :=
  write_request (BasicMethod_QoS (mkBasicQoS 0 (d_prefetchCount (d_consumerConfig (c_derived c))) false))
    (emit TimerReset c).

Definition ReceiveChannel_onReset (c : ReceiveChannel) : ReceiveChannel :=
  let c := modify (set_nextMessage None) c in
  let c := modify (λ d, set_acks (AckQueue_removeAll (d_ackQ d))
                          (MultipleAckHandler_reset (d_multipleAckHandler d)) d) c in
  let c := match d_consumer (c_derived c) with
           | Some k =>
               if Consumer_isPaused k then modify (set_channelPausedOnOpen true) c
               else if Consumer_shouldRestart k then modify (set_consumer (Some (Consumer_reset k))) c
               else modify (set_consumer None) c
           | None => c
           end in
  resolve_drain false (resolve_cancel false (resolve_consume false c)).

Definition ReceiveChannel_processFailures (c : ReceiveChannel) : ReceiveChannel :=
  modify (λ d, set_messageStore (MessageStore_swap (d_messageStore d) MessageStore_make).1 d) c.

Definition ReceiveChannel_invalidConsumerError (consumerTag : bytes) (c : ReceiveChannel)
  : ReceiveChannel :=
  Channel_close NO_CONSUMERS (str "Bad Consumer Tag: " ++ consumerTag) NO_CLASS NO_METHOD c.

(** [d_consumer && d_consumer->consumerTag() == consumerTag] *)
Definition consumer_with (consumerTag : bytes) (c : ReceiveChannel) : option Consumer :=
  match d_consumer (c_derived c) with
  | Some k => if bool_decide (cs_tag k = consumerTag) then Some k else None
  | None => None
  end.

Definition ReceiveChannel_consumerIsActive (c : ReceiveChannel) : bool :=
  match d_consumer (c_derived c) with Some k => Consumer_isActive k | None => false end.

Definition ReceiveChannel_consumerIsPaused (c : ReceiveChannel) : bool :=
  match d_consumer (c_derived c) with Some k => Consumer_isPaused k | None => false end.

(** The case [BasicConsumeOk] of [processBasicMethod]. *)
Definition processConsumeOk (consumerTag : bytes) (c : ReceiveChannel) : ReceiveChannel :=
  let c := match consumer_with consumerTag c with
           | Some k =>
               let c := emit TimerCancel c in
               let (method, k') := Consumer_consumeOk k in
               let c := write_optional method (modify (set_consumer (Some k')) c) in
               if Consumer_isActive k' then resolve_consume true c else c
           | None => ReceiveChannel_invalidConsumerError consumerTag c
           end in
  if bool_decide (d_state c ≠ READY) && ReceiveChannel_consumerIsActive c then Channel_ready c else c.

(** The case [BasicQoSOk]. *)
Definition processQoSOk (c : ReceiveChannel) : ReceiveChannel :=
  match d_consumer (c_derived c) with
  | Some k =>
      let k := if d_channelPausedOnOpen (c_derived c) && Consumer_isNotConsuming k
               then Consumer_setPaused k else k in
      let c := modify (set_consumer (Some k)) c in
      if Consumer_isPaused k then Channel_ready (emit TimerCancel c)
      else if Consumer_isNotConsuming k then ReceiveChannel_restartConsumers c
      else c
  | None => Channel_ready c
  end.

(** The case [BasicCancelOk]. *)
Definition processCancelOk (consumerTag : bytes) (c : ReceiveChannel) : ReceiveChannel :=
  match consumer_with consumerTag c with
  | Some k =>
      let k := Consumer_cancelOk k in
      let resumeRequested := Consumer_isPaused k && negb (d_channelPausedOnOpen (c_derived c)) in
      let c := modify (set_consumer (if Consumer_isPaused k then Some k else None)) c in
      let c := if resumeRequested then c else resolve_consume false c in
      let c := if resumeRequested then resolve_cancel false c else c in
      let c := resolve_cancel true c in
      let c := Channel_ready c in
      if resumeRequested then ReceiveChannel_restartConsumers c else c
  | None => ReceiveChannel_invalidConsumerError consumerTag c
  end.

Definition ReceiveChannel_processBasicMethod (m : BasicMethod) (c : ReceiveChannel) : ReceiveChannel :=
  match m with
  | BasicMethod_Deliver d =>
      match d_nextMessage (c_derived c) with
      | Some _ => Channel_close UNEXPECTED_FRAME (str "Expected Content") NO_CLASS NO_METHOD c
      | None => modify (set_nextMessage (Some d)) c
      end
  | BasicMethod_ConsumeOk ok => processConsumeOk (BasicConsumeOk_consumerTag ok) c
  | BasicMethod_QoSOk _ => processQoSOk c
  | BasicMethod_Cancel k =>
      match consumer_with (BasicCancel_consumerTag k) c with
      | Some _ => Channel_close REPLY_SUCCESS (str "Closing Channel due to consumer cancel")
                    NO_CLASS NO_METHOD c
      | None => ReceiveChannel_invalidConsumerError (BasicCancel_consumerTag k) c
      end
  | BasicMethod_CancelOk ok => processCancelOk (BasicCancelOk_consumerTag ok) c
  | _ => c
  end.

Definition ReceiveChannel_processMessage (clock : Z → Z) (m : Message) (c : ReceiveChannel)
  : ReceiveChannel :=
  match d_nextMessage (c_derived c) with
  | None => Channel_close UNEXPECTED_FRAME (str "Expected BasicDeliver") NO_CLASS NO_METHOD c
  | Some d =>
      let tag := BasicDeliver_deliveryTag d in
      let (inserted, store) := MessageStore_insert (clock tag) tag m (d_messageStore (c_derived c)) in
      if negb inserted then Channel_close NOT_ALLOWED (str "Duplicate DeliveryTag") NO_CLASS NO_METHOD c
      else
        let c := modify (set_messageStore store) c in
        match consumer_with (BasicDeliver_consumerTag d) c with
        | Some _ =>
            let c := emit (Counter received_messages) c in
            let c := emit (Callback (OnNewMessage m (Consumer_envelope d (ReceiveChannel_lifetimeId c)))) c in
            modify (set_nextMessage None) c
        | None => Channel_close NOT_FOUND (str "Invalid ConsumerTag") NO_CLASS NO_METHOD c
        end
  end.

#[global] Instance ReceiveChannel_hooks (clock : Z → Z) : ChannelHooks ReceiveState ReceiveEvent := {|
  processBasicMethod := ReceiveChannel_processBasicMethod;
  processConfirmMethod _ c := c;
  processMessage := ReceiveChannel_processMessage clock;
  onOpen := ReceiveChannel_onOpen;
  onReset := ReceiveChannel_onReset;
  onFlowAllowed c := c;
  processFailures := ReceiveChannel_processFailures;
|}.

(** A call of an operation of a receive channel. *)
Inductive ReceiveOp :=
| Recv_channel (op : ChannelOp)
| Recv_consume (hp : Heap) (queue : QueueHandle) (consumerTag : bytes)
| Recv_resume (f : FutureId)
| Recv_cancel (f : FutureId)
| Recv_pause (f : FutureId)
| Recv_drain (f : FutureId)
| Recv_ackMessage (a : ConsumerAck)
| Recv_consumeAckBatch
| Recv_removeMessages (deliveryTag : Z) (multiple : bool).

Definition receive_op {AS : AckSort} (clock : Z → Z) (op : ReceiveOp) (c : ReceiveChannel)
  : ReceiveChannel :=
  match op with
  | Recv_channel op => channel_op (H := ReceiveChannel_hooks clock) op c
  | Recv_consume hp queue tag => (ReceiveChannel_consume hp queue tag c).2
  | Recv_resume f => (ReceiveChannel_resume f c).2
  | Recv_cancel f => (ReceiveChannel_cancel f c).2
  | Recv_pause f => (ReceiveChannel_pause f c).2
  | Recv_drain f => (ReceiveChannel_drain f c).2
  | Recv_ackMessage a => ReceiveChannel_ackMessage a c
  | Recv_consumeAckBatch => ReceiveChannel_consumeAckBatchFromQueue c
  | Recv_removeMessages tag multiple => ReceiveChannel_removeMessagesFromStore tag multiple c
  end.

(** *** The virtual functions keep to the interface *)

Lemma receive_modify_frame f c : base_frame c (modify f c).
Proof using. apply base_frame_set_derived. Qed.

Lemma write_request_frame m c : base_frame c (write_request m c).
Proof using. by apply base_frame_writeState. Qed.

Lemma write_optional_frame m c : base_frame c (write_optional m c).
Proof using. destruct m; [apply write_request_frame | done]. Qed.

Lemma emit_frame e (c : ReceiveChannel) : is_open_write e = false → base_frame c (emit e c).
Proof using. apply base_frame_emit. Qed.

(** One step back through a composed operation. *)
Ltac frame_step :=
  first
    [ reflexivity
    | etrans; [| apply receive_modify_frame]
    | etrans; [| apply base_frame_close]
    | etrans; [| apply base_frame_ready]
    | etrans; [| apply write_request_frame]
    | etrans; [| apply write_optional_frame]
    | etrans; [| by apply emit_frame] ].

Lemma resolve_consume_frame ok c : base_frame c (resolve_consume ok c).
Proof using. unfold resolve_consume. case_match; by repeat frame_step. Qed.

Lemma resolve_cancel_frame ok c : base_frame c (resolve_cancel ok c).
Proof using. unfold resolve_cancel. case_match; by repeat frame_step. Qed.

Lemma resolve_drain_frame ok c : base_frame c (resolve_drain ok c).
Proof using. unfold resolve_drain. case_match; by repeat frame_step. Qed.

Lemma restartConsumers_frame c : base_frame c (ReceiveChannel_restartConsumers c).
Proof using.
  unfold ReceiveChannel_restartConsumers. repeat case_match; by repeat frame_step.
Qed.

#[local] Hint Resolve resolve_consume_frame resolve_cancel_frame resolve_drain_frame
  restartConsumers_frame : channel.

Lemma processConsumeOk_frame tag c : base_frame c (processConsumeOk tag c).
Proof using.
  unfold processConsumeOk. case_match; destruct (consumer_with tag c) as [k |];
    try (destruct (Consumer_consumeOk k) as [m k']; case_match);
    repeat frame_step; try (etrans; [| apply resolve_consume_frame]); by repeat frame_step.
Qed.

Lemma processQoSOk_frame c : base_frame c (processQoSOk c).
Proof using.
  unfold processQoSOk. destruct (d_consumer _); [| by repeat frame_step].
  repeat case_match; repeat frame_step; etrans; [| apply restartConsumers_frame]; by repeat frame_step.
Qed.

Lemma processCancelOk_frame tag c : base_frame c (processCancelOk tag c).
Proof using.
  unfold processCancelOk. destruct (consumer_with tag c) as [k |]; [| by repeat frame_step].
  case_match; [etrans; [| apply restartConsumers_frame] |]; repeat frame_step;
    (etrans; [| apply resolve_cancel_frame]);
    (etrans; [| first [apply resolve_cancel_frame | apply resolve_consume_frame]]); by repeat frame_step.
Qed.

#[global] Instance ReceiveChannel_hooksLaws clock : ChannelHooksLaws (ReceiveChannel_hooks clock).
Proof using.
  split; intros; simpl; try done.
  - destruct m; simpl; try done; try (case_match; by repeat frame_step).
    + apply processCancelOk_frame.
    + apply processConsumeOk_frame.
    + apply processQoSOk_frame.
  - unfold ReceiveChannel_processMessage. repeat case_match; by repeat frame_step.
  - unfold ReceiveChannel_onOpen. by repeat frame_step.
  - unfold ReceiveChannel_onReset. cbv zeta.
    etrans; [| apply resolve_drain_frame]. etrans; [| apply resolve_cancel_frame].
    etrans; [| apply resolve_consume_frame]. repeat case_match; by repeat frame_step.
  - unfold ReceiveChannel_processFailures. by repeat frame_step.
Qed.

(** ** Projections of the trace *)

(** The effects since the last reset. *)
Definition live_step (acc : list (Effect ReceiveEvent)) (e : Effect ReceiveEvent)
  : list (Effect ReceiveEvent) :=
  match e with Counter channel_disconnected => [] | _ => acc ++ [e] end.

Definition since_reset (es : list (Effect ReceiveEvent)) : list (Effect ReceiveEvent) :=
  fold_left live_step es [].

Definition live (c : ReceiveChannel) : list (Effect ReceiveEvent) := since_reset (c_trace c).

Definition event_of (e : Effect ReceiveEvent) : option ReceiveEvent :=
  match e with Callback x => Some x | _ => None end.

Definition events (c : ReceiveChannel) : list ReceiveEvent := omap event_of (c_trace c).

Definition is_reset (e : Effect ReceiveEvent) : bool :=
  match e with Counter channel_disconnected => true | _ => false end.

Lemma since_reset_app es es' :
  Forall (λ e, is_reset e = false) es' → since_reset (es ++ es') = since_reset es ++ es'.
Proof using.
  unfold since_reset. rewrite fold_left_app. generalize (fold_left live_step es []) as acc.
  intros acc Hes. revert acc. induction Hes as [| e es' He Hes IH]; intros acc; simpl.
  - by rewrite app_nil_r.
  - rewrite IH. destruct e as [| | | | | | | | [] | |]; simpl in *; try done; by rewrite <- app_assoc.
Qed.

Lemma live_emits es c : Forall (λ e, is_reset e = false) es → live (emits es c) = live c ++ es.
Proof using. apply since_reset_app. Qed.

Lemma live_emit e c : is_reset e = false → live (emit e c) = live c ++ [e].
Proof using. intros He. apply live_emits. by constructor. Qed.
End ReceiveChannel.
