(* ===== verification/ReceiveConsumer.v ===== *)
(** * ReceiveConsumer: the consumer's state and its futures

    The invariant of [ReceiveChannel] that relates the consumer's state, the futures
    of [resume], [cancel] and [pause], and the flag that the channel is to be paused;
    every operation keeps it, whatever the broker sends. *)

From Stdlib Require Import ZArith Lia String Strings.Byte.
From stdpp Require Import base tactics list gmap.
From S2P Require Import Prelude Constants Wire FieldValue Props Methods Method Message.
From S2P Require Import Framer MessageStore MultipleAck AckQueue Topology Channel ReceiveChannel.

Section ReceiveConsumer.
Context {E : EpochUtil} {G : GuidUtil}.

Abbreviation ReceiveChannel := (Channel ReceiveState ReceiveEvent).

(** ** Futures and the consumer's state *)

Definition futures_made (c : ReceiveChannel) : list FutureId :=
  omap (λ x, match x with FutureMake f => Some f | _ => None end) (events c).

Definition futures_resolved (c : ReceiveChannel) : list FutureId :=
  omap (λ x, match x with FutureResult f _ => Some f | _ => None end) (events c).

(** The futures of [resume], [cancel] and [pause] the channel still has to resolve. *)
Definition futures_held (c : ReceiveChannel) : list FutureId :=
  option_list (d_consumeFuture (c_derived c)) ++ option_list (d_cancelFuture (c_derived c)).

Definition futures_inv (c : ReceiveChannel) : Prop :=
  futures_made c ≡ₚ futures_resolved c ++ futures_held c.

(** What the channel's members say about the consumer between two operations. *)
Definition consumer_ok (d : ReceiveState) : Prop :=
  match d_consumer d with
  | None => d_consumeFuture d = None ∧ d_cancelFuture d = None
  | Some k =>
      match cs_state k with
      | NOT_CONSUMING =>
          d_cancelFuture d = None ∧ (is_Some (d_consumeFuture d) → d_channelPausedOnOpen d = false)
      | STARTING => d_cancelFuture d = None ∧ d_channelPausedOnOpen d = false
      | CONSUMING =>
          d_consumeFuture d = None ∧ d_cancelFuture d = None ∧ d_channelPausedOnOpen d = false
      | PAUSING =>
          is_Some (d_cancelFuture d) ∧ (is_Some (d_consumeFuture d) ↔ d_channelPausedOnOpen d = false)
      | PAUSED =>
          d_consumeFuture d = None ∧ d_cancelFuture d = None ∧ d_channelPausedOnOpen d = true
      | CANCELLING => d_consumeFuture d = None ∧ is_Some (d_cancelFuture d)
      | CANCELLED => False
      end
  end.

Definition keeps_futures (c c' : ReceiveChannel) : Prop := futures_inv c → futures_inv c'.

#[global] Instance keeps_futures_preorder : PreOrder keeps_futures.
Proof using. split; [intros c Hi; exact Hi | intros c1 c2 c3 H12 H23 Hi; auto]. Qed.

Definition is_future_event (e : Effect ReceiveEvent) : bool :=
  match e with Callback (FutureMake _) | Callback (FutureResult _ _) => true | _ => false end.

Lemma futures_emits es c :
  Forall (λ e, is_future_event e = false) es →
  futures_made (emits es c) = futures_made c ∧ futures_resolved (emits es c) = futures_resolved c.
Proof using.
  intros Hes. unfold futures_made, futures_resolved, events. simpl. rewrite !omap_app.
  assert (∀ {B} (g : ReceiveEvent → option B), (∀ e x, event_of e = Some x → is_future_event e = false → g x = None) →
            omap g (omap event_of es) = []) as Hg.
  { intros B g Hgx. induction Hes as [| e es He Hes IH]; [done |]. simpl.
    destruct (event_of e) as [x |] eqn:Hx; simpl; [rewrite (Hgx e x Hx He) |]; exact IH. }
  rewrite !Hg, !app_nil_r; [done | |]; intros [] y; try done; simpl; intros [= <-]; by case_match.
Qed.

Lemma keeps_emits es c : Forall (λ e, is_future_event e = false) es → keeps_futures c (emits es c).
Proof using.
  intros Hes. unfold keeps_futures, futures_inv. destruct (futures_emits es c Hes) as [-> ->]. done.
Qed.

Lemma keeps_emit e c : is_future_event e = false → keeps_futures c (emit e c).
Proof using. intros He. apply keeps_emits. by constructor. Qed.

Lemma keeps_same c c' :
  c_trace c' = c_trace c → futures_held c' = futures_held c → keeps_futures c c'.
Proof using.
  unfold keeps_futures, futures_inv, futures_made, futures_resolved, events. intros -> -> Hi. exact Hi.
Qed.

Lemma futures_ready c : keeps_futures c (Channel_ready c).
Proof using.
  unfold Channel_ready. etrans; [by apply (keeps_emit TimerCancel) |].
  etrans; [| by apply (keeps_emit (Counter channel_ready))].
  etrans; [by apply (keeps_same _ (set_state READY (emit TimerCancel c))) |].
  set (c' := set_state READY (emit TimerCancel c)).
  etrans; [| by apply (keeps_same (emits ((λ f, FutureSet f true) <$> d_readyMade c') c'))].
  apply keeps_emits. apply Forall_fmap, Forall_forall. done.
Qed.

Lemma futures_writeState m s c : keeps_futures c (Channel_writeState m s c).
Proof using.
  unfold Channel_writeState. etrans; [| by apply keeps_emit].
  destruct s; try (by apply keeps_same). apply futures_ready.
Qed.

Lemma futures_close code text cl me c : keeps_futures c (Channel_close code text cl me c).
Proof using. apply futures_writeState. Qed.

Lemma keeps_modify f c :
  (∀ d, d_consumeFuture (f d) = d_consumeFuture d ∧ d_cancelFuture (f d) = d_cancelFuture d) →
  keeps_futures c (modify f c).
Proof using.
  intros Hf. apply keeps_same; [done |]. unfold futures_held. simpl.
  by destruct (Hf (c_derived c)) as [-> ->].
Qed.

Lemma keeps_write_optional m c : keeps_futures c (write_optional m c).
Proof using. destruct m; [apply futures_writeState | done]. Qed.

Lemma futures_emit_callback x c :
  futures_made (emit (Callback x) c)
  = futures_made c ++ match x with FutureMake f => [f] | _ => [] end ∧
  futures_resolved (emit (Callback x) c)
  = futures_resolved c ++ match x with FutureResult f _ => [f] | _ => [] end.
Proof using.
  unfold futures_made, futures_resolved, events. simpl. rewrite !omap_app. by destruct x.
Qed.

(** A future is made or resolved: its slot [Hf] changes accordingly. *)
Ltac future_event x c Hf :=
  change (futures_made (modify ?g ?d)) with (futures_made d);
  change (futures_resolved (modify ?g ?d)) with (futures_resolved d);
  destruct (futures_emit_callback x c) as [-> ->];
  unfold futures_held; simpl; rewrite Hf; simpl; intros ->; solve_Permutation.

Lemma keeps_resolve_consume ok c : keeps_futures c (resolve_consume ok c).
Proof using.
  unfold resolve_consume, keeps_futures, futures_inv. destruct (d_consumeFuture (c_derived c)) as [f |] eqn:Hf; [| done].
  future_event (FutureResult f ok) c Hf.
Qed.

Lemma keeps_resolve_cancel ok c : keeps_futures c (resolve_cancel ok c).
Proof using.
  unfold resolve_cancel, keeps_futures, futures_inv. destruct (d_cancelFuture (c_derived c)) as [f |] eqn:Hf; [| done].
  future_event (FutureResult f ok) c Hf.
Qed.

Lemma keeps_resolve_drain ok c : keeps_futures c (resolve_drain ok c).
Proof using.
  unfold resolve_drain. case_match; [| done].
  etrans; [| by apply keeps_modify]. by apply keeps_emit.
Qed.

(** A new future in an empty slot. *)
Lemma keeps_make_consume f c :
  d_consumeFuture (c_derived c) = None →
  keeps_futures c (modify (set_consumeFuture (Some f)) (emit (Callback (FutureMake f)) c)).
Proof using.
  unfold keeps_futures, futures_inv. intros Hf.
  future_event (FutureMake f) c Hf.
Qed.

Lemma keeps_make_cancel f c :
  d_cancelFuture (c_derived c) = None →
  keeps_futures c (modify (set_cancelFuture (Some f)) (emit (Callback (FutureMake f)) c)).
Proof using.
  unfold keeps_futures, futures_inv. intros Hf.
  future_event (FutureMake f) c Hf.
Qed.

(** *** The members after the parts of an operation *)

Lemma derived_resolve_consume ok c :
  c_derived (resolve_consume ok c) = set_consumeFuture None (c_derived c).
Proof using.
  unfold resolve_consume. destruct (d_consumeFuture (c_derived c)) eqn:Hf; [done |].
  destruct (c_derived c). simpl in Hf. by subst.
Qed.

Lemma derived_resolve_cancel ok c :
  c_derived (resolve_cancel ok c) = set_cancelFuture None (c_derived c).
Proof using.
  unfold resolve_cancel. destruct (d_cancelFuture (c_derived c)) eqn:Hf; [done |].
  destruct (c_derived c). simpl in Hf. by subst.
Qed.

Lemma derived_resolve_drain ok c :
  c_derived (resolve_drain ok c) = set_drainFuture None (c_derived c).
Proof using.
  unfold resolve_drain. destruct (d_drainFuture (c_derived c)) eqn:Hf; [done |].
  destruct (c_derived c). simpl in Hf. by subst.
Qed.

Lemma derived_write_optional m c : c_derived (write_optional m c) = c_derived c.
Proof using. by destruct m. Qed.

(** [restartConsumers] on the members. *)
Definition restarted (d : ReceiveState) : ReceiveState :=
  set_consumer (match d_consumer d with
                | Some k => Some (Consumer_consume (d_consumerConfig d) k).2
                | None => None
                end) d.

Lemma derived_restartConsumers c :
  c_derived (ReceiveChannel_restartConsumers c) = restarted (c_derived c).
Proof using.
  unfold ReceiveChannel_restartConsumers, restarted.
  destruct (d_consumer (c_derived c)) as [k |] eqn:Hk.
  - destruct (Consumer_consume _ k) as [[m |] k']; done.
  - destruct (c_derived c). simpl in Hk. by subst.
Qed.

Lemma keeps_restartConsumers c : keeps_futures c (ReceiveChannel_restartConsumers c).
Proof using.
  unfold ReceiveChannel_restartConsumers. destruct (d_consumer _); [| done].
  destruct (Consumer_consume _ _) as [[m |] k']; [| by apply keeps_modify].
  etrans; [by apply (keeps_modify (set_consumer (Some k'))) |].
  etrans; [| apply futures_writeState]. by apply keeps_emit.
Qed.

#[local] Hint Rewrite derived_resolve_consume derived_resolve_cancel derived_resolve_drain
  derived_write_optional derived_restartConsumers : receive.

(** The invariant of the consumer and its futures. *)
Definition consumer_inv (c : ReceiveChannel) : Prop := consumer_ok (c_derived c) ∧ futures_inv c.

Definition keeps_consumer (c c' : ReceiveChannel) : Prop := consumer_inv c → consumer_inv c'.

#[global] Instance keeps_consumer_preorder : PreOrder keeps_consumer.
Proof using. split; [intros c Hi; exact Hi | intros c1 c2 c3 H12 H23 Hi; auto]. Qed.

Lemma keeps_consumer_split c c' :
  (consumer_ok (c_derived c) → consumer_ok (c_derived c')) → 
  (consumer_ok (c_derived c) → keeps_futures c c') → keeps_consumer c c'.
Proof using. intros Hk Hf [Hck Hi]. split; [by apply Hk | by apply Hf]. Qed.

Lemma keeps_consumer_derived c c' :
  c_derived c' = c_derived c → keeps_futures c c' → keeps_consumer c c'.
Proof using. intros Hd Hf. apply keeps_consumer_split; [by rewrite Hd | done]. Qed.

(** One step back through a composed operation. *)
Ltac futures_step :=
  lazymatch goal with
  | |- keeps_futures ?c ?c => reflexivity
  | |- keeps_futures _ (Channel_ready _) => etrans; [| apply futures_ready]
  | |- keeps_futures _ (Channel_close _ _ _ _ _) => etrans; [| apply futures_close]
  | |- keeps_futures _ (ReceiveChannel_invalidConsumerError _ _) => etrans; [| apply futures_close]
  | |- keeps_futures _ (Channel_writeState _ _ _) => etrans; [| apply futures_writeState]
  | |- keeps_futures _ (write_request _ _) => etrans; [| apply futures_writeState]
  | |- keeps_futures _ (write_optional _ _) => etrans; [| apply keeps_write_optional]
  | |- keeps_futures _ (ReceiveChannel_restartConsumers _) => etrans; [| apply keeps_restartConsumers]
  | |- keeps_futures _ (resolve_consume _ _) => etrans; [| apply keeps_resolve_consume]
  | |- keeps_futures _ (resolve_cancel _ _) => etrans; [| apply keeps_resolve_cancel]
  | |- keeps_futures _ (resolve_drain _ _) => etrans; [| apply keeps_resolve_drain]
  | |- keeps_futures _ (modify ?f _) => etrans; [| by apply (keeps_modify f)]
  | |- keeps_futures _ (emit ?e _) => etrans; [| by apply (keeps_emit e)]
  end.

Lemma is_open_modify f c : is_open (modify f c) = is_open c.
Proof using. done. Qed.

Lemma is_open_emit e (c : ReceiveChannel) : is_open (emit e c) = is_open c.
Proof using. done. Qed.

#[local] Hint Rewrite is_open_modify is_open_emit : receive.

#[local] Arguments is_open : simpl never.

Lemma consume_keeps hp queue tag c : keeps_consumer c (ReceiveChannel_consume hp queue tag c).2.
Proof using.
  unfold ReceiveChannel_consume. destruct (lockQueue hp queue) as [q |]; [| done].
  destruct (d_consumer (c_derived c)) as [k |] eqn:Hk; simpl.
  { apply keeps_consumer_derived; [done |]. by apply keeps_emit. }
  apply keeps_consumer_split.
  - unfold consumer_ok at 1. rewrite Hk. intros [Hf Hg].
    destruct (d_channelPausedOnOpen (c_derived c)) eqn:Hp; simpl.
    + unfold consumer_ok. simpl. by rewrite Hf, Hg, Hp.
    + case_match; simpl; autorewrite with receive; unfold consumer_ok; simpl; rewrite ?Hf, ?Hg, ?Hp; naive_solver.
  - intros _. repeat case_match; simpl; by repeat futures_step.
Qed.


(** The members of a channel with a known consumer, case by case. *)
Ltac members_cases c Hd :=
  destruct (c_derived c) as [? [[[] ? ?] |] ? ? ? ? [? |] [? |] ? []]
    eqn:Hd; simpl.

Lemma resume_keeps f c : keeps_consumer c (ReceiveChannel_resume f c).2.
Proof using.
  unfold ReceiveChannel_resume. case_match; [done |]. apply keeps_consumer_split.
  - members_cases c Hd; autorewrite with receive; try (destruct (is_open c)); simpl;
      autorewrite with receive; simpl; rewrite ?Hd; unfold consumer_ok; simpl; naive_solver.
  - intros _. destruct (d_consumer (c_derived c)) as [k |]; destruct (d_consumeFuture (c_derived c)) eqn:Hf;
      simpl; [repeat case_match; done | | done | by futures_step].
    repeat case_match; simpl; try done; repeat futures_step;
      (etrans; [| apply keeps_make_consume; exact Hf]); by repeat futures_step.
Qed.

(** The members after an operation satisfy [consumer_ok], by cases. *)
Ltac members_ok c :=
  let Hd := fresh "Hd" in
  members_cases c Hd; autorewrite with receive; try (destruct (is_open c)); simpl;
  autorewrite with receive; simpl; rewrite ?Hd; unfold consumer_ok; simpl; naive_solver.

Lemma cancel_keeps f c : keeps_consumer c (ReceiveChannel_cancel f c).2.
Proof using.
  unfold ReceiveChannel_cancel, ReceiveChannel_failPendingResume.
  set (c1 := resolve_consume false c).
  assert (c_derived c1 = set_consumeFuture None (c_derived c)) as Hc1 by apply derived_resolve_consume.
  apply keeps_consumer_split.
  - rewrite Hc1. members_cases c Hd; autorewrite with receive; simpl; rewrite ?Hc1, ?Hd;
      unfold consumer_ok; simpl; naive_solver.
  - intros _. etrans; [apply (keeps_resolve_consume false) |]. fold c1. clearbody c1.
    destruct (d_cancelFuture (c_derived c1)) eqn:Hf;
      destruct (d_consumer (c_derived c1)) as [k |]; simpl; try done.
    { destruct (Consumer_isPausing k); simpl; [| done]. by apply keeps_modify. }
    { by apply keeps_emit. }
    destruct (Consumer_cancel false k) as [m k']. repeat case_match; simpl; repeat futures_step.
    by apply keeps_make_cancel.
Qed.

Lemma pause_keeps f c : keeps_consumer c (ReceiveChannel_pause f c).2.
Proof using.
  unfold ReceiveChannel_pause, ReceiveChannel_failPendingResume. case_match; [done |].
  set (c1 := resolve_consume false _).
  assert (c_derived c1 = set_consumeFuture None (set_channelPausedOnOpen true (c_derived c))) as Hc1
    by apply derived_resolve_consume.
  apply keeps_consumer_split.
  - rewrite Hc1. members_cases c Hd; autorewrite with receive; simpl; rewrite ?Hc1, ?Hd;
      unfold consumer_ok; simpl; naive_solver.
  - intros _. case_match; [done |].
    etrans; [by apply (keeps_modify (set_channelPausedOnOpen true)) |].
    etrans; [apply (keeps_resolve_consume false) |]. fold c1. clearbody c1.
    destruct (d_cancelFuture (c_derived c1)) eqn:Hf; [done |].
    destruct (d_consumer (c_derived c1)) as [k |]; [| done].
    destruct (Consumer_cancel true k) as [m k'].
    destruct (Consumer_canPause k); [| done]. destruct (Consumer_isPaused k'); simpl; repeat futures_step.
    etrans; [| by apply keeps_make_cancel]. by repeat futures_step.
Qed.

Lemma drain_keeps f c : keeps_consumer c (ReceiveChannel_drain f c).2.
Proof using.
  unfold ReceiveChannel_drain. repeat case_match; try done.
  apply keeps_consumer_split; [done | intros _; by apply keeps_modify].
Qed.

Lemma ackMessage_keeps a c : keeps_consumer c (ReceiveChannel_ackMessage a c).
Proof using.
  unfold ReceiveChannel_ackMessage. destruct (ConsumerImpl_ackMessage _ _) as [posted q].
  apply keeps_consumer_split; [by destruct posted | intros _]. case_match; by repeat futures_step.
Qed.

Lemma sendAcks_keeps calls : ∀ c,
  keeps_consumer c (fold_left (λ c a, ReceiveChannel_sendAckOrNack a c) calls c).
Proof using.
  induction calls as [| a calls IH]; intros c; simpl; [done |]. etrans; [| apply IH].
  apply keeps_consumer_derived; [done |]. by apply keeps_emit.
Qed.

Lemma consumeAckBatch_keeps {AS : AckSort} c :
  keeps_consumer c (ReceiveChannel_consumeAckBatchFromQueue c).
Proof using.
  unfold ReceiveChannel_consumeAckBatchFromQueue.
  destruct (AckQueue_popFront _) as [[acks q] |]; [| done].
  destruct (MultipleAckHandler_process _ _) as [calls h].
  assert (∀ h, keeps_consumer c (modify (set_acks q h) c)) as Hm
    by (intros h'; apply keeps_consumer_split; [done | intros _; by apply keeps_modify]).
  case_match; try apply Hm; (etrans; [apply (Hm h) | apply sendAcks_keeps]).
Qed.

Lemma removeMessages_keeps tag multiple c :
  keeps_consumer c (ReceiveChannel_removeMessagesFromStore tag multiple c).
Proof using.
  unfold ReceiveChannel_removeMessagesFromStore. apply keeps_consumer_split.
  - by repeat case_match.
  - intros _. repeat case_match; by repeat futures_step.
Qed.

(** *** The broker's methods *)

Lemma consumer_with_Some tag c k :
  consumer_with tag c = Some k → d_consumer (c_derived c) = Some k ∧ cs_tag k = tag.
Proof using.
  unfold consumer_with. destruct (d_consumer (c_derived c)) as [k' |]; [| done].
  destruct (bool_decide_reflect (cs_tag k' = tag)); [| done]. by intros [= ->].
Qed.

Lemma processConsumeOk_keeps tag c : keeps_consumer c (processConsumeOk tag c).
Proof using.
  unfold processConsumeOk. cbv zeta. set (c1 := match consumer_with tag c with Some _ => _ | None => _ end).
  transitivity c1; [unfold c1 | case_match; [apply keeps_consumer_derived; [done | apply futures_ready] | done]].
  destruct (consumer_with tag c) as [k |] eqn:Hw;
    [| apply keeps_consumer_derived; [done | apply futures_close]].
  apply consumer_with_Some in Hw as [Hk _]. apply keeps_consumer_split.
  - members_cases c Hd; simpl in Hk; simplify_eq; simpl; autorewrite with receive; simpl; rewrite ?Hd;
      unfold consumer_ok; simpl; naive_solver.
  - intros _. destruct (Consumer_consumeOk k) as [m k']. case_match; by repeat futures_step.
Qed.

Lemma processQoSOk_keeps c : keeps_consumer c (processQoSOk c).
Proof using.
  unfold processQoSOk. apply keeps_consumer_split.
  - members_cases c Hd; autorewrite with receive; simpl; rewrite ?Hd; unfold consumer_ok; simpl; naive_solver.
  - intros _. destruct (d_consumer (c_derived c)) as [k |]; repeat case_match; by repeat futures_step.
Qed.

Lemma processCancelOk_keeps tag c : keeps_consumer c (processCancelOk tag c).
Proof using.
  unfold processCancelOk.
  destruct (consumer_with tag c) as [k |] eqn:Hw;
    [| apply keeps_consumer_derived; [done | apply futures_close]].
  apply consumer_with_Some in Hw as [Hk _]. apply keeps_consumer_split.
  - members_cases c Hd; simpl in Hk; simplify_eq; simpl; autorewrite with receive; simpl;
      autorewrite with receive; simpl; rewrite ?Hd; unfold consumer_ok; simpl; naive_solver.
  - intros _. repeat case_match; by repeat futures_step.
Qed.

Lemma processContent_keeps clock m c : keeps_consumer c (ReceiveChannel_processMessage clock m c).
Proof using.
  unfold ReceiveChannel_processMessage. repeat case_match;
    (apply keeps_consumer_split; [done | intros _; by repeat futures_step]).
Qed.

Lemma reset_keeps clock b c :
  keeps_consumer c (Channel_reset (H := ReceiveChannel_hooks clock) b c).2.
Proof using.
  assert (∀ e c', is_future_event e = false → keeps_consumer c' (emit e c')) as He
    by (intros e c' He; apply keeps_consumer_derived; [done | by apply keeps_emit]).
  transitivity (ReceiveChannel_onReset (ReceiveChannel_processFailures (set_state CLOSED c))).
  - unfold ReceiveChannel_onReset, ReceiveChannel_processFailures. cbv zeta. apply keeps_consumer_split.
    + autorewrite with receive. simpl. members_cases c Hd; rewrite ?Hd; unfold consumer_ok; simpl; naive_solver.
    + intros _. do 3 futures_step. etrans; [by apply (keeps_same c (set_state CLOSED c)) |].
      repeat case_match; by repeat futures_step.
  - unfold Channel_reset. simpl. destruct b; [| by apply He]. etrans; [by apply (He Retry) | by apply He].
Qed.

Lemma keeps_consumer_closed clock : channel_closed (H := ReceiveChannel_hooks clock) keeps_consumer.
Proof using.
  split; intros; try apply _;
    try (apply keeps_consumer_derived; [done | by apply keeps_same]).
  - apply keeps_consumer_derived; [done |]. apply keeps_emit. by destruct e as [| | | | | | | | | [] |].
  - unfold Channel_open. case_match; [done |]. apply keeps_consumer_derived; [done |]. by repeat futures_step.
  - apply (reset_keeps clock).
  - destruct m; cbn [processBasicMethod ReceiveChannel_hooks ReceiveChannel_processBasicMethod]; try reflexivity.
    + destruct (consumer_with _ _); (apply keeps_consumer_derived; [done | apply futures_close]).
    + apply processCancelOk_keeps.
    + apply processConsumeOk_keeps.
    + destruct (d_nextMessage _); [apply keeps_consumer_derived; [done | apply futures_close] |].
      apply keeps_consumer_split; [done | intros _; by repeat futures_step].
    + apply processQoSOk_keeps.
  - apply processContent_keeps.
  - apply keeps_consumer_derived; [done |]. simpl. unfold ReceiveChannel_onOpen. by repeat futures_step.
Qed.

Lemma receive_op_keeps {AS : AckSort} clock op c : keeps_consumer c (receive_op clock op c).
Proof using.
  destruct op; cbn [receive_op].
  - apply channel_op_closed, keeps_consumer_closed.
  - apply consume_keeps.
  - apply resume_keeps.
  - apply cancel_keeps.
  - apply pause_keeps.
  - apply drain_keeps.
  - apply ackMessage_keeps.
  - apply consumeAckBatch_keeps.
  - apply removeMessages_keeps.
Qed.

(** The calls of a channel's lifetime, each with the clock during the call. *)
Definition receive_run {AS : AckSort} (ops : list ((Z → Z) * ReceiveOp)) (c : ReceiveChannel)
  : ReceiveChannel :=
  fold_left (λ c op, receive_op op.1 op.2 c) ops c.

Lemma receive_run_inv {AS : AckSort} tp config paused ops :
  consumer_inv (receive_run ops (ReceiveChannel_make tp config paused)).
Proof using.
  assert (consumer_inv (ReceiveChannel_make tp config paused)) as Hi by (split; [by split | apply Permutation_refl]).
  revert Hi. generalize (ReceiveChannel_make tp config paused) as c.
  induction ops as [| [clock op] ops IH]; intros c Hi; simpl; [done |].
  apply IH. by apply (receive_op_keeps clock op).
Qed.

(** C11: The futures of [resume], [pause] and [cancel] are neither lost nor resolved
    twice, and none is left behind. After any sequence of calls by the application,
    the broker (any methods in any order), the connection and the event loop, the
    futures handed out are exactly, counted with multiplicity, those that were
    resolved and the at most two the channel still holds; a future held for a resume means that the
    consumer is on its way to consuming, and one held for a cancel or pause is held
    exactly while the consumer is CANCELLING or PAUSING, that is until the broker's
    reply or the next reset. In particular [cancel] never dereferences a null
    consumer. *)
Theorem consumer_futures_accounted {AS : AckSort} tp config paused ops :
  let c := receive_run ops (ReceiveChannel_make tp config paused) in
  let state := cs_state <$> d_consumer (c_derived c) in
  futures_made c ≡ₚ futures_resolved c ++ futures_held c ∧
  (is_Some (d_consumeFuture (c_derived c)) →
     (state = Some NOT_CONSUMING ∨ state = Some STARTING ∨ state = Some PAUSING) ∧
     d_channelPausedOnOpen (c_derived c) = false) ∧
  (is_Some (d_cancelFuture (c_derived c)) ↔ state = Some PAUSING ∨ state = Some CANCELLING) ∧
  (state = Some PAUSED → d_channelPausedOnOpen (c_derived c) = true) ∧
  (state = Some STARTING ∨ state = Some CONSUMING → d_channelPausedOnOpen (c_derived c) = false).
Proof using.
  cbv zeta. destruct (receive_run_inv tp config paused ops) as [Hk Hf]. split; [exact Hf |].
  revert Hk. generalize (c_derived (receive_run ops (ReceiveChannel_make tp config paused))) as d.
  intros d. unfold consumer_ok. destruct (d_consumer d) as [k |]; simpl.
  - destruct (cs_state k), (d_consumeFuture d), (d_cancelFuture d), (d_channelPausedOnOpen d); naive_solver.
  - intros [-> ->]. naive_solver.
Qed.
End ReceiveConsumer.
