(* ===== verification/ReceiveSession.v ===== *)
(** * ReceiveSession: a receive channel and its broker

    What a receive channel writes when the broker answers its requests in order: the
    requests [basic.consume] and [basic.cancel] of a session, and the consumer's state
    after a reconnection. *)

From Stdlib Require Import ZArith Lia String Strings.Byte.
From stdpp Require Import base tactics list gmap.
From S2P Require Import Prelude Constants Wire FieldValue Props Methods Method Message.
From S2P Require Import Framer MessageStore MultipleAck AckQueue Topology Channel ReceiveChannel.
From S2P Require Import ReceiveConsumer.

(** A request about a consumer, with its tag. *)
Inductive Request := ReqConsume (tag : bytes) | ReqCancel (tag : bytes).

#[export] Instance Request_eq_dec : EqDecision Request.
Proof. solve_decision. Defined.

(** The consumer the broker has registered on the channel, after a request. [None]:
    the request is an error of the client, a second consumer with the same tag or the
    cancellation of an unknown one. *)
Definition register (r : option (option bytes)) (q : Request) : option (option bytes) :=
  match r, q with
  | Some None, ReqConsume tag => Some (Some tag)
  | Some (Some tag), ReqCancel tag' => if bool_decide (tag = tag') then Some None else None
  | _, _ => None
  end.

Definition registration (qs : list Request) : option (option bytes) := fold_left register qs (Some None).

Lemma registration_snoc qs q : registration (qs ++ [q]) = register (registration qs) q.
Proof. unfold registration. by rewrite fold_left_app. Qed.

(** [u] are the requests after the first [n]. *)
Definition unanswered (n : nat) (qs u : list Request) : Prop := ∃ done, qs = done ++ u ∧ length done = n.

Lemma unanswered_snoc n qs u q : unanswered n qs u → unanswered n (qs ++ [q]) (u ++ [q]).
Proof. intros (d & -> & Hd). exists d. by rewrite app_assoc. Qed.

Lemma unanswered_pop n qs q u : unanswered n qs (q :: u) → unanswered (S n) qs u.
Proof.
  intros (d & -> & Hd). exists (d ++ [q]). rewrite <- app_assoc, length_app. simpl. split; [done | lia].
Qed.

Lemma unanswered_lookup n qs u : unanswered n qs u → qs !! n = head u.
Proof.
  intros (d & -> & <-). rewrite lookup_app_r by lia. rewrite Nat.sub_diag. by destruct u.
Qed.

Section ReceiveSession.
Context {E : EpochUtil} {G : GuidUtil}.

Abbreviation ReceiveChannel := (Channel ReceiveState ReceiveEvent).

Definition request_of_method (m : BasicMethod) : option Request :=
  match m with
  | BasicMethod_Consume k => Some (ReqConsume (BasicConsume_consumerTag k))
  | BasicMethod_Cancel k => Some (ReqCancel (BasicCancel_consumerTag k))
  | _ => None
  end.

Definition request_of (e : Effect ReceiveEvent) : option Request :=
  match e with
  | AsyncWrite (AM_Method (Method_Basic m)) _ => request_of_method m
  | _ => None
  end.

(** The requests written since the last reset. *)
Definition requests (c : ReceiveChannel) : list Request := omap request_of (live c).

(** How often the channel was reset. *)
Definition resets (c : ReceiveChannel) : nat := length (filter (λ e, is_reset e = true) (c_trace c)).

(** The request a received method answers. *)
Definition reply_of (op : ReceiveOp) : option Request :=
  match op with
  | Recv_channel (Op_processReceived _ (AM_Method (Method_Basic m))) =>
      match m with
      | BasicMethod_ConsumeOk ok => Some (ReqConsume (BasicConsumeOk_consumerTag ok))
      | BasicMethod_CancelOk ok => Some (ReqCancel (BasicCancelOk_consumerTag ok))
      | _ => None
      end
  | _ => None
  end.

(** The broker answers the requests of a channel that is not closed in the order they
    were written; [n] of them are answered. *)
Definition reply_expected (n : nat) (op : ReceiveOp) (c : ReceiveChannel) : Prop :=
  ∀ q, reply_of op = Some q → d_state c ≠ CLOSED → requests c !! n = Some q.

(** The number of answers after an operation; a reset starts anew. *)
Definition answered (n : nat) (op : ReceiveOp) (c c' : ReceiveChannel) : nat :=
  if bool_decide (resets c' = resets c) then
    match reply_of op with
    | Some _ => if bool_decide (d_state c = CLOSED) then n else S n
    | None => n
    end
  else 0.

(** A receive channel whose broker answers in order. *)
Inductive orderly {AS : AckSort} : nat → ReceiveChannel → Prop :=
| orderly_start tp config paused : orderly 0 (ReceiveChannel_make tp config paused)
| orderly_step n c clock op :
    orderly n c → reply_expected n op c →
    orderly (answered n op c (receive_op clock op c)) (receive_op clock op c).

(** ** The invariant

    [u] are the unanswered requests and [r] the consumer registered once the broker has
    seen all requests. *)
Definition protocol (k : option Consumer) (u : list Request) (r : option bytes) : Prop :=
  match k with
  | None => u = [] ∧ r = None
  | Some k =>
      match cs_state k with
      | NOT_CONSUMING | PAUSED => u = [] ∧ r = None
      | STARTING => u = [ReqConsume (cs_tag k)] ∧ r = Some (cs_tag k)
      | CONSUMING => u = [] ∧ r = Some (cs_tag k)
      | PAUSING | CANCELLING =>
          (u = [ReqConsume (cs_tag k)] ∧ r = Some (cs_tag k)) ∨ (u = [ReqCancel (cs_tag k)] ∧ r = None)
      | CANCELLED => False
      end
  end.

Definition session_inv (n : nat) (c : ReceiveChannel) : Prop :=
  ∃ u r, unanswered n (requests c) u ∧ registration (requests c) = Some r ∧
         protocol (d_consumer (c_derived c)) u r.

(** Effects that are neither requests nor resets. *)
Definition silent (e : Effect ReceiveEvent) : bool :=
  match request_of e with Some _ => false | None => negb (is_reset e) end.

Lemma base_effect_silent e : base_effect e = true → silent e = true.
Proof using. unfold base_effect, silent. repeat (case_match; simplify_eq; try done). Qed.

Lemma omap_silent es : Forall (λ e, silent e = true) es → omap request_of es = [].
Proof using.
  induction 1 as [| e es He _ IH]; [done |]. simpl. unfold silent in He. by destruct (request_of e).
Qed.

Lemma silent_not_reset es : Forall (λ e, silent e = true) es → Forall (λ e, is_reset e = false) es.
Proof using.
  intros Hes. eapply Forall_impl; [exact Hes |]. intros e. unfold silent. destruct (request_of e); [done |]. by destruct (is_reset e).
Qed.

Lemma requests_emits es c : Forall (λ e, silent e = true) es → requests (emits es c) = requests c.
Proof using.
  intros Hes. unfold requests. rewrite live_emits by (by apply silent_not_reset).
  by rewrite omap_app, (omap_silent es Hes), app_nil_r.
Qed.

Lemma resets_emits es c : Forall (λ e, silent e = true) es → resets (emits es c) = resets c.
Proof using.
  intros Hes. unfold resets. simpl. rewrite filter_app, length_app.
  rewrite (filter_none _ es); [simpl; lia |]. intros e He.
  pose proof (silent_not_reset _ Hes) as Hr. rewrite Forall_forall in Hr. rewrite (Hr e He). done.
Qed.

Lemma requests_write m c :
  requests (write_request m c) = requests c ++ option_list (request_of_method m) ∧
  resets (write_request m c) = resets c.
Proof using.
  unfold write_request, Channel_writeState. split.
  - unfold requests. rewrite live_emit by done. by rewrite omap_app.
  - unfold resets. simpl. rewrite filter_app, length_app. simpl. lia.
Qed.

Lemma requests_emit e c : silent e = true → requests (emit e c) = requests c.
Proof using. intros He. apply requests_emits. by constructor. Qed.

Lemma resets_emit e c : silent e = true → resets (emit e c) = resets c.
Proof using. intros He. apply resets_emits. by constructor. Qed.

Lemma requests_modify f c : requests (modify f c) = requests c.
Proof using. done. Qed.

Lemma resets_modify f c : resets (modify f c) = resets c.
Proof using. done. Qed.

Lemma ready_silent (c : ReceiveChannel) :
  requests (Channel_ready c) = requests c ∧ resets (Channel_ready c) = resets c.
Proof using.
  pose (c1 := set_state READY (emit TimerCancel c)).
  change (Channel_ready c)
    with (emit (Counter channel_ready) (set_readyMade [] (emits ((λ f, FutureSet f true) <$> d_readyMade c1) c1))).
  assert (Forall (λ e, silent e = true) ((λ f, FutureSet f true) <$> d_readyMade c1)) as Hs
    by (apply Forall_fmap, Forall_forall; done).
  rewrite requests_emit, resets_emit by done.
  change (requests (set_readyMade ?l ?x)) with (requests x). change (resets (set_readyMade ?l ?x)) with (resets x).
  rewrite requests_emits, resets_emits by done.
  change (requests c1) with (requests (emit TimerCancel c)). change (resets c1) with (resets (emit TimerCancel c)).
  by rewrite requests_emit, resets_emit by done.
Qed.

Lemma requests_ready c : requests (Channel_ready c) = requests c.
Proof using. apply ready_silent. Qed.

Lemma resets_ready c : resets (Channel_ready c) = resets c.
Proof using. apply ready_silent. Qed.

Lemma requests_close code text cl me (c : ReceiveChannel) :
  requests (Channel_close code text cl me c) = requests c.
Proof using. apply (requests_emit _ (set_state CHANNEL_CLOSE_SENT c)). done. Qed.

Lemma resets_close code text cl me (c : ReceiveChannel) :
  resets (Channel_close code text cl me c) = resets c.
Proof using. apply (resets_emit _ (set_state CHANNEL_CLOSE_SENT c)). done. Qed.

Lemma requests_write_optional m c :
  requests (write_optional m c) = requests c ++ match m with Some m => option_list (request_of_method m) | None => [] end.
Proof using. destruct m; simpl; [apply requests_write | by rewrite app_nil_r]. Qed.

Lemma resets_write_optional m c : resets (write_optional m c) = resets c.
Proof using. destruct m; simpl; [apply requests_write | done]. Qed.

Lemma requests_resolve_consume ok c : requests (resolve_consume ok c) = requests c.
Proof using. unfold resolve_consume. case_match; [| done]. by apply requests_emit. Qed.

Lemma resets_resolve_consume ok c : resets (resolve_consume ok c) = resets c.
Proof using. unfold resolve_consume. case_match; [| done]. by apply resets_emit. Qed.

Lemma requests_resolve_cancel ok c : requests (resolve_cancel ok c) = requests c.
Proof using. unfold resolve_cancel. case_match; [| done]. by apply requests_emit. Qed.

Lemma resets_resolve_cancel ok c : resets (resolve_cancel ok c) = resets c.
Proof using. unfold resolve_cancel. case_match; [| done]. by apply resets_emit. Qed.

Lemma requests_restartConsumers c :
  requests (ReceiveChannel_restartConsumers c)
  = requests c ++ match d_consumer (c_derived c) with
                  | Some k => match (Consumer_consume (d_consumerConfig (c_derived c)) k).1 with
                              | Some m => option_list (request_of_method m) | None => [] end
                  | None => [] end.
Proof using.
  unfold ReceiveChannel_restartConsumers. destruct (d_consumer _) as [k |]; [| by rewrite app_nil_r].
  destruct (Consumer_consume _ k) as [[m |] k']; simpl; [| by rewrite app_nil_r].
  rewrite (proj1 (requests_write _ _)). by rewrite requests_emit.
Qed.

Lemma resets_restartConsumers c : resets (ReceiveChannel_restartConsumers c) = resets c.
Proof using.
  unfold ReceiveChannel_restartConsumers. destruct (d_consumer _) as [k |]; [| done].
  destruct (Consumer_consume _ k) as [[m |] k']; simpl; [| done].
  rewrite (proj2 (requests_write _ _)). by rewrite resets_emit.
Qed.

Lemma requests_write_request m c :
  requests (write_request m c) = requests c ++ option_list (request_of_method m).
Proof using. apply requests_write. Qed.

Lemma resets_write_request m c : resets (write_request m c) = resets c.
Proof using. apply requests_write. Qed.

Lemma derived_write_request m c : c_derived (write_request m c) = c_derived c.
Proof using. done. Qed.

Create HintDb session.
#[local] Hint Rewrite requests_write_request resets_write_request derived_write_request requests_modify resets_modify requests_ready resets_ready requests_close resets_close
  requests_write_optional resets_write_optional requests_resolve_consume resets_resolve_consume
  requests_resolve_cancel resets_resolve_cancel requests_restartConsumers resets_restartConsumers : session.
#[local] Hint Rewrite requests_emit resets_emit using done : session.
#[local] Hint Rewrite @derived_resolve_consume @derived_resolve_cancel @derived_resolve_drain
  @derived_write_optional @derived_restartConsumers @is_open_modify @is_open_emit : session.

(** ** Every operation keeps the invariant *)

Definition evolves (c c' : ReceiveChannel) : Prop :=
  resets c ≤ resets c' ∧
  ∀ n, session_inv n c → session_inv (if bool_decide (resets c' = resets c) then n else 0) c'.

#[global] Instance evolves_preorder : PreOrder evolves.
Proof using.
  split.
  - intros c. split; [done |]. intros n. by rewrite bool_decide_eq_true_2.
  - intros c1 c2 c3 [Hle12 H12] [Hle23 H23]. split; [lia |]. intros n Hi. apply H12, H23 in Hi.
    destruct (decide (resets c3 = resets c1)).
    + rewrite !bool_decide_eq_true_2 in Hi by lia. by rewrite bool_decide_eq_true_2.
    + rewrite bool_decide_eq_false_2 by done.
      destruct (decide (resets c3 = resets c2)); [| by rewrite bool_decide_eq_false_2 in Hi].
      rewrite bool_decide_eq_true_2, bool_decide_eq_false_2 in Hi by lia. done.
Qed.

(** No request is written. *)
Lemma evolves_move c c' :
  resets c' = resets c → requests c' = requests c →
  (∀ u r, protocol (d_consumer (c_derived c)) u r → protocol (d_consumer (c_derived c')) u r) →
  evolves c c'.
Proof using.
  intros Hr Hq Hp. split; [lia |]. intros n (u & r & Hu & Hreg & Hpr).
  rewrite bool_decide_eq_true_2 by done. exists u, r. rewrite Hq. auto.
Qed.

(** One request is written. *)
Lemma evolves_request q c c' :
  resets c' = resets c → requests c' = requests c ++ [q] →
  (∀ u r, protocol (d_consumer (c_derived c)) u r →
     ∃ r', register (Some r) q = Some r' ∧ protocol (d_consumer (c_derived c')) (u ++ [q]) r') →
  evolves c c'.
Proof using.
  intros Hr Hq Hp. split; [lia |]. intros n (u & r & Hu & Hreg & Hpr).
  rewrite bool_decide_eq_true_2 by done. destruct (Hp u r Hpr) as (r' & Hr' & Hpr').
  exists (u ++ [q]), r'. rewrite Hq, registration_snoc, Hreg. auto using unanswered_snoc.
Qed.

Lemma evolves_silent c c' :
  resets c' = resets c → requests c' = requests c → d_consumer (c_derived c') = d_consumer (c_derived c) →
  evolves c c'.
Proof using. intros Hr Hq Hk. apply evolves_move; [done | done |]. by rewrite Hk. Qed.

Lemma register_consume tag : register (Some None) (ReqConsume tag) = Some (Some tag).
Proof using. done. Qed.

Lemma register_cancel tag : register (Some (Some tag)) (ReqCancel tag) = Some None.
Proof using. simpl. by rewrite bool_decide_eq_true_2. Qed.

#[local] Arguments register : simpl never.

(** The requests and the consumer after an operation on the members [Hd]. *)
Ltac session_compute Hd :=
  autorewrite with session; simpl; rewrite ?Hd; simpl; autorewrite with session; simpl;
  rewrite ?Hd, ?app_nil_r; simpl.

Ltac session_case Hd :=
  first
    [ solve [apply evolves_move;
             [session_compute Hd; reflexivity | session_compute Hd; reflexivity
             | session_compute Hd; naive_solver]]
    | solve [eapply evolves_request;
             [session_compute Hd; reflexivity | session_compute Hd; reflexivity
             | session_compute Hd; intros u r [-> ->]; eexists;
               (split; [first [apply register_consume | apply register_cancel] | naive_solver])]] ].

(** By cases on the consumer and its futures. *)
Ltac session_cases c :=
  let Hd := fresh "Hd" in
  destruct (c_derived c) as [? [[[] ? ?] |] ? ? ? ? [? |] [? |] ? []] eqn:Hd; simpl;
  autorewrite with session; try (destruct (is_open c)); session_case Hd.

#[local] Arguments is_open : simpl never.

Lemma consume_evolves hp queue tag c : evolves c (ReceiveChannel_consume hp queue tag c).2.
Proof using.
  unfold ReceiveChannel_consume. destruct (lockQueue hp queue) as [q |]; [| done]. session_cases c.
Qed.

Lemma resume_evolves f c : evolves c (ReceiveChannel_resume f c).2.
Proof using. unfold ReceiveChannel_resume. case_match; [done |]. session_cases c. Qed.

Lemma cancel_evolves f c : evolves c (ReceiveChannel_cancel f c).2.
Proof using.
  unfold ReceiveChannel_cancel, ReceiveChannel_failPendingResume. cbv zeta.
  rewrite derived_resolve_consume. session_cases c.
Qed.

Lemma pause_evolves f c : evolves c (ReceiveChannel_pause f c).2.
Proof using.
  unfold ReceiveChannel_pause, ReceiveChannel_failPendingResume. case_match; [done |]. cbv zeta.
  rewrite derived_resolve_consume. simpl. session_cases c.
Qed.

Lemma processQoSOk_evolves c : evolves c (processQoSOk c).
Proof using. unfold processQoSOk. session_cases c. Qed.

Lemma drain_evolves f c : evolves c (ReceiveChannel_drain f c).2.
Proof using. unfold ReceiveChannel_drain. repeat case_match; by apply evolves_silent. Qed.

Lemma ackMessage_evolves a c : evolves c (ReceiveChannel_ackMessage a c).
Proof using.
  unfold ReceiveChannel_ackMessage. destruct (ConsumerImpl_ackMessage _ _) as [[] q]; apply evolves_silent;
    by autorewrite with session.
Qed.

Lemma sendAcks_evolves calls : ∀ c,
  evolves c (fold_left (λ c a, ReceiveChannel_sendAckOrNack a c) calls c).
Proof using.
  induction calls as [| a calls IH]; intros c; simpl; [done |]. etrans; [| apply IH].
  apply evolves_silent; [| | done]; unfold ReceiveChannel_sendAckOrNack; destruct a; by autorewrite with session.
Qed.

Lemma consumeAckBatch_evolves {AS : AckSort} c : evolves c (ReceiveChannel_consumeAckBatchFromQueue c).
Proof using.
  unfold ReceiveChannel_consumeAckBatchFromQueue.
  destruct (AckQueue_popFront _) as [[acks q] |]; [| done].
  destruct (MultipleAckHandler_process _ _) as [calls h].
  assert (∀ h, evolves c (modify (set_acks q h) c)) as Hm by (intros h'; by apply evolves_silent).
  case_match; try apply Hm; (etrans; [apply (Hm h) | apply sendAcks_evolves]).
Qed.

Lemma removeMessages_evolves tag multiple c :
  evolves c (ReceiveChannel_removeMessagesFromStore tag multiple c).
Proof using.
  unfold ReceiveChannel_removeMessagesFromStore. repeat case_match; apply evolves_silent; by autorewrite with session.
Qed.

Lemma processMessage_evolves clock m c : evolves c (ReceiveChannel_processMessage clock m c).
Proof using.
  unfold ReceiveChannel_processMessage. repeat case_match; apply evolves_silent; by autorewrite with session.
Qed.

(** *** Resetting *)

Lemma requests_reset clock b c : requests (Channel_reset (H := ReceiveChannel_hooks clock) b c).2 = [].
Proof using.
  unfold requests, live, Channel_reset. simpl. unfold since_reset. by rewrite fold_left_app.
Qed.

Lemma onReset_resets c : resets (ReceiveChannel_onReset c) = resets c.
Proof using.
  unfold ReceiveChannel_onReset, resolve_drain. cbv zeta.
  case_match; autorewrite with session; by repeat case_match.
Qed.

Lemma resets_reset clock b c :
  resets (Channel_reset (H := ReceiveChannel_hooks clock) b c).2 = S (resets c).
Proof using.
  assert (∀ c, resets (emit (Counter channel_disconnected) c) = S (resets c)) as Hd.
  { intros c'. unfold resets. simpl. rewrite filter_app, length_app. simpl. lia. }
  unfold Channel_reset. simpl. rewrite Hd. f_equal.
  assert (resets (ReceiveChannel_onReset (ReceiveChannel_processFailures (set_state CLOSED c))) = resets c) as Hr
    by (by rewrite onReset_resets).
  destruct b; [by autorewrite with session | done].
Qed.

(** The consumer after a reset. *)
Definition reset_consumer (k : Consumer) : option Consumer :=
  if Consumer_isPaused k then Some k
  else if Consumer_shouldRestart k then Some (Consumer_set NOT_CONSUMING k) else None.

Lemma derived_reset clock b c :
  let d := c_derived c in
  let d' := c_derived (Channel_reset (H := ReceiveChannel_hooks clock) b c).2 in
  d_consumer d' = d_consumer d ≫= reset_consumer ∧
  d_channelPausedOnOpen d' = d_channelPausedOnOpen d || ReceiveChannel_consumerIsPaused c ∧
  d_consumeFuture d' = None ∧ d_cancelFuture d' = None ∧ d_consumerConfig d' = d_consumerConfig d.
Proof using.
  cbv zeta. unfold Channel_reset. simpl.
  assert (∀ c', c_derived (if b then emit Retry c' else c') = c_derived (c' : ReceiveChannel)) as ->
    by (intros; by destruct b).
  unfold ReceiveChannel_onReset, ReceiveChannel_processFailures. cbv zeta. autorewrite with session. simpl.
  unfold ReceiveChannel_consumerIsPaused, reset_consumer, Consumer_reset.
  destruct (d_consumer (c_derived c)) as [k |] eqn:Hk; simpl; rewrite ?Hk; [| by rewrite orb_false_r].
  destruct (Consumer_isPaused k); simpl; rewrite ?Hk, ?orb_true_r, ?orb_false_r; [done |].
  destruct (Consumer_shouldRestart k); simpl; rewrite ?orb_false_r; done.
Qed.

Lemma reset_evolves clock b c : evolves c (Channel_reset (H := ReceiveChannel_hooks clock) b c).2.
Proof using.
  split; rewrite resets_reset; [lia |]. intros n _. rewrite bool_decide_eq_false_2 by lia.
  exists [], None. rewrite requests_reset. split; [by exists [] |]. split; [done |].
  destruct (derived_reset clock b c) as (-> & _). destruct (d_consumer (c_derived c)) as [[[] ? ?] |]; done.
Qed.

(** *** Operations other than replies *)

(** The virtual functions of a channel that ignores the broker's replies about consumers. *)
Definition no_replies (clock : Z → Z) : ChannelHooks ReceiveState ReceiveEvent := {|
  processBasicMethod m c :=
    match m with
    | BasicMethod_ConsumeOk _ | BasicMethod_CancelOk _ => c
    | _ => ReceiveChannel_processBasicMethod m c
    end;
  processConfirmMethod _ c := c;
  processMessage := ReceiveChannel_processMessage clock;
  onOpen := ReceiveChannel_onOpen;
  onReset := ReceiveChannel_onReset;
  onFlowAllowed c := c;
  processFailures := ReceiveChannel_processFailures;
|}.

Lemma no_replies_same clock op c :
  reply_of (Recv_channel op) = None →
  channel_op (H := ReceiveChannel_hooks clock) op c = channel_op (H := no_replies clock) op c.
Proof using.
  intros Hr. apply channel_op_ext; try exact eq_refl.
  destruct op as [| | | hp m | | | | | |]; try exact I.
  destruct m as [| | | [| m | | | | |]]; try exact I; [exact eq_refl | by destruct m].
Qed.

Lemma evolves_closed clock : channel_closed (H := no_replies clock) evolves.
Proof using.
  split; intros; try apply _; try (by apply evolves_silent).
  - apply evolves_silent; [apply resets_emit | apply requests_emit | done]; by apply base_effect_silent.
  - unfold Channel_open. case_match; [done |].
    apply evolves_silent; [| | done]; unfold Channel_writeState; simpl;
      [rewrite resets_emit by done | rewrite requests_emit by done];
      [apply (resets_emit TimerStart c) | apply (requests_emit TimerStart c)]; done.
  - rewrite <- (no_replies_same clock (Op_reset b) c eq_refl : (Channel_reset b c).2 = (Channel_reset b c).2).
    apply (reset_evolves clock).
  - destruct m; cbn [processBasicMethod no_replies ReceiveChannel_processBasicMethod]; try reflexivity.
    + destruct (consumer_with _ _); (apply evolves_silent; [apply resets_close | apply requests_close | done]).
    + destruct (d_nextMessage _); [| by apply evolves_silent].
      apply evolves_silent; [apply resets_close | apply requests_close | done].
    + apply processQoSOk_evolves.
  - apply processMessage_evolves.
  - apply evolves_silent; [| | done]; simpl; unfold ReceiveChannel_onOpen; autorewrite with session; simpl;
      by rewrite ?app_nil_r.
Qed.

Lemma operation_evolves {AS : AckSort} clock op c :
  reply_of op = None → evolves c (receive_op clock op c).
Proof using.
  intros Hr. destruct op; cbn [receive_op].
  - rewrite no_replies_same by done. apply channel_op_closed, evolves_closed.
  - apply consume_evolves.
  - apply resume_evolves.
  - apply cancel_evolves.
  - apply pause_evolves.
  - apply drain_evolves.
  - apply ackMessage_evolves.
  - apply consumeAckBatch_evolves.
  - apply removeMessages_evolves.
Qed.

(** *** Replies *)

(** The first unanswered request was [q], and it is answered. *)
Definition answers (q : Request) (c c' : ReceiveChannel) : Prop :=
  resets c' = resets c ∧
  ∀ n, session_inv n c → requests c !! n = Some q → session_inv (S n) c'.

Lemma answers_move q c c' :
  resets c' = resets c → requests c' = requests c →
  (∀ u r, protocol (d_consumer (c_derived c)) (q :: u) r → protocol (d_consumer (c_derived c')) u r) →
  answers q c c'.
Proof using.
  intros Hr Hq Hp. split; [done |]. intros n (u & r & Hu & Hreg & Hpr) Hn.
  rewrite (unanswered_lookup _ _ _ Hu) in Hn. destruct u as [| q' u]; simplify_eq/=.
  exists u, r. rewrite Hq. eauto using unanswered_pop.
Qed.

Lemma answers_request q q' c c' :
  resets c' = resets c → requests c' = requests c ++ [q'] →
  (∀ u r, protocol (d_consumer (c_derived c)) (q :: u) r →
     ∃ r', register (Some r) q' = Some r' ∧ protocol (d_consumer (c_derived c')) (u ++ [q']) r') →
  answers q c c'.
Proof using.
  intros Hr Hq Hp. split; [done |]. intros n (u & r & Hu & Hreg & Hpr) Hn.
  rewrite (unanswered_lookup _ _ _ Hu) in Hn. destruct u as [| q0 u]; simplify_eq/=.
  destruct (Hp u r Hpr) as (r' & Hr' & Hpr').
  exists (u ++ [q']), r'. rewrite Hq, registration_snoc, Hreg. eauto using unanswered_pop, unanswered_snoc.
Qed.

(** A reply about another consumer is not expected. *)
Lemma protocol_tag q u r k :
  protocol (Some k) (q :: u) r → u = [] ∧ (q = ReqConsume (cs_tag k) ∨ q = ReqCancel (cs_tag k)).
Proof using. unfold protocol. destruct (cs_state k); naive_solver. Qed.

Lemma answers_other q tag c c' :
  (q = ReqConsume tag ∨ q = ReqCancel tag) → consumer_with tag c = None → answers q c c' ↔ resets c' = resets c.
Proof using.
  intros Hq Hw. split; [by intros [] |]. intros Hr. split; [done |].
  intros n (u & r & Hu & _ & Hp) Hn. exfalso.
  rewrite (unanswered_lookup _ _ _ Hu) in Hn. destruct u as [| q' u]; simplify_eq/=.
  unfold consumer_with in Hw. destruct (d_consumer (c_derived c)) as [k |] eqn:Hk; [| by destruct Hp].
  apply protocol_tag in Hp as [_ Ht]. rewrite bool_decide_eq_true_2 in Hw; naive_solver.
Qed.

Ltac answers_case Hd :=
  first
    [ solve [apply answers_move;
             [session_compute Hd; reflexivity | session_compute Hd; reflexivity
             | session_compute Hd; naive_solver]]
    | solve [eapply answers_request;
             [session_compute Hd; reflexivity | session_compute Hd; reflexivity
             | session_compute Hd; intros u r Hp;
               (destruct Hp as [[[= ->] ->] | [[= ->] ->]] || destruct Hp as [[= ->] ->]); try done; eexists;
               (split; [first [apply register_consume | apply register_cancel] | naive_solver])]] ].

Lemma processConsumeOk_answers tag c : answers (ReqConsume tag) c (processConsumeOk tag c).
Proof using.
  unfold processConsumeOk. cbv zeta. set (c1 := match consumer_with tag c with Some _ => _ | None => _ end).
  assert (answers (ReqConsume tag) c c1) as [Hr Ha].
  { unfold c1. clear c1. destruct (consumer_with tag c) as [k |] eqn:Hw.
    - apply consumer_with_Some in Hw as [Hk Ht].
      destruct (c_derived c) as [? [[[] ? ?] |] ? ? ? ? [? |] [? |] ? []] eqn:Hd; simplify_eq/=; answers_case Hd.
    - apply (answers_other _ tag); [by left | done |]. apply resets_close. }
  case_match; [| done]. split; [by rewrite resets_ready |]. intros n Hi Hn.
  destruct (Ha n Hi Hn) as (u & r & Hu & Hreg & Hp). exists u, r. by rewrite requests_ready.
Qed.

Lemma processCancelOk_answers tag c : answers (ReqCancel tag) c (processCancelOk tag c).
Proof using.
  unfold processCancelOk. cbv zeta. destruct (consumer_with tag c) as [k |] eqn:Hw.
  - apply consumer_with_Some in Hw as [Hk Ht].
    destruct (c_derived c) as [? [[[] ? ?] |] ? ? ? ? [? |] [? |] ? []] eqn:Hd; simplify_eq/=; answers_case Hd.
  - apply (answers_other _ tag); [by right | done |]. apply resets_close.
Qed.

Lemma reply_answers {AS : AckSort} clock op c q :
  reply_of op = Some q → d_state c ≠ CLOSED → answers q c (receive_op clock op c).
Proof using.
  intros Hr Hs. destruct op as [[| | | hp m | | | | | |] | | | | | | | |]; try done.
  destruct m as [| | | [| m | | | | |]]; try done. cbn [receive_op channel_op].
  unfold Channel_processReceived.
  assert ((match d_state c with
           | CLOSED => (KEEP, c)
           | _ => (KEEP, ReceiveChannel_processBasicMethod m c)
           end).2 = ReceiveChannel_processBasicMethod m c) as Heq by (by destruct (d_state c)).
  destruct (d_state c) eqn:Hst; try done;
    (destruct m; simplify_eq/=; [apply processCancelOk_answers | apply processConsumeOk_answers]).
Qed.

Lemma reply_closed {AS : AckSort} clock op c q :
  reply_of op = Some q → d_state c = CLOSED → receive_op clock op c = c.
Proof using.
  intros Hr Hs. destruct op as [[| | | hp m | | | | | |] | | | | | | | |]; try done.
  cbn [receive_op channel_op]. unfold Channel_processReceived. by rewrite Hs.
Qed.

Lemma orderly_inv {AS : AckSort} n c : orderly n c → session_inv n c.
Proof using.
  induction 1 as [tp config paused | n c clock op _ IH Hexp].
  { exists [], None. split; [by exists [] | done]. }
  unfold answered. destruct (reply_of op) as [q |] eqn:Hq.
  - destruct (decide (d_state c = CLOSED)) as [Hs | Hs].
    + rewrite (reply_closed clock op c q Hq Hs). by rewrite !bool_decide_eq_true_2.
    + destruct (reply_answers clock op c q Hq Hs) as [Hr Ha].
      rewrite (bool_decide_eq_true_2 (resets _ = _)), bool_decide_eq_false_2 by done. eauto.
  - destruct (operation_evolves clock op c Hq) as [_ Hev]. auto.
Qed.

(** C9: The requests of a receive channel are in order. If the broker answers
    [basic.consume] and [basic.cancel] in the order it receives them, then whatever
    the application does (pausing, resuming and cancelling at any time, also while
    requests are unanswered), and whatever else the broker and the connection do, the
    requests written since the last reset register a consumer only when none is
    registered and cancel only the registered one; at most one of them is
    unanswered, and the consumer's state tells which. *)
Theorem consumer_requests_well_formed {AS : AckSort} n c :
  orderly n c →
  is_Some (registration (requests c)) ∧ n ≤ length (requests c) ≤ S n ∧
  (∀ k, d_consumer (c_derived c) = Some k →
     match cs_state k with
     | CONSUMING => n = length (requests c) ∧ registration (requests c) = Some (Some (cs_tag k))
     | STARTING => requests c !! n = Some (ReqConsume (cs_tag k))
     | NOT_CONSUMING | PAUSED => n = length (requests c) ∧ registration (requests c) = Some None
     | PAUSING | CANCELLING =>
         requests c !! n = Some (ReqConsume (cs_tag k)) ∨ requests c !! n = Some (ReqCancel (cs_tag k))
     | CANCELLED => False
     end).
Proof using.
  intros (u & r & Hu & Hreg & Hp)%orderly_inv. split; [by rewrite Hreg |].
  pose proof (unanswered_lookup _ _ _ Hu) as Hl. destruct Hu as (d & Hd & Hlen).
  assert (length (requests c) = n + length u) as Hn by (rewrite Hd, length_app; lia).
  rewrite Hl, Hreg, Hn. unfold protocol in Hp. split.
  - destruct (d_consumer (c_derived c)) as [k |]; [destruct (cs_state k) |];
      destruct_and?; destruct_or?; destruct_and?; subst; simpl; try lia; done.
  - intros k Hk. rewrite Hk in Hp. destruct (cs_state k);
      destruct_and?; destruct_or?; destruct_and?; subst; simpl; try done; try (split; [lia | done]); auto.
Qed.

(** ** Reconnection *)

(** The frames of a successful reopening, up to the reply to [basic.qos]. *)
Definition reopening (replies : list Method) : list AmqpMessage :=
  (ChannelMessage (ChannelMethod_OpenOk mkChannelOpenOk) :: (AM_Method <$> replies)) ++
  [AM_Method (Method_Basic (BasicMethod_QoSOk mkBasicQoSOk))].

Definition consumeOk_message (tag : bytes) : AmqpMessage :=
  AM_Method (Method_Basic (BasicMethod_ConsumeOk (mkBasicConsumeOk tag))).

Lemma opened_silent hp (c : ReceiveChannel) t : requests (opened hp c t) = requests c.
Proof using.
  unfold opened, progress_of.
  lazymatch goal with
  | |- requests (mkChannel _ _ _ _ _ _ _ _ (_ ++ ?es)) = _ => change (requests (emits es c) = requests c)
  end.
  apply requests_emits. unfold opening_effects.
  pose proof (TopologyTransformer_make_collects hp (d_topology c)) as Hc.
  pose proof (collects_base_effects (X := ReceiveEvent) _ _ _ OnWriteComplete Hc) as Hb.
  repeat apply Forall_app_2; try (by repeat constructor).
  - eapply Forall_impl; [exact Hb |]. intros e. apply base_effect_silent.
  - by apply Forall_replicate.
Qed.

(** A reset channel is opened again and [basic.qos] is confirmed. *)
Lemma reopening_sequence clock hp (c : ReceiveChannel) replies :
  d_state c = CLOSED → d_permanentlyClosing c = false → topology_alive hp (d_topology c) = true →
  d_updateQueue c = [] →
  Forall2 (λ req m, confirms req (AM_Method m) = true) (topology_requests hp (d_topology c)) replies →
  ∃ c1, receives (H := ReceiveChannel_hooks clock) hp (reopening replies) (Channel_open c) = processQoSOk c1 ∧
        c_derived c1 = c_derived c ∧ requests c1 = requests c ∧ d_state c1 = AWAITING_REPLY.
Proof using.
  intros Hs Hp Ha Hq HF. unfold reopening. rewrite receives_app.
  destruct (open_sequence (H := ReceiveChannel_hooks clock) hp c replies Hs Hp Ha HF) as (t & c1 & -> & Hc1).
  assert (d_updateQueue c1 = [] ∧ c_derived c1 = c_derived c ∧ d_state c1 = AWAITING_REPLY) as (Hq1 & Hd1 & Hs1)
    by (by destruct Hc1 as [-> | ->]).
  assert (requests c1 = requests c) as Hr1.
  { transitivity (requests (ReceiveChannel_onOpen (opened hp c t))); [by destruct Hc1 as [-> | ->] |].
    unfold ReceiveChannel_onOpen. autorewrite with session. simpl. rewrite app_nil_r. apply opened_silent. }
  exists c1. unfold Channel_sendNextUpdate. rewrite Hq1. simpl sendNextUpdate_loop.
  split; [| done]. unfold receives. simpl fold_left. unfold Channel_processReceived. by rewrite Hs1.
Qed.

Lemma reset_frame clock b (c : ReceiveChannel) :
  base_frame c (Channel_reset (H := ReceiveChannel_hooks clock) b c).2.
Proof using.
  unfold Channel_reset. simpl. etrans; [apply (base_frame_set_state CLOSED) |].
  etrans; [apply (processFailures_frame (H := ReceiveChannel_hooks clock)) |].
  etrans; [apply (onReset_frame (H := ReceiveChannel_hooks clock)) |].
  etrans; [| by apply base_frame_emit]. destruct b; [by apply base_frame_emit | done].
Qed.

Lemma reset_closed clock b (c : ReceiveChannel) :
  d_state (Channel_reset (H := ReceiveChannel_hooks clock) b c).2 = CLOSED.
Proof using.
  assert (∀ c', d_state c' = CLOSED → d_state (ReceiveChannel_onReset c') = CLOSED) as Hr.
  { intros c' Hc'. unfold ReceiveChannel_onReset, resolve_drain, resolve_cancel, resolve_consume.
    repeat case_match; done. }
  unfold Channel_reset. simpl. destruct b; by apply Hr.
Qed.

(** C10: A consumer survives reconnections in the state the application left it in.
    After any history, if the channel is reset and then reopened, with the topology
    and [basic.qos] confirmed by the broker: a consumer that was not to be paused has
    its [basic.consume], with the same tag, as the only request on the new channel, and
    when the broker confirms it the consumer is CONSUMING and the channel READY; a
    consumer that was paused, or whose pause was in flight at the reset, is
    PAUSED on a READY channel and nothing was requested. *)
Theorem consumer_restored_after_reset {AS : AckSort} tp config paused ops hp clock startRetry replies k :
  let c := receive_run ops (ReceiveChannel_make tp config paused) in
  d_consumer (c_derived c) = Some k → Consumer_shouldRestart k = true →
  d_permanentlyClosing c = false → d_updateQueue c = [] → topology_alive hp (d_topology c) = true →
  Forall2 (λ req m, confirms req (AM_Method m) = true) (topology_requests hp (d_topology c)) replies →
  let r := (Channel_reset (H := ReceiveChannel_hooks clock) startRetry c).2 in
  let o := receives (H := ReceiveChannel_hooks clock) hp (reopening replies) (Channel_open r) in
  if d_channelPausedOnOpen (c_derived c) then
    d_state o = READY ∧ d_consumer (c_derived o) = Some (Consumer_set PAUSED k) ∧ requests o = []
  else
    d_consumer (c_derived o) = Some (Consumer_set STARTING k) ∧ requests o = [ReqConsume (cs_tag k)] ∧
    let o' := (Channel_processReceived (H := ReceiveChannel_hooks clock) hp
                 (consumeOk_message (cs_tag k)) o).2 in
    d_state o' = READY ∧ d_consumer (c_derived o') = Some (Consumer_set CONSUMING k).
Proof using.
  cbv zeta. intros Hk Hrs Hp Hq Ha HF.
  destruct (receive_run_inv tp config paused ops) as [Hok _].
  set (c := receive_run ops (ReceiveChannel_make tp config paused)) in *. clearbody c.
  pose proof (reset_frame clock startRetry c) as Hfr.
  destruct (derived_reset clock startRetry c) as (Hk' & Hp' & Hcf & _ & Hcfg).
  pose proof (requests_reset clock startRetry c) as Hrq. pose proof (reset_closed clock startRetry c) as Hst.
  set (r := (Channel_reset (H := ReceiveChannel_hooks clock) startRetry c).2) in *. clearbody r.
  destruct (reopening_sequence clock hp r replies Hst) as (c1 & -> & Hd1 & Hr1 & Hs1).
  { by rewrite (bf_closing _ _ Hfr). }
  { by rewrite (bf_topology _ _ Hfr). }
  { by rewrite (bf_updateQueue _ _ Hfr). }
  { by rewrite (bf_topology _ _ Hfr). }
  rewrite Hk in Hk'. simpl in Hk'. unfold ReceiveChannel_consumerIsPaused in Hp'. rewrite Hk in Hp'.
  unfold consumer_ok in Hok. rewrite Hk in Hok.
  destruct k as [st tag q]. unfold reset_consumer in Hk'. rewrite Hrs in Hk'.
  destruct (d_channelPausedOnOpen (c_derived c)) eqn:Hpo; simpl in Hp'.
  - assert (d_state (processQoSOk c1) = READY ∧
            d_consumer (c_derived (processQoSOk c1)) = Some (mkConsumer PAUSED tag q) ∧
            requests (processQoSOk c1) = requests c1) as (Hs & Hc & Hrqs).
    { unfold processQoSOk. rewrite Hd1, Hk'. destruct st; try done; simpl; rewrite Hp'; simpl;
        (split; [done |]; split; [done |]; by autorewrite with session). }
    rewrite Hrqs, Hr1, Hrq. done.
  - assert (st ≠ PAUSED) as Hst' by (intros ->; naive_solver).
    assert (Some (mkConsumer NOT_CONSUMING tag q) = d_consumer (c_derived r)) as Hk1.
    { rewrite Hk'. by destruct st. }
    assert (d_channelPausedOnOpen (c_derived r) = false) as Hpr.
    { rewrite Hp'. unfold Consumer_isPaused, Consumer_is. by rewrite bool_decide_eq_false_2. }
    assert (processQoSOk c1 = ReceiveChannel_restartConsumers
              (modify (set_consumer (Some (mkConsumer NOT_CONSUMING tag q))) c1)) as ->.
    { unfold processQoSOk. by rewrite Hd1, <- Hk1, Hpr. }
    split; [by rewrite derived_restartConsumers |].
    split; [rewrite requests_restartConsumers, requests_modify, Hr1, Hrq; done |].
    unfold ReceiveChannel_restartConsumers. simpl. unfold Channel_processReceived. simpl.
    unfold processConsumeOk, consumer_with. simpl. rewrite (bool_decide_eq_true_2 (tag = tag)) by done. simpl.
    unfold resolve_consume. simpl. rewrite Hd1, Hcf. simpl. done.
Qed.

(** ** A pause while the broker closes the channel *)

Definition closed_by_broker (cl : ChannelClose) : AmqpMessage := ChannelMessage (ChannelMethod_Close cl).

(** [pause] and [cancel] write [basic.cancel] without looking at the channel's
    state. If the broker closes a channel whose consumer is CONSUMING and the
    application pauses it before the write of [channel.close-ok] has completed, then
    [basic.cancel] is written on the closed channel, the state goes from CLOSED back to
    AWAITING_REPLY, and when the write completes the channel is neither reset nor
    retried: it stays in AWAITING_REPLY with the pause's future unresolved. *)
Theorem pause_while_closing_prevents_reset clock hp cl f (c : ReceiveChannel) k :
  d_state c ≠ CLOSED → d_permanentlyClosing c = false →
  d_consumer (c_derived c) = Some k → cs_state k = CONSUMING → d_cancelFuture (c_derived c) = None →
  let c1 := (Channel_processReceived (H := ReceiveChannel_hooks clock) hp (closed_by_broker cl) c).2 in
  let c2 := (ReceiveChannel_pause f c1).2 in
  let c3 := Channel_onWriteComplete (H := ReceiveChannel_hooks clock) c2 in
  d_state c1 = CLOSED ∧ c3 = c2 ∧ d_state c3 = AWAITING_REPLY ∧ resets c3 = resets c ∧
  requests c3 = requests c ++ [ReqCancel (cs_tag k)] ∧ d_cancelFuture (c_derived c3) = Some f.
Proof using.
  intros Hs Hp Hk Hst Hcf. cbv zeta.
  set (c1 := (Channel_processReceived (H := ReceiveChannel_hooks clock) hp (closed_by_broker cl) c).2).
  assert (d_state c1 = CLOSED ∧ c_derived c1 = c_derived c ∧ d_permanentlyClosing c1 = false ∧
          requests c1 = requests c ∧ resets c1 = resets c) as (Hs1 & Hd1 & Hp1 & Hr1 & Hre1).
  { unfold c1, Channel_processReceived.
    assert ((Channel_processChannelMethod (H := ReceiveChannel_hooks clock) hp (ChannelMethod_Close cl) c).2 = c1)
      as Heq by (unfold c1, Channel_processReceived; destruct (d_state c); done).
    assert (∀ x : ReceiveChannel, x = c1 → d_state x = CLOSED ∧ c_derived x = c_derived c ∧
              d_permanentlyClosing x = false ∧ requests x = requests c ∧ resets x = resets c) as Hx; [| by apply Hx].
    intros x ->. rewrite <- Heq. simpl. case_match; simpl; split_and!; try done;
      unfold Channel_writeState; autorewrite with session; try done;
      first [apply (requests_emit _ (set_state CLOSED c)) | apply (resets_emit _ (set_state CLOSED c))]; done. }
  clearbody c1. destruct k as [st tag q]. simpl in Hst. subst st.
  assert ((ReceiveChannel_pause f c1).2
          = write_request (BasicMethod_Cancel (mkBasicCancel tag false))
              (modify (set_cancelFuture (Some f)) (emit (Callback (FutureMake f))
                (modify (set_consumer (Some (mkConsumer PAUSING tag q)))
                  (emit (Counter consumer_pause_total)
                    (resolve_consume false (modify (set_channelPausedOnOpen true) c1))))))) as ->.
  { unfold ReceiveChannel_pause, ReceiveChannel_failPendingResume. rewrite Hp1, Hd1, Hk. simpl.
    rewrite derived_resolve_consume. simpl. by rewrite Hd1, Hcf, Hk. }
  change (Channel_onWriteComplete (write_request ?m ?c)) with (write_request m c).
  split_and!; try done; autorewrite with session; simpl; by rewrite ?Hr1, ?Hre1.
Qed.

(** Whether all replies of a run are expected, and the number of answers at its end. *)
Fixpoint orderly_check {AS : AckSort} (ops : list ((Z → Z) * ReceiveOp)) (n : nat) (c : ReceiveChannel)
  : option nat :=
  match ops with
  | [] => Some n
  | (clock, op) :: ops' =>
      let c' := receive_op clock op c in
      if match reply_of op with
         | None => true
         | Some q => bool_decide (d_state c = CLOSED) || bool_decide (requests c !! n = Some q)
         end
      then orderly_check ops' (answered n op c c') c' else None
  end.

Lemma orderly_check_orderly {AS : AckSort} ops : ∀ n c n',
  orderly n c → orderly_check ops n c = Some n' → orderly n' (receive_run ops c).
Proof using.
  induction ops as [| [clock op] ops IH]; intros n c n' Ho; simpl; [by intros [= ->] |].
  case_match eqn:Hm; [| done]. apply IH, orderly_step; [done |].
  intros q Hq Hs. rewrite Hq in Hm. apply orb_true_iff in Hm as [Hm | Hm]; by apply bool_decide_eq_true in Hm.
Qed.
End ReceiveSession.

(** ** Witnesses *)

Section Witnesses.
#[local] Existing Instances byte_GuidUtil.

Definition receive_at (t : Z) (op : ReceiveOp) : (Z → Z) * ReceiveOp := (λ _, t, op).

Definition from_broker (m : AmqpMessage) : (Z → Z) * ReceiveOp :=
  receive_at 0 (Recv_channel (Op_processReceived sample_heap m)).

(** The channel opens and a consumer is started. *)
Definition sample_consume_ops : list ((Z → Z) * ReceiveOp) :=
  receive_at 0 (Recv_channel Op_open) :: (from_broker <$> reopening []) ++
  [receive_at 1 (Recv_consume sample_heap 1%positive (str "tag"));
   from_broker (consumeOk_message (str "tag"))].

Definition sample_receive_channel : Channel ReceiveState ReceiveEvent :=
  ReceiveChannel_make (mkTopology [] [] [] []) (mkConsumerConfig 5 false (Some 2%Z)) false.

Definition sample_consuming : Channel ReceiveState ReceiveEvent :=
  receive_run sample_consume_ops sample_receive_channel.

Definition sample_consumer (s : ConsumerState) : Consumer := mkConsumer s (str "tag") sample_queue.

(** The consumer is paused and resumed before the broker has confirmed the pause. *)
Definition sample_resume_ops : list ((Z → Z) * ReceiveOp) :=
  sample_consume_ops ++ [receive_at 2 (Recv_pause 1); receive_at 2 (Recv_resume 2)].

Lemma consumer_requests_well_formed_witness :
  is_Some (registration (requests (receive_run sample_resume_ops sample_receive_channel))).
Proof.
  refine (proj1 (consumer_requests_well_formed 1 _ _)).
  apply (orderly_check_orderly sample_resume_ops 0 sample_receive_channel); [constructor |].
  vm_compute. reflexivity.
Defined.

Lemma consumer_restored_after_reset_witness :
  let r := (Channel_reset (H := ReceiveChannel_hooks (λ _, 3%Z)) true sample_consuming).2 in
  let o := receives (H := ReceiveChannel_hooks (λ _, 3%Z)) sample_heap (reopening [])
             (Channel_open r) in
  requests o = [ReqConsume (str "tag")].
Proof.
  refine (proj1 (proj2 (consumer_restored_after_reset (mkTopology [] [] [] []) (mkConsumerConfig 5 false (Some 2%Z))
    false sample_consume_ops sample_heap (λ _, 3%Z) true [] (sample_consumer CONSUMING)
    eq_refl eq_refl eq_refl eq_refl eq_refl _))).
  apply Forall2_nil_2.
Defined.

Lemma pause_while_closing_prevents_reset_witness :
  d_state (ReceiveChannel_pause 7 (Channel_processReceived (H := ReceiveChannel_hooks (λ _, 3%Z)) sample_heap
    (closed_by_broker (mkChannelClose 404 (str "gone") 0 0)) sample_consuming).2).2 = AWAITING_REPLY.
Proof.
  destruct (pause_while_closing_prevents_reset (λ _, 3%Z) sample_heap (mkChannelClose 404 (str "gone") 0 0) 7
    sample_consuming (sample_consumer CONSUMING)) as (_ & <- & Hs & _); try reflexivity; try exact Hs.
  vm_compute. discriminate.
Defined.
End Witnesses.
