(* ===== verification/ReceiveAcks.v ===== *)
(** * ReceiveAcks: what the broker sees of the acknowledgements

    The path of an acknowledgement from the application through the queue of batches,
    the filter on the channel's lifetime and the multiple-ack handler to the broker:
    the state machine [broker_step] of MultipleAck.v run over the deliveries and
    acknowledgements of the current lifetime of a receive channel. *)

From Stdlib Require Import ZArith Lia String Strings.Byte.
From stdpp Require Import base tactics list gmap.
From S2P Require Import Prelude Constants Wire FieldValue Props Methods Method Message.
From S2P Require Import Framer MessageStore MultipleAck AckQueue Topology Channel ReceiveChannel.
From S2P Require Import ReceiveConsumer ReceiveSession.

#[local] Open Scope Z_scope.

Section ReceiveAcks.
Context {E : EpochUtil} {G : GuidUtil}.

Abbreviation ReceiveChannel := (Channel ReceiveState ReceiveEvent).

(** The envelope of a message handed to the application. *)
Definition delivery_of (e : Effect ReceiveEvent) : option Envelope :=
  match e with Callback (OnNewMessage _ env) => Some env | _ => None end.

(** The acknowledgement a write carries. *)
Definition ack_of (e : Effect ReceiveEvent) : option AckCall :=
  match e with
  | AsyncWrite (AM_Method (Method_Basic (BasicMethod_Ack a))) _ =>
      Some (OnAck (BasicAck_deliveryTag a) (BasicAck_multiple a))
  | AsyncWrite (AM_Method (Method_Basic (BasicMethod_Nack a))) _ =>
      Some (OnNack (BasicNack_deliveryTag a) (BasicNack_requeue a) (BasicNack_multiple a))
  | _ => None
  end.

(** All envelopes the application has seen, and those of the current lifetime. *)
Definition delivered (c : ReceiveChannel) : list Envelope := omap delivery_of (c_trace c).
Definition delivered_live (c : ReceiveChannel) : list Envelope := omap delivery_of (live c).

(** The broker's record of the channel: deliveries in the order the channel handed them
    over, and the acknowledgements in the order they were written. *)
Definition broker_effect (b : option Broker) (e : Effect ReceiveEvent) : option Broker :=
  match b, delivery_of e, ack_of e with
  | Some b, Some env, _ => Some (broker_deliver (env_deliveryTag env) b)
  | Some b, None, Some a => broker_step a b
  | _, _, _ => b
  end.

Definition broker_view (c : ReceiveChannel) : option Broker :=
  fold_left broker_effect (live c) (Some (mkBroker ∅ ∅)).

(** The broker numbers the deliveries of a channel consecutively from 1. *)
Definition numbered (op : ReceiveOp) (c : ReceiveChannel) : Prop :=
  match op with
  | Recv_channel (Op_processReceived _ (AM_Message _)) =>
      ∀ d, d_nextMessage (c_derived c) = Some d →
        BasicDeliver_deliveryTag d = Z.of_nat (length (delivered_live c)) + 1 ∧
        BasicDeliver_deliveryTag d < 2 ^ 64 - 1
  | _ => True
  end.

Definition is_ack (op : ReceiveOp) : bool := match op with Recv_ackMessage _ => true | _ => false end.

(** A receive channel whose broker numbers deliveries in order and whose application
    acknowledges messages it was handed, each at most once; [acked] are the
    acknowledgements made so far, also those of earlier lifetimes. *)
Inductive acking {AS : AckSort} : list ConsumerAck → ReceiveChannel → Prop :=
| acking_start tp config paused : acking [] (ReceiveChannel_make tp config paused)
| acking_ack clock acked c a :
    acking acked c → ack_envelope a ∈ delivered c → ack_envelope a ∉ ack_envelope <$> acked →
    acking (acked ++ [a]) (receive_op clock (Recv_ackMessage a) c)
| acking_op clock acked c op :
    acking acked c → is_ack op = false → numbered op c →
    Z.of_nat (resets (receive_op clock op c)) < 2 ^ 64 →
    acking acked (receive_op clock op c).

(** ** The invariant *)

Definition of_lifetime (l : Z) (a : ConsumerAck) : Prop := env_channelLifetimeId (ack_envelope a) = l.

#[global] Instance of_lifetime_dec l a : Decision (of_lifetime l a).
Proof. unfold of_lifetime. apply _. Defined.

(** [processed] are the acknowledgements of the current lifetime that were sent. *)
Record acks_inv (acked processed : list ConsumerAck) (b : Broker) (c : ReceiveChannel) : Prop := {
  ai_bound : Z.of_nat (resets c) < 2 ^ 64;
  ai_lifetime : ReceiveChannel_lifetimeId c = Z.of_nat (resets c);
  ai_queue : queue_wf (d_ackQ (c_derived c));
  ai_view : broker_view c = Some b;
  ai_handler : handler_inv (Z.of_nat (length (delivered_live c))) (acks_tags processed) b 0 0
                 (d_multipleAckHandler (c_derived c));
  ai_settled : settled b = acks_map processed;
  ai_current : Forall (of_lifetime (Z.of_nat (resets c))) processed;
  ai_made : processed ++ concat (waiting (d_ackQ (c_derived c))) ⊆+ acked;
  ai_once : NoDup (ack_envelope <$> acked);
  ai_seen a : a ∈ acked → ack_envelope a ∈ delivered c;
  ai_past env : env ∈ delivered c →
    env_channelLifetimeId env ≤ Z.of_nat (resets c) ∧
    (env_channelLifetimeId env = Z.of_nat (resets c) → env ∈ delivered_live c);
  ai_tags : env_deliveryTag <$> delivered_live c = seqZ 1 (Z.of_nat (length (delivered_live c)));
}.

(** ** Effects and assignments the invariant does not depend on *)

Definition unrelated (e : Effect ReceiveEvent) : bool :=
  match delivery_of e, ack_of e with None, None => negb (is_reset e) | _, _ => false end.

Lemma base_effect_unrelated e : base_effect e = true → unrelated e = true.
Proof using. unfold base_effect, unrelated. repeat (case_match; simplify_eq; try done). Qed.

Lemma unrelated_facts e :
  unrelated e = true → delivery_of e = None ∧ ack_of e = None ∧ is_reset e = false.
Proof using. unfold unrelated. destruct (delivery_of e), (ack_of e), (is_reset e); done. Qed.

Lemma omap_none {A B} (f : A → option B) l : Forall (λ x, f x = None) l → omap f l = [].
Proof using. induction 1 as [| x l Hx _ IH]; [done |]. simpl. by rewrite Hx. Qed.

(** What a list of unrelated effects leaves as it is. *)
Lemma unrelated_emits es c :
  Forall (λ e, unrelated e = true) es →
  delivered (emits es c) = delivered c ∧ delivered_live (emits es c) = delivered_live c ∧
  broker_view (emits es c) = broker_view c ∧ resets (emits es c) = resets c.
Proof using.
  intros Hes.
  assert (Forall (λ e, delivery_of e = None) es) as Hd
    by (eapply Forall_impl; [exact Hes |]; intros e He; by apply unrelated_facts).
  assert (Forall (λ e, is_reset e = false) es) as Hr
    by (eapply Forall_impl; [exact Hes |]; intros e He; by apply unrelated_facts).
  unfold delivered, delivered_live, broker_view. rewrite !live_emits by done. simpl.
  rewrite !omap_app, (omap_none _ es Hd), !app_nil_r. split; [done |]. split; [done |]. split.
  - rewrite fold_left_app. generalize (fold_left broker_effect (live c) (Some (mkBroker ∅ ∅))) as b.
    clear Hd Hr. intros b. induction Hes as [| e es He _ IH]; simpl; [done |]. rewrite <- IH at 2. f_equal.
    unfold broker_effect. destruct (unrelated_facts e He) as (-> & -> & _). by destruct b.
  - unfold resets. simpl. rewrite filter_app, length_app, (filter_none _ es); [simpl; lia |].
    intros e He. rewrite Forall_forall in Hr. by rewrite (Hr e He).
Qed.

Lemma acks_inv_unrelated acked processed b c c' es :
  acks_inv acked processed b c → c_trace c' = c_trace c ++ es → Forall (λ e, unrelated e = true) es →
  d_ackQ (c_derived c') = d_ackQ (c_derived c) →
  d_multipleAckHandler (c_derived c') = d_multipleAckHandler (c_derived c) →
  ReceiveChannel_lifetimeId c' = ReceiveChannel_lifetimeId c →
  acks_inv acked processed b c'.
Proof using.
  intros Hi Ht Hes Hq Hh Hl. destruct (unrelated_emits es c Hes) as (Hd & Hdl & Hbv & Hr).
  assert (∀ {A} (f : list (Effect ReceiveEvent) → A), f (c_trace c') = f (c_trace (emits es c))) as Hf
    by (intros; by rewrite Ht).
  pose proof (Hf _ (omap delivery_of)) as Hd'. pose proof (Hf _ (λ es, omap delivery_of (since_reset es))) as Hdl'.
  pose proof (Hf _ (λ es, fold_left broker_effect (since_reset es) (Some (mkBroker ∅ ∅)))) as Hbv'.
  pose proof (Hf _ (λ es, length (filter (λ e, is_reset e = true) es))) as Hr'. cbv beta in Hdl', Hbv', Hr'.
  change (delivered c' = delivered (emits es c)) in Hd'. change (delivered_live c' = delivered_live (emits es c)) in Hdl'.
  change (broker_view c' = broker_view (emits es c)) in Hbv'. change (resets c' = resets (emits es c)) in Hr'.
  rewrite Hd in Hd'. rewrite Hdl in Hdl'. rewrite Hbv in Hbv'. rewrite Hr in Hr'.
  destruct Hi. split; rewrite ?Hd', ?Hdl', ?Hbv', ?Hr', ?Hq, ?Hh, ?Hl; done.
Qed.

(** ** Functions that do not touch acknowledgements *)

Record bystander (c c' : ReceiveChannel) : Prop := {
  by_trace : ∃ es, c_trace c' = c_trace c ++ es ∧ Forall (λ e, unrelated e = true) es;
  by_queue : d_ackQ (c_derived c') = d_ackQ (c_derived c);
  by_handler : d_multipleAckHandler (c_derived c') = d_multipleAckHandler (c_derived c);
  by_lifetime : ReceiveChannel_lifetimeId c' = ReceiveChannel_lifetimeId c;
}.

#[global] Instance bystander_preorder : PreOrder bystander.
Proof using.
  split.
  - intros c. split; try done. exists []. by rewrite app_nil_r.
  - intros c1 c2 c3 [(es1 & Ht1 & He1) ? ? ?] [(es2 & Ht2 & He2) ? ? ?]. split; try congruence.
    exists (es1 ++ es2). rewrite Ht2, Ht1, app_assoc. split; [done |]. by apply Forall_app.
Qed.

Lemma bystander_emits es c : Forall (λ e, unrelated e = true) es → bystander c (emits es c).
Proof using. intros Hes. split; try done. by exists es. Qed.

Lemma bystander_emit e c : unrelated e = true → bystander c (emit e c).
Proof using. intros He. apply bystander_emits. by constructor. Qed.

Lemma bystander_modify f c :
  (∀ d, d_ackQ (f d) = d_ackQ d ∧ d_multipleAckHandler (f d) = d_multipleAckHandler d ∧
        d_lifetimeId (d_messageStore (f d)) = d_lifetimeId (d_messageStore d)) →
  bystander c (modify f c).
Proof using.
  intros Hf. destruct (Hf (c_derived c)) as (Hq & Hh & Hl). split; try done. exists []. by rewrite app_nil_r.
Qed.

(** Assignments to members of the base class. *)
Lemma bystander_same c c' : c_trace c' = c_trace c → c_derived c' = c_derived c → bystander c c'.
Proof using.
  intros Ht Hd. split; unfold ReceiveChannel_lifetimeId; rewrite ?Hd; try done. exists []. by rewrite app_nil_r.
Qed.

Lemma bystander_ready c : bystander c (Channel_ready c).
Proof using.
  split; try done.
  exists (TimerCancel :: ((λ f, FutureSet f true) <$> d_readyMade c) ++ [Counter channel_ready]).
  split; [simpl; by rewrite <- ?app_assoc |].
  constructor; [done |]. apply Forall_app. split; [| by constructor]. by apply Forall_fmap, Forall_forall.
Qed.

Lemma bystander_writeState m s c :
  (∀ h, unrelated (AsyncWrite m h) = true) → bystander c (Channel_writeState m s c).
Proof using.
  intros Hm. unfold Channel_writeState. etrans; [| by apply bystander_emit].
  destruct s; try (by apply bystander_same). apply bystander_ready.
Qed.

Lemma bystander_close code text cl me c : bystander c (Channel_close code text cl me c).
Proof using. by apply bystander_writeState. Qed.

(** The consumer's methods are not acknowledgements. *)
Definition consumer_method (m : option BasicMethod) : bool :=
  match m with
  | None | Some (BasicMethod_Consume _) | Some (BasicMethod_Cancel _) | Some (BasicMethod_QoS _) => true
  | _ => false
  end.

Lemma bystander_write_optional m c : consumer_method m = true → bystander c (write_optional m c).
Proof using.
  destruct m as [m |]; [| done]. intros Hm. apply bystander_writeState. intros h. by destruct m.
Qed.

Lemma Consumer_consume_method config k : consumer_method (Consumer_consume config k).1 = true.
Proof using. unfold Consumer_consume. by destruct (cs_state k). Qed.

Lemma Consumer_cancel_method pause k : consumer_method (Consumer_cancel pause k).1 = true.
Proof using. unfold Consumer_cancel. cbv zeta. by repeat case_match. Qed.

Lemma Consumer_consumeOk_method k : consumer_method (Consumer_consumeOk k).1 = true.
Proof using. unfold Consumer_consumeOk. by destruct (cs_state k). Qed.

Lemma bystander_resolve_consume ok c : bystander c (resolve_consume ok c).
Proof using.
  unfold resolve_consume. case_match; [| done]. etrans; [| by apply bystander_modify]. by apply bystander_emit.
Qed.

Lemma bystander_resolve_cancel ok c : bystander c (resolve_cancel ok c).
Proof using.
  unfold resolve_cancel. case_match; [| done]. etrans; [| by apply bystander_modify]. by apply bystander_emit.
Qed.

Lemma bystander_resolve_drain ok c : bystander c (resolve_drain ok c).
Proof using.
  unfold resolve_drain. case_match; [| done]. etrans; [| by apply bystander_modify]. by apply bystander_emit.
Qed.

Lemma bystander_restartConsumers c : bystander c (ReceiveChannel_restartConsumers c).
Proof using.
  unfold ReceiveChannel_restartConsumers. destruct (d_consumer _) as [k |]; [| done].
  pose proof (Consumer_consume_method (d_consumerConfig (c_derived c)) k) as Hm.
  destruct (Consumer_consume _ k) as [[m |] k']; simpl in Hm; [| by apply bystander_modify].
  etrans; [by apply (bystander_modify (set_consumer (Some k'))) |].
  etrans; [by apply (bystander_emit TimerReset) |]. exact (bystander_write_optional (Some m) _ Hm).
Qed.

(** One step back through a composed operation. *)
Ltac bystander_step :=
  lazymatch goal with
  | |- bystander ?c ?c => reflexivity
  | |- bystander _ (Channel_ready _) => etrans; [| apply bystander_ready]
  | |- bystander _ (Channel_close _ _ _ _ _) => etrans; [| apply bystander_close]
  | |- bystander _ (ReceiveChannel_invalidConsumerError _ _) => etrans; [| apply bystander_close]
  | |- bystander _ (write_optional _ _) => etrans; [| by apply bystander_write_optional]
  | |- bystander _ (write_request ?m _) => etrans; [| by apply (bystander_write_optional (Some m))]
  | |- bystander _ (ReceiveChannel_restartConsumers _) => etrans; [| apply bystander_restartConsumers]
  | |- bystander _ (resolve_consume _ _) => etrans; [| apply bystander_resolve_consume]
  | |- bystander _ (resolve_cancel _ _) => etrans; [| apply bystander_resolve_cancel]
  | |- bystander _ (resolve_drain _ _) => etrans; [| apply bystander_resolve_drain]
  | |- bystander _ (modify ?f _) => etrans; [| by apply (bystander_modify f)]
  | |- bystander _ (emit ?e _) => etrans; [| by apply (bystander_emit e)]
  end.

Lemma consume_bystander hp queue tag c : bystander c (ReceiveChannel_consume hp queue tag c).2.
Proof using. unfold ReceiveChannel_consume. repeat case_match; simpl; by repeat bystander_step. Qed.

Lemma resume_bystander f c : bystander c (ReceiveChannel_resume f c).2.
Proof using. unfold ReceiveChannel_resume. repeat case_match; simpl; by repeat bystander_step. Qed.

Lemma cancel_bystander f c : bystander c (ReceiveChannel_cancel f c).2.
Proof using.
  unfold ReceiveChannel_cancel, ReceiveChannel_failPendingResume. cbv zeta.
  destruct (d_cancelFuture _), (d_consumer _) as [k |]; simpl; try (by repeat bystander_step).
  - case_match; simpl; by repeat bystander_step.
  - pose proof (Consumer_cancel_method false k) as Hm. destruct (Consumer_cancel false k) as [m k'].
    repeat case_match; simpl; by repeat bystander_step.
Qed.

Lemma pause_bystander f c : bystander c (ReceiveChannel_pause f c).2.
Proof using.
  unfold ReceiveChannel_pause, ReceiveChannel_failPendingResume. do 2 (case_match; [done |]). cbv zeta.
  etrans; [by apply (bystander_modify (set_channelPausedOnOpen true)) |].
  etrans; [apply (bystander_resolve_consume false) |]. generalize (resolve_consume false (modify (set_channelPausedOnOpen true) c)) as c1.
  intros c1.
  destruct (d_cancelFuture (c_derived c1)), (d_consumer (c_derived c1)) as [k |]; simpl; try reflexivity.
  pose proof (Consumer_cancel_method true k) as Hm. destruct (Consumer_cancel true k) as [m k'].
  destruct (Consumer_canPause k); [| reflexivity].
  destruct (Consumer_isPaused k'); simpl; by repeat bystander_step.
Qed.

Lemma drain_bystander f c : bystander c (ReceiveChannel_drain f c).2.
Proof using. unfold ReceiveChannel_drain. repeat case_match; simpl; by repeat bystander_step. Qed.

Lemma remove_lifetime tag (s : MessageStore Message) : d_lifetimeId (MessageStore_remove tag s).2 = d_lifetimeId s.
Proof using. unfold MessageStore_remove. by repeat case_match. Qed.

Lemma removeUntil_lifetime tag (s : MessageStore Message) :
  d_lifetimeId (MessageStore_removeUntil tag s).2 = d_lifetimeId s.
Proof using. unfold MessageStore_removeUntil. by repeat case_match. Qed.

Lemma removeMessages_bystander tag multiple c :
  bystander c (ReceiveChannel_removeMessagesFromStore tag multiple c).
Proof using.
  unfold ReceiveChannel_removeMessagesFromStore. cbv zeta.
  set (store := if multiple then _ else _).
  assert (bystander c (modify (set_messageStore store) c)) as Hm.
  { split; try done; [exists []; by rewrite app_nil_r |]. unfold ReceiveChannel_lifetimeId, store. simpl.
    destruct multiple; [apply removeUntil_lifetime | apply remove_lifetime]. }
  repeat case_match; try exact Hm. etrans; [exact Hm |]. by apply bystander_emit.
Qed.

Lemma processBasicMethod_bystander m c : bystander c (ReceiveChannel_processBasicMethod m c).
Proof using.
  destruct m as [| | | ok | | ok | | | | | |]; simpl; try reflexivity.
  - case_match; by repeat bystander_step.
  - unfold processCancelOk. cbv zeta. destruct (consumer_with _ _) as [k |]; [| by repeat bystander_step].
    repeat case_match; by repeat bystander_step.
  - unfold processConsumeOk. cbv zeta. set (c1 := match consumer_with _ c with Some _ => _ | None => _ end).
    transitivity c1; [| case_match; by repeat bystander_step].
    unfold c1. destruct (consumer_with _ _) as [k |]; [| by repeat bystander_step].
    pose proof (Consumer_consumeOk_method k) as Hm. destruct (Consumer_consumeOk k) as [m k'].
    case_match; by repeat bystander_step.
  - case_match; by repeat bystander_step.
  - unfold processQoSOk. destruct (d_consumer _) as [k |]; [| by repeat bystander_step].
    cbv zeta. repeat case_match; by repeat bystander_step.
Qed.

(** ** Every operation keeps the invariant *)

Definition keeps_acks (c c' : ReceiveChannel) : Prop :=
  (resets c ≤ resets c')%nat ∧
  ∀ acked processed b, Z.of_nat (resets c') < 2 ^ 64 → acks_inv acked processed b c →
    ∃ processed' b', acks_inv acked processed' b' c'.

#[global] Instance keeps_acks_preorder : PreOrder keeps_acks.
Proof using.
  split.
  - intros c. split; [done |]. eauto.
  - intros c1 c2 c3 [Hle12 H12] [Hle23 H23]. split; [lia |]. intros acked p b Hb Hi.
    destruct (H12 acked p b ltac:(lia) Hi) as (p2 & b2 & Hi2). eauto.
Qed.

Lemma bystander_resets c c' : bystander c c' → resets c' = resets c.
Proof using.
  intros [(es & Ht & Hes) _ _ _]. destruct (unrelated_emits es c Hes) as (_ & _ & _ & Hr).
  unfold resets in *. by rewrite Ht.
Qed.

Lemma bystander_inv acked processed b c c' :
  bystander c c' → acks_inv acked processed b c → acks_inv acked processed b c'.
Proof using. intros [(es & Ht & Hes) Hq Hh Hl] Hi. by eapply acks_inv_unrelated. Qed.

Lemma bystander_keeps c c' : bystander c c' → keeps_acks c c'.
Proof using.
  intros Hb. split; [by rewrite (bystander_resets _ _ Hb) |]. intros acked p b _ Hi.
  exists p, b. by eapply bystander_inv.
Qed.

(** *** Resetting *)

Lemma handler_inv_start : handler_inv 0 (acks_tags []) (mkBroker ∅ ∅) 0 0 MultipleAckHandler_make.
Proof using. split; simpl; set_solver by lia. Qed.

Lemma reset_acks_members clock b c :
  let c' := (Channel_reset (H := ReceiveChannel_hooks clock) b c).2 in
  d_ackQ (c_derived c') = AckQueue_removeAll (d_ackQ (c_derived c)) ∧
  d_multipleAckHandler (c_derived c') = MultipleAckHandler_make ∧
  ReceiveChannel_lifetimeId c' = uwrap 64 (ReceiveChannel_lifetimeId c + 1) ∧
  live c' = [] ∧ delivered c' = delivered c.
Proof using.
  cbv zeta. split_and!.
  5: { assert (∀ x, delivered (ReceiveChannel_onReset x) = delivered x) as Hr.
       { intros x. unfold ReceiveChannel_onReset. cbv zeta.
         assert (∀ x, delivered (resolve_drain false (resolve_cancel false (resolve_consume false x))) = delivered x) as ->.
         { intros y. assert (bystander y (resolve_drain false (resolve_cancel false (resolve_consume false y)))) as [(es & Ht & Hes) _ _ _]
             by (by repeat bystander_step).
           unfold delivered. rewrite Ht. by apply (unrelated_emits es y). }
         by repeat case_match. }
       unfold Channel_reset. simpl.
       assert (∀ e x, delivery_of e = None → delivered (emit e x) = delivered x) as He.
       { intros e x Hx. unfold delivered. simpl. rewrite omap_app. simpl. by rewrite Hx, app_nil_r. }
       rewrite He by done. destruct b; rewrite ?He by done; by rewrite Hr. }
  4: { unfold live, Channel_reset. simpl. unfold since_reset. by rewrite fold_left_app. }
  all: unfold ReceiveChannel_lifetimeId, Channel_reset; simpl;
    assert (∀ c', c_derived (if b then emit Retry c' else c') = c_derived (c' : ReceiveChannel)) as ->
      by (intros; by destruct b);
    unfold ReceiveChannel_onReset, ReceiveChannel_processFailures; cbv zeta;
    rewrite derived_resolve_drain, derived_resolve_cancel, derived_resolve_consume; by repeat case_match.
Qed.

Lemma reset_keeps_acks clock b c : keeps_acks c (Channel_reset (H := ReceiveChannel_hooks clock) b c).2.
Proof using.
  split; rewrite resets_reset; [lia |]. intros acked processed br Hb Hi.
  destruct (reset_acks_members clock b c) as (Hq & Hh & Hl & Hlive & Hd).
  destruct (removeAll_spec _ (ai_queue _ _ _ _ Hi)) as [Hwf Hw].
  pose proof (resets_reset clock b c) as Hr.
  set (c' := (Channel_reset (H := ReceiveChannel_hooks clock) b c).2) in *. clearbody c'.
  assert (delivered_live c' = []) as Hdl by (unfold delivered_live; by rewrite Hlive).
  exists [], (mkBroker ∅ ∅). split; rewrite ?Hq, ?Hh, ?Hdl, ?Hd, ?Hr, ?Hw; simpl.
  - lia.
  - rewrite Hl, (ai_lifetime _ _ _ _ Hi). rewrite uwrap_small; [lia |]. apply u_in_iff. lia.
  - done.
  - unfold broker_view. by rewrite Hlive.
  - apply handler_inv_start.
  - done.
  - constructor.
  - apply submseteq_nil_l.
  - apply Hi.
  - intros a Ha. by apply (ai_seen _ _ _ _ Hi).
  - intros env Henv. destruct (ai_past _ _ _ _ Hi env Henv) as [Hle _]. split; lia.
  - done.
Qed.

(** *** Operations that bring no content *)

(** The virtual functions of a channel that ignores contents. *)
Definition no_contents (clock : Z → Z) : ChannelHooks ReceiveState ReceiveEvent := {|
  processBasicMethod := ReceiveChannel_processBasicMethod;
  processConfirmMethod _ c := c;
  processMessage _ c := c;
  onOpen := ReceiveChannel_onOpen;
  onReset := ReceiveChannel_onReset;
  onFlowAllowed c := c;
  processFailures := ReceiveChannel_processFailures;
|}.

Lemma keeps_acks_closed clock : channel_closed (H := no_contents clock) keeps_acks.
Proof using.
  split; intros; try apply _; try (by apply bystander_keeps, bystander_same).
  - apply bystander_keeps, bystander_emit. by apply base_effect_unrelated.
  - apply bystander_keeps. unfold Channel_open. case_match; [done |].
    etrans; [by apply (bystander_emit TimerStart) |]. by apply bystander_writeState.
  - rewrite <- (channel_op_ext (ReceiveChannel_hooks clock) (no_contents clock) (Op_reset b) c
                  eq_refl eq_refl eq_refl eq_refl eq_refl I : (Channel_reset b c).2 = (Channel_reset b c).2).
    apply (reset_keeps_acks clock).
  - apply bystander_keeps, processBasicMethod_bystander.
  - apply bystander_keeps. simpl. unfold ReceiveChannel_onOpen. by repeat bystander_step.
Qed.

Definition is_content (op : ChannelOp) : bool :=
  match op with Op_processReceived _ (AM_Message _) => true | _ => false end.

Lemma channel_op_keeps_acks clock op c :
  is_content op = false → keeps_acks c (channel_op (H := ReceiveChannel_hooks clock) op c).
Proof using.
  intros Hc. rewrite (channel_op_ext (ReceiveChannel_hooks clock) (no_contents clock) op c) by
    (done || (destruct op as [| | | hp m | | | | | |]; try exact I;
              destruct m as [| | m | [| m | | | | |]]; try exact I; [done | exact eq_refl])).
  apply channel_op_closed, keeps_acks_closed.
Qed.

(** *** Deliveries *)

Lemma delivery_inv acked processed b c c' m env :
  acks_inv acked processed b c →
  c_trace c' = c_trace c ++ [Counter received_messages; Callback (OnNewMessage m env)] →
  d_ackQ (c_derived c') = d_ackQ (c_derived c) →
  d_multipleAckHandler (c_derived c') = d_multipleAckHandler (c_derived c) →
  ReceiveChannel_lifetimeId c' = ReceiveChannel_lifetimeId c →
  env_channelLifetimeId env = ReceiveChannel_lifetimeId c →
  env_deliveryTag env = Z.of_nat (length (delivered_live c)) + 1 → env_deliveryTag env < 2 ^ 64 - 1 →
  acks_inv acked processed (broker_deliver (env_deliveryTag env) b) c'.
Proof using.
  intros Hi Ht Hq Hh Hl He Htag Hb.
  assert (live c' = live c ++ [Counter received_messages; Callback (OnNewMessage m env)]) as Hlive
    by (unfold live; rewrite Ht; apply since_reset_app; by repeat constructor).
  assert (delivered c' = delivered c ++ [env]) as Hd by (unfold delivered; by rewrite Ht, omap_app).
  assert (delivered_live c' = delivered_live c ++ [env]) as Hdl
    by (unfold delivered_live; by rewrite Hlive, omap_app).
  assert (resets c' = resets c) as Hr.
  { unfold resets. rewrite Ht, filter_app, length_app. simpl. lia. }
  assert (broker_view c' = Some (broker_deliver (env_deliveryTag env) b)) as Hv.
  { unfold broker_view. rewrite Hlive, fold_left_app. fold (broker_view c).
    by rewrite (ai_view _ _ _ _ Hi). }
  assert (Z.of_nat (length (delivered_live c ++ [env])) = Z.of_nat (length (delivered_live c)) + 1) as Hlen
    by (rewrite length_app; simpl; lia).
  split; rewrite ?Hd, ?Hdl, ?Hv, ?Hr, ?Hq, ?Hh, ?Hl, ?Hlen; try apply Hi; try done.
  - rewrite Htag. apply handler_inv_deliver; [apply Hi | lia].
  - intros a Ha. apply elem_of_app. left. by apply (ai_seen _ _ _ _ Hi).
  - intros env' [Hin | ->%list_elem_of_singleton]%elem_of_app.
    + destruct (ai_past _ _ _ _ Hi env' Hin) as [Hle Hin']. split; [done |].
      intros Heq. apply elem_of_app. left. auto.
    + rewrite He, (ai_lifetime _ _ _ _ Hi). split; [done |]. intros _. apply elem_of_app. right. by constructor.
  - rewrite fmap_app, (ai_tags _ _ _ _ Hi). simpl. rewrite Htag.
    rewrite seqZ_app by lia. f_equal. rewrite Z.add_comm. done.
Qed.

Lemma insert_lifetime now tag m (s : MessageStore Message) :
  d_lifetimeId (MessageStore_insert now tag m s).2 = d_lifetimeId s.
Proof using. unfold MessageStore_insert. by repeat case_match. Qed.

Lemma processMessage_keeps_acks clock m acked processed b c :
  (∀ d, d_nextMessage (c_derived c) = Some d →
     BasicDeliver_deliveryTag d = Z.of_nat (length (delivered_live c)) + 1 ∧
     BasicDeliver_deliveryTag d < 2 ^ 64 - 1) →
  acks_inv acked processed b c →
  ∃ b', acks_inv acked processed b' (ReceiveChannel_processMessage clock m c).
Proof using.
  intros Hn Hi. unfold ReceiveChannel_processMessage.
  destruct (d_nextMessage (c_derived c)) as [d |] eqn:Hd.
  2: { exists b. eapply bystander_inv; [apply bystander_close | done]. }
  destruct (Hn d eq_refl) as [Htag Hb].
  pose proof (insert_lifetime (clock (BasicDeliver_deliveryTag d)) (BasicDeliver_deliveryTag d) m
                (d_messageStore (c_derived c))) as Hl.
  destruct (MessageStore_insert _ _ _ _) as [inserted store]. simpl in Hl.
  destruct inserted; simpl; [| exists b; eapply bystander_inv; [apply bystander_close | done]].
  destruct (consumer_with _ _) as [k |].
  - eexists. eapply delivery_inv; [exact Hi | simpl; by rewrite <- app_assoc | done | done | done | done | done | done].
  - exists b. eapply bystander_inv; [| exact Hi]. etrans; [| apply bystander_close].
    split; try done. exists []. by rewrite app_nil_r.
Qed.

(** *** Acknowledgements *)

Lemma concat_snoc_last {A} (front : list (list A)) l x : concat (front ++ [l ++ [x]]) = concat (front ++ [l]) ++ [x].
Proof using. rewrite !concat_app. simpl. by rewrite !app_nil_r, app_assoc. Qed.

Lemma ackMessage_inv acked processed b c a :
  ack_envelope a ∈ delivered c → ack_envelope a ∉ ack_envelope <$> acked →
  acks_inv acked processed b c → acks_inv (acked ++ [a]) processed b (ReceiveChannel_ackMessage a c).
Proof using.
  intros Hin Hni Hi. unfold ReceiveChannel_ackMessage.
  pose proof (ackMessage_spec a _ (ai_queue _ _ _ _ Hi)) as Hs.
  destruct (ConsumerImpl_ackMessage a _) as [posted q]. destruct Hs as [Hwf Hw].
  assert (concat (waiting q) = concat (waiting (d_ackQ (c_derived c))) ++ [a]) as Hc.
  { destruct posted; [rewrite Hw, concat_app; done |].
    destruct Hw as (front & l & -> & ->). apply concat_snoc_last. }
  assert (acks_inv (acked ++ [a]) processed b (modify (λ d, set_acks q (d_multipleAckHandler d) d) c)) as Hi'.
  { destruct Hi. split; try done.
    - simpl. rewrite Hc, app_assoc. by apply submseteq_app.
    - rewrite fmap_app. apply NoDup_app. split; [done |]. split; [| apply NoDup_singleton].
      intros x Hx ->%list_elem_of_singleton. done.
    - intros a' [Ha | ->%list_elem_of_singleton]%elem_of_app; [by apply ai_seen0 | done]. }
  destruct posted; [| done]. eapply bystander_inv; [| exact Hi']. by apply bystander_emit.
Qed.

Lemma valid_acks_filter l acks : valid_acks l acks = filter (of_lifetime l) acks.
Proof using.
  induction acks as [| a acks IH]; simpl; [done |]. rewrite filter_cons, IH.
  unfold of_lifetime at 2. destruct (Z.eqb_spec (env_channelLifetimeId (ack_envelope a)) l) as [H | H];
    [by rewrite decide_True | by rewrite decide_False].
Qed.

(** The writes of the handler's calls, as the broker sees them. *)
Lemma sendAcks_view calls : ∀ c b,
  broker_view c = Some b →
  let c' := fold_left (λ c a, ReceiveChannel_sendAckOrNack a c) calls c in
  broker_view c' = broker_run calls b ∧ delivered c' = delivered c ∧ delivered_live c' = delivered_live c ∧
  resets c' = resets c ∧ c_derived c' = c_derived c.
Proof using.
  intros c b Hb.
  assert (∀ c b, broker_view c = b →
    let c' := fold_left (λ c a, ReceiveChannel_sendAckOrNack a c) calls c in
    broker_view c' = (b ≫= broker_run calls) ∧ delivered c' = delivered c ∧ delivered_live c' = delivered_live c ∧
    resets c' = resets c ∧ c_derived c' = c_derived c) as H; [| apply (H c (Some b) Hb)].
  clear. induction calls as [| a calls IH]; intros c b Hb; simpl.
  { split_and!; try done. rewrite Hb. by destruct b. }
  set (c1 := ReceiveChannel_sendAckOrNack a c).
  assert (broker_view c1 = b ≫= broker_step a) as Hv.
  { unfold c1, ReceiveChannel_sendAckOrNack, broker_view. rewrite live_emit by done. rewrite fold_left_app.
    fold (broker_view c). rewrite Hb. simpl. unfold broker_effect. destruct b; [| done]. by destruct a. }
  destruct (IH c1 _ Hv) as (Hv' & Hd & Hdl & Hr & Hder). split_and!.
  - rewrite Hv'. destruct b; simpl; [| done]. by destruct (broker_step a b).
  - rewrite Hd. unfold c1, delivered. simpl. rewrite omap_app. simpl. by rewrite app_nil_r.
  - rewrite Hdl. unfold c1, ReceiveChannel_sendAckOrNack, delivered_live. rewrite live_emit by done.
    rewrite omap_app. simpl. by rewrite app_nil_r.
  - rewrite Hr. unfold c1, resets. simpl. rewrite filter_app, length_app. simpl. lia.
  - by rewrite Hder.
Qed.

Lemma acks_map_app l1 l2 : acks_map (l1 ++ l2) = acks_map l1 ∪ acks_map l2.
Proof using. unfold acks_map. by rewrite fmap_app, list_to_map_app. Qed.

Lemma acks_tags_app l1 l2 : acks_tags (l1 ++ l2) = acks_tags l1 ∪ acks_tags l2.
Proof using. unfold acks_tags. by rewrite fmap_app, list_to_set_app_L. Qed.

Section Batch.
Context {AS : AckSort} {SL : AckSortLaws AS}.
Context (acked processed : list ConsumerAck) (b : Broker) (c : ReceiveChannel).
Context (Hi : acks_inv acked processed b c).

#[local] Abbreviation current := (of_lifetime (ReceiveChannel_lifetimeId c)).

(** An envelope of the current lifetime is determined by its tag. *)
Lemma live_tag_inj e1 e2 :
  e1 ∈ delivered_live c → e2 ∈ delivered_live c → env_deliveryTag e1 = env_deliveryTag e2 → e1 = e2.
Proof using Hi.
  intros [i1 H1]%list_elem_of_lookup [i2 H2]%list_elem_of_lookup Heq.
  assert (i1 = i2) as ->; [| congruence].
  pose proof (NoDup_seqZ 1 (Z.of_nat (length (delivered_live c)))) as Hnd.
  rewrite <- (ai_tags _ _ _ _ Hi) in Hnd.
  eapply (NoDup_lookup _ _ _ (env_deliveryTag e1) Hnd); rewrite list_lookup_fmap; [by rewrite H1 |].
  rewrite H2. simpl. by rewrite Heq.
Qed.

Lemma current_delivered a : a ∈ acked → current a → ack_envelope a ∈ delivered_live c.
Proof using Hi.
  intros Ha Hc. unfold of_lifetime in Hc. rewrite (ai_lifetime _ _ _ _ Hi) in Hc.
  apply (ai_past _ _ _ _ Hi); [by apply (ai_seen _ _ _ _ Hi) | done].
Qed.

(** The acknowledgements of a batch that pass the filter are of distinct messages that
    are outstanding at the broker. *)
Lemma batch_outstanding acks rest :
  waiting (d_ackQ (c_derived c)) = acks :: rest →
  (filter current acks ++ processed) ++ concat rest ⊆+ acked ∧
  NoDup (ack_tag <$> filter current acks) ∧
  ∀ x, x ∈ ack_tag <$> filter current acks → x ∈ unacked b.
Proof using Hi.
  intros Hw. pose proof (ai_made _ _ _ _ Hi) as Hm. rewrite Hw in Hm. simpl in Hm.
  assert ((filter current acks ++ processed) ++ concat rest ⊆+ acked) as Hsub.
  { etrans; [| exact Hm]. rewrite (Permutation_app_comm (filter _ _) processed), <- app_assoc.
    apply submseteq_app; [done |]. apply submseteq_app; [| done]. apply sublist_submseteq, sublist_filter. }
  split; [done |].
  assert (filter current acks ++ processed ⊆+ acked) as Hsub'.
  { etrans; [| exact Hsub]. by apply submseteq_inserts_r. }
  assert (∀ a, a ∈ filter current acks ++ processed → ack_envelope a ∈ delivered_live c) as Hlive.
  { intros a Ha. apply current_delivered; [by eapply elem_of_submseteq |].
    apply elem_of_app in Ha as [Ha | Ha]; [by apply list_elem_of_filter in Ha as [Ha _] |].
    pose proof (ai_current _ _ _ _ Hi) as Hc. rewrite Forall_forall in Hc. unfold of_lifetime.
    rewrite (ai_lifetime _ _ _ _ Hi). by apply Hc. }
  assert (NoDup (ack_tag <$> (filter current acks ++ processed))) as Hnd.
  { change (ack_tag <$> ?l) with ((λ a, env_deliveryTag (ack_envelope a)) <$> l).
    rewrite (list_fmap_compose ack_envelope env_deliveryTag). apply NoDup_fmap_2_strong.
    - intros e1 e2 (a1 & -> & H1)%list_elem_of_fmap (a2 & -> & H2)%list_elem_of_fmap. apply live_tag_inj; auto.
    - apply (submseteq_Permutation) in Hsub' as [l Hl]. pose proof (ai_once _ _ _ _ Hi) as Ho.
      rewrite Hl, fmap_app in Ho. by apply NoDup_app in Ho as [Ho _]. }
  rewrite fmap_app in Hnd. apply NoDup_app in Hnd as (Hnd1 & Hdisj & _). split; [done |].
  intros x Hx. pose proof (Hdisj x Hx) as Hnp. apply list_elem_of_fmap in Hx as (a & -> & Ha).
  assert (1 ≤ ack_tag a ≤ Z.of_nat (length (delivered_live c))) as Hrange.
  { assert (ack_tag a ∈ env_deliveryTag <$> delivered_live c) as Hin
      by (apply list_elem_of_fmap; exists (ack_envelope a); split; [done |]; apply Hlive, elem_of_app; by left).
    rewrite (ai_tags _ _ _ _ Hi), elem_of_seqZ in Hin. lia. }
  apply (hi_delivered _ _ _ _ _ _ (ai_handler _ _ _ _ Hi)) in Hrange as [Hr | Hr]; [done |].
  by rewrite elem_of_acks_tags in Hr.
Qed.

Definition closing (s : ChannelState) : bool :=
  match s with CHANNEL_CLOSE_SENT | CLOSED => true | _ => false end.

(** The broker after a batch. *)
Definition broker_after_batch (acks : list ConsumerAck) : Broker :=
  if closing (d_state c) then b
  else mkBroker (unacked b ∖ acks_tags (filter current acks))
         (acks_map (filter current acks) ∪ settled b).

Lemma consumeAckBatch_inv acks rest :
  waiting (d_ackQ (c_derived c)) = acks :: rest →
  acks_inv acked (if closing (d_state c) then processed else filter current acks ++ processed)
    (broker_after_batch acks) (ReceiveChannel_consumeAckBatchFromQueue c).
Proof using Hi SL.
  intros Hw. pose proof (popFront_spec _ (ai_queue _ _ _ _ Hi)) as Hpop. rewrite Hw in Hpop.
  destruct Hpop as (q' & Hpop & Hwf & Hw').
  destruct (batch_outstanding acks rest Hw) as (Hsub & Hnd & Hout).
  unfold ReceiveChannel_consumeAckBatchFromQueue, broker_after_batch. rewrite Hpop, valid_acks_filter.
  destruct (closing (d_state c)) eqn:Hcl.
  - assert (acks_inv acked processed b (modify (set_acks q' (d_multipleAckHandler (c_derived c))) c)) as Hi'.
    { destruct Hi. split; try done. simpl. rewrite Hw'. etrans; [| exact Hsub].
      rewrite <- app_assoc. by apply submseteq_inserts_l. }
    destruct (d_state c); done.
  - destruct (process_correct _ _ _ _ _ (ai_handler _ _ _ _ Hi) Hnd Hout) as [Hrun Hh].
    destruct (MultipleAckHandler_process _ _) as [calls h]. simpl in Hrun, Hh.
    destruct (sendAcks_view calls (modify (set_acks q' h) c) b (ai_view _ _ _ _ Hi)) as (Hv & Hd & Hdl & Hr & Hder).
    assert (acks_inv acked (filter current acks ++ processed)
              (mkBroker (unacked b ∖ acks_tags (filter current acks)) (acks_map (filter current acks) ∪ settled b))
              (fold_left (λ c a, ReceiveChannel_sendAckOrNack a c) calls (modify (set_acks q' h) c))) as Hi'.
    { set (c' := fold_left _ _ _) in *. clearbody c'. rewrite Hrun in Hv.
      change (delivered_live (modify ?f ?x)) with (delivered_live x) in Hdl.
      change (delivered (modify ?f ?x)) with (delivered x) in Hd. change (resets (modify ?f ?x)) with (resets x) in Hr.
      split; unfold ReceiveChannel_lifetimeId; rewrite ?Hd, ?Hdl, ?Hr, ?Hder, ?Hv; simpl; try apply Hi; try done.
      - by rewrite acks_tags_app.
      - by rewrite acks_map_app, (ai_settled _ _ _ _ Hi).
      - apply Forall_app. split; [| apply Hi]. apply Forall_forall. intros a Ha%list_elem_of_filter.
        rewrite <- (ai_lifetime _ _ _ _ Hi). apply Ha.
      - by rewrite Hw'. }
    destruct (d_state c); done.
Qed.
End Batch.

(** ** Theorems *)

Section Theorems.
Context {AS : AckSort} {SL : AckSortLaws AS}.

Lemma acking_inv acked c : acking acked c → ∃ processed b, acks_inv acked processed b c.
Proof using SL.
  induction 1 as [tp config paused | clock acked c a _ (p & b & Hi) Hin Hni
                 | clock acked c op _ (p & b & Hi) Hop Hn Hb].
  - exists [], (mkBroker ∅ ∅). split; simpl; try done;
      first [apply queue_wf_make | apply handler_inv_start | apply NoDup_nil_2 | apply Forall_nil_2
            | intros x Hx; by apply elem_of_nil in Hx].
  - exists p, b. by apply ackMessage_inv.
  - assert (∀ c', bystander c c' → ∃ p b, acks_inv acked p b c') as Hby
      by (intros c' Hc'; exists p, b; by eapply bystander_inv).
    destruct op as [op | | | | | | | |]; cbn [receive_op] in *; try done.
    + destruct (is_content op) eqn:Hc; [| by apply (channel_op_keeps_acks clock op c Hc) with p b].
      destruct op as [| | | hp m | | | | | |]; try done. destruct m as [| | m |]; try done. cbn [channel_op] in *.
      destruct (processMessage_keeps_acks clock m acked p b c Hn Hi) as [b' Hi'].
      unfold Channel_processReceived. destruct (d_state c); eauto.
    + apply Hby, consume_bystander.
    + apply Hby, resume_bystander.
    + apply Hby, cancel_bystander.
    + apply Hby, pause_bystander.
    + apply Hby, drain_bystander.
    + destruct (waiting (d_ackQ (c_derived c))) as [| acks rest] eqn:Hw; [| eexists _, _; by eapply consumeAckBatch_inv].
      pose proof (popFront_spec _ (ai_queue _ _ _ _ Hi)) as Hp. rewrite Hw in Hp.
      unfold ReceiveChannel_consumeAckBatchFromQueue. rewrite Hp. eauto.
    + apply Hby, removeMessages_bystander.
Qed.

Lemma acks_map_Some acks t ty : acks_map acks !! t = Some ty → ∃ a, a ∈ acks ∧ ack_tag a = t ∧ ack_type a = ty.
Proof using.
  intros Ht%elem_of_list_to_map_2. apply list_elem_of_fmap in Ht as (a & [= -> ->] & Ha). eauto.
Qed.

(** What the invariant says of the broker's view. *)
Lemma acks_inv_settles acked processed b c :
  acks_inv acked processed b c →
  (∀ t, t ∈ unacked b ∨ is_Some (settled b !! t) ↔ 1 ≤ t ≤ Z.of_nat (length (delivered_live c))) ∧
  (∀ t, t ∈ unacked b → settled b !! t = None) ∧
  (∀ t ty, settled b !! t = Some ty →
     ∃ a, a ∈ acked ∧ ack_tag a = t ∧ ack_type a = ty ∧
          env_channelLifetimeId (ack_envelope a) = ReceiveChannel_lifetimeId c).
Proof using.
  intros Hi. pose proof (ai_handler _ _ _ _ Hi) as Hh.
  assert (∀ t, is_Some (settled b !! t) ↔ t ∈ acks_tags processed) as Hset.
  { intros t. rewrite (ai_settled _ _ _ _ Hi), elem_of_acks_tags. split.
    - intros [ty (a & Ha & <- & _)%acks_map_Some]. by apply list_elem_of_fmap_2.
    - intros Hin. destruct (acks_map processed !! t) eqn:Hn; [done |].
      apply not_elem_of_list_to_map in Hn. rewrite <- list_fmap_compose in Hn. done. }
  split; [intros t; by rewrite Hset, (hi_delivered _ _ _ _ _ _ Hh) |]. split.
  - intros t Ht. apply eq_None_not_Some. rewrite Hset. intros Hin.
    pose proof (proj1 (hi_pending _ _ _ _ _ _ Hh t) (conj Ht Hin)). lia.
  - intros t ty. rewrite (ai_settled _ _ _ _ Hi). intros (a & Ha & Ht & Hty)%acks_map_Some.
    exists a. split_and!; try done.
    + eapply elem_of_submseteq; [| apply (ai_made _ _ _ _ Hi)]. apply elem_of_app. by left.
    + pose proof (ai_current _ _ _ _ Hi) as Hc. rewrite Forall_forall in Hc.
      rewrite (ai_lifetime _ _ _ _ Hi). by apply Hc.
Qed.

(** C7: The broker settles exactly what the application acknowledged. Take any
    history in which the broker numbers the deliveries of each channel consecutively
    from 1 and the application acknowledges messages it was handed, each at most once,
    in any order and at any time, also after a reconnection. Then the [basic.ack] and
    [basic.nack] written on the current channel, run through the protocol's meaning of
    these methods, never name an unknown delivery; every delivery is either outstanding
    or settled, and a settled one was acknowledged by the application on this channel
    in just this way. Acknowledgements of messages of earlier channels, which
    carry tags that are in use again, settle nothing: when a batch is taken from
    the queue, the deliveries that become settled are exactly those of its
    acknowledgements with the current lifetime, unless the channel is closing, in which
    case nothing is written. *)
Theorem acks_settle_exactly acked c :
  acking acked c →
  ∃ b, broker_view c = Some b ∧
    (∀ t, t ∈ unacked b ∨ is_Some (settled b !! t) ↔ 1 ≤ t ≤ Z.of_nat (length (delivered_live c))) ∧
    (∀ t, t ∈ unacked b → settled b !! t = None) ∧
    (∀ t ty, settled b !! t = Some ty →
       ∃ a, a ∈ acked ∧ ack_tag a = t ∧ ack_type a = ty ∧
            env_channelLifetimeId (ack_envelope a) = ReceiveChannel_lifetimeId c) ∧
    (∀ acks rest, waiting (d_ackQ (c_derived c)) = acks :: rest →
       let valid := filter (of_lifetime (ReceiveChannel_lifetimeId c)) acks in
       broker_view (ReceiveChannel_consumeAckBatchFromQueue c)
       = Some (if closing (d_state c) then b
               else mkBroker (unacked b ∖ acks_tags valid) (acks_map valid ∪ settled b))).
Proof using SL.
  intros (processed & b & Hi)%acking_inv. exists b.
  destruct (acks_inv_settles _ _ _ _ Hi) as (Ht & Hu & Hs).
  split; [apply Hi |]. split_and!; [exact Ht | exact Hu | exact Hs |].
  intros acks rest Hw. cbv zeta. rewrite (ai_view _ _ _ _ (consumeAckBatch_inv _ _ _ _ Hi _ _ Hw)).
  unfold broker_after_batch. by case_match.
Qed.

(** Whether a run is one of [acking]. *)
Definition numberedb (op : ReceiveOp) (c : ReceiveChannel) : bool :=
  match op, d_nextMessage (c_derived c) with
  | Recv_channel (Op_processReceived _ (AM_Message _)), Some d =>
      (BasicDeliver_deliveryTag d =? Z.of_nat (length (delivered_live c)) + 1) &&
      (BasicDeliver_deliveryTag d <? 2 ^ 64 - 1)
  | _, _ => true
  end.

Fixpoint acking_check (ops : list ((Z → Z) * ReceiveOp)) (acked : list ConsumerAck) (c : ReceiveChannel) : bool :=
  match ops with
  | [] => true
  | (clock, Recv_ackMessage a) :: ops' =>
      bool_decide (ack_envelope a ∈ delivered c) && bool_decide (ack_envelope a ∉ ack_envelope <$> acked) &&
      acking_check ops' (acked ++ [a]) (receive_op clock (Recv_ackMessage a) c)
  | (clock, op) :: ops' =>
      numberedb op c && (Z.of_nat (resets (receive_op clock op c)) <? 2 ^ 64) &&
      acking_check ops' acked (receive_op clock op c)
  end.

Definition acks_made (ops : list ((Z → Z) * ReceiveOp)) : list ConsumerAck :=
  omap (λ op, match op.2 with Recv_ackMessage a => Some a | _ => None end) ops.

Lemma numberedb_spec op c : numberedb op c = true → numbered op c.
Proof using.
  unfold numberedb, numbered. destruct op as [[| | | hp m | | | | | |] | | | | | | | |]; try done.
  destruct m; try done. intros Hn d Hd. rewrite Hd in Hn. apply andb_true_iff in Hn as [H1 H2].
  apply Z.eqb_eq in H1. apply Z.ltb_lt in H2. done.
Qed.

Lemma acking_check_acking ops : ∀ acked c,
  acking acked c → acking_check ops acked c = true → acking (acked ++ acks_made ops) (receive_run ops c).
Proof using.
  induction ops as [| [clock op] ops IH]; intros acked c Hc Hch; simpl; [by rewrite app_nil_r |].
  destruct (is_ack op) eqn:Ha.
  - destruct op as [| | | | | | a | |]; try done. simpl in Hch.
    apply andb_true_iff in Hch as [Hch Hrest]. apply andb_true_iff in Hch as [H1 H2].
    apply bool_decide_eq_true in H1. apply bool_decide_eq_true in H2. simpl.
    specialize (IH (acked ++ [a]) _ (acking_ack clock _ _ _ Hc H1 H2) Hrest). by rewrite <- app_assoc in IH.
  - assert (numberedb op c && (Z.of_nat (resets (receive_op clock op c)) <? 2 ^ 64) &&
            acking_check ops acked (receive_op clock op c) = true) as Hch' by (by destruct op).
    apply andb_true_iff in Hch' as [Hch' Hrest]. apply andb_true_iff in Hch' as [H1 H2].
    apply Z.ltb_lt in H2. apply numberedb_spec in H1.
    assert (acks_made ((clock, op) :: ops) = acks_made ops) as Hm by (by destruct op).
    change (acking (acked ++ acks_made ((clock, op) :: ops)) (receive_run ops (receive_op clock op c))).
    rewrite Hm. apply IH; [| done]. by apply acking_op.
Qed.
End Theorems.
End ReceiveAcks.

(** ** Witness *)

Section Witnesses.
#[local] Existing Instances byte_GuidUtil.

Definition sample_deliver (tag : Z) : BasicDeliver := mkBasicDeliver (str "tag") tag false (str "work") (str "key").

Definition sample_content : Message := Message_make Byte.x01 (Some [Byte.x2a]) Properties_empty.

Definition sample_envelope (tag lifetime : Z) : Envelope :=
  mkEnvelope tag lifetime (str "tag") (str "work") (str "key") false.

Definition delivery_ops (tag : Z) : list ((Z → Z) * ReceiveOp) :=
  [from_broker (AM_Method (Method_Basic (BasicMethod_Deliver (sample_deliver tag))));
   from_broker (AM_Message sample_content)].

(** Three messages are delivered; the second is acknowledged, then the first is
    rejected, and the first batch of these two is taken from the queue. *)
Definition sample_ack_ops : list ((Z → Z) * ReceiveOp) :=
  sample_consume_ops ++ delivery_ops 1 ++ delivery_ops 2 ++ delivery_ops 3 ++
  [receive_at 3 (Recv_ackMessage (mkConsumerAck (sample_envelope 2 0) ACK));
   receive_at 3 (Recv_ackMessage (mkConsumerAck (sample_envelope 1 0) REJECT));
   receive_at 4 Recv_consumeAckBatch].

Lemma acks_settle_exactly_witness :
  let c := receive_run sample_ack_ops sample_receive_channel in
  length (delivered_live c) = 3%nat ∧
  ∃ b, broker_view c = Some b ∧ (∀ t, t ∈ unacked b → settled b !! t = None).
Proof.
  split; [vm_compute; reflexivity |].
  destruct (acks_settle_exactly (acks_made sample_ack_ops) (receive_run sample_ack_ops sample_receive_channel))
    as (b & Hv & _ & Hu & _).
  - apply (acking_check_acking sample_ack_ops [] sample_receive_channel); [constructor |].
    vm_compute. reflexivity.
  - exists b. exact (conj Hv Hu).
Defined.

(** The same history: the third message is outstanding, the second acknowledged and the
    first rejected. *)
Example sample_broker_view :
  broker_view (receive_run sample_ack_ops sample_receive_channel)
  = Some (mkBroker {[3]} {[1 := REJECT; 2 := ACK]}).
Proof. vm_compute. reflexivity. Qed.
End Witnesses.
