(* ===== verification/Heartbeat.v ===== *)
(** * Heartbeat: keeping an idle connection alive

    Models [rmqamqp::HeartbeatManagerImpl] (rmqamqp_heartbeatmanagerimpl.cpp,
    rmqamqp_heartbeatmanagerimpl.h). The manager counts ticks of a one-second timer; its
    owner supplies the two callbacks and is told of the traffic.

    The callbacks run inside [processTick] and may call back into the manager
    ([killConnection] stops it), so the operations work on the state of the owner: the
    class [HeartbeatHost] says where the manager is kept and how the tick timer is called,
    the class [HeartbeatCallbacks] what the callbacks do. [Connection] is the owner in the program; [LogHost] is one that only records the calls.

    [d_tickTimer] is modelled by whether it is set. [stop] destroys the timer, whose
    handler then finds its [weak_ptr] expired, so a tick of a stopped manager has no
    effect. *)

From Stdlib Require Import ZArith Lia.
From stdpp Require Import base tactics list sets.
From S2P Require Import Prelude.

#[local] Open Scope Z_scope.

(** Number of seconds per tick *)
Definition TICK_TIME : Z := 1.

Record HeartbeatManager := mkHeartbeatManager {
  d_timeoutSeconds : Z;
  d_tickTimer : bool;
  d_active : bool;
  d_ticksUntilDisconnect : Z;
  d_ticksUntilHeartBeat : Z;
  d_totalTicksUntilDisconnect : Z;
  d_totalTicksUntilHeartBeat : Z;
}.

(** The constructor. *)
Definition HeartbeatManager_make : HeartbeatManager := mkHeartbeatManager 0 false false 0 0 0 0.

(** [Timer::InterruptReason] *)
Inductive InterruptReason := EXPIRE | CANCEL.

(** Calls on the tick timer. *)
Inductive TickTimerCall := TickTimerReset | TickTimerCancel.

(** The owner of a manager. *)
Class HeartbeatHost (St : Type) := {
  hb : St → HeartbeatManager;
  set_hb : HeartbeatManager → St → St;
  tick_timer : TickTimerCall → St → St;
}.

Class HeartbeatCallbacks (St : Type) := {
  d_sendHeartbeat : St → St;
  d_killConnection : St → St;
}.

Definition set_ticksUntilHeartBeat (n : Z) (h : HeartbeatManager) : HeartbeatManager :=
  mkHeartbeatManager (d_timeoutSeconds h) (d_tickTimer h) (d_active h) (d_ticksUntilDisconnect h)
    n (d_totalTicksUntilDisconnect h) (d_totalTicksUntilHeartBeat h).

Definition set_ticksUntilDisconnect (n : Z) (h : HeartbeatManager) : HeartbeatManager :=
  mkHeartbeatManager (d_timeoutSeconds h) (d_tickTimer h) (d_active h) n
    (d_ticksUntilHeartBeat h) (d_totalTicksUntilDisconnect h) (d_totalTicksUntilHeartBeat h).

(** *** The notifications, on the manager itself *)

Definition HeartbeatManager_notifyMessageSent (h : HeartbeatManager) : HeartbeatManager :=
  set_ticksUntilHeartBeat (d_totalTicksUntilHeartBeat h) h.

Definition HeartbeatManager_notifyMessageReceived (h : HeartbeatManager) : HeartbeatManager :=
  set_ticksUntilDisconnect (d_totalTicksUntilDisconnect h) h.

Definition HeartbeatManager_notifyHeartbeatReceived (h : HeartbeatManager) : HeartbeatManager :=
  let total := uwrap 32 (d_timeoutSeconds h / TICK_TIME + 1) in
  mkHeartbeatManager (d_timeoutSeconds h) (d_tickTimer h) (d_active h) total
    (d_ticksUntilHeartBeat h) total (d_totalTicksUntilHeartBeat h).

Section Host.
Context {St : Type} {HH : HeartbeatHost St}.

Definition hb_modify (f : HeartbeatManager → HeartbeatManager) (s : St) : St :=
  set_hb (f (hb s)) s.

Definition HeartbeatManager_startTickTimer (s : St) : St := tick_timer TickTimerReset s.

(** [start]: the arithmetic is on [uint32_t]. *)
Definition HeartbeatManager_start (timeoutSeconds : Z) (s : St) : St :=
  let disconnect := uwrap 32 (uwrap 32 (timeoutSeconds * 2) / TICK_TIME + 1) in
  let heartBeat := timeoutSeconds / 2 / TICK_TIME in
  HeartbeatManager_startTickTimer
    (set_hb (mkHeartbeatManager timeoutSeconds true true disconnect heartBeat disconnect heartBeat) s).

Definition HeartbeatManager_stop (s : St) : St :=
  let h := hb s in
  let s := if d_tickTimer h then tick_timer TickTimerCancel s else s in
  hb_modify (λ h, mkHeartbeatManager (d_timeoutSeconds h) false false (d_ticksUntilDisconnect h)
    (d_ticksUntilHeartBeat h) (d_totalTicksUntilDisconnect h) (d_totalTicksUntilHeartBeat h)) s.

(** The counters are [size_t]. *)
Definition HeartbeatManager_processTick {HC : HeartbeatCallbacks St} (s : St) : St :=
  let s := HeartbeatManager_startTickTimer s in
  let s := hb_modify (λ h, set_ticksUntilHeartBeat (uwrap 64 (d_ticksUntilHeartBeat h - 1)) h) s in
  let s := hb_modify (λ h, set_ticksUntilDisconnect (uwrap 64 (d_ticksUntilDisconnect h - 1)) h) s in
  let s := if d_ticksUntilHeartBeat (hb s) =? 0
           then hb_modify (λ h, set_ticksUntilHeartBeat (d_totalTicksUntilHeartBeat h) h)
                  (d_sendHeartbeat s)
           else s in
  if d_ticksUntilDisconnect (hb s) =? 0
  then hb_modify (λ h, set_ticksUntilDisconnect (d_totalTicksUntilDisconnect h) h)
         (d_killConnection s)
  else s.

Definition HeartbeatManager_handleTick {HC : HeartbeatCallbacks St} (reason : InterruptReason) (s : St) : St :=
  match reason with
  | CANCEL => s
  | EXPIRE => if d_tickTimer (hb s) then HeartbeatManager_processTick s else s
  end.
End Host.

(** What holds of the timer, the callbacks and every change of the manager holds of a tick. *)
Lemma handleTick_closed {St} {HH : HeartbeatHost St} {HC : HeartbeatCallbacks St} (R : relation St)
  {HR : PreOrder R} reason s :
  (∀ h s, R s (set_hb h s)) → (∀ c s, R s (tick_timer c s)) → (∀ s, R s (d_sendHeartbeat s)) →
  (∀ s, R s (d_killConnection s)) → R s (HeartbeatManager_handleTick reason s).
Proof.
  intros Hset Htimer Hsend Hkill. destruct reason; [| done]. unfold HeartbeatManager_handleTick.
  destruct (d_tickTimer (hb s)); [| done].
  assert (Hm : ∀ f s, R s (hb_modify f s)) by (intros; apply Hset).
  unfold HeartbeatManager_processTick. cbv zeta.
  set (s1 := HeartbeatManager_startTickTimer s). set (s2 := hb_modify _ s1).
  set (s3 := hb_modify _ s2). set (s4 := if d_ticksUntilHeartBeat (hb s3) =? 0 then _ else s3).
  assert (H3 : R s s3) by (etrans; [apply (Htimer TickTimerReset) |]; etrans; [apply Hm | apply Hm]).
  assert (H4 : R s3 s4).
  { unfold s4. destruct (_ =? 0); [| done]. etrans; [apply Hsend | apply Hm]. }
  etrans; [exact H3 |]. etrans; [exact H4 |]. clearbody s4.
  destruct (_ =? 0); [| done]. etrans; [apply Hkill | apply Hm].
Qed.

(** *** An owner that records the calls *)

Inductive HeartbeatCall :=
| TimerCall (c : TickTimerCall) | SendHeartbeat | KillConnection.

#[export] Instance HeartbeatCall_eq_dec : EqDecision HeartbeatCall.
Proof. intros x y. unfold Decision. repeat decide equality. Defined.

Record LogHost := mkLogHost { lh_manager : HeartbeatManager; lh_calls : list HeartbeatCall }.

Definition log_call (c : HeartbeatCall) (s : LogHost) : LogHost :=
  mkLogHost (lh_manager s) (lh_calls s ++ [c]).

#[export] Instance LogHost_host : HeartbeatHost LogHost := {
  hb := lh_manager;
  set_hb h s := mkLogHost h (lh_calls s);
  tick_timer c := log_call (TimerCall c);
}.

#[export] Instance LogHost_callbacks : HeartbeatCallbacks LogHost := {
  d_sendHeartbeat := log_call SendHeartbeat;
  d_killConnection := log_call KillConnection;
}.

(** What happens to a running manager. *)
Inductive HeartbeatEvent := Tick | MessageSent | MessageReceived | HeartbeatReceived.

Definition heartbeat_step (e : HeartbeatEvent) (s : LogHost) : LogHost :=
  match e with
  | Tick => HeartbeatManager_handleTick EXPIRE s
  | MessageSent => hb_modify HeartbeatManager_notifyMessageSent s
  | MessageReceived => hb_modify HeartbeatManager_notifyMessageReceived s
  | HeartbeatReceived =>
      (* the connection reports every frame, then the heartbeat *)
      hb_modify HeartbeatManager_notifyHeartbeatReceived
        (hb_modify HeartbeatManager_notifyMessageReceived s)
  end.

Definition heartbeat_run (t : Z) (evs : list HeartbeatEvent) : LogHost :=
  fold_left (λ s e, heartbeat_step e s) evs
    (HeartbeatManager_start t (mkLogHost HeartbeatManager_make [])).

(** *** The reference: what the history of a connection calls for

    A reading of the contract in rmqamqp_heartbeatmanager.h that keeps no counters down to
    zero: the seconds since the client last sent, the seconds since it last received,
    and whether the broker has shown that it sends heartbeats. A heartbeat is due after
    [t / 2] seconds without sending, and the connection is dead when more than [t]
    seconds (more than [2 t] before the first heartbeat) passed without receiving. *)

Record Idle := mkIdle { idle_out : Z; idle_in : Z; heard : bool }.

Definition patience (t : Z) (i : Idle) : Z := if heard i then t else 2 * t.

Definition idle_step (t : Z) (e : HeartbeatEvent) (i : Idle) : list HeartbeatCall * Idle :=
  match e with
  | MessageSent => ([], mkIdle 0 (idle_in i) (heard i))
  | MessageReceived => ([], mkIdle (idle_out i) 0 (heard i))
  | HeartbeatReceived => ([], mkIdle (idle_out i) 0 true)
  | Tick =>
      let out := idle_out i + 1 in
      let inn := idle_in i + 1 in
      let due := t / 2 <=? out in
      let dead := patience t i <? inn in
      (TimerCall TickTimerReset :: (if due then [SendHeartbeat] else []) ++
         (if dead then [KillConnection] else []),
       mkIdle (if due then 0 else out) (if dead then 0 else inn) (heard i))
  end.

Fixpoint idle_run (t : Z) (evs : list HeartbeatEvent) (i : Idle) : list HeartbeatCall * Idle :=
  match evs with
  | [] => ([], i)
  | e :: evs' =>
      let (cs, i1) := idle_step t e i in
      let (cs', i2) := idle_run t evs' i1 in
      (cs ++ cs', i2)
  end.

(** *** The manager follows the reference *)

(** The counters count down what the reference counts up. *)
Definition follows (t : Z) (h : HeartbeatManager) (i : Idle) : Prop :=
  h = mkHeartbeatManager t true true (patience t i + 1 - idle_in i) (t / 2 - idle_out i)
        (patience t i + 1) (t / 2) ∧
  0 ≤ idle_out i < t / 2 ∧ 0 ≤ idle_in i ≤ patience t i.

Definition usable_timeout (t : Z) : Prop := 2 ≤ t < 2 ^ 31.

Lemma uwrap_id w z : 0 ≤ z < 2 ^ w → uwrap w z = z.
Proof. intros. apply uwrap_small, u_in_iff. done. Qed.

Lemma start_follows t calls :
  usable_timeout t →
  HeartbeatManager_start t (mkLogHost HeartbeatManager_make calls) =
    mkLogHost (mkHeartbeatManager t true true (2 * t + 1) (t / 2) (2 * t + 1) (t / 2))
      (calls ++ [TimerCall TickTimerReset]) ∧
  follows t (mkHeartbeatManager t true true (2 * t + 1) (t / 2) (2 * t + 1) (t / 2)) (mkIdle 0 0 false).
Proof.
  unfold usable_timeout. intros Ht. change (2 ^ 31) with 2147483648 in Ht.
  assert (1 ≤ t / 2) by (apply Z.div_le_lower_bound; lia). split.
  - cbv [HeartbeatManager_start HeartbeatManager_startTickTimer tick_timer set_hb LogHost_host
      log_call lh_manager lh_calls TICK_TIME].
    rewrite !Z.div_1_r, (uwrap_id 32 (t * 2)), (uwrap_id 32) by (change (2 ^ 32) with 4294967296; lia).
    by rewrite (Z.mul_comm t 2).
  - unfold follows, patience; cbn [heard idle_in idle_out]. rewrite !Z.sub_0_r. repeat split; lia.
Qed.

(** A tick of the recording owner, unfolded. *)
Lemma tick_eq h calls :
  d_tickTimer h = true →
  heartbeat_step Tick (mkLogHost h calls) =
    let beat := uwrap 64 (d_ticksUntilHeartBeat h - 1) in
    let disc := uwrap 64 (d_ticksUntilDisconnect h - 1) in
    mkLogHost
      (set_ticksUntilHeartBeat (if beat =? 0 then d_totalTicksUntilHeartBeat h else beat)
        (set_ticksUntilDisconnect (if disc =? 0 then d_totalTicksUntilDisconnect h else disc) h))
      (calls ++ TimerCall TickTimerReset :: (if beat =? 0 then [SendHeartbeat] else []) ++
         (if disc =? 0 then [KillConnection] else [])).
Proof.
  intros Ht. destruct h as [to tm ac di be td tb]; cbn [d_tickTimer] in Ht; subst tm.
  cbv [heartbeat_step HeartbeatManager_handleTick HeartbeatManager_processTick
    HeartbeatManager_startTickTimer hb_modify tick_timer set_hb hb LogHost_host LogHost_callbacks log_call
    d_sendHeartbeat d_killConnection lh_manager lh_calls d_tickTimer set_ticksUntilHeartBeat
    set_ticksUntilDisconnect d_ticksUntilHeartBeat d_ticksUntilDisconnect
    d_totalTicksUntilHeartBeat d_totalTicksUntilDisconnect d_timeoutSeconds d_active].
  destruct (uwrap 64 (be - 1) =? 0), (uwrap 64 (di - 1) =? 0); by rewrite <- ?app_assoc.
Qed.

Lemma step_follows t e h calls i :
  usable_timeout t → follows t h i →
  let (cs, i') := idle_step t e i in
  ∃ h', heartbeat_step e (mkLogHost h calls) = mkLogHost h' (calls ++ cs) ∧ follows t h' i'.
Proof.
  unfold usable_timeout. intros Ht (-> & Ho & Hi). change (2 ^ 31) with 2147483648 in Ht.
  assert (1 ≤ t / 2) by (apply Z.div_le_lower_bound; lia).
  assert (patience t i ≤ 2 * t) by (unfold patience; destruct (heard i); lia).
  assert (t / 2 ≤ t) by (apply Z.div_le_upper_bound; lia).
  destruct e; cbn [idle_step].
  - (* a tick *)
    destruct i as [out inn hd]; cbn [idle_out idle_in heard] in *.
    rewrite tick_eq by done. cbv [set_ticksUntilHeartBeat set_ticksUntilDisconnect].
    cbn [d_timeoutSeconds d_tickTimer d_active d_ticksUntilHeartBeat d_ticksUntilDisconnect
      d_totalTicksUntilHeartBeat d_totalTicksUntilDisconnect].
    rewrite !(uwrap_id 64) by (change (2 ^ 64) with 18446744073709551616; lia).
    set (p := patience t (mkIdle out inn hd)) in *.
    assert (Hp : ∀ o n, patience t (mkIdle o n hd) = p) by done.
    destruct (Z.eqb_spec (t / 2 - out - 1) 0) as [Hd | Hd];
      destruct (Z.leb_spec (t / 2) (out + 1)); try lia;
      destruct (Z.eqb_spec (p + 1 - inn - 1) 0) as [Hk | Hk];
      destruct (Z.ltb_spec p (inn + 1)); try lia;
      eexists; (split; [reflexivity |]);
      unfold follows; rewrite Hp; cbn [idle_out idle_in]; (split; [| lia]); f_equal; lia.
  - exists (mkHeartbeatManager t true true (patience t i + 1 - idle_in i) (t / 2) (patience t i + 1) (t / 2)).
    rewrite app_nil_r. split; [done |]. unfold follows.
    change (patience t (mkIdle 0 (idle_in i) (heard i))) with (patience t i).
    cbn [idle_out idle_in]. rewrite Z.sub_0_r. repeat split; lia.
  - exists (mkHeartbeatManager t true true (patience t i + 1) (t / 2 - idle_out i) (patience t i + 1) (t / 2)).
    rewrite app_nil_r. split; [done |]. unfold follows.
    change (patience t (mkIdle (idle_out i) 0 (heard i))) with (patience t i).
    cbn [idle_out idle_in]. rewrite Z.sub_0_r. repeat split; lia.
  - exists (mkHeartbeatManager t true true (t + 1) (t / 2 - idle_out i) (t + 1) (t / 2)).
    rewrite app_nil_r. split.
    + cbv [heartbeat_step HeartbeatManager_notifyHeartbeatReceived hb_modify
        HeartbeatManager_notifyMessageReceived set_hb hb LogHost_host lh_manager lh_calls
        d_tickTimer set_ticksUntilDisconnect d_ticksUntilHeartBeat d_totalTicksUntilHeartBeat
        d_timeoutSeconds d_active d_totalTicksUntilDisconnect TICK_TIME].
      by rewrite Z.div_1_r, (uwrap_id 32) by (change (2 ^ 32) with 4294967296; lia).
    + unfold follows, patience. cbn [idle_out idle_in heard]. rewrite Z.sub_0_r. repeat split; lia.
Qed.

Lemma run_follows t evs h calls i :
  usable_timeout t → follows t h i →
  ∃ h', fold_left (λ s e, heartbeat_step e s) evs (mkLogHost h calls) =
        mkLogHost h' (calls ++ fst (idle_run t evs i)) ∧ follows t h' (snd (idle_run t evs i)).
Proof.
  intros Ht. revert h calls i. induction evs as [| e evs IH]; intros h calls i Hf.
  - exists h. by rewrite app_nil_r.
  - pose proof (step_follows t e h calls i Ht Hf) as Hs.
    cbn [fold_left idle_run]. destruct (idle_step t e i) as [cs i1].
    destruct Hs as (h1 & -> & Hf1). destruct (IH h1 (calls ++ cs) i1 Hf1) as (h2 & -> & Hf2).
    destruct (idle_run t evs i1) as [cs' i2]. exists h2. by rewrite <- app_assoc.
Qed.

(** C20: For every usable heartbeat timeout (at least two seconds) the manager makes the same
    calls, in the same order, as the reference that reads the idle times off the history
    of the connection: a heartbeat exactly when half the timeout passed since the client
    last sent anything, the connection declared dead exactly when more than the timeout
    (twice the timeout before the first heartbeat of the broker) passed since it last
    received anything. *)
Theorem heartbeat_manager_equiv t evs :
  2 ≤ t < 2 ^ 31 →
  lh_calls (heartbeat_run t evs) =
    TimerCall TickTimerReset :: fst (idle_run t evs (mkIdle 0 0 false)).
Proof.
  intros Ht. unfold heartbeat_run. destruct (start_follows t [] Ht) as [-> Hf].
  by destruct (run_follows t evs _ ([] ++ [TimerCall TickTimerReset]) _ Ht Hf) as (h' & -> & _).
Qed.

Lemma heartbeat_manager_equiv_witness :
  lh_calls (heartbeat_run 4 [Tick; MessageReceived; Tick; HeartbeatReceived; Tick; Tick; Tick; Tick; Tick]) =
    TimerCall TickTimerReset ::
    fst (idle_run 4 [Tick; MessageReceived; Tick; HeartbeatReceived; Tick; Tick; Tick; Tick; Tick]
           (mkIdle 0 0 false)).
Proof. apply (heartbeat_manager_equiv 4). lia. Defined.

(** *** A timeout of one second *)

Definition silent (s : LogHost) (n : Z) : Prop :=
  d_totalTicksUntilHeartBeat (lh_manager s) = 0 ∧
  (d_ticksUntilHeartBeat (lh_manager s) = 0 ∨
   2 ^ 64 - n ≤ d_ticksUntilHeartBeat (lh_manager s) < 2 ^ 64) ∧
  SendHeartbeat ∉ lh_calls s.

Lemma silent_step e s n :
  silent s n → 0 ≤ n < 2 ^ 64 - 1 → silent (heartbeat_step e s) (n + 1).
Proof.
  change (2 ^ 64) with 18446744073709551616. intros (Ht & Hn & Hs) Hb.
  destruct s as [[to tm ac di hbt td th] calls]; cbn in Ht, Hn, Hs; subst th.
  assert (Hn' : hbt = 0 ∨ 18446744073709551616 - (n + 1) ≤ hbt < 18446744073709551616).
  { change (2 ^ 64) with 18446744073709551616 in Hn. lia. }
  destruct e; [| split_and!; [done | try (by left); exact Hn' | done]..].
  destruct tm; [| split_and!; [done | exact Hn' | done]].
  assert (Hu : 18446744073709551616 - (n + 1) ≤ uwrap 64 (hbt - 1) < 18446744073709551616).
  { destruct Hn as [-> | Hn].
    - replace (uwrap 64 (0 - 1)) with 18446744073709551615 by reflexivity. lia.
    - rewrite uwrap_id; change (2 ^ 64) with 18446744073709551616; lia. }
  rewrite tick_eq by done. unfold silent.
  cbn [d_ticksUntilHeartBeat d_ticksUntilDisconnect lh_manager lh_calls].
  destruct (Z.eqb_spec (uwrap 64 (hbt - 1)) 0); [lia |]. cbn [app].
  cbn [d_totalTicksUntilHeartBeat d_ticksUntilHeartBeat set_ticksUntilHeartBeat set_ticksUntilDisconnect].
  split_and!; [done | right; apply Hu |]. destruct (_ =? 0); set_solver.
Qed.

Lemma silent_run evs s n :
  silent s n → 0 ≤ n → n + Z.of_nat (length evs) < 2 ^ 64 →
  SendHeartbeat ∉ lh_calls (fold_left (λ s e, heartbeat_step e s) evs s).
Proof.
  revert s n. induction evs as [| e evs IH]; intros s n Hs Hn Hl; [apply Hs |].
  cbn [fold_left]. apply (IH _ (n + 1)); [apply silent_step; [done |] | lia |];
    cbn [length] in Hl; lia.
Qed.

(** When a timeout of one second is negotiated, the client never sends a heartbeat: half
    the timeout rounds down to zero ticks and the counter wraps around at the first
    tick. This holds for every run shorter than 2^64 events. *)
Theorem heartbeat_one_second_never_sent evs :
  Z.of_nat (length evs) < 2 ^ 64 →
  SendHeartbeat ∉ lh_calls (heartbeat_run 1 evs).
Proof.
  intros Hl. apply (silent_run evs _ 0); [| lia | lia].
  split_and!; [done | by left |]. cbn. set_solver.
Qed.

Lemma heartbeat_one_second_never_sent_witness :
  SendHeartbeat ∉ lh_calls (heartbeat_run 1 [Tick; Tick; MessageReceived; Tick]).
Proof. apply heartbeat_one_second_never_sent. reflexivity. Defined.
