(* ===== verification/Retry.v ===== *)
(** * Retry: waiting before a connection or channel is tried again

    Models [rmqio::BackoffLevelRetryStrategy] (rmqio_backofflevelretrystrategy.cpp),
    [rmqio::RetryHandler] (rmqio_retryhandler.cpp), [rmqio::ConnectionRetryHandler]
    (rmqio_connectionretryhandler.cpp) and [rmqio::WatchDog] (rmqio_watchdog.cpp).

    A [bsls::TimeInterval] is its total number of nanoseconds. The clocks are arguments
    of the operations that read them. The interface [rmqio::RetryStrategy] is a class; the
    handler's timer is the interval it was last armed with, and the calls of the retry
    and the error callback are results. *)

From Stdlib Require Import ZArith Lia.
From stdpp Require Import base tactics list.
From S2P Require Import Prelude.

#[local] Open Scope Z_scope.

(** ** [bsls::TimeInterval] *)

Definition NANOS : Z := 1000000000.
Definition ofSeconds (s : Z) : Z := s * NANOS.
Definition seconds (t : Z) : Z := Z.quot t NANOS.

(** ** [BackoffLevelRetryStrategy] *)

Inductive BackoffLevel := IMMEDIATE | CONSTANT | LINEAR | EXPONENTIAL.

#[export] Instance BackoffLevel_eq_dec : EqDecision BackoffLevel.
Proof. solve_decision. Defined.

Definition level_to_Z (l : BackoffLevel) : Z :=
  match l with IMMEDIATE => 0 | CONSTANT => 1 | LINEAR => 2 | EXPONENTIAL => 3 end.

(** [static_cast<BackoffLevel>] of a value in the range of the enumeration. *)
Definition level_of_Z (z : Z) : BackoffLevel :=
  if z =? 1 then CONSTANT else if z =? 2 then LINEAR else if z =? 3 then EXPONENTIAL else IMMEDIATE.

Record BackoffStrategy := mkBackoffStrategy {
  d_backoffLevel : BackoffLevel;
  d_continuousRetries : Z;
  d_minWaitSeconds : Z;
  d_maxWaitSeconds : Z;
  d_numRetries : Z;
  d_currentWait : Z;
  d_lastRetry : Z;
}.

(** The constructor and its default arguments. *)
Definition Backoff_make (continuousRetries minWaitSeconds maxWaitSeconds : Z) : BackoffStrategy :=
  mkBackoffStrategy IMMEDIATE continuousRetries minWaitSeconds maxWaitSeconds 0 0 0.

Definition Backoff_default : BackoffStrategy := Backoff_make 5 1 60.

Definition set_numRetries (n : Z) (b : BackoffStrategy) : BackoffStrategy :=
  mkBackoffStrategy (d_backoffLevel b) (d_continuousRetries b) (d_minWaitSeconds b)
    (d_maxWaitSeconds b) n (d_currentWait b) (d_lastRetry b).

Definition set_currentWait (w : Z) (b : BackoffStrategy) : BackoffStrategy :=
  mkBackoffStrategy (d_backoffLevel b) (d_continuousRetries b) (d_minWaitSeconds b)
    (d_maxWaitSeconds b) (d_numRetries b) w (d_lastRetry b).

Definition set_lastRetry (t : Z) (b : BackoffStrategy) : BackoffStrategy :=
  mkBackoffStrategy (d_backoffLevel b) (d_continuousRetries b) (d_minWaitSeconds b)
    (d_maxWaitSeconds b) (d_numRetries b) (d_currentWait b) t.

Definition set_level (l : BackoffLevel) (b : BackoffStrategy) : BackoffStrategy :=
  mkBackoffStrategy l (d_continuousRetries b) (d_minWaitSeconds b)
    (d_maxWaitSeconds b) (d_numRetries b) (d_currentWait b) (d_lastRetry b).

Definition Backoff_attempt (now : Z) (b : BackoffStrategy) : BackoffStrategy :=
  set_lastRetry now
    (if negb (d_lastRetry b =? 0) && (d_numRetries b <? 2 ^ 32 - 1)
     then set_numRetries (d_numRetries b + 1) b else b).

Definition Backoff_moveCircuitBreaker (toward_exponential : bool) (b : BackoffStrategy)
  : BackoffStrategy :=
  let next_state := level_to_Z (d_backoffLevel b) + (if toward_exponential then 1 else -1) in
  let next_state := if next_state <? level_to_Z IMMEDIATE then level_to_Z IMMEDIATE else next_state in
  let next_state := if level_to_Z EXPONENTIAL <? next_state then level_to_Z EXPONENTIAL else next_state in
  set_numRetries 0 (set_level (level_of_Z next_state) b).

Definition Backoff_success (b : BackoffStrategy) : BackoffStrategy :=
  Backoff_moveCircuitBreaker false (set_currentWait (ofSeconds 0) b).

Definition Backoff_fail (b : BackoffStrategy) : BackoffStrategy :=
  if d_continuousRetries b <=? d_numRetries b then Backoff_moveCircuitBreaker true b else b.

Definition Backoff_calculateNextInterval (b : BackoffStrategy) : BackoffStrategy :=
  let b :=
    match d_backoffLevel b with
    | IMMEDIATE => b
    | CONSTANT => set_currentWait (ofSeconds (d_minWaitSeconds b)) b
    | LINEAR => set_currentWait (d_currentWait b + ofSeconds (d_minWaitSeconds b)) b
    | EXPONENTIAL => set_currentWait (d_currentWait b + d_currentWait b) b
    end in
  if d_maxWaitSeconds b <? seconds (d_currentWait b)
  then set_currentWait (ofSeconds (d_maxWaitSeconds b)) b else b.

(** The time after which a retry counts as a success: [bsl::max<unsigned int>] and
    [bsl::min<unsigned int>] convert their arguments to [unsigned int]. *)
Definition thresholdRetryTime (b : BackoffStrategy) : Z :=
  d_lastRetry b +
    ofSeconds (Z.max (d_minWaitSeconds b)
                 (Z.min (uwrap 32 (d_minWaitSeconds b * d_continuousRetries b))
                    (uwrap 32 (seconds (d_currentWait b))))).

Definition Backoff_getNextRetryInterval (now : Z) (b : BackoffStrategy) : Z * BackoffStrategy :=
  let b :=
    if negb (d_lastRetry b =? 0) then
      Backoff_calculateNextInterval
        (if thresholdRetryTime b <? now then Backoff_success b else Backoff_fail b)
    else b in
  (d_currentWait b, b).

(** ** The interface [rmqio::RetryStrategy] *)

Class RetryStrategy (St : Type) := {
  strategy_attempt : Z → St → St;
  strategy_success : St → St;
  strategy_next : Z → St → Z * St;
}.

#[export] Instance Backoff_strategy : RetryStrategy BackoffStrategy := {
  strategy_attempt := Backoff_attempt;
  strategy_success := Backoff_success;
  strategy_next := Backoff_getNextRetryInterval;
}.

(** ** [RetryHandler] *)

Section RetryHandler.
Context {St : Type} `{RetryStrategy St} {CB : Type}.

Record RetryHandler := mkRetryHandler {
  d_sleepTimer : option Z;
  d_retryStrategy : St;
  d_retryCallback : option CB;
}.

(** The constructor. *)
Definition RetryHandler_make (s : St) : RetryHandler := mkRetryHandler None s None.

Definition RetryHandler_scheduleRetry (now : Z) (h : RetryHandler) : RetryHandler :=
  let (w, s) := strategy_next now (d_retryStrategy h) in
  mkRetryHandler (Some w) s (d_retryCallback h).

Definition RetryHandler_retry (onRetry : CB) (now : Z) (h : RetryHandler) : RetryHandler :=
  RetryHandler_scheduleRetry now (mkRetryHandler (d_sleepTimer h) (d_retryStrategy h) (Some onRetry)).

Definition RetryHandler_success (h : RetryHandler) : RetryHandler :=
  mkRetryHandler (d_sleepTimer h) (strategy_success (d_retryStrategy h)) (d_retryCallback h).

(** [handleRetry]: the callback to call, if any. The timer has expired once it calls. *)
Definition RetryHandler_handleRetry (cancelled : bool) (now : Z) (h : RetryHandler)
  : option CB * RetryHandler :=
  if cancelled then (None, h)
  else (d_retryCallback h,
        mkRetryHandler None (strategy_attempt now (d_retryStrategy h)) (d_retryCallback h)).

(** ** [ConnectionRetryHandler] *)

Record ConnectionRetryHandler := mkConnectionRetryHandler {
  crh_base : RetryHandler;
  d_errorThreshold : Z;
  d_errorSince : option Z;
}.

Definition ConnectionRetryHandler_make (s : St) (errorThreshold : Z) : ConnectionRetryHandler :=
  mkConnectionRetryHandler (RetryHandler_make s) errorThreshold None.

(** [evaluateErrorThreshold]: the two times the message of the error callback reports, in
    whole seconds, if the callback is called. *)
Definition ConnectionRetryHandler_evaluateErrorThreshold (now : Z) (h : ConnectionRetryHandler)
  : option (Z * Z) * ConnectionRetryHandler :=
  match d_errorSince h with
  | None => (None, mkConnectionRetryHandler (crh_base h) (d_errorThreshold h) (Some now))
  | Some since =>
      let diff := now - since in
      (if d_errorThreshold h <? diff
       then Some (seconds diff, seconds (d_errorThreshold h)) else None, h)
  end.

Definition ConnectionRetryHandler_retry (onRetry : CB) (now : Z) (h : ConnectionRetryHandler)
  : option (Z * Z) * ConnectionRetryHandler :=
  ConnectionRetryHandler_evaluateErrorThreshold now
    (mkConnectionRetryHandler (RetryHandler_retry onRetry now (crh_base h)) (d_errorThreshold h)
       (d_errorSince h)).

Definition ConnectionRetryHandler_success (h : ConnectionRetryHandler) : ConnectionRetryHandler :=
  mkConnectionRetryHandler (RetryHandler_success (crh_base h)) (d_errorThreshold h) None.

Definition ConnectionRetryHandler_handleRetry (cancelled : bool) (now : Z) (h : ConnectionRetryHandler)
  : option CB * ConnectionRetryHandler :=
  let (cb, b) := RetryHandler_handleRetry cancelled now (crh_base h) in
  (cb, mkConnectionRetryHandler b (d_errorThreshold h) (d_errorSince h)).
End RetryHandler.

Arguments RetryHandler : clear implicits.
Arguments ConnectionRetryHandler : clear implicits.

(** ** [WatchDog]

    [W] is the state of the program, [alive] whether a weak task pointer can be locked,
    [Task_run] the virtual [Task::run]. *)

Section WatchDog.
Context {W T : Type} (alive : T → W → bool) (Task_run : T → W → W) (timer_reset : Z → W → W).

Record WatchDog := mkWatchDog { d_timeout : Z; d_tasks : list T }.

Definition WatchDog_addTask (t : T) (d : WatchDog) : WatchDog :=
  mkWatchDog (d_timeout d) (d_tasks d ++ [t]).

(** The loop over the tasks: a task may expire while another one runs. *)
Fixpoint run_tasks (ts : list T) (w : W) : W :=
  match ts with
  | [] => w
  | t :: ts' => run_tasks ts' (if alive t w then Task_run t w else w)
  end.

Definition WatchDog_run (d : WatchDog) (w : W) : WatchDog * W :=
  let w := timer_reset (d_timeout d) w in
  let tasks := List.filter (λ t, alive t w) (d_tasks d) in
  (mkWatchDog (d_timeout d) tasks, run_tasks tasks w).
End WatchDog.

(** ** Runs of a handler *)

Inductive RetryEvent :=
| RE_retry (now : Z)       (* the owner asks for a retry *)
| RE_timer (now : Z)       (* the sleep timer expires, if it is armed *)
| RE_success.              (* the owner reports a success *)

Section Runs.
Context {St : Type} `{RetryStrategy St}.

Definition retry_step (e : RetryEvent) (h : RetryHandler St unit) : RetryHandler St unit :=
  match e with
  | RE_retry now => RetryHandler_retry () now h
  | RE_timer now =>
      match d_sleepTimer h with
      | Some _ => snd (RetryHandler_handleRetry false now h)
      | None => h
      end
  | RE_success => RetryHandler_success h
  end.

Definition retry_run (evs : list RetryEvent) (h : RetryHandler St unit) : RetryHandler St unit :=
  fold_left (λ h e, retry_step e h) evs h.
End Runs.

(** *** Bounds on the wait *)

Lemma seconds_ofSeconds k : seconds (ofSeconds k) = k.
Proof. unfold seconds, ofSeconds. by rewrite Z.quot_mul. Qed.

Definition unsigned (z : Z) : Prop := 0 ≤ z < 2 ^ 32.

(** The wait is a whole number of seconds within the limits, zero at level [IMMEDIATE]. Above it
    the wait is at least the minimum, except between a success and the next retry;
    [armed] says that the sleep timer is running. *)
Record wait_ok (cont mn mx : Z) (armed : bool) (b : BackoffStrategy) (k : Z) : Prop := {
  wo_cont : d_continuousRetries b = cont;
  wo_min : d_minWaitSeconds b = mn;
  wo_max : d_maxWaitSeconds b = mx;
  wo_num : 0 ≤ d_numRetries b;
  wo_last : d_lastRetry b = 0 → d_backoffLevel b = IMMEDIATE;
  wo_wait : d_currentWait b = ofSeconds k;
  wo_range : 0 ≤ k ≤ mx;
  wo_immediate : d_backoffLevel b = IMMEDIATE → k = 0;
  wo_exponential : d_backoffLevel b = EXPONENTIAL → Z.min mn mx ≤ k;
  wo_level : d_backoffLevel b ≠ IMMEDIATE →
    d_numRetries b ≤ (if armed then 0 else 1) ∨ Z.min mn mx ≤ k;
}.

(** The level a move leads to. *)
Lemma move_level up b :
  d_backoffLevel (Backoff_moveCircuitBreaker up b) =
    match d_backoffLevel b, up with
    | IMMEDIATE, true => CONSTANT
    | CONSTANT, true => LINEAR
    | LINEAR, true | EXPONENTIAL, true => EXPONENTIAL
    | IMMEDIATE, false | CONSTANT, false => IMMEDIATE
    | LINEAR, false => CONSTANT
    | EXPONENTIAL, false => LINEAR
    end.
Proof. unfold Backoff_moveCircuitBreaker; cbn [set_numRetries set_level d_backoffLevel]. by destruct (d_backoffLevel b), up. Qed.

Section Bounds.
Context (cont mn mx : Z) (Hcont : 2 ≤ cont) (Hmn : 0 ≤ mn) (Hmx : 0 ≤ mx).

Lemma wait_ok_make : wait_ok cont mn mx false (Backoff_make cont mn mx) 0.
Proof using Hcont Hmn Hmx. split; done || (cbn; lia). Qed.

Lemma wait_ok_success armed b k :
  wait_ok cont mn mx armed b k → d_lastRetry b ≠ 0 ∨ d_backoffLevel b = IMMEDIATE →
  wait_ok cont mn mx armed (Backoff_success b) 0.
Proof using Hcont Hmn Hmx.
  intros [] Hl. unfold Backoff_success.
  split; try done; try (cbn; lia); rewrite ?move_level; cbn [set_currentWait d_backoffLevel].
  - cbn. intros H0. destruct Hl as [? | ->]; done.
  - destruct (d_backoffLevel b); done.
  - left. cbn. destruct armed; lia.
Qed.

Lemma wait_ok_attempt now b k :
  now ≠ 0 → wait_ok cont mn mx true b k → wait_ok cont mn mx false (Backoff_attempt now b) k.
Proof using Hcont Hmn Hmx.
  intros Hn []. unfold Backoff_attempt.
  destruct (negb (d_lastRetry b =? 0) && (d_numRetries b <? 2 ^ 32 - 1)); split;
    try done; cbn in *; try lia; intros Hne; destruct (wo_level0 Hne); lia || by right.
Qed.

(** Setting the wait to [k'] seconds and capping it. *)
Lemma wait_ok_cap armed b k k' :
  wait_ok cont mn mx armed b k → 0 ≤ k' →
  (d_backoffLevel b = IMMEDIATE → k' = 0) → (d_backoffLevel b ≠ IMMEDIATE → Z.min mn mx ≤ k') →
  let b1 := set_currentWait (ofSeconds k') b in
  wait_ok cont mn mx true
    (if d_maxWaitSeconds b1 <? seconds (d_currentWait b1)
     then set_currentWait (ofSeconds (d_maxWaitSeconds b1)) b1 else b1) (Z.min k' mx).
Proof using Hcont Hmn Hmx.
  intros [] Hk0 Hi Hl. cbn [set_currentWait d_maxWaitSeconds d_currentWait].
  rewrite seconds_ofSeconds, wo_max0.
  destruct (Z.ltb_spec mx k'); (split; try done; cbn;
    [f_equal; lia | lia | intros Hc; specialize (Hi Hc); lia
    | intros Hc; specialize (Hl ltac:(congruence)); lia | intros Hc; right; specialize (Hl Hc); lia]).
Qed.

Lemma wait_ok_calculate armed b k :
  wait_ok cont mn mx armed b k →
  let b' := Backoff_calculateNextInterval b in
  ∃ k', wait_ok cont mn mx true b' k' ∧ d_backoffLevel b' = d_backoffLevel b ∧
    (d_backoffLevel b ≠ IMMEDIATE → Z.min mn mx ≤ k').
Proof using Hcont Hmn Hmx.
  intros Hok. pose proof Hok as []. unfold Backoff_calculateNextInterval. rewrite wo_wait0, wo_min0.
  assert (Hw : ∀ k', 0 ≤ k' → (d_backoffLevel b = IMMEDIATE → k' = 0) →
    (d_backoffLevel b ≠ IMMEDIATE → Z.min mn mx ≤ k') →
    let b1 := set_currentWait (ofSeconds k') b in
    let b2 := if d_maxWaitSeconds b1 <? seconds (d_currentWait b1)
              then set_currentWait (ofSeconds (d_maxWaitSeconds b1)) b1 else b1 in
    ∃ k'', wait_ok cont mn mx true b2 k'' ∧ d_backoffLevel b2 = d_backoffLevel b ∧
      (d_backoffLevel b ≠ IMMEDIATE → Z.min mn mx ≤ k'')).
  { intros k' H1 H2 H3. exists (Z.min k' mx). split_and!.
    - by eapply wait_ok_cap.
    - cbn zeta. by destruct (_ <? _).
    - intros Hc. specialize (H3 Hc). lia. }
  destruct (d_backoffLevel b) eqn:Hlev.
  - assert (Hb0 : b = set_currentWait (ofSeconds k) b) by (destruct b; cbn in *; by rewrite wo_wait0).
    rewrite Hb0. apply Hw; naive_solver lia.
  - apply Hw; naive_solver lia.
  - replace (ofSeconds k + ofSeconds mn) with (ofSeconds (k + mn)) by (unfold ofSeconds; lia).
    apply Hw; naive_solver lia.
  - replace (ofSeconds k + ofSeconds k) with (ofSeconds (k + k)) by (unfold ofSeconds; lia).
    specialize (wo_exponential0 eq_refl). apply Hw; naive_solver lia.
Qed.

Lemma wait_ok_fail armed b k :
  wait_ok cont mn mx armed b k → d_lastRetry b ≠ 0 → wait_ok cont mn mx armed (Backoff_fail b) k.
Proof using Hcont Hmn Hmx.
  intros [] Hl. unfold Backoff_fail. rewrite wo_cont0.
  destruct (Z.leb_spec cont (d_numRetries b)); [| by split].
  assert (Hk : d_backoffLevel b ≠ IMMEDIATE → Z.min mn mx ≤ k).
  { intros Hc. destruct (wo_level0 Hc); [destruct armed; lia | done]. }
  split; try done; rewrite ?move_level; cbn [Backoff_moveCircuitBreaker]; destruct (d_backoffLevel b);
    try done; try (cbn; lia); intros _; try (by apply Hk); left; cbn; destruct armed; lia.
Qed.

(** Scheduling a retry. *)
Lemma wait_ok_next armed now b k :
  wait_ok cont mn mx armed b k →
  ∃ k', let (w, b') := Backoff_getNextRetryInterval now b in
    w = ofSeconds k' ∧ wait_ok cont mn mx true b' k' ∧
    (d_backoffLevel b' ≠ IMMEDIATE → Z.min mn mx ≤ k').
Proof using Hcont Hmn Hmx.
  intros Hok. unfold Backoff_getNextRetryInterval.
  destruct (Z.eqb_spec (d_lastRetry b) 0) as [H0 | H0]; cbn [negb].
  - exists k. pose proof Hok as []. specialize (wo_last0 H0). split_and!; [done | | done].
    split; try done. 
  - assert (Hs : ∃ k1, wait_ok cont mn mx armed
      (if thresholdRetryTime b <? now then Backoff_success b else Backoff_fail b) k1).
    { destruct (_ <? _); eexists; [eapply wait_ok_success | eapply wait_ok_fail]; eauto. }
    destruct Hs as (k1 & Hs). destruct (wait_ok_calculate _ _ _ Hs) as (k' & Hok' & Hlev & Hmin).
    exists k'. split_and!; [apply Hok' | done | by rewrite Hlev].
Qed.

(** *** Runs keep it *)

Definition event_ok (e : RetryEvent) : Prop := match e with RE_timer now => now ≠ 0 | _ => True end.

Definition handler_ok (h : RetryHandler BackoffStrategy unit) : Prop :=
  ∃ k, wait_ok cont mn mx (bool_decide (is_Some (d_sleepTimer h))) (d_retryStrategy h) k.

Lemma handler_ok_step e h : event_ok e → handler_ok h → handler_ok (retry_step e h).
Proof using Hcont Hmn Hmx.
  intros He (k & Hok). destruct e as [now | now |]; cbn [retry_step].
  - unfold RetryHandler_retry, RetryHandler_scheduleRetry. cbn [d_retryStrategy d_sleepTimer strategy_next Backoff_strategy].
    destruct (wait_ok_next _ now _ _ Hok) as (k' & Hk'). destruct (Backoff_getNextRetryInterval _ _).
    exists k'. apply Hk'.
  - destruct h as [[w |] b cb]; [| by exists k]. exists k. by apply wait_ok_attempt.
  - exists 0. eapply wait_ok_success; [done |]. pose proof Hok as [].
    destruct (decide (d_lastRetry (d_retryStrategy h) = 0)); auto.
Qed.

Lemma handler_ok_run evs h : Forall event_ok evs → handler_ok h → handler_ok (retry_run evs h).
Proof using Hcont Hmn Hmx.
  intros He. revert h. induction He as [| e evs He _ IH]; intros h Hok; [done |].
  apply IH. by apply handler_ok_step.
Qed.
End Bounds.

(** C22: Whatever the order of retries, timer expiries and successes and whatever the clock
    shows, each wait a handler schedules is a whole number of seconds between zero and
    the configured maximum; it is zero exactly at the level without back-off and at
    least the configured minimum (capped by the maximum) at every other level. *)
Theorem backoff_wait_bounds cont mn mx evs now :
  2 ≤ cont → 0 ≤ mn → 0 ≤ mx → Forall event_ok evs →
  let h := retry_run evs (RetryHandler_make (Backoff_make cont mn mx)) in
  let h' := retry_step (RE_retry now) h in
  ∃ k, d_sleepTimer h' = Some (ofSeconds k) ∧ 0 ≤ k ≤ mx ∧
    match d_backoffLevel (d_retryStrategy h') with
    | IMMEDIATE => k = 0
    | _ => Z.min mn mx ≤ k
    end.
Proof.
  intros Hc Hmn Hmx He.
  destruct (handler_ok_run cont mn mx Hc Hmn Hmx evs (RetryHandler_make (Backoff_make cont mn mx)) He)
    as (k & Hok); [exists 0; by apply wait_ok_make |].
  destruct (wait_ok_next cont mn mx Hc Hmn Hmx _ now _ _ Hok) as (k' & Hk').
  cbn [retry_step]. unfold RetryHandler_retry, RetryHandler_scheduleRetry.
  cbn [d_retryStrategy d_sleepTimer strategy_next Backoff_strategy] in *.
  destruct (Backoff_getNextRetryInterval _ _) as [w b']. destruct Hk' as (-> & [] & Hm).
  exists k'. split_and!; [done | lia.. |]. cbn [d_retryStrategy].
  destruct (d_backoffLevel b'); auto.
Qed.

Lemma backoff_wait_bounds_witness :
  let h' := retry_step (RE_retry 9) (retry_run [RE_retry 5; RE_timer 6; RE_success; RE_retry 7; RE_timer 8]
              (RetryHandler_make (Backoff_make 5 1 60))) in
  ∃ k, d_sleepTimer h' = Some (ofSeconds k) ∧ 0 ≤ k ≤ 60 ∧
    match d_backoffLevel (d_retryStrategy h') with
    | IMMEDIATE => k = 0
    | _ => Z.min 1 60 ≤ k
    end.
Proof. apply (backoff_wait_bounds 5 1 60); [lia.. |]. repeat constructor; done. Defined.

(** *** The schedule of the default strategy *)

(** The waits, in seconds, before the first, second, ... retry of a broker that keeps
    failing. *)
Definition default_schedule (n : nat) : Z :=
  default 60 ([0; 0; 0; 0; 0; 0; 1; 1; 1; 1; 1; 2; 3; 4; 5; 6; 12; 24; 48] !! n).

(** The level and the number of retries on it when the [n]-th retry is due. *)
Definition default_progress (n : nat) : BackoffLevel * Z :=
  default (EXPONENTIAL, Z.of_nat ((n - 16) mod 5))
    ([(IMMEDIATE, 0); (IMMEDIATE, 0); (IMMEDIATE, 1); (IMMEDIATE, 2); (IMMEDIATE, 3); (IMMEDIATE, 4);
      (CONSTANT, 0); (CONSTANT, 1); (CONSTANT, 2); (CONSTANT, 3); (CONSTANT, 4);
      (LINEAR, 0); (LINEAR, 1); (LINEAR, 2); (LINEAR, 3); (LINEAR, 4)] !! n).

(** The strategy after [n] scheduled retries, the last one attempted at time [t]. *)
Definition default_at (n : nat) (t : Z) : BackoffStrategy :=
  match n with
  | O => Backoff_default
  | S m =>
      let (l, c) := default_progress m in
      mkBackoffStrategy l 5 1 60 (match m with O => 0 | _ => c + 1 end)
        (ofSeconds (default_schedule m)) t
  end.

(** Retry [n] at time [r] and the expiry of its timer at time [t]. *)
Fixpoint failing_run (times : list (Z * Z)) (h : RetryHandler BackoffStrategy unit)
  : list (option Z) :=
  match times with
  | [] => []
  | (r, t) :: times' =>
      let h1 := retry_step (RE_retry r) h in
      d_sleepTimer h1 :: failing_run times' (retry_step (RE_timer t) h1)
  end.

(** Each connection attempt fails within a second: the next retry comes at most one second
    after the last attempt. *)
Fixpoint fails_quickly (last : Z) (times : list (Z * Z)) : Prop :=
  match times with
  | [] => True
  | (r, t) :: times' => (last ≠ 0 → r ≤ last + ofSeconds 1) ∧ t ≠ 0 ∧ fails_quickly t times'
  end.

(** The strategy with retry [m] scheduled. *)
Definition default_scheduled (m : nat) (t : Z) : BackoffStrategy :=
  let (l, c) := default_progress m in mkBackoffStrategy l 5 1 60 c (ofSeconds (default_schedule m)) t.

Lemma threshold_min b : d_lastRetry b + ofSeconds (d_minWaitSeconds b) ≤ thresholdRetryTime b.
Proof. unfold thresholdRetryTime, ofSeconds, NANOS. lia. Qed.

Lemma default_late n : (19 ≤ n)%nat →
  default_schedule n = 60 ∧ default_progress n = (EXPONENTIAL, Z.of_nat ((n - 16) mod 5)).
Proof.
  intros Hn. unfold default_schedule, default_progress.
  rewrite !lookup_ge_None_2 by (cbn; lia). done.
Qed.

Lemma mod5_succ n : (S n mod 5 = if decide (n mod 5 = 4) then 0 else S (n mod 5))%nat.
Proof.
  pose proof (Nat.div_mod_eq n 5). pose proof (Nat.mod_upper_bound n 5 ltac:(lia)).
  case_decide; symmetry; [apply (Nat.mod_unique _ 5 (S (n / 5))) | apply (Nat.mod_unique _ 5 (n / 5))]; lia.
Qed.

(** A failure takes the strategy from one entry of the schedule to the next. *)
Lemma default_fail n t :
  Backoff_calculateNextInterval (Backoff_fail (default_at (S n) t)) = default_scheduled (S n) t.
Proof.
  destruct (decide (n < 19)%nat) as [Hn | Hn].
  - do 19 (destruct n as [| n]; [reflexivity |]). lia.
  - unfold default_at, default_scheduled.
    destruct (default_late n) as [-> ->]; [lia |]. destruct (default_late (S n)) as [-> ->]; [lia |].
    destruct n as [| n']; [lia |]. replace (S (S n') - 16)%nat with (S (S n' - 16)) by lia.
    rewrite mod5_succ. pose proof (Nat.mod_upper_bound (S n' - 16) 5 ltac:(lia)).
    destruct ((S n' - 16) mod 5)%nat as [| [| [| [| [| ?]]]]]; [reflexivity.. | lia].
Qed.

Lemma default_next n last r :
  (n = O → last = 0) → (n ≠ O → last ≠ 0) → (last ≠ 0 → r ≤ last + ofSeconds 1) →
  Backoff_getNextRetryInterval r (default_at n last) =
    (ofSeconds (default_schedule n), default_scheduled n last).
Proof.
  intros H0 H1 Hr. destruct n as [| n]; [by rewrite H0 |].
  specialize (H1 ltac:(done)). specialize (Hr H1).
  pose proof (default_fail n last) as Hf. pose proof (threshold_min (default_at (S n) last)) as Ht.
  assert (Hl : d_lastRetry (default_at (S n) last) = last ∧ d_minWaitSeconds (default_at (S n) last) = 1).
  { unfold default_at. by destruct (default_progress n). }
  destruct Hl as [Hl1 Hl2]. rewrite Hl1, Hl2 in Ht. unfold Backoff_getNextRetryInterval. rewrite Hl1.
  destruct (Z.eqb_spec last 0); [done |]. cbn [negb].
  destruct (Z.ltb_spec (thresholdRetryTime (default_at (S n) last)) r); [lia |]. rewrite Hf.
  unfold default_scheduled. by destruct (default_progress (S n)).
Qed.

Lemma default_attempt n last t :
  (n = O → last = 0) → (n ≠ O → last ≠ 0) →
  Backoff_attempt t (default_scheduled n last) = default_at (S n) t.
Proof.
  intros H0 H1. destruct n as [| n]; [by rewrite H0 |]. specialize (H1 ltac:(done)).
  unfold default_scheduled, default_at. destruct (default_progress (S n)) as [l c] eqn:Hp.
  unfold Backoff_attempt. cbn [d_lastRetry d_numRetries].
  destruct (Z.eqb_spec last 0); [done |]. cbn [negb andb].
  assert (Hc : 0 ≤ c < 5).
  { destruct (decide (S n < 19)%nat) as [Hn | Hn].
    - do 19 (destruct n as [| n]; [vm_compute in Hp; injection Hp as <- <-; lia |]). lia.
    - destruct (default_late (S n)) as [_ Hl]; [lia |]. rewrite Hl in Hp. simplify_eq.
      pose proof (Nat.mod_upper_bound (S n - 16) 5 ltac:(lia)). lia. }
  destruct (Z.ltb_spec c (2 ^ 32 - 1)); [done | lia].
Qed.


Lemma failing_run_from n last times cb tm :
  (n = O → last = 0) → (n ≠ O → last ≠ 0) → fails_quickly last times →
  failing_run times (mkRetryHandler tm (default_at n last) cb) =
    (λ i, Some (ofSeconds (default_schedule i))) <$> seq n (length times).
Proof.
  revert n last cb tm. induction times as [| [r t] times IH]; intros n last cb tm H0 H1 Hq; [done |].
  destruct Hq as (Hr & Ht & Hq). cbn [failing_run length seq fmap list_fmap].
  cbn [retry_step]. unfold RetryHandler_retry, RetryHandler_scheduleRetry.
  cbn [d_retryStrategy d_sleepTimer strategy_next Backoff_strategy].
  rewrite (default_next n last r H0 H1 Hr). cbn [d_sleepTimer]. f_equal.
  unfold RetryHandler_handleRetry. cbn [snd d_retryStrategy strategy_attempt Backoff_strategy].
  rewrite (default_attempt n last t H0 H1). by apply IH.
Qed.

(** Against a broker that keeps failing within a second, a handler with the default strategy
    waits exactly as the schedule says, however long it takes: six immediate attempts,
    one second five times, then two to six seconds, then twice the wait before up to one
    minute, and one minute from then on. *)
Theorem default_backoff_schedule times :
  fails_quickly 0 times →
  failing_run times (RetryHandler_make Backoff_default) =
    (λ i, Some (ofSeconds (default_schedule i))) <$> seq 0 (length times).
Proof. intros Hq. by apply (failing_run_from 0 0 times None None). Qed.

Lemma default_backoff_schedule_witness :
  failing_run [(1, 2); (3, 4); (5, 6)] (RetryHandler_make Backoff_default) =
    (λ i, Some (ofSeconds (default_schedule i))) <$> seq 0 3.
Proof.
  apply (default_backoff_schedule [(1, 2); (3, 4); (5, 6)]).
  cbn. unfold ofSeconds, NANOS. repeat split; lia.
Defined.

(** *** Reporting a long outage *)

Section Outage.
Context {St : Type} `{RetryStrategy St}.

Definition outage_step (e : RetryEvent) (h : ConnectionRetryHandler St unit)
  : option (Z * Z) * ConnectionRetryHandler St unit :=
  match e with
  | RE_retry now => ConnectionRetryHandler_retry () now h
  | RE_timer now =>
      match d_sleepTimer (crh_base h) with
      | Some _ => (None, snd (ConnectionRetryHandler_handleRetry false now h))
      | None => (None, h)
      end
  | RE_success => (None, ConnectionRetryHandler_success h)
  end.

Definition outage_run (evs : list RetryEvent) (h : ConnectionRetryHandler St unit)
  : ConnectionRetryHandler St unit :=
  fold_left (λ h e, snd (outage_step e h)) evs h.

(** The retries since the last success, oldest first. *)
Definition outage_retries (evs : list RetryEvent) : list Z :=
  fold_left (λ l e, match e with RE_retry now => l ++ [now] | RE_success => [] | RE_timer _ => l end)
    evs [].

Lemma outage_since evs h :
  d_errorSince (outage_run evs h) =
    head (fold_left (λ l e, match e with RE_retry now => l ++ [now] | RE_success => [] | RE_timer _ => l end)
            evs (option_list (d_errorSince h))) ∧
  d_errorThreshold (outage_run evs h) = d_errorThreshold h.
Proof using.
  assert (Hg : ∀ evs h l, d_errorSince h = head l →
    d_errorSince (outage_run evs h) = head (fold_left (λ l e,
      match e with RE_retry now => l ++ [now] | RE_success => [] | RE_timer _ => l end) evs l) ∧
    d_errorThreshold (outage_run evs h) = d_errorThreshold h).
  { clear. induction evs as [| e evs IH]; intros h l Hl; [done |].
    unfold outage_run in *. cbn [fold_left].
    assert (Hs : d_errorSince (snd (outage_step e h)) =
      head (match e with RE_retry now => l ++ [now] | RE_success => [] | RE_timer _ => l end) ∧
      d_errorThreshold (snd (outage_step e h)) = d_errorThreshold h) by
      (destruct e as [now | now |]; cbn [outage_step];
       [unfold ConnectionRetryHandler_retry, ConnectionRetryHandler_evaluateErrorThreshold;
        cbn [d_errorSince]; rewrite Hl; by destruct l
       | destruct (d_sleepTimer (crh_base h)); [by destruct h |]; done | done]).
    destruct Hs as [Hs1 Hs2]. destruct (IH _ _ Hs1) as [-> ->]. by rewrite Hs2. }
  apply Hg. by destruct (d_errorSince h).
Qed.

(** The handler of a connection reports to the application, at a retry, exactly when the
    first retry since the last successful connection lies further back than the
    threshold, with the length of the outage; the strategy in use makes no difference. *)
Theorem outage_reported s threshold evs now :
  fst (outage_step (RE_retry now) (outage_run evs (ConnectionRetryHandler_make s threshold))) =
    match outage_retries evs with
    | first :: _ =>
        if threshold <? now - first then Some (seconds (now - first), seconds threshold) else None
    | [] => None
    end.
Proof using.
  destruct (outage_since evs (ConnectionRetryHandler_make s threshold)) as [Hs Ht].
  cbn [outage_step]. unfold ConnectionRetryHandler_retry, ConnectionRetryHandler_evaluateErrorThreshold.
  cbn [d_errorSince d_errorThreshold]. rewrite Hs, Ht. cbn [d_errorSince d_errorThreshold
    ConnectionRetryHandler_make option_list].
  unfold outage_retries, ConnectionRetryHandler_make. cbn [d_errorSince d_errorThreshold option_list].
  change (option_list None) with (@nil Z). by destruct (fold_left _ evs []).
Qed.
End Outage.

(** *** The watchdog *)

Section WatchDogRuns.
Context {W T : Type} (alive : T → W → bool) (Task_run : T → W → W) (timer_reset : Z → W → W).

(** When running tasks neither creates nor destroys tasks, a run of the watchdog arms the timer
    first and then runs the tasks that are alive, each once and in the order they were
    added; the expired ones are forgotten. *)
Theorem watchdog_runs_live_tasks d w :
  (∀ t t' w, alive t (Task_run t' w) = alive t w) →
  let w0 := timer_reset (d_timeout d) w in
  WatchDog_run alive Task_run timer_reset d w =
    (mkWatchDog (d_timeout d) (List.filter (λ t, alive t w0) (d_tasks d)),
     fold_left (λ w t, Task_run t w) (List.filter (λ t, alive t w0) (d_tasks d)) w0).
Proof using.
  intros Ha. unfold WatchDog_run. f_equal. generalize (timer_reset (d_timeout d) w); intros w0.
  assert (Hg : ∀ ts w, (∀ t, List.In t ts → alive t w = true) →
    run_tasks alive Task_run ts w = fold_left (λ w t, Task_run t w) ts w).
  { induction ts as [| t ts IH]; intros w1 Hw; [done |]. cbn. rewrite Hw by (by left).
    apply IH. intros t' Ht'. rewrite Ha. apply Hw. by right. }
  apply Hg. intros t Ht%List.filter_In. apply Ht.
Qed.
End WatchDogRuns.
