(* ===== verification/ChannelMap.v ===== *)
(** * ChannelMap: the channels of a connection by number

    Models [rmqamqp::ChannelMap] (rmqamqp_channelmap.cpp, rmqamqp_channelmap.h).

    - A [bsl::map] keyed by channel number is the list of its entries in key order.
    - A channel object is shared between the map, the application and pending callbacks:
      the maps hold addresses ([ChannelPtr]); the null pointer that [assignId] stores is
      [None]. The two typed maps hold the same objects as [d_channels].
    - The operations that call channels work on the state of the owner, the class
      [ChannelHost]: where the map is kept, and the calls on the channel at an address.
      [Connection] is the owner in the program; [MapLog] is one that only records the
      calls. *)

From Stdlib Require Import ZArith Lia Sorted.
From stdpp Require Import base tactics list sorting sets.
From S2P Require Import Prelude Constants Wire FieldValue Props Methods Method Message.
From S2P Require Import Framer Topology Channel.

#[local] Open Scope Z_scope.

(** ** Maps from channel numbers *)

Section IdMap.
Context {V : Type}.

Definition IdMap : Type := list (Z * V).

Fixpoint IdMap_find (k : Z) (l : IdMap) : option V :=
  match l with
  | [] => None
  | (k', v) :: l' => if k' =? k then Some v else IdMap_find k l'
  end.

(** [map[k] = v] *)
Fixpoint IdMap_insert (k : Z) (v : V) (l : IdMap) : IdMap :=
  match l with
  | [] => [(k, v)]
  | (k', v') :: l' =>
      if k' <? k then (k', v') :: IdMap_insert k v l'
      else if k' =? k then (k, v) :: l'
      else (k, v) :: (k', v') :: l'
  end.

(** [map.erase(k)] *)
Fixpoint IdMap_erase (k : Z) (l : IdMap) : IdMap :=
  match l with
  | [] => []
  | (k', v') :: l' => if k' =? k then l' else (k', v') :: IdMap_erase k l'
  end.

Definition IdMap_keys (l : IdMap) : list Z := fst <$> l.

(** Keys strictly increase. *)
Definition IdMap_sorted (l : IdMap) : Prop := StronglySorted Z.lt (IdMap_keys l).
End IdMap.

Arguments IdMap : clear implicits.

(** ** The map *)

Definition ChannelPtr : Type := nat.

Record ChannelMap := mkChannelMap {
  d_channels : IdMap (option ChannelPtr);
  d_sendChannels : IdMap ChannelPtr;
  d_receiveChannels : IdMap ChannelPtr;
}.

Definition ChannelMap_make : ChannelMap := mkChannelMap [] [] [].

(** The loop of [assignId]; [uint16_t lowest]. *)
Fixpoint lowest_from (lowest : Z) (l : IdMap (option ChannelPtr)) : Z :=
  match l with
  | [] => lowest
  | (k, _) :: l' => if lowest <? k then lowest else lowest_from (uwrap 16 (k + 1)) l'
  end.

Definition ChannelMap_assignId (m : ChannelMap) : Z * ChannelMap :=
  let lowest := lowest_from 1 (d_channels m) in
  (lowest, mkChannelMap (IdMap_insert lowest None (d_channels m)) (d_sendChannels m)
             (d_receiveChannels m)).

(** [associateChannel], one for each kind of channel. *)
Definition ChannelMap_associateSend (channelId : Z) (p : ChannelPtr) (m : ChannelMap) : ChannelMap :=
  mkChannelMap (IdMap_insert channelId (Some p) (d_channels m))
    (IdMap_insert channelId p (d_sendChannels m)) (d_receiveChannels m).

Definition ChannelMap_associateReceive (channelId : Z) (p : ChannelPtr) (m : ChannelMap) : ChannelMap :=
  mkChannelMap (IdMap_insert channelId (Some p) (d_channels m)) (d_sendChannels m)
    (IdMap_insert channelId p (d_receiveChannels m)).

Definition ChannelMap_removeChannel (channelId : Z) (m : ChannelMap) : ChannelMap :=
  mkChannelMap (IdMap_erase channelId (d_channels m)) (IdMap_erase channelId (d_sendChannels m))
    (IdMap_erase channelId (d_receiveChannels m)).

(** ** The operations that call channels *)

Class ChannelHost {E : EpochUtil} {G : GuidUtil} (St : Type) := {
  ch_map : St → ChannelMap;
  set_ch_map : ChannelMap → St → St;
  ch_open : ChannelPtr → St → St;
  ch_reset : ChannelPtr → St → CleanupIndicator * St;
  ch_processReceived : ChannelPtr → AmqpMessage → St → CleanupIndicator * St;
  ch_pause : ChannelPtr → St → St;
  ch_resume : ChannelPtr → St → St;
  (** [consumerConfig().consumeOnlyFromHealthyHost()] *)
  ch_healthAware : ChannelPtr → St → bool;
}.

Section Host.
Context {E : EpochUtil} {G : GuidUtil} {St : Type} {CH : ChannelHost St}.

Definition remove_channel (channelId : Z) (s : St) : St :=
  set_ch_map (ChannelMap_removeChannel channelId (ch_map s)) s.

(** The first loop of [resetAll]: [cleanupIds]. *)
Fixpoint reset_loop (l : IdMap (option ChannelPtr)) (s : St) : list Z * St :=
  match l with
  | [] => ([], s)
  | (_, None) :: l' => reset_loop l' s
  | (k, Some p) :: l' =>
      let (ind, s) := ch_reset p s in
      let (cleanupIds, s) := reset_loop l' s in
      (match ind with CLEANUP => k :: cleanupIds | KEEP => cleanupIds end, s)
  end.

Definition ChannelMap_resetAll (s : St) : St :=
  let (cleanupIds, s) := reset_loop (d_channels (ch_map s)) s in
  fold_left (λ s k, remove_channel k s) cleanupIds s.

Definition ChannelMap_openAll (s : St) : St :=
  fold_left (λ s e, match e.2 with None => s | Some p => ch_open p s end)
    (d_channels (ch_map s)) s.

Definition ChannelMap_pauseReceiveChannels (respectHostHealth : bool) (s : St) : St :=
  fold_left (λ s e, if respectHostHealth && negb (ch_healthAware e.2 s) then s else ch_pause e.2 s)
    (d_receiveChannels (ch_map s)) s.

Definition ChannelMap_resumeReceiveChannels (respectHostHealth : bool) (s : St) : St :=
  fold_left (λ s e, if respectHostHealth && negb (ch_healthAware e.2 s) then s else ch_resume e.2 s)
    (d_receiveChannels (ch_map s)) s.

Definition ChannelMap_processReceived (channelId : Z) (message : AmqpMessage) (s : St) : bool * St :=
  match IdMap_find channelId (d_channels (ch_map s)) with
  | None | Some None => (false, s)
  | Some (Some p) =>
      let (cleanupInd, s) := ch_processReceived p message s in
      (true, match cleanupInd with CLEANUP => remove_channel channelId s | KEEP => s end)
  end.
End Host.

(** *** What holds of every call on a channel holds of the operations *)

Section HostClosed.
Context {E : EpochUtil} {G : GuidUtil} {St : Type} {CH : ChannelHost St} (R : relation St)
  {HR : PreOrder R} (Hmap : ∀ m s, R s (set_ch_map m s)).

Lemma remove_channel_closed k s : R s (remove_channel k s).
Proof using Hmap. apply Hmap. Qed.

Lemma resetAll_closed s : (∀ p s, R s (ch_reset p s).2) → R s (ChannelMap_resetAll s).
Proof using HR Hmap.
  intros Hreset. unfold ChannelMap_resetAll.
  assert (Hl : ∀ l s, R s (reset_loop l s).2).
  { clear s. induction l as [| [k [p |]] l IH]; intros s; cbn; [done | | apply IH].
    specialize (Hreset p s). destruct (ch_reset p s) as [ind s1]. specialize (IH s1).
    destruct (reset_loop l s1) as [ids s2]. by etrans. }
  specialize (Hl (d_channels (ch_map s)) s). destruct (reset_loop _ s) as [ids s1]. cbn in Hl.
  etrans; [exact Hl |]. clear -HR Hmap. revert s1. induction ids as [| k ids IH]; intros s1; cbn; [done |].
  etrans; [apply remove_channel_closed | apply IH].
Qed.

Lemma openAll_closed s : (∀ p s, R s (ch_open p s)) → R s (ChannelMap_openAll s).
Proof using HR.
  intros Hopen. unfold ChannelMap_openAll. generalize (d_channels (ch_map s)) as l. intros l.
  revert s. induction l as [| [k [p |]] l IH]; intros s; cbn; [done | | apply IH].
  etrans; [apply Hopen | apply IH].
Qed.

Lemma pause_closed b s : (∀ p s, R s (ch_pause p s)) → R s (ChannelMap_pauseReceiveChannels b s).
Proof using HR.
  intros Hp. unfold ChannelMap_pauseReceiveChannels. generalize (d_receiveChannels (ch_map s)) as l.
  intros l. revert s. induction l as [| [k p] l IH]; intros s; cbn; [done |].
  etrans; [| apply IH]. destruct (b && negb (ch_healthAware p s)); [done | apply Hp].
Qed.

Lemma resume_closed b s : (∀ p s, R s (ch_resume p s)) → R s (ChannelMap_resumeReceiveChannels b s).
Proof using HR.
  intros Hp. unfold ChannelMap_resumeReceiveChannels. generalize (d_receiveChannels (ch_map s)) as l.
  intros l. revert s. induction l as [| [k p] l IH]; intros s; cbn; [done |].
  etrans; [| apply IH]. destruct (b && negb (ch_healthAware p s)); [done | apply Hp].
Qed.

Lemma map_processReceived_closed id m s :
  (∀ p s, R s (ch_processReceived p m s).2) → R s (ChannelMap_processReceived id m s).2.
Proof using HR Hmap.
  intros Hp. unfold ChannelMap_processReceived.
  destruct (IdMap_find id (d_channels (ch_map s))) as [[p |] |]; cbn; [| done | done].
  specialize (Hp p s). destruct (ch_processReceived p m s) as [[] s1]; cbn in *; [done |].
  etrans; [exact Hp | apply remove_channel_closed].
Qed.
End HostClosed.

(** ** Lemmas on the maps *)

Section IdMapLemmas.
Context {V : Type}.
Implicit Types (l : IdMap V) (k : Z) (v : V).

Lemma find_insert k v l k' :
  IdMap_sorted l →
  IdMap_find k' (IdMap_insert k v l) = if decide (k' = k) then Some v else IdMap_find k' l.
Proof using.
  unfold IdMap_sorted. induction l as [| [k1 v1] l IH]; intros Hs; cbn.
  - destruct (Z.eqb_spec k k'); case_decide; congruence.
  - apply StronglySorted_inv in Hs as [Hs Hlt]. specialize (IH Hs).
    destruct (Z.ltb_spec k1 k); cbn.
    + rewrite IH. destruct (Z.eqb_spec k1 k'); case_decide; done || lia.
    + destruct (Z.eqb_spec k1 k); cbn; destruct (Z.eqb_spec k k'); case_decide; try done; try lia.
      subst. by destruct (Z.eqb_spec k k').
Qed.

Lemma find_not_in k l : k ∉ IdMap_keys l ↔ IdMap_find k l = None.
Proof using.
  induction l as [| [k1 v1] l IH]; cbn; [set_solver |].
  rewrite not_elem_of_cons, IH. destruct (Z.eqb_spec k1 k); naive_solver.
Qed.

Lemma find_erase k l k' :
  IdMap_sorted l →
  IdMap_find k' (IdMap_erase k l) = if decide (k' = k) then None else IdMap_find k' l.
Proof using.
  unfold IdMap_sorted. induction l as [| [k1 v1] l IH]; intros Hs; cbn; [by case_decide |].
  apply StronglySorted_inv in Hs as [Hs Hlt]. specialize (IH Hs).
  destruct (Z.eqb_spec k1 k) as [-> | Hne]; cbn.
  - case_decide as Hk.
    + subst k'. apply find_not_in. intros Hin. rewrite Forall_forall in Hlt. specialize (Hlt _ Hin). cbn in Hlt. lia.
    + by destruct (Z.eqb_spec k k').
  - rewrite IH. destruct (Z.eqb_spec k1 k'); case_decide; done || lia.
Qed.

Lemma keys_insert k v l : IdMap_keys (IdMap_insert k v l) ⊆ k :: IdMap_keys l.
Proof using.
  induction l as [| [k1 v1] l IH]; cbn; [done |].
  destruct (k1 <? k); cbn; [| destruct (k1 =? k); cbn]; set_solver.
Qed.

Lemma keys_erase k l : IdMap_keys (IdMap_erase k l) ⊆ IdMap_keys l.
Proof using. induction l as [| [k1 v1] l IH]; cbn; [done |]. destruct (k1 =? k); cbn; set_solver. Qed.

Lemma sorted_insert k v l : IdMap_sorted l → IdMap_sorted (IdMap_insert k v l).
Proof using.
  unfold IdMap_sorted. induction l as [| [k1 v1] l IH]; intros Hs; cbn.
  - repeat constructor.
  - apply StronglySorted_inv in Hs as [Hs Hlt]. specialize (IH Hs).
    destruct (Z.ltb_spec k1 k); cbn; [| destruct (Z.eqb_spec k1 k) as [-> | Hne]; cbn].
    + constructor; [done |]. rewrite Forall_forall in *. intros x Hx%keys_insert.
      apply elem_of_cons in Hx as [-> | Hx]; [done | by apply Hlt].
    + by constructor.
    + constructor; [by constructor |]. constructor; [lia |].
      eapply Forall_impl; [done |]. cbn. lia.
Qed.

Lemma sorted_erase k l : IdMap_sorted l → IdMap_sorted (IdMap_erase k l).
Proof using.
  unfold IdMap_sorted. induction l as [| [k1 v1] l IH]; intros Hs; cbn; [done |].
  apply StronglySorted_inv in Hs as [Hs Hlt]. specialize (IH Hs).
  destruct (k1 =? k); cbn; [done |]. constructor; [done |].
  rewrite Forall_forall in *. intros x Hx%keys_erase. by apply Hlt.
Qed.

Lemma find_in k v l : IdMap_find k l = Some v → k ∈ IdMap_keys l.
Proof using.
  intros Hf. destruct (decide (k ∈ IdMap_keys l)) as [? | Hn]; [done |].
  apply find_not_in in Hn. congruence.
Qed.
End IdMapLemmas.

(** *** The numbers [assignId] hands out *)

Definition MAX_ID : Z := 65535.

Lemma lowest_from_spec lo l :
  IdMap_sorted l → Forall (λ k, lo ≤ k ≤ MAX_ID) (IdMap_keys l) →
  lo + Z.of_nat (length l) ≤ MAX_ID → 0 ≤ lo →
  let r := lowest_from lo l in
  lo ≤ r ≤ lo + Z.of_nat (length l) ∧ r ∉ IdMap_keys l ∧ (∀ j, lo ≤ j < r → j ∈ IdMap_keys l).
Proof.
  unfold IdMap_sorted, MAX_ID. revert lo.
  induction l as [| [k p] l IH]; intros lo Hs Hr Hlen H0; cbn [lowest_from length IdMap_keys fmap list_fmap] in *.
  - split_and!; [lia | lia | set_solver | lia].
  - apply StronglySorted_inv in Hs as [Hs Hlt]. apply Forall_cons in Hr as [Hk Hr].
    cbn [fst] in *. destruct (Z.ltb_spec lo k) as [Hlo | Hlo].
    + split_and!; [lia | lia | | lia]. apply not_elem_of_cons. split; [lia |].
      intros Hin. rewrite Forall_forall in Hlt. specialize (Hlt _ Hin). cbn in Hlt. lia.
    + assert (k = lo) as -> by lia. rewrite uwrap_small by (apply u_in_iff; lia).
      assert (Hr' : Forall (λ k, lo + 1 ≤ k ≤ 65535) (IdMap_keys l)).
      { rewrite Forall_forall in *. intros x Hx. specialize (Hr _ Hx). specialize (Hlt _ Hx). cbn in *. lia. }
      destruct (IH (lo + 1) Hs Hr') as (Hb & Hni & Hall); [lia | lia |].
      split_and!; [lia | lia | apply not_elem_of_cons; split; [lia | done] |].
      intros j Hj. apply elem_of_cons. destruct (decide (j = lo)); [by left | right]. apply Hall. lia.
Qed.

(** When every number from [lo] on is taken, the next one wraps around to 0. *)
Lemma lowest_from_full lo l :
  IdMap_sorted l → Forall (λ k, lo ≤ k ≤ MAX_ID) (IdMap_keys l) →
  lo + Z.of_nat (length l) = MAX_ID + 1 → 0 ≤ lo → l ≠ [] → lowest_from lo l = 0.
Proof.
  unfold IdMap_sorted, MAX_ID. revert lo.
  induction l as [| [k p] l IH]; intros lo Hs Hr Hlen H0 Hne; [done |].
  cbn [lowest_from length IdMap_keys fmap list_fmap] in *.
  apply StronglySorted_inv in Hs as [Hs Hlt]. apply Forall_cons in Hr as [Hk Hr]. cbn [fst] in *.
  assert (Hr' : Forall (λ j, k + 1 ≤ j ≤ 65535) (IdMap_keys l)).
  { rewrite Forall_forall in *. intros x Hx. specialize (Hr _ Hx). specialize (Hlt _ Hx). cbn in *. lia. }
  destruct (Z.ltb_spec lo k) as [Hlo | Hlo].
  - exfalso. assert (Hc : ∀ (l : list Z) a, StronglySorted Z.lt l → Forall (λ j, a ≤ j ≤ 65535) l →
      Z.of_nat (length l) ≤ Z.max 0 (65536 - a)).
    { clear. induction l as [| x l IH]; intros a Hs Hr; cbn [length]; [lia |].
      apply StronglySorted_inv in Hs as [Hs Hlt]. apply Forall_cons in Hr as [Hx Hr].
      specialize (IH (x + 1) Hs). rewrite Nat2Z.inj_succ.
      enough (Z.of_nat (length l) ≤ Z.max 0 (65536 - (x + 1))) by lia. apply IH.
      rewrite Forall_forall in *. intros y Hy. specialize (Hr _ Hy). specialize (Hlt _ Hy). lia. }
    specialize (Hc _ _ Hs Hr'). unfold IdMap_keys in Hc. rewrite length_fmap in Hc. lia.
  - assert (k = lo) as -> by lia. destruct l as [| e l].
    + cbn in *. assert (lo = 65535) as -> by lia. done.
    + rewrite uwrap_small by (apply u_in_iff; cbn [length] in *; lia). apply IH; try done; lia.
Qed.

(** *** The invariant of the map *)

Record map_wf (m : ChannelMap) : Prop := {
  mw_sorted : IdMap_sorted (d_channels m);
  mw_sorted_send : IdMap_sorted (d_sendChannels m);
  mw_sorted_receive : IdMap_sorted (d_receiveChannels m);
  mw_range : Forall (λ k, 1 ≤ k ≤ MAX_ID) (IdMap_keys (d_channels m));
  (** the typed maps hold the channels of [d_channels], each in one of them *)
  mw_send : ∀ k p, IdMap_find k (d_sendChannels m) = Some p →
    IdMap_find k (d_channels m) = Some (Some p) ∧ IdMap_find k (d_receiveChannels m) = None;
  mw_receive : ∀ k p, IdMap_find k (d_receiveChannels m) = Some p →
    IdMap_find k (d_channels m) = Some (Some p) ∧ IdMap_find k (d_sendChannels m) = None;
  mw_typed : ∀ k p, IdMap_find k (d_channels m) = Some (Some p) →
    IdMap_find k (d_sendChannels m) = Some p ∨ IdMap_find k (d_receiveChannels m) = Some p;
}.

(** A number that is reserved but has no channel yet. *)
Definition reserved (k : Z) (m : ChannelMap) : Prop := IdMap_find k (d_channels m) = Some None.

Lemma map_wf_make : map_wf ChannelMap_make.
Proof. split; try done; try constructor. Qed.

Lemma reserved_untyped k m :
  map_wf m → reserved k m →
  IdMap_find k (d_sendChannels m) = None ∧ IdMap_find k (d_receiveChannels m) = None.
Proof.
  intros [] Hr. unfold reserved in Hr. split.
  - destruct (IdMap_find k (d_sendChannels m)) as [p |] eqn:Hf; [| done].
    destruct (mw_send0 _ _ Hf). congruence.
  - destruct (IdMap_find k (d_receiveChannels m)) as [p |] eqn:Hf; [| done].
    destruct (mw_receive0 _ _ Hf). congruence.
Qed.

Lemma range_insert {V} k (v : V) l :
  1 ≤ k ≤ MAX_ID → Forall (λ k, 1 ≤ k ≤ MAX_ID) (IdMap_keys l) →
  Forall (λ k, 1 ≤ k ≤ MAX_ID) (IdMap_keys (IdMap_insert k v l)).
Proof.
  rewrite !Forall_forall. intros Hk Hr x Hx%keys_insert.
  apply elem_of_cons in Hx as [-> | Hx]; [done | by apply Hr].
Qed.

(** The least number that is free. *)
Lemma assignId_spec m :
  map_wf m → Z.of_nat (length (d_channels m)) < MAX_ID →
  let (id, m') := ChannelMap_assignId m in
  map_wf m' ∧ reserved id m' ∧ 1 ≤ id ≤ MAX_ID ∧ id ∉ IdMap_keys (d_channels m) ∧
  (∀ j, 1 ≤ j < id → j ∈ IdMap_keys (d_channels m)) ∧
  (∀ k, k ≠ id → IdMap_find k (d_channels m') = IdMap_find k (d_channels m)) ∧
  d_sendChannels m' = d_sendChannels m ∧ d_receiveChannels m' = d_receiveChannels m.
Proof.
  intros Hwf Hlen. pose proof Hwf as [].
  destruct (lowest_from_spec 1 (d_channels m)) as (Hr & Hni & Hall); [done | done | lia | lia |].
  unfold ChannelMap_assignId. set (id := lowest_from 1 (d_channels m)) in *.
  assert (Hf : ∀ k, IdMap_find k (IdMap_insert id None (d_channels m)) =
    if decide (k = id) then Some None else IdMap_find k (d_channels m)) by (intros; by apply find_insert).
  apply find_not_in in Hni as Hnone.
  split_and!; try done; try lia.
  - split; cbn [d_channels d_sendChannels d_receiveChannels]; try done.
    + by apply sorted_insert.
    + apply range_insert; [lia | done].
    + intros k p Hk. destruct (mw_send0 _ _ Hk). rewrite Hf. case_decide; [congruence | done].
    + intros k p Hk. destruct (mw_receive0 _ _ Hk). rewrite Hf. case_decide; [congruence | done].
    + intros k p. rewrite Hf. case_decide; [done | apply mw_typed0].
  - unfold reserved. cbn. rewrite Hf. by case_decide.
  - intros k Hk. cbn. rewrite Hf. by case_decide.
Qed.

Lemma associate_wf k p m :
  map_wf m → reserved k m →
  map_wf (ChannelMap_associateSend k p m) ∧ map_wf (ChannelMap_associateReceive k p m).
Proof.
  intros Hwf Hres. destruct (reserved_untyped k m Hwf Hres) as [Hns Hnr]. pose proof Hwf as [].
  assert (Hk : 1 ≤ k ≤ MAX_ID).
  { rewrite Forall_forall in mw_range0. by eapply mw_range0, find_in. }
  split; (split; cbn [ChannelMap_associateSend ChannelMap_associateReceive d_channels d_sendChannels
    d_receiveChannels]; try (by apply sorted_insert); try done; try (by apply range_insert);
    intros k' p'; rewrite !find_insert by done; case_decide; try naive_solver; subst; naive_solver).
Qed.

Lemma removeChannel_wf k m : map_wf m → map_wf (ChannelMap_removeChannel k m).
Proof.
  intros []. split; cbn [ChannelMap_removeChannel d_channels d_sendChannels d_receiveChannels];
    try (by apply sorted_erase);
    try (intros k' p'; rewrite !find_erase by done; by case_decide; eauto).
  rewrite Forall_forall in *. intros x Hx%keys_erase. by apply mw_range0.
Qed.

(** ** An owner that records the calls

    The owner's channels answer [reset] and [processReceived] as [verdict] says. *)

Inductive ChannelCall {E : EpochUtil} {G : GuidUtil} :=
| Call_open (p : ChannelPtr) | Call_reset (p : ChannelPtr)
| Call_received (p : ChannelPtr) (m : AmqpMessage)
| Call_pause (p : ChannelPtr) | Call_resume (p : ChannelPtr).

Section MapLog.
Context {E : EpochUtil} {G : GuidUtil} (verdict : ChannelPtr → CleanupIndicator)
  (aware : ChannelPtr → bool).

Record MapLog := mkMapLog { ml_map : ChannelMap; ml_calls : list ChannelCall }.

Definition map_call (c : ChannelCall) (s : MapLog) : MapLog :=
  mkMapLog (ml_map s) (ml_calls s ++ [c]).

#[local] Instance MapLog_host : ChannelHost MapLog := {
  ch_map := ml_map;
  set_ch_map m s := mkMapLog m (ml_calls s);
  ch_open p s := map_call (Call_open p) s;
  ch_reset p s := (verdict p, map_call (Call_reset p) s);
  ch_processReceived p m s := (verdict p, map_call (Call_received p m) s);
  ch_pause p s := map_call (Call_pause p) s;
  ch_resume p s := map_call (Call_resume p) s;
  ch_healthAware p _ := aware p;
}.

(** The channels of the map, in the order of their numbers. *)
Definition live_channels (m : ChannelMap) : list ChannelPtr := omap snd (d_channels m).

Definition is_cleanup (p : ChannelPtr) : bool := match verdict p with CLEANUP => true | KEEP => false end.

(** The entries a reset keeps. *)
Definition kept (e : Z * option ChannelPtr) : bool :=
  match e.2 with Some p => negb (is_cleanup p) | None => true end.

Lemma reset_loop_log l s :
  reset_loop l s =
    (fst <$> List.filter (λ e, negb (kept e)) l,
     mkMapLog (ml_map s) (ml_calls s ++ (Call_reset <$> omap snd l))).
Proof using.
  revert s. induction l as [| [k [p |]] l IH]; intros [m cs]; cbn.
  - by rewrite app_nil_r.
  - rewrite IH. cbn. unfold kept, is_cleanup. cbn. rewrite <- app_assoc.
    by destruct (verdict p).
  - by rewrite IH.
Qed.

Lemma remove_all_log ks s :
  fold_left (λ s k, remove_channel k s) ks s =
    mkMapLog (fold_left (λ m k, ChannelMap_removeChannel k m) ks (ml_map s)) (ml_calls s).
Proof using. revert s. induction ks as [| k ks IH]; intros [m cs]; cbn; [done |]. by rewrite IH. Qed.

Lemma openAll_log s :
  ChannelMap_openAll s = mkMapLog (ml_map s) (ml_calls s ++ (Call_open <$> live_channels (ml_map s))).
Proof using.
  unfold ChannelMap_openAll, live_channels. cbn [ch_map MapLog_host].
  destruct s as [m cs]; cbn. generalize (d_channels m) as l. intros l. revert cs.
  induction l as [| [k [p |]] l IH]; intros cs; cbn.
  - by rewrite app_nil_r.
  - unfold map_call; cbn. rewrite IH. by rewrite <- app_assoc.
  - apply IH.
Qed.

(** Erasing, entry by entry, the entries a predicate rejects. *)
Lemma erase_filter (l : IdMap (option ChannelPtr)) :
  IdMap_sorted l →
  fold_left (λ l k, IdMap_erase k l) (fst <$> List.filter (λ e, negb (kept e)) l) l =
    List.filter kept l.
Proof using.
  assert (Hnot : ∀ (l : IdMap (option ChannelPtr)) k v ks, k ∉ ks →
    fold_left (λ l k, IdMap_erase k l) ks ((k, v) :: l) =
      (k, v) :: fold_left (λ l k, IdMap_erase k l) ks l).
  { clear l. intros l k v ks. revert l. induction ks as [| k' ks IH]; intros l Hk; cbn; [done |].
    apply not_elem_of_cons in Hk as [Hne Hk]. destruct (Z.eqb_spec k k'); [done |]. by apply IH. }
  unfold IdMap_sorted. induction l as [| [k v] l IH]; intros Hs; [done |].
  apply StronglySorted_inv in Hs as [Hs Hlt]. cbn [List.filter].
  destruct (kept (k, v)); cbn [negb fmap list_fmap fold_left].
  - rewrite Hnot; [by rewrite IH |]. intros (e & -> & Hin)%list_elem_of_fmap.
    apply list_elem_of_In, List.filter_In in Hin as [Hin _].
    rewrite Forall_forall in Hlt. specialize (Hlt e.1). cbn in Hlt.
    assert (e.1 < e.1); [| lia]. apply Hlt. apply list_elem_of_fmap. exists e.
    split; [done |]. by apply list_elem_of_In.
  - cbn [IdMap_erase fst]. rewrite Z.eqb_refl. by apply IH.
Qed.
End MapLog.

(** ** Reachable maps *)

(** What [Connection] does to its map: create a channel, or drop one that is closed. *)
Inductive reachable_map : ChannelMap → Prop :=
| RM_make : reachable_map ChannelMap_make
| RM_send m p :
    reachable_map m → Z.of_nat (length (d_channels m)) < MAX_ID →
    reachable_map (let (id, m') := ChannelMap_assignId m in ChannelMap_associateSend id p m')
| RM_receive m p :
    reachable_map m → Z.of_nat (length (d_channels m)) < MAX_ID →
    reachable_map (let (id, m') := ChannelMap_assignId m in ChannelMap_associateReceive id p m')
| RM_remove m k : reachable_map m → reachable_map (ChannelMap_removeChannel k m).

Lemma reachable_map_wf m : reachable_map m → map_wf m.
Proof.
  induction 1 as [| m p _ IH Hl | m p _ IH Hl | m k _ IH];
    [apply map_wf_make | | | by apply removeChannel_wf];
    pose proof (assignId_spec m IH Hl) as Hs; destruct (ChannelMap_assignId m) as [id m'];
    destruct Hs as (Hwf & Hr & _); by apply associate_wf.
Qed.

(** In every map a connection can build with at most 65534 channels open, [assignId] returns
    the least channel number from 1 that is not in use and reserves it, leaving every
    other entry alone: two channels of a connection never share a number and a number is
    reused once its channel is removed. *)
Theorem assignId_least_free m :
  reachable_map m → Z.of_nat (length (d_channels m)) < MAX_ID →
  let (id, m') := ChannelMap_assignId m in
  1 ≤ id ≤ MAX_ID ∧ id ∉ IdMap_keys (d_channels m) ∧
  (∀ j, 1 ≤ j < id → j ∈ IdMap_keys (d_channels m)) ∧
  IdMap_find id (d_channels m') = Some None ∧
  (∀ k, k ≠ id → IdMap_find k (d_channels m') = IdMap_find k (d_channels m)).
Proof.
  intros Hr Hl. pose proof (assignId_spec m (reachable_map_wf m Hr) Hl) as Hs.
  destruct (ChannelMap_assignId m) as [id m']. destruct Hs as (_ & Hres & Hid & Hni & Hall & Hk & _).
  done.
Qed.

(** Channels 1 and 3 of three, the second one closed. *)
Definition sample_map : ChannelMap :=
  ChannelMap_removeChannel 2
    (let (i3, m3) := ChannelMap_assignId
       (let (i2, m2) := ChannelMap_assignId
          (let (i1, m1) := ChannelMap_assignId ChannelMap_make in ChannelMap_associateSend i1 10%nat m1) in
        ChannelMap_associateReceive i2 11%nat m2) in
     ChannelMap_associateSend i3 12%nat m3).

Lemma sample_map_reachable : reachable_map sample_map.
Proof.
  apply RM_remove. apply RM_send; [| reflexivity]. apply RM_receive; [| reflexivity].
  apply RM_send; [apply RM_make | reflexivity].
Qed.

Lemma assignId_least_free_witness :
  fst (ChannelMap_assignId sample_map) = 2 ∧
  let (id, m') := ChannelMap_assignId sample_map in
  1 ≤ id ≤ MAX_ID ∧ id ∉ IdMap_keys (d_channels sample_map) ∧
  (∀ j, 1 ≤ j < id → j ∈ IdMap_keys (d_channels sample_map)) ∧
  IdMap_find id (d_channels m') = Some None ∧
  (∀ k, k ≠ id → IdMap_find k (d_channels m') = IdMap_find k (d_channels sample_map)).
Proof.
  split; [reflexivity |]. apply (assignId_least_free sample_map); [apply sample_map_reachable | reflexivity].
Defined.

(** With all 65535 channel numbers in use, [assignId] returns 0, the number of the control
    channel of the connection, because the increment of the last number wraps around. *)
Theorem assignId_exhausted m :
  map_wf m → Z.of_nat (length (d_channels m)) = MAX_ID → fst (ChannelMap_assignId m) = 0.
Proof.
  intros [] Hl. unfold ChannelMap_assignId. cbn [fst]. apply lowest_from_full; try done; try lia.
  intros Hn. rewrite Hn in Hl. done.
Qed.

Definition full_map (n : Z) : ChannelMap := mkChannelMap ((λ k, (k, None)) <$> seqZ 1 n) [] [].

Lemma full_map_wf n : 0 ≤ n ≤ MAX_ID → map_wf (full_map n).
Proof.
  intros Hn. assert (Hk : IdMap_keys (d_channels (full_map n)) = seqZ 1 n).
  { unfold full_map, IdMap_keys. cbn [d_channels]. rewrite <- list_fmap_compose. apply list_fmap_id. }
  split; [| by constructor | by constructor | | discriminate | discriminate |].
  - unfold IdMap_sorted. rewrite Hk. unfold seqZ. generalize (Z.to_nat n) as l. intros l. clear.
    generalize O as a. induction l as [| l IH]; intros a; cbn; constructor; [apply IH |].
    apply Forall_fmap, Forall_forall. intros x Hx%elem_of_seq. cbn. lia.
  - rewrite Hk, Forall_forall. intros x Hx%elem_of_seqZ. lia.
  - intros k p Hf. exfalso. unfold full_map in Hf. cbn [d_channels] in Hf. revert Hf.
    generalize (seqZ 1 n). intros l. induction l as [| x l IH]; cbn; [done |].
    by destruct (x =? k).
Qed.

Lemma assignId_exhausted_witness : fst (ChannelMap_assignId (full_map 65535)) = 0.
Proof.
  apply (assignId_exhausted (full_map 65535)); [apply full_map_wf; unfold MAX_ID; lia |].
  unfold full_map. cbn [d_channels]. rewrite length_fmap, length_seqZ. reflexivity.
Defined.

Section Reconnection.
Context {E : EpochUtil} {G : GuidUtil} (verdict : ChannelPtr → CleanupIndicator)
  (aware : ChannelPtr → bool).
#[local] Existing Instance MapLog_host.

(** Losing a connection resets every channel once, in the order of their numbers, and drops
    exactly those that are closing for good, keeping the others under their numbers;
    when the connection is back, each channel that was kept is opened once, in the same
    order, and no dropped channel is. *)
Theorem reset_then_reopen s :
  map_wf (ml_map s) →
  let HH := MapLog_host verdict aware in
  let s' := ChannelMap_openAll (CH := HH) (ChannelMap_resetAll (CH := HH) s) in
  d_channels (ml_map s') = List.filter (kept verdict) (d_channels (ml_map s)) ∧
  ml_calls s' = ml_calls s ++ (Call_reset <$> live_channels (ml_map s)) ++
    (Call_open <$> List.filter (λ p, negb (is_cleanup verdict p)) (live_channels (ml_map s))).
Proof using.
  intros Hwf. cbn zeta. rewrite openAll_log. unfold ChannelMap_resetAll.
  cbn [ch_map MapLog_host]. rewrite reset_loop_log. rewrite remove_all_log. cbn [ml_map ml_calls].
  set (ks := fst <$> _).
  assert (Hd : ∀ ks m, d_channels (fold_left (λ m k, ChannelMap_removeChannel k m) ks m) =
    fold_left (λ l k, IdMap_erase k l) ks (d_channels m)).
  { clear. induction ks as [| k ks IH]; intros m; cbn; [done |]. apply IH. }
  assert (Hm : d_channels (fold_left (λ m k, ChannelMap_removeChannel k m) ks (ml_map s)) =
    List.filter (kept verdict) (d_channels (ml_map s))).
  { rewrite Hd. apply erase_filter. apply Hwf. }
  split; [done |]. rewrite <- app_assoc. do 2 f_equal. unfold live_channels. rewrite Hm. clear.
  f_equal. induction (d_channels (ml_map s)) as [| [k [p |]] l IH]; cbn; [done | | done].
  unfold kept; cbn. destruct (is_cleanup verdict p); cbn; [done |]. by f_equal.
Qed.
End Reconnection.

Section ReconnectionWitness.
#[local] Existing Instances byte_GuidUtil.

Lemma reset_then_reopen_witness :
  let HH := MapLog_host (λ p, if decide (p = 10%nat) then CLEANUP else KEEP) (λ _, true) in
  let s' := ChannelMap_openAll (CH := HH) (ChannelMap_resetAll (CH := HH) (mkMapLog sample_map [])) in
  d_channels (ml_map s') = [(3, Some 12%nat)] ∧
  ml_calls s' = [Call_reset 10%nat; Call_reset 12%nat; Call_open 12%nat].
Proof using.
  destruct (reset_then_reopen (λ p, if decide (p = 10%nat) then CLEANUP else KEEP) (λ _, true)
              (mkMapLog sample_map [])) as [Hm Hc]; [apply reachable_map_wf, sample_map_reachable |].
  split; [exact Hm | exact Hc].
Defined.
End ReconnectionWitness.
