(* ===== verification/ClientProperties.v ===== *)
(** * ClientProperties: what a connection tells the broker about itself

    Models the properties of [connection.start-ok] that [rmqamqp::Connection] sends
    (rmqamqp_connection.cpp: [setChainProperties], [generateClientProperties]) and the
    negotiation of the tune parameters ([negotiateTuneParam], [negotiateTuneParams]).

    The version string is fixed when the library is built
    (rmqamqpt_constants.cpp: [VERSION]), so it is an argument. *)

From Stdlib Require Import ZArith Lia String Strings.Byte.
From stdpp Require Import base tactics list sets.
From S2P Require Import Prelude Constants Wire FieldValue Props Methods.

Definition PLATFORM : bytes := str "C++03".
Definition PRODUCT : bytes := str "rmqcpp C++ Client Library".

(** ** Properties *)

Section ClientProperties.
Context {E : EpochUtil}.

(** [map.find(k)] *)
Fixpoint FieldTable_find (k : bytes) (t : FieldTable) : option FieldValue :=
  match t with
  | [] => None
  | (k', v) :: t' => if bool_decide (k' = k) then Some v else FieldTable_find k t'
  end.

(** [map[k] = v] *)
Fixpoint FieldTable_set (k : bytes) (v : FieldValue) (t : FieldTable) : FieldTable :=
  match t with
  | [] => [(k, v)]
  | (k', v') :: t' =>
      if bytes_ltb k k' then (k, v) :: t
      else if bytes_ltb k' k then (k', v') :: FieldTable_set k v t'
      else (k, v) :: t'
  end.

(** [is<bsl::string>()] and [the<bsl::string>()] *)
Definition field_string (v : option FieldValue) : option bytes :=
  match v with Some (FV_string s) => Some s | _ => None end.

Definition chained (version : option bytes) (selfVersion : bytes) : FieldValue :=
  FV_string (default (str "unknown") version ++ str " | " ++ selfVersion).

Definition setChainProperties (props base : FieldTable) (selfProduct selfVersion : bytes)
  : FieldTable :=
  let productChain := field_string (FieldTable_find (str "product_chain") base) in
  let versionChain := field_string (FieldTable_find (str "version_chain") base) in
  let product := FieldTable_find (str "product") base in
  let version := FieldTable_find (str "version") base in
  let props :=
    match productChain with
    | Some chain =>
        FieldTable_set (str "version_chain") (chained versionChain selfVersion)
          (FieldTable_set (str "product_chain") (FV_string (chain ++ str " | " ++ selfProduct)) props)
    | None =>
        match field_string product with
        | Some p =>
            FieldTable_set (str "version_chain") (chained (field_string version) selfVersion)
              (FieldTable_set (str "product_chain") (FV_string (p ++ str " | " ++ selfProduct)) props)
        | None =>
            FieldTable_set (str "version_chain") (FV_string selfVersion)
              (FieldTable_set (str "product_chain") (FV_string selfProduct) props)
        end
    end in
  let props := match product with
               | None => FieldTable_set (str "product") (FV_string selfProduct) props
               | Some _ => props
               end in
  match version with
  | None => FieldTable_set (str "version") (FV_string selfVersion) props
  | Some _ => props
  end.

(** The client's capabilities. *)
Definition client_capabilities : FieldTable :=
  FieldTable_set (str "basic.nack") (FV_bool false)
    (FieldTable_set (str "publisher_confirms") (FV_bool true)
       (FieldTable_set (str "consumer_cancel_notify") (FV_bool true)
          (FieldTable_set (str "authentication_failure_close") (FV_bool true)
             (FieldTable_set (str "connection.blocked") (FV_bool false) [])))).

Definition generateClientProperties (version : bytes) (base : FieldTable) (connectionName : bytes)
  : FieldTable :=
  let props := FieldTable_set (str "capabilities") (FV_table client_capabilities) base in
  let props := FieldTable_set (str "platform") (FV_string PLATFORM) props in
  let props := setChainProperties props base PRODUCT version in
  match connectionName with
  | [] => props
  | _ => FieldTable_set (str "connection_name") (FV_string connectionName) props
  end.
End ClientProperties.

(** ** Tuning *)

Definition k_MAX_CHANNEL_NUM : Z := 65535.
Definition k_MAX_HEARTBEAT_TIMEOUT_SEC : Z := 60.

Definition negotiateTuneParam (server client : Z) : Z :=
  (if server =? 0 then client else if client =? 0 then server else Z.min server client)%Z.

(** [negotiateTuneParams]: channel-max, frame-max and heartbeat. *)
Definition negotiateTuneParams (serverTune : ConnectionTune)
  (clientChannelMax clientFrameSize clientHeartbeat : Z) : Z * Z * Z :=
  (negotiateTuneParam (ConnectionTune_channelMax serverTune) clientChannelMax,
   negotiateTuneParam (ConnectionTune_frameMax serverTune) clientFrameSize,
   negotiateTuneParam (ConnectionTune_heartbeatInterval serverTune) clientHeartbeat).

(** *** Properties of the tables *)

Section Tables.
Context {E : EpochUtil}.

Lemma bytes_ltb_total (a b : bytes) : bytes_ltb a b = false → bytes_ltb b a = false → a = b.
Proof.
  revert b. induction a as [| x a IH]; intros [| y b]; cbn; try done.
  destruct (Z.ltb_spec (byte_val x) (byte_val y)), (Z.ltb_spec (byte_val y) (byte_val x)); try done.
  intros H1 H2. f_equal; [apply byte_val_inj; lia | by apply IH].
Qed.

(** Assigning a key makes it readable and leaves the other keys alone; this needs no order
    of the table. *)
Lemma find_set k v (t : FieldTable) k' :
  k' ≠ k → FieldTable_find k' (FieldTable_set k v t) = FieldTable_find k' t.
Proof using.
  intros Hne. induction t as [| [k1 v1] t IH]; cbn.
  - case_bool_decide; congruence.
  - destruct (bytes_ltb k k1) eqn:H1; cbn; [by rewrite (bool_decide_eq_false_2 (k = k')) by congruence |].
    destruct (bytes_ltb k1 k) eqn:H2; cbn.
    + by rewrite IH.
    + pose proof (bytes_ltb_total _ _ H1 H2) as <-. by rewrite !(bool_decide_eq_false_2 (k = k')) by congruence.
Qed.

Lemma find_set_eq k v (t : FieldTable) : FieldTable_find k (FieldTable_set k v t) = Some v.
Proof using.
  induction t as [| [k1 v1] t IH]; cbn; [by rewrite bool_decide_eq_true_2 |].
  destruct (bytes_ltb k k1) eqn:H1; cbn; [by rewrite bool_decide_eq_true_2 |].
  destruct (bytes_ltb k1 k) eqn:H2; cbn; [| by rewrite bool_decide_eq_true_2].
  rewrite IH. rewrite bool_decide_eq_false_2; [done |]. intros ->. by rewrite bytes_ltb_irrefl in H2.
Qed.
End Tables.

Section Chains.
Context {E : EpochUtil}.

(** Rewriting with the lemmas on assignment, the keys being distinct literals. *)
Ltac table_simpl :=
  repeat first [rewrite find_set_eq | rewrite find_set by discriminate].

(** Keys the chain does not concern. *)
Lemma chain_other k props base p v :
  k ∉ [str "product_chain"; str "version_chain"; str "product"; str "version"] →
  FieldTable_find k (setChainProperties props base p v) = FieldTable_find k props.
Proof using.
  rewrite !not_elem_of_cons. intros (H1 & H2 & H3 & H4 & _). unfold setChainProperties.
  destruct (field_string (FieldTable_find (str "product_chain") base));
    [| destruct (field_string (FieldTable_find (str "product") base))];
    destruct (FieldTable_find (str "product") base), (FieldTable_find (str "version") base);
    by rewrite !find_set.
Qed.

(** Product and version are only added when they are missing. *)
Lemma chain_product props base p v :
  FieldTable_find (str "product") props = FieldTable_find (str "product") base →
  FieldTable_find (str "version") props = FieldTable_find (str "version") base →
  FieldTable_find (str "product") (setChainProperties props base p v) =
    Some (default (FV_string p) (FieldTable_find (str "product") base)) ∧
  FieldTable_find (str "version") (setChainProperties props base p v) =
    Some (default (FV_string v) (FieldTable_find (str "version") base)).
Proof using.
  intros Hp Hv. unfold setChainProperties.
  destruct (field_string (FieldTable_find (str "product_chain") base));
    [| destruct (field_string (FieldTable_find (str "product") base))];
    destruct (FieldTable_find (str "product") base), (FieldTable_find (str "version") base);
    by table_simpl.
Qed.

(** What the product chain starts with. *)
Definition chain_prefix (base : FieldTable) : bytes :=
  match field_string (FieldTable_find (str "product_chain") base),
        field_string (FieldTable_find (str "product") base) with
  | Some c, _ => c ++ str " | "
  | None, Some p => p ++ str " | "
  | None, None => []
  end.

Lemma chain_chain props base p v :
  FieldTable_find (str "product_chain") (setChainProperties props base p v) =
    Some (FV_string (chain_prefix base ++ p)).
Proof using.
  unfold setChainProperties, chain_prefix.
  destruct (field_string (FieldTable_find (str "product_chain") base));
    [| destruct (field_string (FieldTable_find (str "product") base))];
    destruct (FieldTable_find (str "product") base), (FieldTable_find (str "version") base);
    table_simpl; by rewrite <- ?app_assoc.
Qed.

(** Whatever properties the application supplies, the broker is told the library's own
    capabilities and platform and the connection's name; the application's product and
    version are kept, and the product chain always ends with the library. *)
Theorem client_properties_announced version base name :
  let props := generateClientProperties version base name in
  FieldTable_find (str "capabilities") props = Some (FV_table client_capabilities) ∧
  FieldTable_find (str "platform") props = Some (FV_string PLATFORM) ∧
  (name ≠ [] → FieldTable_find (str "connection_name") props = Some (FV_string name)) ∧
  FieldTable_find (str "product") props =
    Some (default (FV_string PRODUCT) (FieldTable_find (str "product") base)) ∧
  FieldTable_find (str "version") props =
    Some (default (FV_string version) (FieldTable_find (str "version") base)) ∧
  FieldTable_find (str "product_chain") props = Some (FV_string (chain_prefix base ++ PRODUCT)).
Proof using.
  cbn zeta. unfold generateClientProperties.
  assert (Hn : ∀ (t : FieldTable) k, k ≠ str "connection_name" →
    FieldTable_find k (match name with [] => t | _ => FieldTable_set (str "connection_name") (FV_string name) t end)
    = FieldTable_find k t) by (intros t k Hk; destruct name; [done | by apply find_set]).
  destruct (chain_product (FieldTable_set (str "platform") (FV_string PLATFORM)
    (FieldTable_set (str "capabilities") (FV_table client_capabilities) base)) base PRODUCT version)
    as [Hp Hv]; [by table_simpl.. |].
  split_and!; try (rewrite Hn by discriminate).
  - rewrite chain_other by (rewrite !not_elem_of_cons; split_and!; [discriminate.. | set_solver]). by table_simpl.
  - rewrite chain_other by (rewrite !not_elem_of_cons; split_and!; [discriminate.. | set_solver]). by table_simpl.
  - intros Hne. destruct name; [done |]. by table_simpl.
  - exact Hp.
  - exact Hv.
  - apply chain_chain.
Qed.
End Chains.

(** C23: Tuning never exceeds a limit that either side named: each negotiated value is at most
    the client's, at most the broker's unless the broker named none (0), and at least 1; the
    heartbeat is between one and sixty seconds. *)
Theorem tune_negotiation_bounds (t : ConnectionTune) (frameSize : Z) :
  (0 ≤ ConnectionTune_channelMax t)%Z → (0 ≤ ConnectionTune_frameMax t)%Z →
  (0 ≤ ConnectionTune_heartbeatInterval t)%Z → (0 < frameSize)%Z →
  let '(channelMax, frameMax, heartbeat) :=
    negotiateTuneParams t k_MAX_CHANNEL_NUM frameSize k_MAX_HEARTBEAT_TIMEOUT_SEC in
  (1 ≤ channelMax ≤ k_MAX_CHANNEL_NUM)%Z ∧ (1 ≤ frameMax ≤ frameSize)%Z ∧
  (1 ≤ heartbeat ≤ k_MAX_HEARTBEAT_TIMEOUT_SEC)%Z ∧
  (ConnectionTune_channelMax t ≠ 0 → channelMax ≤ ConnectionTune_channelMax t)%Z ∧
  (ConnectionTune_frameMax t ≠ 0 → frameMax ≤ ConnectionTune_frameMax t)%Z ∧
  (ConnectionTune_heartbeatInterval t ≠ 0 → heartbeat ≤ ConnectionTune_heartbeatInterval t)%Z.
Proof.
  unfold negotiateTuneParams, negotiateTuneParam, k_MAX_CHANNEL_NUM, k_MAX_HEARTBEAT_TIMEOUT_SEC.
  intros. cbv beta iota. change (65535 =? 0)%Z with false. change (60 =? 0)%Z with false.
  destruct (Z.eqb_spec frameSize 0); [lia |].
  destruct (Z.eqb_spec (ConnectionTune_channelMax t) 0), (Z.eqb_spec (ConnectionTune_frameMax t) 0),
    (Z.eqb_spec (ConnectionTune_heartbeatInterval t) 0); split_and!; lia.
Qed.

Lemma tune_negotiation_bounds_witness :
  let '(channelMax, frameMax, heartbeat) :=
    negotiateTuneParams (mkConnectionTune 2047 131072 0) k_MAX_CHANNEL_NUM 150000 k_MAX_HEARTBEAT_TIMEOUT_SEC in
  (1 ≤ channelMax ≤ k_MAX_CHANNEL_NUM)%Z ∧ (1 ≤ frameMax ≤ 150000)%Z ∧
  (1 ≤ heartbeat ≤ k_MAX_HEARTBEAT_TIMEOUT_SEC)%Z ∧
  (2047 ≠ 0 → channelMax ≤ 2047)%Z ∧ (131072 ≠ 0 → frameMax ≤ 131072)%Z ∧
  (0 ≠ 0 → heartbeat ≤ 0)%Z.
Proof. apply (tune_negotiation_bounds (mkConnectionTune 2047 131072 0) 150000); cbn; lia. Defined.
