(* ===== verification/Transform.v ===== *)
(** * Transform: message transformations

    Models [rmqp::MessageTransformer] (rmqp_messagetransformer.h), the loops that apply and
    undo a chain of transformers, [ProducerImpl::applyTransformations]
    (rmqa_producerimpl.cpp) and [ConsumerImpl::unpackTransformations]
    (rmqa_consumerimpl.cpp), and the transformer of the library,
    [rmqa::CompressionTransformerImpl] (rmqa_compressiontransformerimpl.cpp).

    - A transformer is a record of its functions; what its interface promises the two
      loops is [TransformerLaws], which the compression transformer is shown to keep.
    - A copy of a message owns its header table (the copy constructor of
      [rmqt::Properties]), so tables are values.
    - zstd is the class [Zstd]; its contract is [ZstdLaws]. A failed allocation is
      left out. *)

From Stdlib Require Import ZArith Lia String Strings.Byte.
From stdpp Require Import base tactics list.
From S2P Require Import Prelude Wire FieldValue Props Message ClientProperties.
#[local] Open Scope Z_scope.

Section Transform.
Context {E : EpochUtil} {G : GuidUtil}.

Definition set_headers (h : option FieldTable) (p : Properties) : Properties :=
  mkProperties (contentType p) (contentEncoding p) h (deliveryMode p) (priority p)
    (correlationId p) (replyTo p) (expiration p) (messageId p) (timestamp p) (type_ p) (userId p)
    (appId p).

(** [map.emplace(k, v)]: [None] when the key is there already. *)
Definition FieldTable_emplace (k : bytes) (v : FieldValue) (t : FieldTable) : option FieldTable :=
  match FieldTable_find k t with Some _ => None | None => Some (FieldTable_set k v t) end.

(** [map.erase(k)] *)
Fixpoint FieldTable_erase (k : bytes) (t : FieldTable) : FieldTable :=
  match t with
  | [] => []
  | (k', v) :: t' => if bool_decide (k' = k) then t' else (k', v) :: FieldTable_erase k t'
  end.

(** ** Transformers *)

(** What a call gives: its result, an error, or the dereference of a null header table. *)
Inductive Outcome (A : Type) :=
| Done (a : A)
| Failed
| NullHeaders.
#[global] Arguments Done {A}.
#[global] Arguments Failed {A}.
#[global] Arguments NullHeaders {A}.

Record MessageTransformer := mkMessageTransformer {
  tr_name : bytes;
  tr_transform : bytes → Properties → Outcome (bool * (bytes * Properties));
  tr_inverseTransform : bytes → Properties → Outcome (bytes * Properties);
}.

Definition header_name (t : MessageTransformer) : bytes := str "sdk.transform." ++ tr_name t.

Definition APPLIED : FieldValue := FV_string (str "ok").

(** The loop of [applyTransformations]. *)
Fixpoint transform_loop (ts : list MessageTransformer) (rawData : bytes) (props : Properties)
  : Outcome (bytes * Properties) :=
  match ts with
  | [] => Done (rawData, props)
  | t :: ts' =>
      match tr_transform t rawData props with
      | Failed => Failed
      | NullHeaders => NullHeaders
      | Done (false, (rawData, props)) => transform_loop ts' rawData props
      | Done (true, (rawData, props)) =>
          match headers props with
          | None => NullHeaders
          | Some h =>
              match FieldTable_emplace (header_name t) APPLIED h with
              | None => Failed
              | Some h => transform_loop ts' rawData (set_headers (Some h) props)
              end
          end
      end
  end.

(** [ProducerImpl::applyTransformations]; [fresh] is the GUID the constructor of
    [Message] would generate. *)
Definition applyTransformations (fresh : Guid) (ts : list MessageTransformer) (srcMessage : Message)
  : Outcome Message :=
  let props := d_properties srcMessage in
  let props := set_headers (Some (default [] (headers props))) props in
  match transform_loop ts (Message_payload srcMessage) props with
  | Done (rawData, props) => Done (Message_make fresh (Some rawData) props)
  | Failed => Failed
  | NullHeaders => NullHeaders
  end.

(** The loop of [unpackTransformations], over the transformers in reverse order. *)
Fixpoint inverse_loop (ts : list MessageTransformer) (rawData : bytes) (props : Properties)
  : Outcome (bytes * Properties) :=
  match ts with
  | [] => Done (rawData, props)
  | t :: ts' =>
      match headers props ≫= FieldTable_find (header_name t) with
      | None => inverse_loop ts' rawData props
      | Some _ =>
          match tr_inverseTransform t rawData props with
          | Failed => Failed
          | NullHeaders => NullHeaders
          | Done (rawData, props) =>
              match headers props with
              | None => NullHeaders
              | Some h =>
                  inverse_loop ts' rawData (set_headers (Some (FieldTable_erase (header_name t) h)) props)
              end
          end
      end
  end.

(** [ConsumerImpl::unpackTransformations] *)
Definition unpackTransformations (fresh : Guid) (ts : list MessageTransformer) (srcMessage : Message)
  : Outcome Message :=
  match inverse_loop (reverse ts) (Message_payload srcMessage) (d_properties srcMessage) with
  | Done (rawData, props) => Done (Message_make fresh (Some rawData) props)
  | Failed => Failed
  | NullHeaders => NullHeaders
  end.

(** ** What a transformer promises

    The keys a transformer may use: the header that says that it was applied, and keys below
    it. *)
Definition owns (t : MessageTransformer) (k : bytes) : Prop :=
  k = header_name t ∨ ∃ x, k = header_name t ++ str "." ++ x.

Definition free_of (t : MessageTransformer) (h : FieldTable) : Prop :=
  ∀ k, owns t k → FieldTable_find k h = None.

(** The bytes of a vector. *)
Definition addressable (data : bytes) : Prop := Z.of_nat (length data) < 2 ^ 63.

(** Not applied, it leaves the message alone. Applied, it changes the payload and adds
    headers of its own only, and its inverse, which runs while the header of its name is
    there, takes that back. *)
Record TransformerLaws (t : MessageTransformer) : Prop := {
  tl_ignored d p r : tr_transform t d p = Done (false, r) → r = (d, p);
  tl_applied d p h d' p' :
    addressable d → headers p = Some h → free_of t h →
    tr_transform t d p = Done (true, (d', p')) →
    addressable d' ∧ ∃ h', p' = set_headers (Some h') p ∧
      FieldTable_find (header_name t) h' = None ∧
      (∀ k, ¬ owns t k → FieldTable_find k h' = FieldTable_find k h) ∧
      tr_inverseTransform t d' (set_headers (Some (FieldTable_set (header_name t) APPLIED h')) p)
      = Done (d, set_headers (Some (FieldTable_set (header_name t) APPLIED h)) p);
}.

(** Transformers of one chain keep out of each other's headers. *)
Definition apart (t t' : MessageTransformer) : Prop := ∀ k, owns t k → ¬ owns t' k.

(** ** Header tables *)

Lemma set_headers_set h h' p : set_headers h (set_headers h' p) = set_headers h p.
Proof using. by destruct p. Qed.

Lemma set_headers_id p : set_headers (headers p) p = p.
Proof using. by destruct p. Qed.

Lemma erase_set k v (t : FieldTable) :
  FieldTable_find k t = None → FieldTable_erase k (FieldTable_set k v t) = t.
Proof using.
  induction t as [| [k1 v1] t IH]; cbn; [by rewrite bool_decide_eq_true_2 |].
  case_bool_decide as Hk; [done |]. intros Hn.
  destruct (bytes_ltb k k1) eqn:H1; cbn; [by rewrite bool_decide_eq_true_2 |].
  destruct (bytes_ltb k1 k) eqn:H2; cbn.
  - rewrite bool_decide_eq_false_2 by done. by rewrite IH.
  - destruct Hk. symmetry. by apply bytes_ltb_total.
Qed.

Lemma emplace_new k v (t : FieldTable) :
  FieldTable_find k t = None → FieldTable_emplace k v t = Some (FieldTable_set k v t).
Proof using. unfold FieldTable_emplace. by intros ->. Qed.

Lemma bytes_ltb_trans (a b c : bytes) : bytes_ltb a b = true → bytes_ltb b c = true → bytes_ltb a c = true.
Proof using.
  revert b c. induction a as [| x a IH]; intros [| y b] [| z c]; cbn; try done.
  destruct (Z.ltb_spec (byte_val x) (byte_val y)), (Z.ltb_spec (byte_val y) (byte_val z)),
    (Z.ltb_spec (byte_val x) (byte_val z)), (Z.ltb_spec (byte_val y) (byte_val x)),
    (Z.ltb_spec (byte_val z) (byte_val y)), (Z.ltb_spec (byte_val z) (byte_val x)); try done; try lia.
  apply IH.
Qed.

(** How two keys compare. *)
Inductive KeyOrder (a b : bytes) : bool → bool → Prop :=
| KO_lt : bytes_ltb a b = true → KeyOrder a b true false
| KO_gt : bytes_ltb b a = true → KeyOrder a b false true
| KO_eq : a = b → KeyOrder a b false false.

Lemma key_order a b : KeyOrder a b (bytes_ltb a b) (bytes_ltb b a).
Proof using.
  destruct (bytes_ltb a b) eqn:H1, (bytes_ltb b a) eqn:H2; try by constructor.
  - apply bytes_ltb_asym in H1. congruence.
  - constructor. by apply bytes_ltb_total.
Qed.

(** Keys cannot be ordered in a circle. *)
Ltac no_circle :=
  exfalso;
  match goal with
  | H : bytes_ltb ?a ?a = true |- _ => by rewrite bytes_ltb_irrefl in H
  | H : bytes_ltb ?a ?b = true, H' : bytes_ltb ?b ?a = true |- _ =>
      apply bytes_ltb_asym in H; congruence
  | H : bytes_ltb ?a ?b = true, H' : bytes_ltb ?b ?c = true, H'' : bytes_ltb ?c ?a = true |- _ =>
      pose proof (bytes_ltb_trans _ _ _ H H') as Ht; apply bytes_ltb_asym in Ht; congruence
  end.

Ltac compare_keys :=
  repeat (cbn [FieldTable_set]; match goal with
  | |- context [if bytes_ltb ?a ?b then _ else _] => destruct (key_order a b); subst
  end).

(** Assignments to different keys commute. *)
Lemma set_comm k k' v v' (t : FieldTable) :
  k ≠ k' → FieldTable_set k v (FieldTable_set k' v' t) = FieldTable_set k' v' (FieldTable_set k v t).
Proof using.
  intros Hne. induction t as [| [k1 v1] t IH].
  - compare_keys; first [done | no_circle].
  - cbn [FieldTable_set]. compare_keys; first [done | by rewrite IH | no_circle].
Qed.

(** ** Undoing a chain *)

(** The inverse loop is a left fold: a chain's inverse starts with its last transformer. *)
Lemma inverse_loop_app ts ts' d p :
  inverse_loop (ts ++ ts') d p =
  match inverse_loop ts d p with
  | Done (d, p) => inverse_loop ts' d p
  | Failed => Failed
  | NullHeaders => NullHeaders
  end.
Proof using.
  revert d p. induction ts as [| t ts IH]; intros d p; cbn; [done |].
  destruct (headers p ≫= _); [| apply IH].
  destruct (tr_inverseTransform t d p) as [[d' p'] | |]; [| done..].
  destruct (headers p'); [apply IH | done].
Qed.

Lemma transform_inverse ts d p h d' p' :
  Forall TransformerLaws ts →
  (∀ i j t t', i ≠ j → ts !! i = Some t → ts !! j = Some t' → apart t t') →
  addressable d → headers p = Some h → Forall (λ t, free_of t h) ts →
  transform_loop ts d p = Done (d', p') →
  inverse_loop (reverse ts) d' p' = Done (d, p) ∧ ∃ h', p' = set_headers (Some h') p.
Proof using.
  intros Hl. revert d p h. induction Hl as [| t ts Ht Hl IH]; intros d p h Hap Hd0 Hp Hfr Hd.
  { cbn in *. injection Hd as -> ->. split; [done |]. exists h. by rewrite <- Hp, set_headers_id. }
  apply Forall_cons in Hfr as [Hf Hfr].
  assert (Hap' : ∀ i j t t', i ≠ j → ts !! i = Some t → ts !! j = Some t' → apart t t').
  { intros i j t1 t2 Hij. apply (Hap (S i) (S j)). congruence. }
  rewrite reverse_cons, inverse_loop_app. cbn in Hd.
  destruct (tr_transform t d p) as [[[] [d1 p1]] | |] eqn:Htr; [| | done..].
  - destruct (tl_applied _ Ht _ _ _ _ _ Hd0 Hp Hf Htr) as (Hd1 & h' & -> & Hn & Hk & Hinv).
    cbn [headers set_headers] in Hd. rewrite (emplace_new _ _ _ Hn), set_headers_set in Hd.
    set (h1 := FieldTable_set (header_name t) APPLIED h') in *.
    assert (Hfr1 : Forall (λ t, free_of t h1) ts).
    { apply Forall_lookup. intros i t' Hi k Ho.
      assert (Hno : ¬ owns t k) by (intros Ho'; by apply (Hap 0%nat (S i) t t' (Nat.neq_0_succ i) eq_refl Hi k)).
      unfold h1. rewrite find_set; [| intros ->; destruct Hno; by left]. rewrite Hk by done.
      by apply (Forall_lookup_1 _ _ _ _ Hfr Hi). }
    destruct (IH d1 (set_headers (Some h1) p) h1 Hap' Hd1 eq_refl Hfr1 Hd) as [-> (h2 & ->)].
    split; [| exists h2; apply set_headers_set].
    cbn [inverse_loop headers set_headers mbind option_bind].
    assert (FieldTable_find (header_name t) h1 = Some APPLIED) as -> by apply find_set_eq. rewrite Hinv.
    cbn [headers set_headers]. rewrite set_headers_set, erase_set; [| by apply Hf; left].
    by rewrite <- Hp, set_headers_id.
  - apply (tl_ignored _ Ht) in Htr. injection Htr as -> ->.
    destruct (IH _ _ _ Hap' Hd0 Hp Hfr Hd) as [-> Hh]. split; [| exact Hh].
    cbn. rewrite Hp. cbn. by rewrite Hf by (by left).
Qed.

(** ** Compression *)

(** zstd: [ZSTD_compressCCtx] into a buffer of [ZSTD_compressBound] bytes at level 1, and
    [ZSTD_decompress] into a buffer of the given size. *)
Inductive ZstdResult := Compressed (data : bytes) | DstSizeTooSmall | ZstdError.

Class Zstd := {
  ZSTD_compress : bytes → ZstdResult;
  ZSTD_decompress : bytes → Z → option bytes;
}.

Class ZstdLaws (Z : Zstd) : Prop := {
  zstd_decompress_compress d c :
    ZSTD_compress d = Compressed c → ZSTD_decompress c (Z.of_nat (length d)) = Some d;
  zstd_compress_addressable d c :
    addressable d → ZSTD_compress d = Compressed c → addressable c;
}.

Section Compression.
Context {ZS : Zstd}.

Definition ALG_HEADER : bytes := str "sdk.transform.compression.alg".
Definition SIZE_HEADER : bytes := str "sdk.transform.compression.size".

(** [emplace] whose result is ignored. *)
Definition FieldTable_try_emplace (k : bytes) (v : FieldValue) (t : FieldTable) : FieldTable :=
  default t (FieldTable_emplace k v t).

(** [transform]; [zctx] says whether the compression context could be allocated. *)
Definition Compression_transform (zctx : bool) (data : bytes) (props : Properties)
  : Outcome (bool * (bytes * Properties)) :=
  if negb zctx || (Z.of_nat (length data) <? 8 * 1024) then Done (false, (data, props))
  else
    match ZSTD_compress data with
    | DstSizeTooSmall => Done (false, (data, props))
    | ZstdError => Failed
    | Compressed compressedData =>
        match headers props with
        | None => NullHeaders
        | Some h =>
            let h := FieldTable_try_emplace ALG_HEADER (FV_string (str "zstd")) h in
            let h := FieldTable_try_emplace SIZE_HEADER (FV_int64 (swrap 64 (Z.of_nat (length data)))) h in
            Done (true, (compressedData, set_headers (Some h) props))
        end
    end.

(** [decompressZstd] *)
Definition decompressZstd (data : bytes) (originalSize : Z) : option bytes :=
  match ZSTD_decompress data originalSize with
  | None => None
  | Some d => if Z.of_nat (length d) =? originalSize then Some d else None
  end.

Definition Compression_inverseTransform (data : bytes) (props : Properties)
  : Outcome (bytes * Properties) :=
  match headers props with
  | None => NullHeaders
  | Some h =>
      match FieldTable_find SIZE_HEADER h with
      | Some (FV_int64 originalSize) =>
          if originalSize <=? 0 then Failed
          else
            match FieldTable_find ALG_HEADER h with
            | Some (FV_string compressionAlg) =>
                if bool_decide (compressionAlg = str "zstd") then
                  match decompressZstd data originalSize with
                  | None => Failed
                  | Some data =>
                      Done (data, set_headers (Some (FieldTable_erase SIZE_HEADER
                                    (FieldTable_erase ALG_HEADER h))) props)
                  end
                else Failed
            | _ => Failed
            end
      | _ => Failed
      end
  end.

Definition CompressionTransformer (zctx : bool) : MessageTransformer :=
  mkMessageTransformer (str "compression") (Compression_transform zctx) Compression_inverseTransform.
End Compression.
End Transform.

Section CompressionLaws.
Context {E : EpochUtil} {G : GuidUtil} {ZS : Zstd} {ZL : ZstdLaws ZS}.

Lemma alg_owned zctx : owns (CompressionTransformer zctx) ALG_HEADER.
Proof using. right. by exists (str "alg"). Qed.

Lemma size_owned zctx : owns (CompressionTransformer zctx) SIZE_HEADER.
Proof using. right. by exists (str "size"). Qed.

Lemma try_emplace_new k v (t : FieldTable) :
  FieldTable_find k t = None → FieldTable_try_emplace k v t = FieldTable_set k v t.
Proof using. intros Hn. unfold FieldTable_try_emplace. by rewrite emplace_new. Qed.

(** The headers the inverse removes are those that were added, whatever came between. *)
Lemma erase_added hdr ok alg size (h : FieldTable) :
  hdr ≠ ALG_HEADER → hdr ≠ SIZE_HEADER →
  FieldTable_find ALG_HEADER h = None → FieldTable_find SIZE_HEADER h = None →
  FieldTable_erase SIZE_HEADER (FieldTable_erase ALG_HEADER
    (FieldTable_set hdr ok (FieldTable_set SIZE_HEADER size (FieldTable_set ALG_HEADER alg h))))
  = FieldTable_set hdr ok h.
Proof using.
  intros Ha Hs Hna Hns.
  rewrite (set_comm SIZE_HEADER ALG_HEADER), (set_comm hdr ALG_HEADER), erase_set by
    first [done | by rewrite !find_set].
  rewrite (set_comm hdr SIZE_HEADER), erase_set by first [done | by rewrite !find_set]. done.
Qed.

(** The compression transformer keeps the promise. *)
Lemma CompressionTransformer_laws zctx : TransformerLaws (CompressionTransformer zctx).
Proof using ZL.
  split.
  - intros d p r. cbn. unfold Compression_transform. destruct (_ || _); [by intros [= <-] |].
    destruct (ZSTD_compress d); [destruct (headers p); done | by intros [= <-] | done].
  - intros d p h d' p' Hd Hh Hf Htr. cbn in Htr. unfold Compression_transform in Htr.
    destruct (_ || _) eqn:Hb; [done |]. apply orb_false_iff in Hb as [_ Hlen%Z.ltb_ge].
    destruct (ZSTD_compress d) as [c | |] eqn:Hc; [| done..]. rewrite Hh in Htr. injection Htr as <- <-.
    assert (Hna : FieldTable_find ALG_HEADER h = None) by apply Hf, (alg_owned zctx).
    assert (Hns : FieldTable_find SIZE_HEADER h = None) by apply Hf, (size_owned zctx).
    rewrite (swrap_small 64); [| done | apply s_in_iff; unfold addressable in Hd; change (2 ^ 63) with 9223372036854775808 in Hd; change (2 ^ (64 - 1)) with 9223372036854775808; lia].
    rewrite (try_emplace_new ALG_HEADER), (try_emplace_new SIZE_HEADER) by first [done | by rewrite find_set].
    split; [by eapply zstd_compress_addressable |]. eexists. split; [reflexivity |]. split_and!.
    + rewrite !find_set by done. apply Hf. by left.
    + intros k Hk. rewrite !find_set; [done |..]; intros ->; destruct Hk;
        [apply alg_owned | apply size_owned].
    + cbn [tr_inverseTransform CompressionTransformer]. unfold Compression_inverseTransform.
      cbn [headers set_headers]. rewrite (find_set _ _ _ SIZE_HEADER), find_set_eq by done.
      destruct (Z.leb_spec (Z.of_nat (length d)) 0); [lia |].
      rewrite !(find_set _ _ _ ALG_HEADER), find_set_eq by done.
      rewrite bool_decide_eq_true_2 by done. unfold decompressZstd.
      rewrite (zstd_decompress_compress _ _ Hc), Z.eqb_refl, set_headers_set.
      by rewrite erase_added.
Qed.
End CompressionLaws.

Section RoundTrip.
Context {E : EpochUtil} {G : GuidUtil}.

Lemma Message_make_props fresh rawData p i :
  messageId p = Some i → i ≠ [] →
  Message_make fresh rawData p = mkMessage (default fresh (guidFromString i)) rawData p.
Proof using. intros Hi Hne. unfold Message_make. by rewrite (setMessageId_nonempty fresh p i). Qed.

Lemma payload_some g d p : Message_payload (mkMessage g (Some d) p) = d.
Proof using. done. Qed.

(** C34: What the transformers of a producer do to a message, the consumer with the same
    transformers undoes: whenever the chain succeeds, unpacking succeeds and yields the
    payload, the properties and the GUID of the message that was sent (a message without
    a header table comes back with an empty one). It needs transformers that keep their
    promise and stay out of each other's headers, and a message that does not use these
    headers itself. *)
Theorem transformations_undone fresh fresh' ts (m m' : Message) :
  Message_identified m → Forall TransformerLaws ts →
  (∀ i j t t', i ≠ j → ts !! i = Some t → ts !! j = Some t' → apart t t') →
  addressable (Message_payload m) →
  Forall (λ t, free_of t (default [] (headers (d_properties m)))) ts →
  applyTransformations fresh ts m = Done m' →
  ∃ m'', unpackTransformations fresh' ts m' = Done m'' ∧
    Message_payload m'' = Message_payload m ∧
    d_properties m'' = set_headers (Some (default [] (headers (d_properties m)))) (d_properties m) ∧
    (∀ g, guidFromString (default [] (messageId (d_properties m))) = Some g → d_guid m'' = d_guid m).
Proof using.
  intros (i & Hi & Hne & Hg) Hl Hap Hsz Hfr Hm. unfold applyTransformations in Hm.
  set (p := set_headers _ (d_properties m)) in Hm.
  destruct (transform_loop ts (Message_payload m) p) as [[d' p'] | |] eqn:Ht; [| done..].
  destruct (transform_inverse _ _ p _ _ _ Hl Hap Hsz eq_refl Hfr Ht) as [Hinv (h' & Hp')].
  assert (Hpi : messageId p = Some i) by done. assert (Hpi' : messageId p' = Some i) by by rewrite Hp'.
  injection Hm as <-. unfold unpackTransformations. rewrite (Message_make_props _ _ p' i) by done.
  rewrite payload_some. cbn [d_properties]. rewrite Hinv. eexists. split; [reflexivity |].
  rewrite (Message_make_props _ _ p i), payload_some by done. split_and!; [done.. |].
  intros g Hgi. rewrite Hi in Hgi. cbn in Hgi. cbn. rewrite Hgi. symmetry. by apply Hg.
Qed.
End RoundTrip.

(** ** Witness: a run-length code in place of zstd *)

Section Witness.
#[local] Existing Instances byte_GuidUtil.

Definition run_compress (d : bytes) : ZstdResult :=
  match d with
  | [] => DstSizeTooSmall
  | b :: d' => if forallb (Byte.eqb b) d' then Compressed [b] else DstSizeTooSmall
  end.

Definition run_decompress (c : bytes) (n : Z) : option bytes :=
  match c with [b] => Some (replicate (Z.to_nat n) b) | _ => None end.

#[local] Instance run_Zstd : Zstd :=
  {| ZSTD_compress := run_compress; ZSTD_decompress := run_decompress |}.

#[local] Instance run_ZstdLaws : ZstdLaws run_Zstd.
Proof.
  split.
  - intros [| b d] c; cbn -[Z.of_nat Z.to_nat]; [done |]. destruct (forallb _ d) eqn:Hd; [| done].
    intros [= <-]. cbn -[Z.of_nat Z.to_nat]. rewrite Nat2Z.id. cbn. do 2 f_equal. induction d as [| x d IH]; [done |].
    cbn in Hd. apply andb_true_iff in Hd as [Hx Hd]. cbn. f_equal; [| by apply IH].
    by apply Byte.byte_dec_bl.
  - intros [| b d] c _; cbn; [done |]. destruct (forallb _ d); [| done]. intros [= <-]. done.
Qed.

Definition fresh_guid : @Guid byte_GuidUtil := Byte.x08.

Definition sample_long_message : Message :=
  Message_make fresh_guid (Some (replicate 8192 Byte.x41)) Properties_empty.

Definition shrunk (r : Outcome Message) : bool :=
  match r with Done m => (Message_payloadSize m =? 1)%nat | _ => false end.

Lemma transformations_undone_witness :
  let ts := [CompressionTransformer true] in
  ∃ m' m'', applyTransformations fresh_guid ts sample_long_message = Done m' ∧
    Message_payloadSize m' = 1%nat ∧
    unpackTransformations fresh_guid ts m' = Done m'' ∧
    Message_payload m'' = Message_payload sample_long_message.
Proof.
  cbv zeta.
  assert (Hs : shrunk (applyTransformations fresh_guid [CompressionTransformer true] sample_long_message) = true)
    by (vm_compute; reflexivity).
  destruct (applyTransformations fresh_guid [CompressionTransformer true] sample_long_message)
    as [m' | |] eqn:Hm; [| discriminate Hs..].
  destruct (transformations_undone fresh_guid fresh_guid [CompressionTransformer true] sample_long_message m')
    as (m'' & Hu & Hp & _).
  - apply Message_make_identified.
  - constructor; [apply CompressionTransformer_laws | constructor].
  - intros [| i] [| j] t t' Hij Hi Hj; done.
  - unfold addressable. vm_compute. reflexivity.
  - constructor; [| constructor]. intros k _. reflexivity.
  - exact Hm.
  - exists m', m''. split; [reflexivity |]. split; [by apply Nat.eqb_eq | by split].
Defined.
End Witness.
