(* ===== verification/Producer.v ===== *)
(** * Producer: the application's side of publishing

    Models [rmqa::ProducerImpl] (rmqa_producerimpl.cpp, rmqa_producerimpl.h) together with
    what it shares with other threads: the sending threads of the application, the
    event loop, which owns the [SendChannel], and the thread pool, which runs the
    application's callbacks.

    - A call of [send] or [trySend] is a sequence of atomic steps of its thread: waiting for
      the semaphore, registering the callback (under the mutex), then posting to the event
      loop, or giving the permit back and returning an error. [SendPhase] says how far a
      call is; steps of different threads interleave freely.
    - The event loop takes posted jobs in order; other operations of the channel (frames
      of the broker, resets, timers) come in between. When the channel calls the confirm
      callback, [handleConfirmOnEventLoop] gives a job to the pool, which may refuse
      it. Workers of the pool take jobs in any order; what a worker does after it
      released the mutex (the callback, then the waiters' future) are steps of its own,
      with which everything else interleaves ([d_workers]).
    - [d_effects] records the callbacks that were run and the futures that were resolved.
    - The tagger and the transformers are functions ([ProducerTagger],
      [MessageTransformer]); callbacks are values of a type [CB]. *)

From Stdlib Require Import ZArith Lia String Strings.Byte.
From stdpp Require Import base tactics list gmap.
From S2P Require Import Prelude Wire FieldValue Props Methods Method Message MessageStore Topology.
From S2P Require Import Framer Channel SendChannel ClientProperties Transform.

(** [rmqp::Producer::SendStatus] *)
Inductive SendStatus := SENDING | DUPLICATE | TIMEOUT | INFLIGHT_LIMIT | TRANSFORM_ERROR.

#[export] Instance SendStatus_eq_dec : EqDecision SendStatus.
Proof. solve_decision. Defined.

(** How a call waits for the semaphore: [wait], [timedWait], [tryWait]. *)
Inductive WaitKind := Wait | TimedWait | TryWait.

Section Producer.
Context {E : EpochUtil} {G : GuidUtil} {CB : Type}.

(** [rmqp::ProducerTagger::tagMessage]: the properties it leaves and the callback to use. *)
Definition ProducerTagger : Type := Properties → bytes → bytes → CB → Properties * CB.

(** [ProducerImpl::SharedState] *)
Record SharedState := mkSharedState {
  callbackMap : gmap Guid CB;
  isValid : bool;
  outstandingMessagesCap : Z;
  waitForConfirmsFuture : option FutureId;
}.

(** Jobs posted to the event loop. *)
Inductive Posted :=
| Post_publishMessage (m : MessageWithRoute)
| Post_updateTopology (u : TopologyUpdate) (f : FutureId)
| Post_gracefulClose.

(** How far a call of [send] or [trySend] has come. *)
Inductive SendPhase :=
| Waiting (k : WaitKind) (m : MessageWithRoute) (cb : CB)
| Acquired (m : MessageWithRoute) (cb : CB)
| Failing (duplicate : bool)
| Registered (m : MessageWithRoute)
| Returned (s : SendStatus).

Inductive ProducerEffect :=
| RunCallback (cb : CB) (cf : Confirmation)
| ResolveFuture (f : FutureId).

Record ProducerImpl := mkProducerImpl {
  d_exchange : bytes;
  d_tagger : option ProducerTagger;
  d_transformers : list MessageTransformer;
  d_sharedState : SharedState;
  d_calls : list SendPhase;
  d_posted : list Posted;
  d_channel : Channel SendState Confirmation;
  d_jobs : list Confirmation;
  d_workers : list (list ProducerEffect);
  d_effects : list ProducerEffect;
}.

(** The constructor; [channel->setCallback] is part of [SendChannel_start]. *)
Definition ProducerImpl_make (maxOutstandingConfirms : Z) (tp : Topology) (exchangeName : bytes)
  (tagger : option ProducerTagger) : ProducerImpl :=
  mkProducerImpl exchangeName tagger [] (mkSharedState ∅ true maxOutstandingConfirms None) [] []
    (SendChannel_start tp exchangeName) [] [] [].

(** *** Member assignments *)

Definition set_shared (d : SharedState) (p : ProducerImpl) : ProducerImpl :=
  mkProducerImpl (d_exchange p) (d_tagger p) (d_transformers p) d (d_calls p) (d_posted p)
    (d_channel p) (d_jobs p) (d_workers p) (d_effects p).
Definition set_calls (l : list SendPhase) (p : ProducerImpl) : ProducerImpl :=
  mkProducerImpl (d_exchange p) (d_tagger p) (d_transformers p) (d_sharedState p) l (d_posted p)
    (d_channel p) (d_jobs p) (d_workers p) (d_effects p).
Definition set_posted (l : list Posted) (p : ProducerImpl) : ProducerImpl :=
  mkProducerImpl (d_exchange p) (d_tagger p) (d_transformers p) (d_sharedState p) (d_calls p) l
    (d_channel p) (d_jobs p) (d_workers p) (d_effects p).
Definition set_channel (c : Channel SendState Confirmation) (p : ProducerImpl) : ProducerImpl :=
  mkProducerImpl (d_exchange p) (d_tagger p) (d_transformers p) (d_sharedState p) (d_calls p)
    (d_posted p) c (d_jobs p) (d_workers p) (d_effects p).
Definition set_jobs (l : list Confirmation) (p : ProducerImpl) : ProducerImpl :=
  mkProducerImpl (d_exchange p) (d_tagger p) (d_transformers p) (d_sharedState p) (d_calls p)
    (d_posted p) (d_channel p) l (d_workers p) (d_effects p).
Definition set_workers (l : list (list ProducerEffect)) (p : ProducerImpl) : ProducerImpl :=
  mkProducerImpl (d_exchange p) (d_tagger p) (d_transformers p) (d_sharedState p) (d_calls p)
    (d_posted p) (d_channel p) (d_jobs p) l (d_effects p).
Definition p_emit (es : list ProducerEffect) (p : ProducerImpl) : ProducerImpl :=
  mkProducerImpl (d_exchange p) (d_tagger p) (d_transformers p) (d_sharedState p) (d_calls p)
    (d_posted p) (d_channel p) (d_jobs p) (d_workers p) (d_effects p ++ es).
Definition post (j : Posted) (p : ProducerImpl) : ProducerImpl := set_posted (d_posted p ++ [j]) p.

Definition set_callbackMap (cbs : gmap Guid CB) (d : SharedState) : SharedState :=
  mkSharedState cbs (isValid d) (outstandingMessagesCap d) (waitForConfirmsFuture d).
Definition set_cap (n : Z) (d : SharedState) : SharedState :=
  mkSharedState (callbackMap d) (isValid d) n (waitForConfirmsFuture d).
Definition set_invalid (d : SharedState) : SharedState :=
  mkSharedState (callbackMap d) false (outstandingMessagesCap d) (waitForConfirmsFuture d).
Definition set_waitFuture (f : option FutureId) (d : SharedState) : SharedState :=
  mkSharedState (callbackMap d) (isValid d) (outstandingMessagesCap d) f.

(** [outstandingMessagesCap.post()] *)
Definition cap_post (d : SharedState) : SharedState := set_cap (outstandingMessagesCap d + 1) d.

(** ** Sending *)

(** [prepareMessageForSending]: the tagged copy keeps the GUID of the message. *)
Definition prepareMessageForSending (callback : CB) (message : Message) (routingKey : bytes)
  (p : ProducerImpl) : Message * CB :=
  match d_tagger p with
  | None => (message, callback)
  | Some tagMessage =>
      let (props, callback) := tagMessage (d_properties message) routingKey (d_exchange p) callback in
      (mkMessage (d_guid message) (d_message message) props, callback)
  end.

(** [send] and [trySend] up to the semaphore: a new call. *)
Definition ProducerImpl_send (k : WaitKind) (message : Message) (routingKey : bytes)
  (mandatory : Mandatory) (confirmCallback : CB) (p : ProducerImpl) : ProducerImpl :=
  let (tagged, callback) := prepareMessageForSending confirmCallback message routingKey p in
  set_calls (d_calls p ++ [Waiting k (mkMessageWithRoute tagged routingKey mandatory) callback]) p.

(** The semaphore: granted when a permit is left; a timed wait may give up ([elapsed]), [tryWait]
    does at once. *)
Definition wait_step (elapsed : bool) (k : WaitKind) (m : MessageWithRoute) (cb : CB)
  (d : SharedState) : SendPhase * SharedState :=
  if (0 <? outstandingMessagesCap d)%Z
  then (Acquired m cb, set_cap (outstandingMessagesCap d - 1) d)
  else match k with
       | Wait => (Waiting k m cb, d)
       | TimedWait => (if elapsed then Returned TIMEOUT else Waiting k m cb, d)
       | TryWait => (Returned INFLIGHT_LIMIT, d)
       end.

(** [registerUniqueCallback] *)
Definition registerUniqueCallback (guid : Guid) (confirmCallback : CB) (d : SharedState)
  : bool * SharedState :=
  match callbackMap d !! guid with
  | Some _ => (false, d)
  | None => (true, set_callbackMap (<[guid := confirmCallback]> (callbackMap d)) d)
  end.

(** [doSend] up to the registration; [fresh] is a GUID a new message may need. A
    transformer that breaks its contract by taking the header table away counts as failed. *)
Definition register_step (fresh : Guid) (ts : list MessageTransformer) (m : MessageWithRoute)
  (cb : CB) (d : SharedState) : SendPhase * SharedState :=
  let transformed :=
    match ts with
    | [] => Some (mw_message m)
    | _ => match applyTransformations fresh ts (mw_message m) with Done m' => Some m' | _ => None end
    end in
  match transformed with
  | None => (Failing false, d)
  | Some realMsg =>
      let (unique, d) := registerUniqueCallback (d_guid realMsg) cb d in
      if unique
      then (Registered (mkMessageWithRoute realMsg (mw_routingKey m) (mw_mandatory m)), d)
      else (Failing true, d)
  end.

(** The next step of the call [i]. *)
Definition ProducerImpl_step (i : nat) (elapsed : bool) (fresh : Guid) (p : ProducerImpl)
  : ProducerImpl :=
  match d_calls p !! i with
  | Some (Waiting k m cb) =>
      let (ph, d) := wait_step elapsed k m cb (d_sharedState p) in
      set_calls (<[i := ph]> (d_calls p)) (set_shared d p)
  | Some (Acquired m cb) =>
      let (ph, d) := register_step fresh (d_transformers p) m cb (d_sharedState p) in
      set_calls (<[i := ph]> (d_calls p)) (set_shared d p)
  | Some (Failing duplicate) =>
      set_calls (<[i := Returned (if duplicate then DUPLICATE else TRANSFORM_ERROR)]> (d_calls p))
        (set_shared (cap_post (d_sharedState p)) p)
  | Some (Registered m) =>
      set_calls (<[i := Returned SENDING]> (d_calls p)) (post (Post_publishMessage m) p)
  | Some (Returned _) | None => p
  end.

Definition ProducerImpl_addTransformer (t : MessageTransformer) (p : ProducerImpl) : ProducerImpl :=
  mkProducerImpl (d_exchange p) (d_tagger p) (d_transformers p ++ [t]) (d_sharedState p) (d_calls p)
    (d_posted p) (d_channel p) (d_jobs p) (d_workers p) (d_effects p).

Definition ProducerImpl_updateTopologyAsync (u : TopologyUpdate) (f : FutureId) (p : ProducerImpl)
  : ProducerImpl := post (Post_updateTopology u f) p.

(** ** Confirms *)

(** [handleConfirmOnEventLoop] for the callbacks the channel made; [accepts] says whether
    the pool takes the job of a confirmation. *)
Definition handleConfirms (accepts : Confirmation → bool) (cfs : list Confirmation) (p : ProducerImpl)
  : ProducerImpl :=
  set_jobs (d_jobs p ++ filter (λ cf, accepts cf = true) cfs) p.

(** An operation of the channel on the event loop. *)
Definition on_channel (accepts : Confirmation → bool) (f : Channel SendState Confirmation → Channel SendState Confirmation)
  (p : ProducerImpl) : ProducerImpl :=
  let c := f (d_channel p) in
  handleConfirms accepts (confirmations (drop (length (c_trace (d_channel p))) (c_trace c)))
    (set_channel c p).

(** The event loop runs the first posted job. *)
Definition event_loop_step (accepts : Confirmation → bool) (clock : Z → Z) (hp : Heap) (p : ProducerImpl)
  : ProducerImpl :=
  match d_posted p with
  | [] => p
  | j :: l =>
      let p := set_posted l p in
      match j with
      | Post_publishMessage m => on_channel accepts (send_op clock (Send_publish m)) p
      | Post_updateTopology u f =>
          on_channel accepts (send_op clock (Send_channel (Op_updateTopology hp u f))) p
      | Post_gracefulClose => on_channel accepts (send_op clock (Send_channel Op_gracefulClose)) p
      end
  end.

(** The part of [actionConfirmOnThreadPool] under the mutex: what is to be called after it. *)
Definition actionConfirm_locked (cf : Confirmation) (d : SharedState)
  : list ProducerEffect * SharedState :=
  if isValid d then
    match callbackMap d !! d_guid (cf_message cf) with
    | None => ([], d)
    | Some callback =>
        let d := set_callbackMap (delete (d_guid (cf_message cf)) (callbackMap d)) d in
        let d := cap_post d in
        match waitForConfirmsFuture d with
        | Some f =>
            if bool_decide (size (callbackMap d) = 0)
            then ([RunCallback callback cf; ResolveFuture f], set_waitFuture None d)
            else ([RunCallback callback cf], d)
        | None => ([RunCallback callback cf], d)
        end
    end
  else ([], d).

(** A worker takes job [i] and goes through the part under the mutex. *)
Definition thread_pool_step (i : nat) (p : ProducerImpl) : ProducerImpl :=
  match d_jobs p !! i with
  | None => p
  | Some cf =>
      let (es, d) := actionConfirm_locked cf (d_sharedState p) in
      set_workers (d_workers p ++ [es]) (set_shared d (set_jobs (delete i (d_jobs p)) p))
  end.

(** Worker [j] makes its next call. *)
Definition worker_step (j : nat) (p : ProducerImpl) : ProducerImpl :=
  match d_workers p !! j with
  | Some (e :: es) => p_emit [e] (set_workers (<[j := es]> (d_workers p)) p)
  | _ => p
  end.

(** [waitForConfirms] up to the wait: the future to wait for, [None] when it returns at once.
    [f] is a new future. *)
Definition ProducerImpl_waitForConfirms (f : FutureId) (p : ProducerImpl)
  : option FutureId * ProducerImpl :=
  let d := d_sharedState p in
  if bool_decide (size (callbackMap d) = 0) then (None, p)
  else match waitForConfirmsFuture d with
       | Some f' => (Some f', p)
       | None => (Some f, set_shared (set_waitFuture (Some f) d) p)
       end.

(** The destructor. *)
Definition ProducerImpl_destroy (p : ProducerImpl) : ProducerImpl :=
  post Post_gracefulClose (set_shared (set_invalid (d_sharedState p)) p).

(** ** Runs *)

Inductive ProducerOp :=
| P_send (k : WaitKind) (message : Message) (routingKey : bytes) (mandatory : Mandatory) (cb : CB)
| P_step (i : nat) (elapsed : bool) (fresh : Guid)
| P_addTransformer (t : MessageTransformer)
| P_updateTopology (u : TopologyUpdate) (f : FutureId)
| P_eventLoop (accepts : Confirmation → bool) (clock : Z → Z) (hp : Heap)
| P_channel (accepts : Confirmation → bool) (clock : Z → Z) (op : ChannelOp)
| P_threadPool (i : nat)
| P_worker (j : nat)
| P_waitForConfirms (f : FutureId)
| P_destroy.

Definition producer_op (op : ProducerOp) (p : ProducerImpl) : ProducerImpl :=
  match op with
  | P_send k m rk md cb => ProducerImpl_send k m rk md cb p
  | P_step i elapsed fresh => ProducerImpl_step i elapsed fresh p
  | P_addTransformer t => ProducerImpl_addTransformer t p
  | P_updateTopology u f => ProducerImpl_updateTopologyAsync u f p
  | P_eventLoop accepts clock hp => event_loop_step accepts clock hp p
  | P_channel accepts clock op => on_channel accepts (send_op clock (Send_channel op)) p
  | P_threadPool i => thread_pool_step i p
  | P_worker j => worker_step j p
  | P_waitForConfirms f => snd (ProducerImpl_waitForConfirms f p)
  | P_destroy => ProducerImpl_destroy p
  end.

Definition producer_run (ops : list ProducerOp) (p : ProducerImpl) : ProducerImpl :=
  fold_left (λ p op, producer_op op p) ops p.
End Producer.

(** ** Accounting for messages *)

Section Accounts.
Context {E : EpochUtil} {G : GuidUtil} {CB : Type}.

(** A message in the hands of the library, with the callback registered for it. *)
Definition with_cb (cbs : gmap Guid CB) (r : Message * bytes) : option (Message * bytes * CB) :=
  (λ cb, (r, cb)) <$> cbs !! d_guid r.1.

(** The callbacks registered are those of the messages [O]; together with those that
    ran they are the accepted ones. *)
Record accounts (cbs : gmap Guid CB) (accepted ran : list (Message * bytes * CB))
  (O : list (Message * bytes)) : Prop := {
  ac_keys : (λ r, d_guid r.1) <$> O ≡ₚ (map_to_list cbs).*1;
  ac_accepted : accepted ≡ₚ ran ++ omap (with_cb cbs) O;
}.

Lemma accounts_perm cbs accepted ran O O' :
  O ≡ₚ O' → accounts cbs accepted ran O → accounts cbs accepted ran O'.
Proof using. intros HO [Hk Ha]. split; by rewrite <- HO. Qed.

Lemma accounts_nil : accounts ∅ [] [] [].
Proof using. split; by rewrite ?map_to_list_empty. Qed.

Lemma accounts_length cbs accepted ran O : accounts cbs accepted ran O → length O = size cbs.
Proof using.
  intros [Hk _]. apply Permutation_length in Hk. by rewrite !length_fmap, length_map_to_list in Hk.
Qed.

Lemma accounts_NoDup cbs accepted ran O :
  accounts cbs accepted ran O → NoDup ((λ r, d_guid r.1) <$> O).
Proof using. intros [Hk _]. rewrite Hk. apply NoDup_fst_map_to_list. Qed.

Lemma accounts_Some cbs accepted ran O r :
  accounts cbs accepted ran O → r ∈ O → is_Some (cbs !! d_guid r.1).
Proof using.
  intros [Hk _] Hr. apply (list_elem_of_fmap_2 (λ r, d_guid r.1)) in Hr. rewrite Hk in Hr.
  apply list_elem_of_fmap in Hr as ([g cb] & Hg & Hm%elem_of_map_to_list). exists cb.
  cbn in *. by rewrite Hg.
Qed.

Lemma omap_with_cb cbs cbs' (O : list (Message * bytes)) :
  (∀ r, r ∈ O → cbs' !! d_guid r.1 = cbs !! d_guid r.1) →
  omap (with_cb cbs') O = omap (with_cb cbs) O.
Proof using.
  induction O as [| r O IH]; intros Hr; cbn; [done |].
  assert (with_cb cbs' r = with_cb cbs r) as -> by (unfold with_cb; by rewrite Hr by (by left)).
  rewrite IH; [done |]. intros r' Hr'. apply Hr. by right.
Qed.

Lemma accounts_insert cbs accepted ran O r cb :
  cbs !! d_guid r.1 = None → accounts cbs accepted ran O →
  accounts (<[d_guid r.1 := cb]> cbs) (accepted ++ [(r, cb)]) ran (r :: O).
Proof using.
  intros Hn Hac. pose proof Hac as [Hk Ha]. split.
  - rewrite map_to_list_insert by done. cbn. by rewrite Hk.
  - cbn. assert (with_cb (<[d_guid r.1 := cb]> cbs) r = Some (r, cb)) as ->
      by (unfold with_cb; by rewrite lookup_insert_eq). rewrite (omap_with_cb cbs), Ha.
    + by rewrite <- app_assoc, (Permutation_app_comm _ [(r, cb)]).
    + intros r' Hr'. apply lookup_insert_ne. intros Hg.
      destruct (accounts_Some _ _ _ _ _ Hac Hr') as [cb' Hcb]. congruence.
Qed.

Lemma accounts_delete cbs accepted ran O r :
  accounts cbs accepted ran (r :: O) →
  ∃ cb, cbs !! d_guid r.1 = Some cb ∧
    accounts (delete (d_guid r.1) cbs) accepted (ran ++ [(r, cb)]) O.
Proof using.
  intros Hac. pose proof Hac as [Hk Ha].
  destruct (accounts_Some _ _ _ _ r Hac) as [cb Hcb]; [by left |]. exists cb. split; [done |].
  pose proof (accounts_NoDup _ _ _ _ Hac) as Hnd. apply NoDup_cons in Hnd as [Hni _]. split.
  - rewrite <- (map_to_list_delete cbs (d_guid r.1) cb) in Hk by done. cbn in Hk.
    by apply Permutation_cons_inv in Hk.
  - rewrite Ha. cbn. assert (with_cb cbs r = Some (r, cb)) as -> by (unfold with_cb; by rewrite Hcb).
    rewrite <- app_assoc, (omap_with_cb cbs (delete _ _)); [done |].
    intros r' Hr'. apply lookup_delete_ne. intros Hg. apply Hni. rewrite Hg.
    by apply (list_elem_of_fmap_2 (λ r, d_guid r.1)).
Qed.
End Accounts.

(** ** The invariant *)

Section Invariant.
Context {E : EpochUtil} {G : GuidUtil} {CB : Type}.

Abbreviation Producer := (@ProducerImpl E G CB).

Definition registered_of (ph : @SendPhase E G CB) : option (Message * bytes) :=
  match ph with Registered m => Some (route_of m) | _ => None end.

Definition posted_of (j : @Posted E G) : option (Message * bytes) :=
  match j with Post_publishMessage m => Some (route_of m) | _ => None end.

Definition confirmation_route (cf : Confirmation) : Message * bytes :=
  (cf_message cf, cf_routingKey cf).

(** The messages the library is responsible for: registered and not yet posted, on their
    way to the channel, in the channel, or confirmed with the callback still to run. *)
Definition outstanding (p : Producer) : list (Message * bytes) :=
  omap registered_of (d_calls p) ++ omap posted_of (d_posted p) ++
  (route_of <$> stored (d_channel p)) ++ (route_of <$> d_pendingMessages (c_derived (d_channel p))) ++
  (confirmation_route <$> d_jobs p).

(** Calls that hold a permit of their own. *)
Definition holds_permit (ph : @SendPhase E G CB) : bool :=
  match ph with Acquired _ _ | Failing _ => true | _ => false end.
Definition held (p : Producer) : nat := length (filter (λ ph, holds_permit ph = true) (d_calls p)).

(** Calls whose message was accepted. *)
Definition granted (ph : @SendPhase E G CB) : bool :=
  match ph with Registered _ | Returned SENDING => true | _ => false end.
Definition accepted_calls (p : Producer) : nat := length (filter (λ ph, granted ph = true) (d_calls p)).

Definition callbacks_of (es : list (@ProducerEffect E G CB)) : list (Message * bytes * CB) :=
  omap (λ e, match e with RunCallback cb cf => Some (confirmation_route cf, cb) | _ => None end) es.
Definition futures_of (es : list (@ProducerEffect E G CB)) : list FutureId :=
  omap (λ e, match e with ResolveFuture f => Some f | _ => None end) es.

Lemma insert_split {A} (l : list A) i x y :
  l !! i = Some x → ∃ l1 l2, l = l1 ++ x :: l2 ∧ <[i := y]> l = l1 ++ y :: l2.
Proof using.
  intros Hx. exists (take i l), (drop (S i) l). split; [by rewrite take_drop_middle |].
  apply insert_take_drop. by apply lookup_lt_Some in Hx.
Qed.

(** The calls workers have made, and those they are about to make. *)
Definition worker_calls (p : Producer) : list ProducerEffect := d_effects p ++ concat (d_workers p).

(** The callbacks that ran, each with its message; those workers are about to run. *)
Definition ran (p : Producer) : list (Message * bytes * CB) := callbacks_of (d_effects p).
Definition running (p : Producer) : list (Message * bytes * CB) := callbacks_of (concat (d_workers p)).
Definition taken (p : Producer) : list (Message * bytes * CB) := callbacks_of (worker_calls p).

#[local] Arguments taken : simpl never.
#[local] Arguments ran : simpl never.
#[local] Arguments running : simpl never.

Lemma taken_split p : taken p = ran p ++ running p.
Proof using. apply omap_app. Qed.

Lemma worker_calls_step j p : worker_calls (worker_step j p) ≡ₚ worker_calls p.
Proof using.
  unfold worker_step, worker_calls. destruct (d_workers p !! j) as [[| e es] |] eqn:Hj; try done. cbn.
  destruct (insert_split (d_workers p) j _ es Hj) as (l1 & l2 & -> & ->). rewrite <- app_assoc. f_equiv.
  rewrite !concat_app. cbn. by rewrite <- Permutation_middle.
Qed.

(** No worker is about to make a call. *)
Definition workers_idle (p : Producer) : Prop := concat (d_workers p) = [].

(** [extra] are messages a step has in its hands, [lost] those whose confirm nobody will
    see any more. *)
Record producer_inv (max : Z) (accepted : list (Message * bytes * CB)) (sent : list MessageWithRoute)
  (lost extra : list (Message * bytes)) (p : Producer) : Prop := {
  pi_channel : send_inv 0 [] sent (d_channel p);
  pi_callback : d_confirmCallback (c_derived (d_channel p)) = true;
  pi_cap : (0 ≤ outstandingMessagesCap (d_sharedState p))%Z;
  pi_permits : (outstandingMessagesCap (d_sharedState p)
                + Z.of_nat (size (callbackMap (d_sharedState p)) + held p) = max)%Z;
  pi_accounts : accounts (callbackMap (d_sharedState p)) accepted (taken p) (extra ++ outstanding p ++ lost);
  pi_granted : accepted_calls p = length accepted;
  pi_future : is_Some (waitForConfirmsFuture (d_sharedState p)) →
              size (callbackMap (d_sharedState p)) ≠ 0;
}.

Lemma make_inv max tp x tagger :
  (0 ≤ max)%Z → producer_inv max [] [] [] [] (ProducerImpl_make max tp x tagger).
Proof using.
  intros Hm. split; try first [apply start_inv | by intros [? ?] | apply accounts_nil | done].
  cbn. rewrite map_size_empty. lia.
Qed.

(** *** Counting calls *)

Lemma count_cons {A} (f : A → bool) x l :
  length (filter (λ x, f x = true) (x :: l)) = Nat.b2n (f x) + length (filter (λ x, f x = true) l).
Proof using. rewrite filter_cons. case_decide as Hf; [by rewrite Hf |]. by apply not_true_is_false in Hf as ->. Qed.

Lemma call_step (p : Producer) i ph ph' :
  d_calls p !! i = Some ph →
  let calls' := <[i := ph']> (d_calls p) in
  length (filter (λ ph, holds_permit ph = true) calls') + Nat.b2n (holds_permit ph)
  = held p + Nat.b2n (holds_permit ph') ∧
  length (filter (λ ph, granted ph = true) calls') + Nat.b2n (granted ph)
  = accepted_calls p + Nat.b2n (granted ph') ∧
  option_list (registered_of ph) ++ omap registered_of calls'
  ≡ₚ option_list (registered_of ph') ++ omap registered_of (d_calls p).
Proof using.
  intros Hi. cbn zeta. unfold held, accepted_calls.
  destruct (insert_split _ i ph ph' Hi) as (l1 & l2 & -> & ->).
  rewrite !omap_app, !filter_app, !length_app, !count_cons. split_and!; [lia.. |].
  cbn. destruct (registered_of ph) as [r |], (registered_of ph') as [r' |]; cbn; try done.
  - rewrite <- !Permutation_middle. by rewrite (perm_swap r r').
  - by rewrite <- Permutation_middle.
  - by rewrite <- Permutation_middle.
Qed.
(** *** Steps of a call *)

(** A step that concerns permits only. *)
Lemma inv_call max acc sent lost (p : Producer) i ph ph' d :
  d_calls p !! i = Some ph → producer_inv max acc sent lost [] p →
  callbackMap d = callbackMap (d_sharedState p) →
  waitForConfirmsFuture d = waitForConfirmsFuture (d_sharedState p) →
  registered_of ph = None → registered_of ph' = None → granted ph' = granted ph →
  (0 ≤ outstandingMessagesCap d)%Z →
  (outstandingMessagesCap d + Z.of_nat (Nat.b2n (holds_permit ph'))
   = outstandingMessagesCap (d_sharedState p) + Z.of_nat (Nat.b2n (holds_permit ph)))%Z →
  producer_inv max acc sent lost [] (set_calls (<[i := ph']> (d_calls p)) (set_shared d p)).
Proof using.
  intros Hi [] Hm Hf Hr Hr' Hg Hc Hp. destruct (call_step p i ph ph' Hi) as (Hh & Hgr & Ho).
  rewrite Hr, Hr' in Ho. rewrite Hg in Hgr. cbn in Ho. split; cbn; rewrite ?Hm, ?Hf; try done.
  - unfold held in *. cbn in *. lia.
  - eapply accounts_perm; [| exact pi_accounts0]. unfold outstanding. cbn. by rewrite Ho.
  - unfold accepted_calls in *. cbn in *. lia.
Qed.

Lemma inv_register max acc sent lost (p : Producer) i m cb m' :
  d_calls p !! i = Some (Acquired m cb) → producer_inv max acc sent lost [] p →
  callbackMap (d_sharedState p) !! d_guid (mw_message m') = None →
  producer_inv max (acc ++ [(route_of m', cb)]) sent lost []
    (set_calls (<[i := Registered m']> (d_calls p)) (set_shared
      (set_callbackMap (<[d_guid (mw_message m') := cb]> (callbackMap (d_sharedState p))) (d_sharedState p)) p)).
Proof using.
  intros Hi [] Hn. destruct (call_step p i _ (Registered m') Hi) as (Hh & Hgr & Ho). cbn in Hh, Hgr, Ho.
  split; cbn; try done.
  - rewrite map_size_insert_None by done. unfold held in *. cbn in *. lia.
  - pose proof (accounts_insert _ _ _ _ (route_of m') cb Hn pi_accounts0) as Ha.
    eapply accounts_perm; [| exact Ha]. unfold outstanding. cbn. by rewrite Ho.
  - rewrite length_app. unfold accepted_calls in *. cbn in *. lia.
  - intros _. rewrite map_size_insert_None by done. lia.
Qed.

Lemma inv_posted max acc sent lost (p : Producer) i m :
  d_calls p !! i = Some (Registered m) → producer_inv max acc sent lost [] p →
  producer_inv max acc sent lost []
    (set_calls (<[i := Returned SENDING]> (d_calls p)) (post (Post_publishMessage m) p)).
Proof using.
  intros Hi []. destruct (call_step p i _ (Returned SENDING) Hi) as (Hh & Hgr & Ho). cbn in Hh, Hgr, Ho.
  split; cbn; try done.
  - unfold held in *. cbn in *. lia.
  - eapply accounts_perm; [| exact pi_accounts0]. unfold outstanding. cbn. rewrite omap_app. cbn.
    rewrite <- Ho, <- !app_assoc. cbn. by rewrite <- !Permutation_middle.
  - unfold accepted_calls in *. cbn in *. lia.
Qed.

(** What a step registers. *)
Definition registration (op : @ProducerOp E G CB) (p : Producer) : list (Message * bytes * CB) :=
  match op with
  | P_step i _ fresh =>
      match d_calls p !! i with
      | Some (Acquired m cb) =>
          match (register_step fresh (d_transformers p) m cb (d_sharedState p)).1 with
          | Registered m' => [(route_of m', cb)]
          | _ => []
          end
      | _ => []
      end
  | _ => []
  end.

Lemma step_inv max acc sent lost (p : Producer) i elapsed fresh :
  producer_inv max acc sent lost [] p →
  producer_inv max (acc ++ registration (P_step i elapsed fresh) p) sent lost []
    (ProducerImpl_step i elapsed fresh p).
Proof using.
  intros Hi. unfold ProducerImpl_step. cbn [registration]. pose proof (pi_cap _ _ _ _ _ _ Hi).
  destruct (d_calls p !! i) as [[k m cb | m cb | duplicate | m | s] |] eqn:Hc; rewrite ?app_nil_r; try done.
  - unfold wait_step. destruct (Z.ltb_spec 0 (outstandingMessagesCap (d_sharedState p))).
    + eapply inv_call; try done; cbn; lia.
    + destruct k; [| destruct elapsed |]; eapply inv_call; try done; cbn; lia.
  - unfold register_step. destruct (match d_transformers p with [] => _ | _ => _ end) as [m' |].
    2: { cbn. rewrite app_nil_r. eapply inv_call; try done; cbn; lia. }
    unfold registerUniqueCallback. destruct (callbackMap _ !! _) eqn:Hm; cbn.
    + rewrite app_nil_r. eapply inv_call; try done; cbn; lia.
    + by apply (inv_register _ _ _ _ _ i m cb (mkMessageWithRoute m' (mw_routingKey m) (mw_mandatory m))).
  - eapply inv_call; try done; cbn; try lia. by destruct duplicate.
  - by apply inv_posted.
Qed.
(** *** The event loop *)

Lemma on_channel_inv max acc sent lost ms accepts f (p : Producer) :
  producer_inv max acc sent lost (route_of <$> ms) p →
  send_inv 0 [] (sent ++ ms) (f (d_channel p)) →
  d_confirmCallback (c_derived (f (d_channel p))) = true →
  trace_grows (d_channel p) (f (d_channel p)) →
  ∃ lost', producer_inv max acc (sent ++ ms) lost' [] (on_channel accepts f p) ∧
    ((∀ cf, accepts cf = true) → lost' = lost).
Proof using.
  intros [] Hs Hcb (es & Htr). pose proof (si_conserved _ _ _ _ pi_channel0) as Hc.
  pose proof (si_conserved _ _ _ _ Hs) as Hc'.
  assert (confirmed (f (d_channel p)) = confirmed (d_channel p) ++ (confirmation_route <$> confirmations es))
    as Hcf by (unfold confirmed; by rewrite Htr, confirmations_app, fmap_app).
  rewrite Hcf, fmap_app, Hc, !app_nil_r, <- !app_assoc in Hc'. apply Permutation_app_inv_l in Hc'.
  clear Hcf. unfold on_channel. rewrite Htr, drop_app_length. set (new := confirmations es) in *.
  set (P := λ cf, accepts cf = true).
  exists (lost ++ (confirmation_route <$> filter (λ cf, ¬ P cf) new)). split.
  2: { intros Ha. destruct (filter (λ cf, ¬ P cf) new) as [| cf l] eqn:Hf; [by rewrite app_nil_r |].
       assert (cf ∈ filter (λ cf, ¬ P cf) new) as [[] _]%list_elem_of_filter by (rewrite Hf; by left).
       apply Ha. }
  split; try done.
  eapply accounts_perm; [| exact pi_accounts0]. unfold outstanding, handleConfirms. cbn. fold P.
  rewrite !fmap_app. assert ((confirmation_route <$> new) ≡ₚ
    (confirmation_route <$> filter P new) ++ (confirmation_route <$> filter (λ cf, ¬ P cf) new)) as Hn
    by (by rewrite <- fmap_app, filter_app_complement).
  rewrite Hn in Hc'. clear Hn. revert Hc'.
  generalize (omap registered_of (d_calls p)) (omap posted_of (d_posted p))
    (route_of <$> stored (d_channel p)) (route_of <$> d_pendingMessages (c_derived (d_channel p)))
    (route_of <$> stored (f (d_channel p))) (route_of <$> d_pendingMessages (c_derived (f (d_channel p))))
    (confirmation_route <$> filter P new) (confirmation_route <$> filter (λ cf, ¬ P cf) new)
    (confirmation_route <$> d_jobs p) (route_of <$> ms).
  intros r po st pe st' pe' nw no j m Hc'.
  transitivity ((st ++ pe ++ m) ++ r ++ po ++ j ++ lost); [| rewrite Hc']; solve_Permutation.
Qed.

(** Any operation of the channel that does not publish. *)
Lemma channel_op_inv max acc sent lost accepts clock op (p : Producer) :
  producer_inv max acc sent lost [] p →
  ∃ lost', producer_inv max acc sent lost' [] (on_channel accepts (send_op clock (Send_channel op)) p) ∧
    ((∀ cf, accepts cf = true) → lost' = lost).
Proof using.
  intros Hi. pose proof Hi as [].
  destruct (on_channel_inv max acc sent lost [] accepts (send_op clock (Send_channel op)) p) as (l & Hl & Ha);
    rewrite ?app_nil_r in *; eauto.
  - apply (channel_op_closed _ (keeps_closed clock)), pi_channel0.
  - by apply send_op_callback.
  - apply (channel_op_closed _ trace_grows_closed).
Qed.

Lemma publishMessage_grows clock m (c : Channel SendState Confirmation) :
  trace_grows c (SendChannel_publishMessage clock m c).
Proof using.
  unfold SendChannel_publishMessage. destruct (negb _); [apply trace_grows_emit |].
  etrans; [apply (trace_grows_emit (Counter client_sent_messages)) |].
  case_match; [by apply trace_grows_same | apply base_frame_grows, readyToPublishMsg_frame].
Qed.

Lemma pop_inv max acc sent lost j l (p : Producer) :
  d_posted p = j :: l → producer_inv max acc sent lost [] p →
  producer_inv max acc sent lost (option_list (posted_of j)) (set_posted l p).
Proof using.
  intros Hp []. split; try done. eapply accounts_perm; [| exact pi_accounts0].
  unfold outstanding. rewrite Hp. cbn. destruct (posted_of j); cbn; [solve_Permutation | done].
Qed.

Lemma event_loop_inv max acc sent lost accepts clock hp (p : Producer) :
  (Z.of_nat (length sent + 1) < 2 ^ 64 - 1)%Z → producer_inv max acc sent lost [] p →
  ∃ sent' lost', producer_inv max acc sent' lost' [] (event_loop_step accepts clock hp p) ∧
    length sent' ≤ length sent + 1 ∧ ((∀ cf, accepts cf = true) → lost' = lost).
Proof using.
  intros Hb Hi. unfold event_loop_step. destruct (d_posted p) as [| j l] eqn:Hp; [exists sent, lost; split_and!; [done | lia | done] |].
  pose proof (pop_inv _ _ _ _ _ _ _ Hp Hi) as Hi'. pose proof Hi' as [].
  destruct j as [m | u f |]; cbn [posted_of option_list] in *.
  - destruct (on_channel_inv max acc sent lost [m] accepts (send_op clock (Send_publish m)) (set_posted l p))
      as (lost' & Hl & Ha); try done.
    + by apply publishMessage_inv.
    + by apply send_op_callback.
    + apply publishMessage_grows.
    + exists (sent ++ [m]), lost'. rewrite length_app. split_and!; [done.. |]. done.
  - destruct (channel_op_inv max acc sent lost accepts clock (Op_updateTopology hp u f) _ Hi') as (lost' & Hl & Ha).
    exists sent, lost'. split_and!; [done | lia | done].
  - destruct (channel_op_inv max acc sent lost accepts clock Op_gracefulClose _ Hi') as (lost' & Hl & Ha).
    exists sent, lost'. split_and!; [done | lia | done].
Qed.

(** *** The thread pool *)

Lemma delete_perm {A} (l : list A) i x : l !! i = Some x → l ≡ₚ x :: delete i l.
Proof using. intros Hi. by apply delete_Permutation. Qed.

Lemma take_job_inv max acc sent lost i cf (p : Producer) :
  d_jobs p !! i = Some cf → producer_inv max acc sent lost [] p →
  producer_inv max acc sent lost [confirmation_route cf] (set_jobs (delete i (d_jobs p)) p).
Proof using.
  intros Hj []. split; try done. eapply accounts_perm; [| exact pi_accounts0].
  unfold outstanding. cbn. rewrite (delete_perm (d_jobs p) i cf Hj) at 1. cbn. solve_Permutation.
Qed.

(** A confirm finds the callback of its message. *)
Lemma confirm_valid_inv max acc sent lost cf (p : Producer) :
  isValid (d_sharedState p) = true → producer_inv max acc sent lost [confirmation_route cf] p →
  let r := actionConfirm_locked cf (d_sharedState p) in
  producer_inv max acc sent lost [] (set_workers (d_workers p ++ [r.1]) (set_shared r.2 p)) ∧
  ∃ cb, callbackMap (d_sharedState p) !! d_guid (cf_message cf) = Some cb ∧
    r.1 = RunCallback cb cf ::
          (if bool_decide (size (callbackMap r.2) = 0) then
             ResolveFuture <$> option_list (waitForConfirmsFuture (d_sharedState p)) else []).
Proof using.
  intros Hv [] r. destruct (accounts_delete _ _ _ _ _ pi_accounts0) as (cb & Hcb & Hac). cbn in Hcb, Hac.
  pose proof (accounts_length _ _ _ _ pi_accounts0) as Hs1. pose proof (accounts_length _ _ _ _ Hac) as Hs2.
  cbn in Hs1. rewrite Hs2 in Hs1.
  assert (∀ es d, (∀ e, e ∈ es → ∃ f, e = ResolveFuture f) →
    taken (set_workers (d_workers p ++ [RunCallback cb cf :: es]) (set_shared d p)) = taken p ++ [(confirmation_route cf, cb)]) as Hran.
  { intros es d Hes. unfold taken, worker_calls, callbacks_of. cbn. rewrite concat_app, app_assoc, omap_app. cbn. rewrite app_nil_r. do 2 f_equal.
    induction es as [| e es IH]; [done |]. destruct (Hes e) as [f ->]; [by left |]. cbn.
    apply IH. intros e' He'. apply Hes. by right. }
  assert (∀ f' es, (is_Some f' → size (delete (d_guid (cf_message cf)) (callbackMap (d_sharedState p))) ≠ 0) →
    (∀ e, e ∈ es → ∃ f, e = ResolveFuture f) →
    producer_inv max acc sent lost [] (set_workers (d_workers p ++ [RunCallback cb cf :: es]) (set_shared
      (set_waitFuture f' (cap_post (set_callbackMap (delete (d_guid (cf_message cf))
        (callbackMap (d_sharedState p))) (d_sharedState p)))) p))) as Hinv.
  { intros f' es Hf' Hes. split; try done.
    - cbn. lia.
    - unfold held in *. cbn in *. lia.
    - by rewrite Hran. }
  subst r. unfold actionConfirm_locked. rewrite Hv, Hcb. cbn.
  destruct (waitForConfirmsFuture (d_sharedState p)) as [f |] eqn:Hf;
    [case_bool_decide as Hs0 |]; cbn in *.
  - split; [apply (Hinv None) | exists cb; split; [done |]; by rewrite bool_decide_true].
    + by intros [? ?].
    + intros e ->%list_elem_of_singleton. by exists f.
  - split; [| exists cb; split; [done |]; by rewrite bool_decide_false].
    apply (Hinv (waitForConfirmsFuture (d_sharedState p)) []); [done | set_solver].
  - split; [| exists cb; split; [done |]; by case_match].
    apply (Hinv (waitForConfirmsFuture (d_sharedState p)) []); [by rewrite Hf; intros [? ?] | set_solver].
Qed.
(** After the destructor confirms are dropped. *)
Lemma confirm_invalid_inv max acc sent lost r (p : Producer) :
  producer_inv max acc sent lost [r] p → producer_inv max acc sent (lost ++ [r]) [] p.
Proof using.
  intros []. split; try done. eapply accounts_perm; [| exact pi_accounts0]. solve_Permutation.
Qed.

Lemma thread_pool_inv max acc sent lost i (p : Producer) :
  producer_inv max acc sent lost [] p →
  ∃ lost', producer_inv max acc sent lost' [] (thread_pool_step i p) ∧
    (isValid (d_sharedState p) = true →
     lost' = lost ∧ isValid (d_sharedState (thread_pool_step i p)) = true).
Proof using.
  intros Hi. unfold thread_pool_step. destruct (d_jobs p !! i) as [cf |] eqn:Hj; [| by exists lost].
  pose proof (take_job_inv _ _ _ _ _ _ _ Hj Hi) as Hi'. destruct (isValid (d_sharedState p)) eqn:Hv.
  - destruct (confirm_valid_inv _ _ _ _ _ (set_jobs (delete i (d_jobs p)) p) Hv Hi') as [Hr _]. cbn in Hr.
    destruct (actionConfirm_locked _ _) as [es d] eqn:Hact. cbn in Hr. exists lost.
    split; [exact Hr |]. intros _. split; [done |]. cbn. revert Hact. unfold actionConfirm_locked.
    rewrite Hv. repeat case_match; intros [= <- <-]; done.
  - exists (lost ++ [confirmation_route cf]). unfold actionConfirm_locked. rewrite Hv. split; [| done].
    apply confirm_invalid_inv in Hi'. destruct Hi'. split; try done. unfold taken, worker_calls in *. cbn.
    by rewrite concat_app, app_nil_r.
Qed.

Lemma worker_inv max acc sent lost j (p : Producer) :
  producer_inv max acc sent lost [] p → producer_inv max acc sent lost [] (worker_step j p).
Proof using.
  intros Hi. assert (taken (worker_step j p) ≡ₚ taken p) as Ht by (unfold taken, callbacks_of; by rewrite worker_calls_step).
  unfold worker_step in *. destruct (d_workers p !! j) as [[| e es] |]; try done. destruct Hi. split; try done.
  destruct pi_accounts0 as [Hk Ha]. split; [exact Hk |]. rewrite Ht. exact Ha.
Qed.

(** *** Runs *)

(** The pool takes every job and the producer is not destroyed. *)
Definition reliable_op (op : @ProducerOp E G CB) : Prop :=
  match op with
  | P_eventLoop accepts _ _ | P_channel accepts _ _ => ∀ cf, accepts cf = true
  | P_destroy => False
  | _ => True
  end.

Lemma sharedState_valid_step i elapsed fresh (p : Producer) :
  isValid (d_sharedState (ProducerImpl_step i elapsed fresh p)) = isValid (d_sharedState p).
Proof using.
  unfold ProducerImpl_step, wait_step, register_step, registerUniqueCallback. by repeat (case_match; simplify_eq/=).
Qed.

Lemma event_loop_shared accepts clock hp (p : Producer) :
  d_sharedState (event_loop_step accepts clock hp p) = d_sharedState p.
Proof using. unfold event_loop_step. by repeat case_match. Qed.

(** A step that leaves everything but tagger, transformers, futures and [isValid]. *)
Lemma inv_other max acc sent lost (p p' : Producer) :
  producer_inv max acc sent lost [] p →
  d_channel p' = d_channel p → d_calls p' = d_calls p → d_jobs p' = d_jobs p →
  d_effects p' = d_effects p → d_workers p' = d_workers p → omap posted_of (d_posted p') = omap posted_of (d_posted p) →
  callbackMap (d_sharedState p') = callbackMap (d_sharedState p) →
  outstandingMessagesCap (d_sharedState p') = outstandingMessagesCap (d_sharedState p) →
  (is_Some (waitForConfirmsFuture (d_sharedState p')) → size (callbackMap (d_sharedState p)) ≠ 0) →
  producer_inv max acc sent lost [] p'.
Proof using.
  intros [] Hch Hca Hj He Hw Hp Hm Ho Hf. unfold held, accepted_calls in *.
  split; rewrite ?Hch, ?Hm, ?Ho; unfold held, accepted_calls; rewrite ?Hca; try done.
  unfold outstanding, taken, worker_calls in *. by rewrite He, Hw, Hca, Hp, Hch, Hj.
Qed.

Lemma op_inv max acc sent lost op (p : Producer) :
  (Z.of_nat (length sent + 1) < 2 ^ 64 - 1)%Z → producer_inv max acc sent lost [] p →
  ∃ sent' lost', producer_inv max (acc ++ registration op p) sent' lost' [] (producer_op op p) ∧
    length sent' ≤ length sent + 1 ∧
    (isValid (d_sharedState p) = true → reliable_op op →
     lost' = lost ∧ isValid (d_sharedState (producer_op op p)) = true).
Proof using.
  intros Hb Hi. destruct op as [k m rk md cb | i elapsed fresh | t | u f | accepts clock hp
    | accepts clock op | i | j | f |]; cbn [registration producer_op reliable_op]; rewrite ?app_nil_r.
  - exists sent, lost. unfold ProducerImpl_send. destruct (prepareMessageForSending _ _ _ _) as [m' cb'].
    split_and!; [| lia | done]. destruct Hi. unfold held, accepted_calls in *.
    split; unfold held, accepted_calls; cbn; rewrite ?filter_app; cbn; rewrite ?app_nil_r; try done.
    unfold outstanding in *. cbn. by rewrite omap_app, app_nil_r.
  - exists sent, lost. split_and!; [by apply step_inv | lia | intros Hv _; by rewrite sharedState_valid_step].
  - exists sent, lost. split_and!; [by eapply inv_other; try done; apply Hi | lia | done].
  - exists sent, lost. split_and!; [| lia | done]. eapply inv_other; try done; [| apply Hi].
    cbn. by rewrite omap_app, app_nil_r.
  - destruct (event_loop_inv _ _ _ _ accepts clock hp _ Hb Hi) as (sent' & lost' & Hi' & Hl & Ha).
    exists sent', lost'. split_and!; [done.. |]. rewrite event_loop_shared. auto.
  - destruct (channel_op_inv _ _ _ _ accepts clock op _ Hi) as (lost' & Hi' & Ha).
    exists sent, lost'. split_and!; [done | lia | auto].
  - destruct (thread_pool_inv _ _ _ _ i _ Hi) as (lost' & Hi' & Ha).
    exists sent, lost'. split_and!; [done | lia | auto].
  - exists sent, lost. split_and!; [by apply worker_inv | lia |]. intros Hv _. split; [done |].
    unfold worker_step. destruct (d_workers p !! j) as [[| e es] |]; exact Hv.
  - exists sent, lost. unfold ProducerImpl_waitForConfirms. case_bool_decide as Hs; cbn [snd]; [split_and!; [done | lia | done] |].
    case_match; cbn [snd]; [split_and!; [done | lia | done] |]. split_and!; [| lia | done]. by eapply inv_other.
  - exists sent, lost. split_and!; [| lia | done]. eapply inv_other; try done; [| apply Hi].
    cbn. by rewrite omap_app, app_nil_r.
Qed.

(** The messages accepted during a run. *)
Fixpoint registrations (ops : list (@ProducerOp E G CB)) (p : Producer) : list (Message * bytes * CB) :=
  match ops with
  | [] => []
  | op :: ops => registration op p ++ registrations ops (producer_op op p)
  end.

Lemma producer_run_inv ops : ∀ max acc sent lost (p : Producer),
  (Z.of_nat (length sent + length ops) < 2 ^ 64 - 1)%Z → producer_inv max acc sent lost [] p →
  ∃ sent' lost', producer_inv max (acc ++ registrations ops p) sent' lost' [] (producer_run ops p) ∧
    (isValid (d_sharedState p) = true → Forall reliable_op ops → lost' = lost).
Proof using.
  induction ops as [| op ops IH]; intros max acc sent lost p Hb Hi; cbn.
  { rewrite app_nil_r. by exists sent, lost. }
  cbn [length] in Hb. destruct (op_inv max acc sent lost op p ltac:(lia) Hi) as (sent1 & lost1 & Hi1 & Hl1 & Ha1).
  destruct (IH max _ sent1 lost1 _ ltac:(lia) Hi1) as (sent2 & lost2 & Hi2 & Ha2). rewrite <- app_assoc in Hi2.
  exists sent2, lost2. split; [done |]. intros Hv [Hr Hrs]%Forall_cons.
  destruct (Ha1 Hv Hr) as [-> Hv1]. auto.
Qed.
(** *** Waiting for confirms *)

Definition resolved (p : Producer) : list FutureId := futures_of (d_effects p).
(** The futures workers are about to resolve. *)
Definition waking (p : Producer) : list FutureId := futures_of (concat (d_workers p)).
Definition woken (p : Producer) : list FutureId := futures_of (worker_calls p).

Lemma woken_split p : woken p = resolved p ++ waking p.
Proof using. apply omap_app. Qed.

(** The futures calls of [waitForConfirms] wait for. *)
Fixpoint handed_out (ops : list (@ProducerOp E G CB)) (p : Producer) : list FutureId :=
  match ops with
  | [] => []
  | op :: ops =>
      match op with
      | P_waitForConfirms f => option_list (ProducerImpl_waitForConfirms f p).1
      | _ => []
      end ++ handed_out ops (producer_op op p)
  end.

Definition awaited (p : Producer) (f : FutureId) : Prop :=
  f ∈ woken p ∨ waitForConfirmsFuture (d_sharedState p) = Some f.

Lemma step_future i elapsed fresh (p : Producer) :
  waitForConfirmsFuture (d_sharedState (ProducerImpl_step i elapsed fresh p))
  = waitForConfirmsFuture (d_sharedState p) ∧
  worker_calls (ProducerImpl_step i elapsed fresh p) = worker_calls p.
Proof using.
  unfold ProducerImpl_step, wait_step, register_step, registerUniqueCallback. by repeat (case_match; simplify_eq/=).
Qed.

(** Only the thread pool takes the waiters' future, and only with the last callback. *)
Lemma thread_pool_wakes i (p : Producer) :
  let p' := thread_pool_step i p in
  (woken p' = woken p ∧
   waitForConfirmsFuture (d_sharedState p') = waitForConfirmsFuture (d_sharedState p)) ∨
  (∃ f, waitForConfirmsFuture (d_sharedState p) = Some f ∧ woken p' = woken p ++ [f] ∧
     callbackMap (d_sharedState p') = ∅).
Proof using.
  cbn zeta. unfold thread_pool_step. destruct (d_jobs p !! i) as [cf |]; [| by left].
  assert (∀ es d q, woken (set_workers (d_workers p ++ [es]) (set_shared d (set_jobs q p))) = woken p ++ futures_of es) as Hw.
  { intros es d q. unfold woken, worker_calls, futures_of. cbn. rewrite concat_app, app_assoc, omap_app. cbn. by rewrite app_nil_r. }
  unfold actionConfirm_locked. destruct (isValid _); [| left; rewrite Hw; cbn; by rewrite app_nil_r].
  destruct (callbackMap _ !! _) as [cb |]; [| left; rewrite Hw; cbn; by rewrite app_nil_r].
  cbn. destruct (waitForConfirmsFuture _) as [f |] eqn:Hf; [case_bool_decide as Hs |]; rewrite Hw.
  - right. exists f. split_and!; [done.. |]. by apply map_size_empty_inv in Hs.
  - left. by rewrite app_nil_r.
  - left. by rewrite app_nil_r.
Qed.

Lemma worker_wakes j (p : Producer) :
  woken (worker_step j p) ≡ₚ woken p ∧ d_sharedState (worker_step j p) = d_sharedState p.
Proof using.
  split; [unfold woken, futures_of; by rewrite worker_calls_step |].
  unfold worker_step. by destruct (d_workers p !! j) as [[| e es] |].
Qed.

Lemma op_wakes op (p : Producer) :
  let p' := producer_op op p in
  (woken p' ≡ₚ woken p ∧
   (waitForConfirmsFuture (d_sharedState p') = waitForConfirmsFuture (d_sharedState p) ∨
    waitForConfirmsFuture (d_sharedState p) = None)) ∨
  (∃ f, waitForConfirmsFuture (d_sharedState p) = Some f ∧ woken p' = woken p ++ [f] ∧
     callbackMap (d_sharedState p') = ∅).
Proof using.
  cbn zeta. destruct op as [k m rk md cb | i elapsed fresh | t | u f | accepts clock hp
    | accepts clock op | i | j | f |]; cbn [producer_op]; try (by left; auto).
  - left. unfold ProducerImpl_send. destruct (prepareMessageForSending _ _ _ _). by auto.
  - left. destruct (step_future i elapsed fresh p) as [Hf He]. unfold woken. rewrite He. auto.
  - left. rewrite event_loop_shared. split; [| by left]. unfold event_loop_step. by repeat case_match.
  - destruct (thread_pool_wakes i p) as [[-> ?] | ?]; [by left; auto | by right].
  - left. destruct (worker_wakes j p) as [? ->]. auto.
  - left. unfold ProducerImpl_waitForConfirms. case_bool_decide; [by auto |]. case_match; by auto.
Qed.

Lemma awaited_op op (p : Producer) f : awaited p f → awaited (producer_op op p) f.
Proof using.
  unfold awaited. destruct (op_wakes op p) as [[-> [-> | Hn]] | (f' & Hf' & -> & _)]; [done | |].
  - intros [? | Hf]; [by left | congruence].
  - intros [Hr | Hf]; left; apply elem_of_app; [by left | right]. rewrite Hf' in Hf.
    injection Hf as ->. by left.
Qed.

Lemma awaited_run ops : ∀ (p : Producer) f,
  awaited p f ∨ f ∈ handed_out ops p → awaited (producer_run ops p) f.
Proof using.
  induction ops as [| op ops IH]; intros p f Hf; cbn in *; [set_solver |].
  apply IH. destruct Hf as [Hf | [Hf | Hf]%elem_of_app]; [left; by apply awaited_op | left | by right].
  destruct op as [| | | | | | | | f' |]; try (by apply not_elem_of_nil in Hf). revert Hf.
  cbn [producer_op]. unfold ProducerImpl_waitForConfirms, awaited. case_bool_decide; cbn; [set_solver |].
  case_match; cbn; rewrite list_elem_of_singleton; intros ->; auto.
Qed.

(** Futures are resolved by workers that are about to. *)
Lemma op_resolves op (p : Producer) f :
  f ∉ resolved p → f ∈ resolved (producer_op op p) → f ∈ waking p.
Proof using.
  unfold resolved, futures_of. intros Hn Hin. assert ((∃ j, op = P_worker j) ∨ ¬ (∃ j, op = P_worker j)) as [[j ->] | Hop]
    by (destruct op; try (right; by intros [? ?]); left; eauto).
  - cbn [producer_op] in Hin. unfold worker_step in Hin. destruct (d_workers p !! j) as [[| e es] |] eqn:Hj; try done. cbn in Hin.
    rewrite omap_app in Hin. apply elem_of_app in Hin as [? | Hin]; [done |]. destruct e as [| f']; cbn in Hin; [by apply elem_of_nil in Hin |].
    apply list_elem_of_singleton in Hin as ->. unfold waking, futures_of. apply list_elem_of_lookup_2 in Hj. apply list_elem_of_omap.
    exists (ResolveFuture f'). split; [| done]. apply list_elem_of_In, in_concat. exists (ResolveFuture f' :: es).
    split; [by apply list_elem_of_In | by left].
  - destruct Hn. assert (d_effects (producer_op op p) = d_effects p) as <-; [| done].
    destruct op as [k m rk md cb | i elapsed fresh | t | u f' | accepts clock hp | accepts clock op | i | j | f' |]; cbn [producer_op]; try done.
    + unfold ProducerImpl_send. by destruct (prepareMessageForSending _ _ _ _).
    + unfold ProducerImpl_step, wait_step, register_step, registerUniqueCallback. by repeat (case_match; simplify_eq/=).
    + unfold event_loop_step. by repeat case_match.
    + unfold thread_pool_step. repeat case_match; done.
    + destruct Hop. by exists j.
    + unfold ProducerImpl_waitForConfirms. case_bool_decide; [done |]. by case_match.
Qed.

(** ** The claims *)

(** C16: What happens to a message given to a producer. Consider any interleaving of
    the steps of sending threads, the event loop (posted jobs in order, and whatever
    the broker and the timers cause on the channel in between), the workers of the
    thread pool, waiters and the destructor, from a new producer with limit [max].
    - Every message accepted is either done, its own callback having run once with
      it, or a worker is about to run its callback, or its callback is registered and the message is still in hand
      (registered, posted, stored or pending in the channel, or a job of the pool),
      or its confirm was lost; no two of them in hand share a GUID.
    - Permits of the semaphore, registered callbacks and calls about to register or
      to give up account for [max] exactly, so there are never more than [max] unconfirmed.
    - The calls that accepted a message are those that returned SENDING or are about to.
    - Nothing is lost as long as the pool takes its jobs and the producer lives; then, when nothing is
      in hand and no worker is busy, each accepted message's callback has run exactly once. *)
Theorem producer_accounts_for_messages max tp x tagger ops :
  (0 ≤ max)%Z → (Z.of_nat (length ops) < 2 ^ 64 - 1)%Z →
  let p0 := ProducerImpl_make max tp x tagger in
  let p := producer_run ops p0 in
  let d := d_sharedState p in
  ∃ lost,
    registrations ops p0 ≡ₚ ran p ++ running p ++ omap (with_cb (callbackMap d)) (outstanding p ++ lost) ∧
    (λ r, d_guid r.1) <$> (outstanding p ++ lost) ≡ₚ (map_to_list (callbackMap d)).*1 ∧
    NoDup ((λ r, d_guid r.1) <$> outstanding p ++ lost) ∧
    ((0 ≤ outstandingMessagesCap d)%Z ∧
     (outstandingMessagesCap d + Z.of_nat (size (callbackMap d) + held p) = max)%Z) ∧
    accepted_calls p = length (registrations ops p0) ∧
    (Forall reliable_op ops → lost = [] ∧ (outstanding p = [] → ran p ++ running p ≡ₚ registrations ops p0 ∧
                                             (workers_idle p → ran p ≡ₚ registrations ops p0))).
Proof using.
  intros Hm Hb p0 p d.
  destruct (producer_run_inv ops max [] [] [] p0) as (sent & lost & Hi & Hl); [done | by apply make_inv |].
  fold p in Hi. destruct Hi as [_ _ Hc Hp Ha Hg _]. exists lost. pose proof Ha as [Hk Hac].
  rewrite taken_split in Hac. split_and!; try done; [by rewrite app_assoc | by eapply accounts_NoDup |].
  intros Hr. rewrite (Hl eq_refl Hr) in *. split; [done |]. intros Ho. rewrite Ho, app_nil_r in Hac. cbn in Hac.
  split; [by rewrite Hac |]. intros Hid. rewrite Hac. unfold running. by rewrite Hid, app_nil_r.
Qed.

(** C17: [waitForConfirms] wakes its callers when, and only when, nothing is unconfirmed.
    In any run the future a call waits for is resolved, or a worker is about to resolve
    it, or it is the one the producer keeps, and then there are unconfirmed messages;
    once nothing is in hand (the pool having taken all jobs) and no worker is busy every waiter
    has been woken. A future is resolved only by a worker that took it from the
    producer, and it takes it, under the mutex, only at a moment when no callback is
    registered; messages sent between that moment and the resolution, while the worker
    runs the last callback, do not delay the waiters. *)
Theorem waitForConfirms_wakes_waiters max tp x tagger ops :
  (0 ≤ max)%Z → (Z.of_nat (length ops) < 2 ^ 64 - 1)%Z →
  let p0 := ProducerImpl_make max tp x tagger in
  let p := producer_run ops p0 in
  let d := d_sharedState p in
  (∀ f, f ∈ handed_out ops p0 →
    f ∈ resolved p ∨ f ∈ waking p ∨ (waitForConfirmsFuture d = Some f ∧ size (callbackMap d) ≠ 0)) ∧
  (Forall reliable_op ops → outstanding p = [] → workers_idle p → ∀ f, f ∈ handed_out ops p0 → f ∈ resolved p) ∧
  (∀ op f, f ∉ resolved p → f ∈ resolved (producer_op op p) → f ∈ waking p) ∧
  (∀ op f, f ∉ resolved p ++ waking p → f ∈ waking (producer_op op p) →
    waitForConfirmsFuture d = Some f ∧ callbackMap (d_sharedState (producer_op op p)) = ∅).
Proof using.
  intros Hm Hb p0 p d.
  destruct (producer_run_inv ops max [] [] [] p0) as (sent & lost & Hi & Hl); [done | by apply make_inv |].
  fold p in Hi. destruct Hi as [_ _ _ _ Ha _ Hf]. fold d in Ha, Hf.
  assert (∀ f, f ∈ handed_out ops p0 →
    f ∈ resolved p ∨ f ∈ waking p ∨ (waitForConfirmsFuture d = Some f ∧ size (callbackMap d) ≠ 0)) as Hw.
  { intros f Hin. destruct (awaited_run ops p0 f (or_intror Hin)) as [Hr | Hr].
    - fold p in Hr. rewrite woken_split in Hr. apply elem_of_app in Hr as [? | ?]; auto.
    - right; right. split; [exact Hr |]. apply Hf. by exists f. }
  split_and!; [exact Hw | | intros op f; apply op_resolves |].
  - intros Hr Ho Hid f Hin. destruct (Hw f Hin) as [? | [Hk | [_ Hne]]]; [done | |].
    + unfold waking in Hk. rewrite Hid in Hk. by apply elem_of_nil in Hk.
    + destruct Hne. rewrite <- (accounts_length _ _ _ _ Ha), (Hl eq_refl Hr), Ho. done.
  - intros op f Hn Hin. rewrite <- woken_split in Hn.
    assert (f ∈ woken (producer_op op p)) as Hin' by (rewrite woken_split; apply elem_of_app; by right).
    destruct (op_wakes op p) as [[Heq _] | (f' & Hf' & Hwk & He)]; [by rewrite Heq in Hin' |].
    rewrite Hwk in Hin'. apply elem_of_app in Hin' as [? | ->%list_elem_of_singleton]; done.
Qed.
End Invariant.

(** ** Witnesses *)

Section Witnesses.
#[local] Existing Instances byte_GuidUtil.

Definition sample_send (k : WaitKind) (g : Guid) (cb : nat) : ProducerOp :=
  P_send k (mw_message (sample_message g)) (str "key") RETURN_UNROUTABLE cb.

Definition sample_loop : ProducerOp (CB := nat) := P_eventLoop (λ _, true) (λ _, 0%Z) sample_heap.
Definition sample_received (m : AmqpMessage) : ProducerOp (CB := nat) :=
  P_channel (λ _, true) (λ _, 0%Z) (Op_processReceived sample_heap m).

(** Two messages are accepted, a third is over the limit, a waiter arrives, the
    broker confirms both, and the pool runs the callbacks. *)
Definition sample_producer_ops : list (ProducerOp (CB := nat)) :=
  [sample_send Wait Byte.x01 10; sample_send TimedWait Byte.x02 20; sample_send TryWait Byte.x03 30;
   P_step 1 false Byte.x00; P_step 0 false Byte.x00; P_step 2 false Byte.x00;
   P_step 0 false Byte.x00; P_step 1 false Byte.x00; P_step 1 false Byte.x00;
   P_channel (λ _, true) (λ _, 0%Z) Op_open; sample_loop] ++
  (sample_received <$> reopening sample_replies) ++
  [P_step 0 false Byte.x00; sample_loop; P_waitForConfirms 7;
   sample_received (confirm_method false true 2)].

Definition status_of (ph : SendPhase (CB := nat)) : option SendStatus :=
  match ph with Returned s => Some s | _ => None end.

Definition sample_producer_start : ProducerImpl (CB := nat) :=
  ProducerImpl_make 2 sample_topology (str "work") None.

(** Both confirms are taken, the second worker is the faster one; it wakes the waiter. *)
Definition sample_workers : list (ProducerOp (CB := nat)) :=
  [P_threadPool 1; P_threadPool 0; P_worker 1; P_worker 1; P_worker 0].

Lemma sample_workers_reliable : Forall reliable_op (sample_producer_ops ++ sample_workers).
Proof. by repeat constructor. Qed.

Lemma producer_accounts_for_messages_witness :
  let ops := sample_producer_ops ++ sample_workers in
  let p := producer_run ops sample_producer_start in
  ran p ≡ₚ registrations ops sample_producer_start ∧
  (λ r, (d_guid r.1.1, r.2)) <$> registrations ops sample_producer_start = [(Byte.x01, 10); (Byte.x02, 20)] ∧
  omap status_of (d_calls p) = [SENDING; SENDING; INFLIGHT_LIMIT].
Proof.
  split; [| split; refine (bool_decide_eq_true_1 _ _); vm_compute; reflexivity].
  destruct (producer_accounts_for_messages 2 sample_topology (str "work") None
    (sample_producer_ops ++ sample_workers) ltac:(lia)) as (lost & _ & _ & _ & _ & _ & Hr).
  - vm_compute. reflexivity.
  - destruct (Hr sample_workers_reliable) as [_ Ho]. refine (proj2 (Ho _) _); unfold workers_idle;
      apply length_zero_iff_nil, Nat.eqb_eq; vm_compute; reflexivity.
Defined.

(** A message sent while the worker runs the last callback: the waiter is woken all the
    same. *)
Definition sample_late_send : list (ProducerOp (CB := nat)) :=
  [P_threadPool 0; P_threadPool 0; sample_send Wait Byte.x04 40; P_step 3 false Byte.x00; P_step 3 false Byte.x00; P_worker 1].

Lemma waitForConfirms_wakes_waiters_witness :
  let p := producer_run (sample_producer_ops ++ sample_late_send) sample_producer_start in
  7 ∈ waking p ∧ 7 ∈ resolved (producer_op (P_worker 1) p) ∧ size (callbackMap (d_sharedState p)) = 1.
Proof.
  assert (7 ∈ resolved (producer_op (P_worker 1)
    (producer_run (sample_producer_ops ++ sample_late_send) sample_producer_start))) as Hy
    by (refine (bool_decide_eq_true_1 _ _); vm_compute; reflexivity).
  split; [| split; [exact Hy | vm_compute; reflexivity]].
  refine (proj1 (proj2 (proj2 (waitForConfirms_wakes_waiters 2 sample_topology (str "work") None
    (sample_producer_ops ++ sample_late_send) ltac:(lia) _))) (P_worker 1) 7 _ Hy).
  - vm_compute. reflexivity.
  - refine (bool_decide_eq_true_1 _ _). vm_compute. reflexivity.
Defined.
End Witnesses.
