(* ===== verification/Consumer.v ===== *)
(** * Consumer: the application's side of consuming

    Models [rmqa::ConsumerImpl] (rmqa_consumerimpl.cpp) and [rmqa::MessageGuard]
    (rmqa_messageguard.cpp) on top of [ReceiveChannel] and [AckQueue], with the threads
    that share them: the event loop, which owns the channel, and the workers of the pool,
    which run the application's callback.

    - The channel's callback ([handleMessage]) gives a job to the pool, which may refuse
      it. A worker takes a job in any order: it undoes the transformations, makes a
      guard and calls the application ([threadPoolHandleMessage]); the call is in progress until
      the operation that ends it, which destroys the guard.
    - Guards are objects of a heap, since [transferOwnership] copies one and changes
      the original. A guard is on the stack of a worker, shared by the application, or gone.
      The application may call any guard that exists, from any thread, in any order.
    - [messageGuardCb] and the jobs of the pool hold the consumer weakly: [consumer_alive] says whether the
      application's pointer or one on the stack of a worker is left.
    - [c_acks] are the calls of [ackMessage], [c_handed] the messages the application
      was called with, and [c_dropped] those of which the log says that nobody will
      see or acknowledge them. *)

From Stdlib Require Import ZArith Lia String Strings.Byte.
From stdpp Require Import base tactics list gmap.
From S2P Require Import Prelude Constants Wire FieldValue Props Methods Method Message.
From S2P Require Import Framer MessageStore MultipleAck AckQueue Topology Channel ReceiveChannel.
From S2P Require Import ReceiveConsumer ReceiveSession ReceiveAcks ClientProperties Transform.

(** ** Guards *)

(** [MessageGuard::State] *)
Inductive GuardState := GUARD_READY | GUARD_TRANSFERRED | GUARD_RESOLVED.

#[export] Instance GuardState_eq_dec : EqDecision GuardState.
Proof. solve_decision. Defined.

Section Consumer.
Context {E : EpochUtil} {G : GuidUtil}.

Record MessageGuard := mkMessageGuard {
  g_state : GuardState;
  g_message : Message;
  g_envelope : Envelope;
}.

Definition MessageGuard_make (message : Message) (envelope : Envelope) : MessageGuard :=
  mkMessageGuard GUARD_READY message envelope.

Definition guard_set (s : GuardState) (g : MessageGuard) : MessageGuard :=
  mkMessageGuard s (g_message g) (g_envelope g).

(** The copy constructor: the copy, and the original after it. *)
Definition MessageGuard_copy (obj : MessageGuard) : MessageGuard * MessageGuard :=
  (mkMessageGuard (g_state obj) (g_message obj) (g_envelope obj), guard_set GUARD_TRANSFERRED obj).

(** [resolve]: the acknowledgement [d_ackCallback] is called with. *)
Definition MessageGuard_resolve (ackOption : AckType) (g : MessageGuard)
  : option ConsumerAck * MessageGuard :=
  match g_state g with
  | GUARD_TRANSFERRED | GUARD_RESOLVED => (None, g)
  | GUARD_READY => (Some (mkConsumerAck (g_envelope g) ackOption), guard_set GUARD_RESOLVED g)
  end.

Definition MessageGuard_ack (g : MessageGuard) := MessageGuard_resolve ACK g.
Definition MessageGuard_nack (requeue : bool) (g : MessageGuard) :=
  MessageGuard_resolve (if requeue then REQUEUE else REJECT) g.

(** The destructor. *)
Definition MessageGuard_destroy (g : MessageGuard) : option ConsumerAck :=
  match g_state g with
  | GUARD_READY => Some (mkConsumerAck (g_envelope g) REQUEUE)
  | _ => None
  end.

(** Where a guard lives. *)
Inductive Place := OnStack | Shared | Gone.

#[export] Instance Place_eq_dec : EqDecision Place.
Proof. solve_decision. Defined.

Record GuardObject := mkGuardObject { go_place : Place; go_guard : MessageGuard }.

(** ** The consumer *)

(** Jobs posted to the event loop. *)
Inductive ConsumerPosted :=
| Posted_ackBatch
| Posted_gracefulClose
| Posted_cancel (f : FutureId)
| Posted_drain (f : FutureId)
| Posted_updateTopology (u : TopologyUpdate) (f : FutureId).

Record ConsumerImpl := mkConsumerImpl {
  c_transformers : list MessageTransformer;
  c_reference : bool;
  c_channel : Channel ReceiveState ReceiveEvent;
  c_jobs : list (Message * Envelope);
  c_guards : list GuardObject;
  c_posted : list ConsumerPosted;
  c_acks : list ConsumerAck;
  c_handed : list (Message * Envelope);
  c_dropped : list Envelope;
}.

Definition ConsumerImpl_make (tp : Topology) (config : ConsumerConfig) (paused : bool)
  (transformers : list MessageTransformer) : ConsumerImpl :=
  mkConsumerImpl transformers true (ReceiveChannel_make tp config paused) [] [] [] [] [] [].

(** *** Member assignments *)

Definition set_c_channel (ch : Channel ReceiveState ReceiveEvent) (c : ConsumerImpl) : ConsumerImpl :=
  mkConsumerImpl (c_transformers c) (c_reference c) ch (c_jobs c) (c_guards c) (c_posted c) (c_acks c)
    (c_handed c) (c_dropped c).
Definition set_c_jobs (l : list (Message * Envelope)) (c : ConsumerImpl) : ConsumerImpl :=
  mkConsumerImpl (c_transformers c) (c_reference c) (c_channel c) l (c_guards c) (c_posted c) (c_acks c)
    (c_handed c) (c_dropped c).
Definition set_c_guards (l : list GuardObject) (c : ConsumerImpl) : ConsumerImpl :=
  mkConsumerImpl (c_transformers c) (c_reference c) (c_channel c) (c_jobs c) l (c_posted c) (c_acks c)
    (c_handed c) (c_dropped c).
Definition set_c_posted (l : list ConsumerPosted) (c : ConsumerImpl) : ConsumerImpl :=
  mkConsumerImpl (c_transformers c) (c_reference c) (c_channel c) (c_jobs c) (c_guards c) l (c_acks c)
    (c_handed c) (c_dropped c).
Definition record_ack (a : ConsumerAck) (c : ConsumerImpl) : ConsumerImpl :=
  mkConsumerImpl (c_transformers c) (c_reference c) (c_channel c) (c_jobs c) (c_guards c) (c_posted c)
    (c_acks c ++ [a]) (c_handed c) (c_dropped c).
Definition record_handed (m : Message) (env : Envelope) (c : ConsumerImpl) : ConsumerImpl :=
  mkConsumerImpl (c_transformers c) (c_reference c) (c_channel c) (c_jobs c) (c_guards c) (c_posted c)
    (c_acks c) (c_handed c ++ [(m, env)]) (c_dropped c).
Definition record_dropped (l : list Envelope) (c : ConsumerImpl) : ConsumerImpl :=
  mkConsumerImpl (c_transformers c) (c_reference c) (c_channel c) (c_jobs c) (c_guards c) (c_posted c)
    (c_acks c) (c_handed c) (c_dropped c ++ l).
Definition set_c_reference (b : bool) (c : ConsumerImpl) : ConsumerImpl :=
  mkConsumerImpl (c_transformers c) b (c_channel c) (c_jobs c) (c_guards c) (c_posted c) (c_acks c)
    (c_handed c) (c_dropped c).
Definition post_job (j : ConsumerPosted) (c : ConsumerImpl) : ConsumerImpl := set_c_posted (c_posted c ++ [j]) c.

(** [weak_from_this().lock()] succeeds. *)
Definition consumer_alive (c : ConsumerImpl) : bool :=
  c_reference c || existsb (λ o, bool_decide (go_place o = OnStack)) (c_guards c).

(** *** The channel and the event loop *)

(** What a part of the channel's trace hands to the consumer's callback, and the posts of
    [d_onNewAckBatch]. *)
Definition new_messages (es : list (Effect ReceiveEvent)) : list (Message * Envelope) :=
  omap (λ e, match e with Callback (OnNewMessage m env) => Some (m, env) | _ => None end) es.
Definition new_ackBatches (es : list (Effect ReceiveEvent)) : list ConsumerPosted :=
  omap (λ e, match e with Callback NewAckBatch => Some Posted_ackBatch | _ => None end) es.

(** An operation of the channel, with [handleMessage] for the messages it delivers; [accepts] says
    whether the pool takes a job. *)
Definition on_receive {AS : AckSort} (accepts : Message * Envelope → bool) (clock : Z → Z) (op : ReceiveOp)
  (c : ConsumerImpl) : ConsumerImpl :=
  let ch := receive_op clock op (c_channel c) in
  let es := drop (length (c_trace (c_channel c))) (c_trace ch) in
  record_dropped (filter (λ m, ¬ accepts m = true) (new_messages es)).*2
    (set_c_jobs (c_jobs c ++ filter (λ m, accepts m = true) (new_messages es))
      (set_c_posted (c_posted c ++ new_ackBatches es) (set_c_channel ch c))).

(** [start] *)
Definition ConsumerImpl_start {AS : AckSort} (hp : Heap) (queue : QueueHandle) (consumerTag : bytes)
  (c : ConsumerImpl) : ConsumerImpl :=
  on_receive (λ _, true) (λ _, 0%Z) (Recv_consume hp queue consumerTag) c.

Definition posted_op (hp : Heap) (j : ConsumerPosted) : ReceiveOp :=
  match j with
  | Posted_ackBatch => Recv_consumeAckBatch
  | Posted_gracefulClose => Recv_channel Op_gracefulClose
  | Posted_cancel f => Recv_cancel f
  | Posted_drain f => Recv_drain f
  | Posted_updateTopology u f => Recv_channel (Op_updateTopology hp u f)
  end.

(** The event loop runs the first posted job. *)
Definition consumer_loop_step {AS : AckSort} (accepts : Message * Envelope → bool) (clock : Z → Z)
  (hp : Heap) (c : ConsumerImpl) : ConsumerImpl :=
  match c_posted c with
  | [] => c
  | j :: l => on_receive accepts clock (posted_op hp j) (set_c_posted l c)
  end.

(** *** Acknowledging *)

(** [messageGuardCb]: [ackMessage] unless the consumer is gone. *)
Definition messageGuardCb {AS : AckSort} (ack : option ConsumerAck) (c : ConsumerImpl) : ConsumerImpl :=
  match ack with
  | None => c
  | Some a =>
      if consumer_alive c
      then record_ack a (on_receive (λ _, true) (λ _, 0%Z) (Recv_ackMessage a) c)
      else record_dropped [ack_envelope a] c
  end.

(** A call of the application on guard [i]. *)
Definition guard_call {AS : AckSort} (f : MessageGuard → option ConsumerAck * MessageGuard) (i : nat)
  (c : ConsumerImpl) : ConsumerImpl :=
  match c_guards c !! i with
  | Some (mkGuardObject Gone _) | None => c
  | Some (mkGuardObject place g) =>
      let (ack, g') := f g in
      messageGuardCb ack (set_c_guards (<[i := mkGuardObject place g']> (c_guards c)) c)
  end.

(** [transferOwnership]: the new guard is shared. *)
Definition transferOwnership (i : nat) (c : ConsumerImpl) : ConsumerImpl :=
  match c_guards c !! i with
  | Some (mkGuardObject Gone _) | None => c
  | Some (mkGuardObject place g) =>
      let (copy, g') := MessageGuard_copy g in
      set_c_guards (<[i := mkGuardObject place g']> (c_guards c) ++ [mkGuardObject Shared copy]) c
  end.

(** *** The workers *)

(** [threadPoolHandleMessage] up to the call of [d_onMessage]; [fresh] is a GUID a new message may
    need. A transformer that breaks its contract by taking the header table away counts as failed. *)
Definition threadPoolHandleMessage (i : nat) (fresh : Guid) (c : ConsumerImpl) : ConsumerImpl :=
  match c_jobs c !! i with
  | None => c
  | Some (message, envelope) =>
      let c := set_c_jobs (delete i (c_jobs c)) c in
      if negb (consumer_alive c) then record_dropped [envelope] c
      else
        let realMsg :=
          match c_transformers c with
          | [] => Some message
          | _ => match unpackTransformations fresh (c_transformers c) message with
                 | Done m => Some m
                 | _ => None
                 end
          end in
        match realMsg with
        | None => record_dropped [envelope] c
        | Some m =>
            record_handed m envelope
              (set_c_guards (c_guards c ++ [mkGuardObject OnStack (MessageGuard_make m envelope)]) c)
        end
  end.

(** The destructor of the consumer, when the last pointer went. *)
Definition destroy_if_last (before : bool) (c : ConsumerImpl) : ConsumerImpl :=
  if before && negb (consumer_alive c) then post_job Posted_gracefulClose c else c.

(** A guard is destroyed: at the end of the call of [d_onMessage] ([OnStack], then the worker's pointer
    to the consumer goes), or with the last shared pointer to it. *)
Definition guard_destroy {AS : AckSort} (i : nat) (c : ConsumerImpl) : ConsumerImpl :=
  match c_guards c !! i with
  | Some (mkGuardObject Gone _) | None => c
  | Some (mkGuardObject place g) =>
      let before := consumer_alive c in
      let c := messageGuardCb (MessageGuard_destroy g) c in
      destroy_if_last before (set_c_guards (<[i := mkGuardObject Gone g]> (c_guards c)) c)
  end.

(** The application drops its pointer. *)
Definition ConsumerImpl_release (c : ConsumerImpl) : ConsumerImpl :=
  destroy_if_last (consumer_alive c) (set_c_reference false c).

(** *** Runs *)

Inductive ConsumerOp :=
| C_start (hp : Heap) (queue : QueueHandle) (consumerTag : bytes)
| C_channel (accepts : Message * Envelope → bool) (clock : Z → Z) (op : ReceiveOp)
| C_eventLoop (accepts : Message * Envelope → bool) (clock : Z → Z) (hp : Heap)
| C_handleMessage (i : nat) (fresh : Guid)
| C_ack (i : nat)
| C_nack (i : nat) (requeue : bool)
| C_transferOwnership (i : nat)
| C_destroyGuard (i : nat)
| C_cancel (f : FutureId)
| C_drain (f : FutureId)
| C_updateTopology (u : TopologyUpdate) (f : FutureId)
| C_release.

Definition consumer_op {AS : AckSort} (op : ConsumerOp) (c : ConsumerImpl) : ConsumerImpl :=
  match op with
  | C_start hp queue tag => ConsumerImpl_start hp queue tag c
  | C_channel accepts clock op => on_receive accepts clock op c
  | C_eventLoop accepts clock hp => consumer_loop_step accepts clock hp c
  | C_handleMessage i fresh => threadPoolHandleMessage i fresh c
  | C_ack i => guard_call MessageGuard_ack i c
  | C_nack i requeue => guard_call (MessageGuard_nack requeue) i c
  | C_transferOwnership i => transferOwnership i c
  | C_destroyGuard i => guard_destroy i c
  | C_cancel f => post_job (Posted_cancel f) c
  | C_drain f => post_job (Posted_drain f) c
  | C_updateTopology u f => post_job (Posted_updateTopology u f) c
  | C_release => ConsumerImpl_release c
  end.

Definition consumer_run {AS : AckSort} (ops : list ConsumerOp) (c : ConsumerImpl) : ConsumerImpl :=
  fold_left (λ c op, consumer_op op c) ops c.
End Consumer.

(** ** What an operation of the channel delivers *)

Section Deliveries.
Context {E : EpochUtil} {G : GuidUtil}.

Abbreviation ReceiveChannel := (Channel ReceiveState ReceiveEvent).

Lemma delivered_new (c c' : ReceiveChannel) es :
  c_trace c' = c_trace c ++ es → delivered c' = delivered c ++ (new_messages es).*2.
Proof using.
  intros Ht. unfold delivered. rewrite Ht, omap_app. f_equal. clear Ht.
  induction es as [| e es IH]; [done |]. destruct e as [| | | | | | | | | [] |]; cbn; rewrite IH; done.
Qed.

Definition same_delivered (c c' : ReceiveChannel) : Prop :=
  trace_grows c c' ∧ delivered c' = delivered c.

#[global] Instance same_delivered_preorder : PreOrder same_delivered.
Proof using.
  split; [by split |]. intros c1 c2 c3 [H12 Hd12] [H23 Hd23]. split; [by transitivity c2 | congruence].
Qed.

Lemma bystander_delivered c c' : bystander c c' → same_delivered c c'.
Proof using.
  intros [(es & Ht & Hes) _ _ _]. split; [by exists es |]. destruct (unrelated_emits es c Hes) as (Hd & _).
  unfold delivered in *. by rewrite Ht.
Qed.

Lemma same_delivered_closed clock : channel_closed (H := no_contents clock) same_delivered.
Proof using.
  split; intros; try apply _; try (by apply bystander_delivered, bystander_same).
  - by apply bystander_delivered, bystander_emit, base_effect_unrelated.
  - apply bystander_delivered. unfold Channel_open. case_match; [done |].
    etrans; [by apply (bystander_emit TimerStart) |]. by apply bystander_writeState.
  - rewrite <- (channel_op_ext (ReceiveChannel_hooks clock) (no_contents clock) (Op_reset b) c
                  eq_refl eq_refl eq_refl eq_refl eq_refl I : (Channel_reset b c).2 = (Channel_reset b c).2).
    split; [| by apply (reset_acks_members clock b c)].
    apply (channel_op_closed (H := ReceiveChannel_hooks clock) trace_grows trace_grows_closed (Op_reset b) c).
  - apply bystander_delivered, processBasicMethod_bystander.
  - apply bystander_delivered. simpl. etrans; [by apply (bystander_emit TimerReset) | by apply bystander_writeState].
Qed.

Lemma channel_op_delivered clock op c :
  is_content op = false → same_delivered c (channel_op (H := ReceiveChannel_hooks clock) op c).
Proof using.
  intros Hc. rewrite (channel_op_ext (ReceiveChannel_hooks clock) (no_contents clock) op c) by
    (done || (destruct op as [| | | hp m | | | | | |]; try exact I;
              destruct m as [| | m | [| m | | | | |]]; try exact I; [done | exact eq_refl])).
  apply channel_op_closed, same_delivered_closed.
Qed.

(** A new delivery has an envelope that was not seen before. *)
Definition delivers_at_most_one (c c' : ReceiveChannel) : Prop :=
  ∃ es, c_trace c' = c_trace c ++ es ∧
    (new_messages es = [] ∨ ∃ m env, new_messages es = [(m, env)] ∧ env ∉ delivered c).

Lemma same_delivered_none c c' : same_delivered c c' → delivers_at_most_one c c'.
Proof using.
  intros [(es & Ht) Hd]. exists es. split; [done |]. left.
  rewrite (delivered_new _ _ _ Ht) in Hd. apply (f_equal length) in Hd. rewrite length_app, length_fmap in Hd.
  apply nil_length_inv. lia.
Qed.

Lemma processMessage_delivers clock m acked processed b c :
  (∀ d, d_nextMessage (c_derived c) = Some d →
     BasicDeliver_deliveryTag d = (Z.of_nat (length (delivered_live c)) + 1)%Z) →
  acks_inv acked processed b c → delivers_at_most_one c (ReceiveChannel_processMessage clock m c).
Proof using.
  intros Hn Hi. unfold ReceiveChannel_processMessage.
  destruct (d_nextMessage (c_derived c)) as [d |] eqn:Hd;
    [| by apply same_delivered_none, bystander_delivered, bystander_close].
  pose proof (insert_lifetime (clock (BasicDeliver_deliveryTag d)) (BasicDeliver_deliveryTag d) m
                (d_messageStore (c_derived c))) as Hl.
  destruct (MessageStore_insert _ _ _ _) as [inserted store]. simpl in Hl.
  destruct inserted; simpl; [| by apply same_delivered_none, bystander_delivered, bystander_close].
  destruct (consumer_with _ _) as [k |].
  2: { apply same_delivered_none, bystander_delivered. etrans; [| apply bystander_close].
       split; try done. exists []. by rewrite app_nil_r. }
  set (env := Consumer_envelope d _).
  exists [Counter received_messages; Callback (OnNewMessage m env)].
  split; [cbn; by rewrite <- app_assoc |]. right. exists m, env. split; [done |]. intros Hin.
  destruct (ai_past _ _ _ _ Hi env Hin) as [_ Hlive].
  assert (env_channelLifetimeId env = Z.of_nat (resets c)) as He.
  { rewrite <- (ai_lifetime _ _ _ _ Hi). exact Hl. }
  assert (env_deliveryTag env ∈ env_deliveryTag <$> delivered_live c) as Ht by (by apply list_elem_of_fmap_2, Hlive).
  rewrite (ai_tags _ _ _ _ Hi), elem_of_seqZ in Ht. cbn in Ht. rewrite (Hn d eq_refl) in Ht. lia.
Qed.

Context {AS : AckSort} {SL : AckSortLaws AS}.

Lemma ackMessage_delivers clock a c : same_delivered c (receive_op clock (Recv_ackMessage a) c).
Proof using.
  cbn. unfold ReceiveChannel_ackMessage. destruct (ConsumerImpl_ackMessage _ _) as [posted q].
  assert (same_delivered c (modify (λ d, set_acks q (d_multipleAckHandler d) d) c)) as Hm
    by (split; [by apply trace_grows_same | done]).
  destruct posted; [| done]. etrans; [exact Hm |]. by apply bystander_delivered, bystander_emit.
Qed.

Lemma sendAcks_grow calls : ∀ c,
  trace_grows c (fold_left (λ c a, ReceiveChannel_sendAckOrNack a c) calls c).
Proof using.
  induction calls as [| a calls IH]; intros c; cbn; [done |].
  etrans; [| apply IH]. apply trace_grows_emit.
Qed.

Lemma consumeAckBatch_delivers b c :
  broker_view c = Some b → same_delivered c (ReceiveChannel_consumeAckBatchFromQueue c).
Proof using.
  intros Hb. unfold ReceiveChannel_consumeAckBatchFromQueue.
  destruct (AckQueue_popFront _) as [[acks q] |]; [| done].
  assert (∀ h, same_delivered c (modify (set_acks q h) c)) as Hm
    by (intros h; split; [by apply trace_grows_same | done]).
  assert (same_delivered c (let (calls, handler) := MultipleAckHandler_process
    (valid_acks (ReceiveChannel_lifetimeId c) acks) (d_multipleAckHandler (c_derived c)) in
    fold_left (λ c a, ReceiveChannel_sendAckOrNack a c) calls (modify (set_acks q handler) c))) as Hs.
  { destruct (MultipleAckHandler_process _ _) as [calls h]. split.
    - etrans; [apply (Hm h) | apply sendAcks_grow].
    - by destruct (sendAcks_view calls (modify (set_acks q h) c) b Hb) as (_ & -> & _). }
  destruct (d_state c); done.
Qed.

Lemma receive_op_delivers clock op acked processed b c :
  is_ack op = false → numbered op c → acks_inv acked processed b c →
  delivers_at_most_one c (receive_op clock op c).
Proof using SL.
  intros Ha Hn Hi. destruct op as [op | | | | | | a | |]; cbn [receive_op]; try done.
  - destruct (is_content op) eqn:Hc; [| by apply same_delivered_none, channel_op_delivered].
    destruct op as [| | | hp m | | | | | |]; try done. destruct m as [| | m |]; try done. cbn [channel_op numbered] in *.
    assert (delivers_at_most_one c (ReceiveChannel_processMessage clock m c)) as Hp
      by (eapply processMessage_delivers; [| exact Hi]; intros d Hd; by destruct (Hn d Hd)).
    unfold Channel_processReceived. destruct (d_state c); try exact Hp; by apply same_delivered_none.
  - apply same_delivered_none, bystander_delivered, consume_bystander.
  - apply same_delivered_none, bystander_delivered, resume_bystander.
  - apply same_delivered_none, bystander_delivered, cancel_bystander.
  - apply same_delivered_none, bystander_delivered, pause_bystander.
  - apply same_delivered_none, bystander_delivered, drain_bystander.
  - apply same_delivered_none. by eapply consumeAckBatch_delivers, ai_view.
  - apply same_delivered_none, bystander_delivered, removeMessages_bystander.
Qed.
End Deliveries.

(** ** Every delivered message is in one place *)

Section Invariant.
Context {E : EpochUtil} {G : GuidUtil} {AS : AckSort} {SL : AckSortLaws AS}.

Abbreviation ConsumerObject := (@ConsumerImpl E G).

(** The envelope a guard is responsible for. *)
Definition ready_of (o : @GuardObject E G) : option Envelope :=
  match go_place o, g_state (go_guard o) with
  | Gone, _ => None
  | _, GUARD_READY => Some (g_envelope (go_guard o))
  | _, _ => None
  end.

(** [extra] are envelopes an operation has in its hands. *)
Record consumer_inv (extra : list Envelope) (c : ConsumerObject) : Prop := {
  ci_acking : acking (c_acks c) (c_channel c);
  ci_once : NoDup (delivered (c_channel c));
  ci_where : delivered (c_channel c)
    ≡ₚ extra ++ (c_jobs c).*2 ++ omap ready_of (c_guards c) ++ (ack_envelope <$> c_acks c) ++ c_dropped c;
}.

Lemma consumer_inv_make tp config paused ts : consumer_inv [] (ConsumerImpl_make tp config paused ts).
Proof using. split; [constructor | apply NoDup_nil_2 | done]. Qed.

Lemma on_receive_inv accepts clock op (c : ConsumerObject) :
  is_ack op = false → numbered op (c_channel c) →
  (Z.of_nat (resets (receive_op clock op (c_channel c))) < 2 ^ 64)%Z →
  consumer_inv [] c → consumer_inv [] (on_receive accepts clock op c).
Proof using SL.
  intros Ha Hn Hr []. destruct (acking_inv _ _ ci_acking0) as (processed & b & Hi).
  destruct (receive_op_delivers clock op _ _ _ _ Ha Hn Hi) as (es & Ht & Hes).
  pose proof (delivered_new _ _ _ Ht) as Hd. unfold on_receive. rewrite Ht, drop_app_length.
  split; cbn -[receive_op].
  - by apply acking_op.
  - rewrite Hd. destruct Hes as [-> | (m & env & -> & Hni)]; cbn; [by rewrite app_nil_r |].
    apply NoDup_app. split; [done |]. split; [| apply NoDup_singleton].
    intros x Hx ->%list_elem_of_singleton. done.
  - assert ((new_messages es).*2 ≡ₚ (filter (λ m, accepts m = true) (new_messages es)).*2 ++
      (filter (λ m, ¬ accepts m = true) (new_messages es)).*2) as Hn' by (by rewrite <- fmap_app, filter_app_complement).
    rewrite Hd, ci_where0, Hn', fmap_app. cbn. solve_Permutation.
Qed.

Lemma inv_ready_in extra env (c : ConsumerObject) :
  consumer_inv (env :: extra) c →
  env ∈ delivered (c_channel c) ∧ env ∉ ack_envelope <$> c_acks c.
Proof using.
  intros []. pose proof ci_once0 as Hnd. rewrite ci_where0 in Hnd |- *. cbn in *.
  apply NoDup_cons in Hnd as [Hni _]. split; [by left |]. intros Hin. apply Hni. rewrite !elem_of_app. auto.
Qed.

(** The callback, once it is known whether the consumer is alive. *)
Definition callback_at (alive : bool) (a : ConsumerAck) (c : ConsumerObject) : ConsumerObject :=
  if alive then record_ack a (on_receive (λ _, true) (λ _, 0%Z) (Recv_ackMessage a) c)
  else record_dropped [ack_envelope a] c.

Lemma callback_at_inv alive a (c : ConsumerObject) :
  consumer_inv [ack_envelope a] c → consumer_inv [] (callback_at alive a c).
Proof using.
  intros Hi. destruct (inv_ready_in _ _ _ Hi) as [Hin Hni]. destruct Hi. destruct alive; cbn.
  - destruct (ackMessage_delivers (λ _, 0%Z) a (c_channel c)) as [(es & Ht) Hd].
    assert (new_messages es = []) as Hes.
    { rewrite (delivered_new _ _ _ Ht) in Hd. apply (f_equal length) in Hd.
      rewrite length_app, length_fmap in Hd. apply nil_length_inv. lia. }
    unfold on_receive. rewrite Ht, drop_app_length, Hes. split; cbn -[receive_op].
    + by apply acking_ack.
    + by rewrite Hd.
    + rewrite Hd, ci_where0, !app_nil_r, fmap_app. cbn. solve_Permutation.
  - split; cbn; [done.. |]. rewrite ci_where0. cbn. solve_Permutation.
Qed.

(** *** Guards *)

Lemma guards_insert (l : list (@GuardObject E G)) i o o' :
  l !! i = Some o →
  option_list (ready_of o) ++ omap ready_of (<[i := o']> l) ≡ₚ option_list (ready_of o') ++ omap ready_of l.
Proof using.
  intros Hi. pose proof (lookup_lt_Some _ _ _ Hi) as Hl.
  rewrite <- (take_drop_middle l i o Hi) at 2. rewrite insert_take_drop by done. rewrite !omap_app. cbn.
  destruct (ready_of o), (ready_of o'); cbn; solve_Permutation.
Qed.

(** What a guard's operation hands to the callback is what the guard gave up. *)
Definition settles (o o' : @GuardObject E G) (ack : option ConsumerAck) : Prop :=
  ready_of o = ack_envelope <$> ack ∧ ready_of o' = None ∨ ack = None ∧ ready_of o' = ready_of o.

Lemma settles_inv alive i o o' ack (c : ConsumerObject) :
  c_guards c !! i = Some o → settles o o' ack → consumer_inv [] c →
  consumer_inv [] (from_option (callback_at alive) id ack (set_c_guards (<[i := o']> (c_guards c)) c)).
Proof using.
  intros Hi Hs []. pose proof (guards_insert _ _ _ o' Hi) as Hg.
  destruct Hs as [[Ho Ho'] | [-> Ho]].
  - destruct ack as [a |]; rewrite Ho, Ho' in Hg; cbn in Hg.
    + apply callback_at_inv. split; cbn; [done.. |]. rewrite ci_where0, <- Hg. cbn. solve_Permutation.
    + split; cbn; [done.. |]. by rewrite ci_where0, Hg.
  - rewrite Ho in Hg. apply Permutation_app_inv_l in Hg. split; cbn; [done.. |]. by rewrite ci_where0, Hg.
Qed.

Lemma messageGuardCb_at ack (c : ConsumerObject) :
  messageGuardCb ack c = from_option (callback_at (consumer_alive c)) id ack c.
Proof using. by destruct ack. Qed.

Lemma callback_at_guards alive ack l (c : ConsumerObject) :
  set_c_guards l (from_option (callback_at alive) id ack c)
  = from_option (callback_at alive) id ack (set_c_guards l c).
Proof using. destruct ack as [a |]; [| done]. by destruct alive. Qed.

Lemma resolve_settles ty place g :
  place ≠ Gone →
  settles (mkGuardObject place g) (mkGuardObject place (MessageGuard_resolve ty g).2) (MessageGuard_resolve ty g).1.
Proof using.
  intros Hp. unfold settles, ready_of, MessageGuard_resolve. destruct g as [[] m env], place; try (by destruct Hp); cbn; auto.
Qed.

Lemma guard_call_inv f i (c : ConsumerObject) :
  (∀ g place, place ≠ Gone → settles (mkGuardObject place g) (mkGuardObject place (f g).2) (f g).1) →
  consumer_inv [] c → consumer_inv [] (guard_call f i c).
Proof using.
  intros Hf Hc. unfold guard_call. destruct (c_guards c !! i) as [[place g] |] eqn:Hi; [| done].
  assert (place ≠ Gone → consumer_inv [] (let (ack, g') := f g in
    messageGuardCb ack (set_c_guards (<[i := mkGuardObject place g']> (c_guards c)) c))) as H.
  { intros Hp. specialize (Hf g place Hp). destruct (f g) as [ack g']. rewrite messageGuardCb_at. by eapply settles_inv. }
  destruct place; [by apply H.. | done].
Qed.

Lemma transfer_inv i (c : ConsumerObject) : consumer_inv [] c → consumer_inv [] (transferOwnership i c).
Proof using.
  intros Hc. unfold transferOwnership. destruct (c_guards c !! i) as [[place g] |] eqn:Hi; [| done].
  assert (place ≠ Gone → consumer_inv [] (let (copy, g') := MessageGuard_copy g in
    set_c_guards (<[i := mkGuardObject place g']> (c_guards c) ++ [mkGuardObject Shared copy]) c)) as H.
  { intros Hp. destruct Hc. pose proof (guards_insert _ _ _ (mkGuardObject place (guard_set GUARD_TRANSFERRED g)) Hi) as Hg.
    cbn. split; cbn; [done.. |]. rewrite ci_where0, omap_app.
    assert (omap ready_of (c_guards c) ≡ₚ
      omap ready_of (<[i := mkGuardObject place (guard_set GUARD_TRANSFERRED g)]> (c_guards c)) ++
      omap ready_of [mkGuardObject Shared (mkMessageGuard (g_state g) (g_message g) (g_envelope g))]) as ->; [| done].
    revert Hg. unfold ready_of at 1 3 6. destruct g as [[] m env], place; cbn; try done; intros Hg;
      rewrite <- Hg, ?app_nil_r; try done; solve_Permutation. }
  destruct place; [by apply H.. | done].
Qed.

Lemma destroy_if_last_inv b (c : ConsumerObject) : consumer_inv [] c → consumer_inv [] (destroy_if_last b c).
Proof using. intros []. unfold destroy_if_last. by destruct (b && _). Qed.

Lemma guard_destroy_inv i (c : ConsumerObject) : consumer_inv [] c → consumer_inv [] (guard_destroy i c).
Proof using.
  intros Hc. unfold guard_destroy. destruct (c_guards c !! i) as [[place g] |] eqn:Hi; [| done].
  assert (place ≠ Gone → consumer_inv [] (destroy_if_last (consumer_alive c) (set_c_guards
    (<[i := mkGuardObject Gone g]> (c_guards (messageGuardCb (MessageGuard_destroy g) c)))
    (messageGuardCb (MessageGuard_destroy g) c)))) as H.
  { intros Hp. apply destroy_if_last_inv. rewrite messageGuardCb_at, callback_at_guards.
    assert (c_guards (from_option (callback_at (consumer_alive c)) id (MessageGuard_destroy g) c) = c_guards c) as ->
      by (destruct (MessageGuard_destroy g); [by destruct (consumer_alive c) | done]).
    eapply settles_inv; [exact Hi | | exact Hc].
    unfold settles, ready_of, MessageGuard_destroy. destruct g as [[] m env], place; try (by destruct Hp); cbn; auto. }
  destruct place; [by apply H.. | done].
Qed.

(** *** Workers *)

Lemma handleMessage_inv i fresh (c : ConsumerObject) :
  consumer_inv [] c → consumer_inv [] (threadPoolHandleMessage i fresh c).
Proof using.
  intros []. unfold threadPoolHandleMessage. destruct (c_jobs c !! i) as [[m env] |] eqn:Hj; [| done].
  apply delete_Permutation, (Permutation_map snd) in Hj. change (map snd) with (fmap (M := list) (@snd Message Envelope)) in Hj.
  cbn in Hj. cbn zeta.
  assert (consumer_inv [] (record_dropped [env] (set_c_jobs (delete i (c_jobs c)) c))) as Hd.
  { split; cbn; [done.. |]. rewrite ci_where0, Hj. cbn. solve_Permutation. }
  destruct (negb _); [exact Hd |]. destruct (match c_transformers _ with [] => _ | _ => _ end) as [m' |]; [| exact Hd].
  split; cbn; [done.. |]. rewrite ci_where0, Hj, omap_app. cbn. solve_Permutation.
Qed.

(** *** Runs *)

(** What is assumed of an operation: the broker numbers the deliveries of a channel,
    acknowledgements come from guards, and resets do not wrap the lifetime counter. *)
Definition op_ok (op : @ConsumerOp E G) (c : ConsumerObject) : Prop :=
  (Z.of_nat (resets (c_channel (consumer_op op c))) < 2 ^ 64)%Z ∧
  match op with
  | C_channel _ _ op => is_ack op = false ∧ numbered op (c_channel c)
  | _ => True
  end.

Fixpoint run_ok (ops : list (@ConsumerOp E G)) (c : ConsumerObject) : Prop :=
  match ops with
  | [] => True
  | op :: ops => op_ok op c ∧ run_ok ops (consumer_op op c)
  end.

Lemma posted_op_plain hp j (ch : Channel ReceiveState ReceiveEvent) :
  is_ack (posted_op hp j) = false ∧ numbered (posted_op hp j) ch.
Proof using. by destruct j. Qed.

Lemma consumer_op_inv op (c : ConsumerObject) : op_ok op c → consumer_inv [] c → consumer_inv [] (consumer_op op c).
Proof using SL.
  intros [Hr Ho] Hc. destruct op as [hp queue tag | accepts clock op | accepts clock hp | i fresh | i | i rq
    | i | i | f | f | u f |]; cbn [consumer_op] in *.
  - by apply on_receive_inv.
  - destruct Ho as [Ha Hn]. by apply on_receive_inv.
  - unfold consumer_loop_step in *. destruct (c_posted c) as [| j l]; [done |].
    destruct (posted_op_plain hp j (c_channel c)) as [Ha Hn]. apply on_receive_inv; try done. by destruct Hc.
  - by apply handleMessage_inv.
  - apply guard_call_inv; [| done]. intros g place. apply resolve_settles.
  - apply guard_call_inv; [| done]. intros g place. apply resolve_settles.
  - by apply transfer_inv.
  - by apply guard_destroy_inv.
  - by destruct Hc.
  - by destruct Hc.
  - by destruct Hc.
  - unfold ConsumerImpl_release. apply destroy_if_last_inv. by destruct Hc.
Qed.

Lemma consumer_run_inv ops : ∀ c : ConsumerObject, run_ok ops c → consumer_inv [] c → consumer_inv [] (consumer_run ops c).
Proof using SL.
  induction ops as [| op ops IH]; intros c Hok Hc; [done |]. destruct Hok as [Ho Hok].
  apply IH; [done |]. by apply consumer_op_inv.
Qed.
(** *** Messages nobody will acknowledge *)

(** [c'] has dropped more than [c] only if [dead] allows it. *)
Definition drops_if (dead : Prop) (c c' : ConsumerObject) : Prop :=
  c_reference c' = c_reference c ∧ ∃ l, c_dropped c' = c_dropped c ++ l ∧ (¬ dead → l = []).

Lemma drops_same dead (c c' : ConsumerObject) :
  c_reference c' = c_reference c → c_dropped c' = c_dropped c → drops_if dead c c'.
Proof using. intros Hr Hd. split; [done |]. exists []. by rewrite app_nil_r. Qed.

Lemma drops_more (dead : Prop) env (c c' : ConsumerObject) :
  dead → c_reference c' = c_reference c → c_dropped c' = c_dropped c ++ [env] → drops_if dead c c'.
Proof using. intros Hdead Hr Hd. split; [done |]. exists [env]. by split. Qed.

Lemma drops_on_receive accepts clock op (c : ConsumerObject) :
  drops_if (¬ ∀ m, accepts m = true) c (on_receive accepts clock op c).
Proof using.
  split; [done |]. eexists. split; [reflexivity |]. intros Ha.
  destruct (filter (λ m, ¬ accepts m = true) _) as [| m l] eqn:Hf; [done |].
  assert (m ∈ m :: l) as Hm by (by left). rewrite <- Hf in Hm. apply list_elem_of_filter in Hm as [Hm _].
  destruct Ha. intros H. by apply Hm.
Qed.

Lemma drops_callback ack l (c : ConsumerObject) :
  drops_if (c_reference c = false) c (messageGuardCb ack (set_c_guards l c)).
Proof using.
  destruct ack as [a |]; [| by apply drops_same]. cbn -[receive_op]. unfold consumer_alive. cbn.
  destruct (c_reference c) eqn:Hr; cbn -[on_receive].
  - destruct (drops_on_receive (λ _, true) (λ _, 0%Z) (Recv_ackMessage a) (set_c_guards l c)) as [Hr' (d & Hd & Hn)].
    split; [done |]. exists d. split; [exact Hd |]. intros _. apply Hn. intros Ha. by apply Ha.
  - destruct (existsb _ l).
    + destruct (drops_on_receive (λ _, true) (λ _, 0%Z) (Recv_ackMessage a) (set_c_guards l c)) as [Hr' (d & Hd & Hn)].
      split; [cbn; congruence |]. exists d. split; [exact Hd |]. intros _. apply Hn. intros Ha. by apply Ha.
    + by eapply drops_more.
Qed.

Lemma drops_if_last dead b (c c' : ConsumerObject) : drops_if dead c c' → drops_if dead c (destroy_if_last b c').
Proof using. intros [Hr Hd]. unfold destroy_if_last. by destruct (b && _). Qed.

(** The message of job [i] cannot be unpacked. *)
Definition undecodable (i : nat) (fresh : Guid) (c : ConsumerObject) : Prop :=
  ∃ m env, c_jobs c !! i = Some (m, env) ∧ c_transformers c ≠ [] ∧
    ∀ m', unpackTransformations fresh (c_transformers c) m ≠ Done m'.

(** What makes an operation give up a message. *)
Definition may_drop (op : @ConsumerOp E G) (c : ConsumerObject) : Prop :=
  match op with
  | C_channel accepts _ _ | C_eventLoop accepts _ _ => ¬ ∀ m, accepts m = true
  | C_handleMessage i fresh => c_reference c = false ∨ undecodable i fresh c
  | _ => c_reference c = false
  end.

Lemma op_drops op (c : ConsumerObject) : op ≠ C_release → drops_if (may_drop op c) c (consumer_op op c).
Proof using.
  intros Hop. destruct op as [hp queue tag | accepts clock op | accepts clock hp | i fresh | i | i rq
    | i | i | f | f | u f |]; cbn [consumer_op may_drop]; try done; try (by apply drops_same).
  - destruct (drops_on_receive (λ _, true) (λ _, 0%Z) (Recv_consume hp queue tag) c) as [Hr (d & Hd & Hn)].
    split; [done |]. exists d. split; [exact Hd |]. intros _. apply Hn. intros Ha. by apply Ha.
  - apply drops_on_receive.
  - unfold consumer_loop_step. destruct (c_posted c) as [| j l]; [by apply drops_same |].
    apply (drops_on_receive accepts clock (posted_op hp j) (set_c_posted l c)).
  - unfold threadPoolHandleMessage. destruct (c_jobs c !! i) as [[m env] |] eqn:Hj; [| by apply drops_same].
    cbn zeta. unfold consumer_alive. cbn. destruct (c_reference c) eqn:Hr; cbn.
    2: destruct (existsb _ _); cbn.
    1, 2: destruct (match c_transformers c with [] => _ | _ => _ end) as [m' |] eqn:Hu; [by apply drops_same |];
      apply (drops_more _ env); [| done..]; right; exists m, env; split; [done |];
      destruct (c_transformers c) as [| t ts]; [done |]; split; [done |]; intros m' Hm'; by rewrite Hm' in Hu.
    apply (drops_more _ env); [by left | done..].
  - unfold guard_call. destruct (c_guards c !! i) as [[[] g] |]; try (by apply drops_same);
      destruct (MessageGuard_ack g); apply drops_callback.
  - unfold guard_call. destruct (c_guards c !! i) as [[[] g] |]; try (by apply drops_same);
      destruct (MessageGuard_nack rq g); apply drops_callback.
  - unfold transferOwnership. destruct (c_guards c !! i) as [[[] g] |]; by apply drops_same.
  - unfold guard_destroy. destruct (c_guards c !! i) as [[[] g] |]; try (by apply drops_same);
      apply drops_if_last; destruct (drops_callback (MessageGuard_destroy g) (c_guards c) c) as [Hr Hd];
      by destruct c.
Qed.

Lemma op_transformers op (c : ConsumerObject) : c_transformers (consumer_op op c) = c_transformers c.
Proof using.
  assert (∀ ack c', c_transformers (messageGuardCb ack c') = c_transformers (c' : ConsumerObject)) as Hcb.
  { intros [a |] c'; [| done]. unfold messageGuardCb. by destruct (consumer_alive c'). }
  destruct op; cbn [consumer_op]; unfold consumer_loop_step, threadPoolHandleMessage, guard_call, transferOwnership,
    guard_destroy, ConsumerImpl_release, destroy_if_last; repeat case_match; simplify_eq; try done; cbn;
    rewrite ?Hcb; try done.
Qed.

Lemma run_transformers ops : ∀ c : ConsumerObject, c_transformers (consumer_run ops c) = c_transformers c.
Proof using.
  induction ops as [| op ops IH]; intros c; [done |]. rewrite <- (op_transformers op c). apply IH.
Qed.

Lemma run_drops ops : ∀ c : ConsumerObject, ∃ l, c_dropped (consumer_run ops c) = c_dropped c ++ l.
Proof using.
  induction ops as [| op ops IH]; intros c; [exists []; by rewrite app_nil_r |].
  change (∃ l, c_dropped (consumer_run ops (consumer_op op c)) = c_dropped c ++ l).
  destruct (IH (consumer_op op c)) as [l ->].
  assert (∃ l', c_dropped (consumer_op op c) = c_dropped c ++ l') as [l' ->];
    [| exists (l' ++ l); by rewrite app_assoc].
  assert (op = C_release ∨ op ≠ C_release) as [-> | Hop] by (destruct op; first [by left | by right]).
  - exists []. cbn. unfold ConsumerImpl_release, destroy_if_last. case_match; cbn; by rewrite app_nil_r.
  - destruct (op_drops op c Hop) as [_ (l' & Hl & _)]. by exists l'.
Qed.

(** A run in which the pool takes its jobs, every message can be unpacked and the
    application keeps the consumer. *)
Fixpoint run_reliable (ops : list (@ConsumerOp E G)) (c : ConsumerObject) : Prop :=
  match ops with
  | [] => True
  | op :: ops =>
      (match op with
       | C_release => False
       | C_channel accepts _ _ | C_eventLoop accepts _ _ => ∀ m, accepts m = true
       | C_handleMessage i fresh => ¬ undecodable i fresh c
       | _ => True
       end) ∧ run_reliable ops (consumer_op op c)
  end.

Lemma reliable_drops ops : ∀ c : ConsumerObject,
  c_reference c = true → run_reliable ops c → c_dropped (consumer_run ops c) = c_dropped c.
Proof using.
  induction ops as [| op ops IH]; intros c Hr Hok; [done |]. destruct Hok as [Ho Hok].
  change (c_dropped (consumer_run ops (consumer_op op c)) = c_dropped c).
  assert (op ≠ C_release) as Hop by (by intros ->).
  destruct (op_drops op c Hop) as [Hr' (l & Hl & Hn)].
  rewrite IH by (congruence || done). rewrite Hl, Hn; [by rewrite app_nil_r |].
  destruct op; cbn; try congruence; try (intros H; by apply H). intros [? | ?]; [congruence | done].
Qed.
(** ** The claims *)

(** C8: Every message a consumer is handed is acknowledged at most once, and exactly once in
    the end. Consider any interleaving of the event loop, the workers and the calls the
    application makes on the guards it has, from any thread and in any order (ack, nack,
    transfer of ownership, destruction, repeated calls), also across reconnections, with a broker that
    numbers its deliveries.
    - No two deliveries have the same envelope, and each delivered message is in exactly one place: a
      job of the pool, the one guard that is READY for it, acknowledged by one call, or dropped.
    - The broker's record of the current channel knows every delivery as outstanding
      or settled, and a settled one was acknowledged through a guard in just this way.
    - If the pool takes its jobs, messages can be unpacked and the application keeps
      the consumer, nothing is dropped; once no job and no READY guard is left,
      the calls are exactly one per delivered message. *)
Theorem consumer_acknowledges_each_message_once tp config paused ts ops :
  let c0 := ConsumerImpl_make tp config paused ts in
  run_ok ops c0 →
  let c := consumer_run ops c0 in
  let ch := c_channel c in
  NoDup (delivered ch) ∧
  delivered ch ≡ₚ (c_jobs c).*2 ++ omap ready_of (c_guards c) ++ (ack_envelope <$> c_acks c) ++ c_dropped c ∧
  (∃ b, broker_view ch = Some b ∧
    (∀ t, t ∈ unacked b ∨ is_Some (settled b !! t) ↔ (1 ≤ t ≤ Z.of_nat (length (delivered_live ch)))%Z) ∧
    (∀ t ty, settled b !! t = Some ty →
       ∃ a, a ∈ c_acks c ∧ ack_tag a = t ∧ ack_type a = ty ∧
            env_channelLifetimeId (ack_envelope a) = ReceiveChannel_lifetimeId ch)) ∧
  (run_reliable ops c0 →
    c_dropped c = [] ∧
    (c_jobs c = [] → omap ready_of (c_guards c) = [] → delivered ch ≡ₚ ack_envelope <$> c_acks c)).
Proof using SL.
  intros c0 Hok c ch.
  pose proof (consumer_run_inv ops c0 Hok (consumer_inv_make tp config paused ts)) as [Hack Hnd Hw].
  destruct (acking_inv _ _ Hack) as (processed & b & Hi).
  destruct (acks_inv_settles _ _ _ _ Hi) as (Ht & _ & Hs).
  split; [exact Hnd |]. split; [exact Hw |]. split; [exists b; split; [apply Hi | done] |].
  intros Hr. pose proof (reliable_drops ops c0 eq_refl Hr) as Hd. split; [exact Hd |].
  intros Hj Hg. change (c_dropped c = []) in Hd. fold c ch in Hw. rewrite Hw, Hj, Hg, Hd. cbn. by rewrite app_nil_r.
Qed.

(** C40: A message whose transformations cannot be undone is never acknowledged. When a worker
    takes such a message while the consumer is alive, no guard is made for it, so
    nothing, not even the automatic nack, settles it: in every continuation no call
    acknowledges it, the application does not see it, and as long as the channel is not reset the broker keeps it
    as unacknowledged. *)
Theorem undecodable_message_stays_unacknowledged tp config paused ts ops i fresh m env ops' :
  let c0 := ConsumerImpl_make tp config paused ts in
  let c := consumer_run ops c0 in
  c_jobs c !! i = Some (m, env) → ts ≠ [] →
  (∀ m', unpackTransformations fresh (c_transformers c) m ≠ Done m') →
  run_ok (ops ++ C_handleMessage i fresh :: ops') c0 →
  let c' := consumer_run (ops ++ C_handleMessage i fresh :: ops') c0 in
  env ∉ ack_envelope <$> c_acks c' ∧ env ∉ omap ready_of (c_guards c') ∧
  (env_channelLifetimeId env = ReceiveChannel_lifetimeId (c_channel c') →
   ∃ b, broker_view (c_channel c') = Some b ∧ env_deliveryTag env ∈ unacked b).
Proof using SL.
  intros c0 c Hj Hts Hu Hok c'.
  pose proof (consumer_run_inv _ c0 Hok (consumer_inv_make tp config paused ts)) as [Hack Hnd Hw]. fold c' in Hack, Hnd, Hw.
  assert (env ∈ c_dropped c') as Hd.
  { assert (c' = consumer_run ops' (threadPoolHandleMessage i fresh c)) as ->
      by (unfold c', c, consumer_run; by rewrite fold_left_app).
    destruct (run_drops ops' (threadPoolHandleMessage i fresh c)) as [l ->]. apply elem_of_app. left.
    unfold threadPoolHandleMessage. rewrite Hj. cbn zeta.
    assert (env ∈ c_dropped c ++ [env]) as Hin by (apply elem_of_app; right; by left).
    destruct (negb _); [exact Hin |]. cbn.
    destruct (match c_transformers c with [] => _ | _ => _ end) as [m' |] eqn:Hm; [| exact Hin].
    exfalso. assert (c_transformers c = ts) as Hct by apply (run_transformers ops c0).
    rewrite Hct in Hm, Hu. destruct ts as [| t ts]; [done |].
    destruct (unpackTransformations fresh (t :: ts) m) as [m'' | |] eqn:Hx; try done. by apply (Hu m''). }
  assert (env ∈ delivered (c_channel c')) as Hdel by (rewrite Hw; rewrite !elem_of_app; auto).
  pose proof Hnd as Hnd'. rewrite Hw in Hnd'. cbn [app] in Hnd'. apply NoDup_app in Hnd' as (_ & _ & Hnd').
  apply NoDup_app in Hnd' as (_ & Hg & Hnd'). apply NoDup_app in Hnd' as (_ & Ha & _).
  assert (env ∉ ack_envelope <$> c_acks c') as Hna by (intros Hin; by apply (Ha env)).
  split; [exact Hna |]. split; [intros Hin; apply (Hg env Hin); rewrite elem_of_app; auto |].
  intros Hl. destruct (acking_inv _ _ Hack) as (processed & b & Hi). exists b. split; [apply Hi |].
  destruct (acks_inv_settles _ _ _ _ Hi) as (Ht & _ & Hs). rewrite (ai_lifetime _ _ _ _ Hi) in Hl.
  destruct (ai_past _ _ _ _ Hi env Hdel) as [_ Hlive]. specialize (Hlive Hl).
  assert (env_deliveryTag env ∈ env_deliveryTag <$> delivered_live (c_channel c')) as Hin by (by apply list_elem_of_fmap_2).
  rewrite (ai_tags _ _ _ _ Hi), elem_of_seqZ in Hin.
  destruct (proj2 (Ht (env_deliveryTag env))) as [? | [ty Hty]]; [lia | done |]. exfalso.
  destruct (Hs _ _ Hty) as (a & Hain & Hat & _ & Hal). apply Hna.
  assert (ack_envelope a = env) as <-; [| by apply list_elem_of_fmap_2].
  apply (live_tag_inj _ _ _ _ Hi); [| done | done].
  apply (current_delivered _ _ _ _ Hi); done.
Qed.
End Invariant.

(** ** Witnesses *)

Section Witnesses.
#[local] Existing Instances byte_GuidUtil.

(** Whether a run is one of [run_ok]. *)
Fixpoint run_okb (ops : list ConsumerOp) (c : ConsumerImpl) : bool :=
  match ops with
  | [] => true
  | op :: ops =>
      (Z.of_nat (resets (c_channel (consumer_op op c))) <? 2 ^ 64)%Z &&
      match op with
      | C_channel _ _ op => negb (is_ack op) && numberedb op (c_channel c)
      | _ => true
      end && run_okb ops (consumer_op op c)
  end.

Lemma run_okb_spec ops : ∀ c, run_okb ops c = true → run_ok ops c.
Proof.
  induction ops as [| op ops IH]; intros c Hok; [done |]. cbn [run_okb] in Hok.
  apply andb_true_iff in Hok as [Hok Hrest]. apply andb_true_iff in Hok as [Hr Ho].
  split; [| by apply IH]. split; [by apply Z.ltb_lt |]. destruct op; try done.
  apply andb_true_iff in Ho as [Ha Hn]. split; [by apply negb_true_iff |]. by apply numberedb_spec.
Qed.

Definition sample_event (op : (Z → Z) * ReceiveOp) : ConsumerOp := C_channel (λ _, true) op.1 op.2.

(** Three deliveries; the second is acknowledged, twice, from the callback, the first
    is transferred, the callback returns, and the copy is rejected later; the callback for
    the third returns without settling it. *)
Definition sample_consumer_ops : list ConsumerOp :=
  (sample_event <$> sample_consume_ops ++ delivery_ops 1 ++ delivery_ops 2 ++ delivery_ops 3) ++
  [C_handleMessage 1 Byte.x00; C_handleMessage 0 Byte.x00; C_ack 0; C_transferOwnership 1; C_ack 0;
   C_destroyGuard 0; C_destroyGuard 1; C_nack 2 false; C_handleMessage 0 Byte.x00; C_destroyGuard 3;
   C_eventLoop (λ _, true) (λ _, 0%Z) sample_heap].

Definition sample_consumer_start (ts : list MessageTransformer) : ConsumerImpl :=
  ConsumerImpl_make (mkTopology [] [] [] []) (mkConsumerConfig 5 false (Some 2%Z)) false ts.

Lemma sample_consumer_reliable : run_reliable sample_consumer_ops (sample_consumer_start []).
Proof.
  unfold sample_consumer_ops. cbn [fmap list_fmap app sample_consume_ops delivery_ops reopening sample_event].
  cbn [run_reliable]. repeat (split; [first [done | by intros (? & ? & _ & H & _)] |]). done.
Qed.

Lemma consumer_acknowledges_each_message_once_witness :
  let c := consumer_run sample_consumer_ops (sample_consumer_start []) in
  delivered (c_channel c) ≡ₚ ack_envelope <$> c_acks c ∧
  ((λ a, (ack_tag a, ack_type a)) <$> c_acks c) = [(2%Z, ACK); (1%Z, REJECT); (3%Z, REQUEUE)].
Proof.
  split; [| refine (bool_decide_eq_true_1 _ _); vm_compute; reflexivity].
  destruct (consumer_acknowledges_each_message_once (mkTopology [] [] [] []) (mkConsumerConfig 5 false (Some 2%Z))
    false [] sample_consumer_ops) as (_ & _ & _ & Hr).
  - apply run_okb_spec. vm_compute. reflexivity.
  - apply Hr; [exact sample_consumer_reliable | |]; apply length_zero_iff_nil, Nat.eqb_eq; vm_compute; reflexivity.
Defined.
(** A transformer whose inverse rejects every message. *)
Definition broken_transformer : MessageTransformer :=
  mkMessageTransformer (str "zip") (λ d p, Done (true, (d, p))) (λ _ _, Failed).

Definition zipped_message : Message :=
  Message_make Byte.x01 (Some [Byte.x2a])
    (set_headers (Some [(header_name broken_transformer, APPLIED)]) Properties_empty).

Definition zipped_ops : list ConsumerOp :=
  sample_event <$> sample_consume_ops ++
  [from_broker (AM_Method (Method_Basic (BasicMethod_Deliver (sample_deliver 1))));
   from_broker (AM_Message zipped_message)].

Lemma undecodable_message_stays_unacknowledged_witness :
  let c := consumer_run (zipped_ops ++ [C_handleMessage 0 Byte.x00; C_eventLoop (λ _, true) (λ _, 0%Z) sample_heap])
    (sample_consumer_start [broken_transformer]) in
  ∃ b, broker_view (c_channel c) = Some b ∧ 1%Z ∈ unacked b.
Proof.
  set (undecoded := match c_jobs (consumer_run zipped_ops (sample_consumer_start [broken_transformer])) !! 0 with
                    | Some (m, env) =>
                        bool_decide (env = sample_envelope 1 0) &&
                        match unpackTransformations (G := byte_GuidUtil) Byte.x00 [broken_transformer] m with Failed => true | _ => false end
                    | None => false
                    end).
  assert (undecoded = true) as H by (vm_compute; reflexivity). subst undecoded.
  destruct (c_jobs _ !! 0) as [[m env] |] eqn:Hj in H; [| done].
  apply andb_true_iff in H as [He Hu]. apply bool_decide_eq_true in He as ->.
  destruct (undecodable_message_stays_unacknowledged (mkTopology [] [] [] []) (mkConsumerConfig 5 false (Some 2%Z))
    false [broken_transformer] zipped_ops 0 Byte.x00 m (sample_envelope 1 0)
    [C_eventLoop (λ _, true) (λ _, 0%Z) sample_heap]) as (_ & _ & Hb).
  - exact Hj.
  - done.
  - intros m' Hm'. rewrite run_transformers in Hm'. cbn [c_transformers ConsumerImpl_make] in Hm'. by rewrite Hm' in Hu.
  - apply run_okb_spec. vm_compute. reflexivity.
  - apply Hb. apply Z.eqb_eq. vm_compute. reflexivity.
Defined.
End Witnesses.
