(* ===== verification/HostHealth.v ===== *)
(** * HostHealth: pausing consumers on an unhealthy host

    Models [rmqamqp::HostHealthMonitor] (rmqamqp_hosthealthmonitor.cpp): one per context; it
    runs the application's health check on a timer and pauses or resumes the receive
    channels of the connections registered with it.

    - Connections are numbers; they are held weakly, [h_live] says which exist.
    - What a check returned ([CheckOutcome]) is an argument of the check.
    - The calls of connections and of the timer are the trace [h_trace]. Metrics are left out. *)

From Stdlib Require Import ZArith Lia.
From stdpp Require Import base tactics list gmap.
From S2P Require Import Prelude.

#[local] Open Scope Z_scope.

(** [HostHealthMonitor::HostHealth] *)
Inductive HostHealth := HEALTHY | UNHEALTHY | RETRY.

#[export] Instance HostHealth_eq_dec : EqDecision HostHealth.
Proof. solve_decision. Defined.

(** What the application's checker does: it returns, or it throws. *)
Inductive CheckOutcome := Returns (healthy : bool) | Throws.

Abbreviation ConnectionId := nat.

Inductive HealthEffect :=
| TimerReset (seconds : Z)
| TimerCancel
| PauseReceiveChannels (c : ConnectionId) (respectHostHealth : bool)
| ResumeReceiveChannels (c : ConnectionId) (respectHostHealth : bool)
| AssertFailed.

(** [rmqt::HostHealthConfig], without the checker. *)
Record HostHealthConfig := mkHostHealthConfig {
  pollInterval : Z;
  maxRetriesOnFailure : Z;
}.

Record HostHealthMonitor := mkHostHealthMonitor {
  d_hostHealthConfig : HostHealthConfig;
  d_connections : list ConnectionId;
  d_currentTries : Z;
  d_latestHealthCheckResult : HostHealth;
  d_timer : bool;
  h_live : list ConnectionId;
  h_trace : list HealthEffect;
}.

Definition HostHealthMonitor_make (config : HostHealthConfig) : HostHealthMonitor :=
  mkHostHealthMonitor config [] 0 UNHEALTHY false [] [].

Definition h_emit (es : list HealthEffect) (m : HostHealthMonitor) : HostHealthMonitor :=
  mkHostHealthMonitor (d_hostHealthConfig m) (d_connections m) (d_currentTries m)
    (d_latestHealthCheckResult m) (d_timer m) (h_live m) (h_trace m ++ es).
Definition set_timer (b : bool) (m : HostHealthMonitor) : HostHealthMonitor :=
  mkHostHealthMonitor (d_hostHealthConfig m) (d_connections m) (d_currentTries m)
    (d_latestHealthCheckResult m) b (h_live m) (h_trace m).
Definition set_tries (n : Z) (m : HostHealthMonitor) : HostHealthMonitor :=
  mkHostHealthMonitor (d_hostHealthConfig m) (d_connections m) n (d_latestHealthCheckResult m)
    (d_timer m) (h_live m) (h_trace m).
Definition set_latest (r : HostHealth) (m : HostHealthMonitor) : HostHealthMonitor :=
  mkHostHealthMonitor (d_hostHealthConfig m) (d_connections m) (d_currentTries m) r (d_timer m)
    (h_live m) (h_trace m).
Definition set_connections (l : list ConnectionId) (m : HostHealthMonitor) : HostHealthMonitor :=
  mkHostHealthMonitor (d_hostHealthConfig m) l (d_currentTries m) (d_latestHealthCheckResult m)
    (d_timer m) (h_live m) (h_trace m).
Definition set_live (l : list ConnectionId) (m : HostHealthMonitor) : HostHealthMonitor :=
  mkHostHealthMonitor (d_hostHealthConfig m) (d_connections m) (d_currentTries m)
    (d_latestHealthCheckResult m) (d_timer m) l (h_trace m).

(** [conn.lock()] *)
Definition connection_lives (m : HostHealthMonitor) (c : ConnectionId) : bool := bool_decide (c ∈ h_live m).

Definition RESPECT_HOST_HEALTH : bool := true.

Definition syncReceiveChannelsToHostHealth (c : ConnectionId) (health : HostHealth) : list HealthEffect :=
  match health with
  | HEALTHY => [ResumeReceiveChannels c RESPECT_HOST_HEALTH]
  | UNHEALTHY => [PauseReceiveChannels c RESPECT_HOST_HEALTH]
  | RETRY => []
  end.

Definition HostHealthMonitor_start (m : HostHealthMonitor) : HostHealthMonitor :=
  let m := if d_timer m then h_emit [AssertFailed] m else m in
  h_emit [TimerReset 0] (set_timer true m).

Definition HostHealthMonitor_stop (m : HostHealthMonitor) : HostHealthMonitor :=
  if d_timer m then set_timer false (h_emit [TimerCancel] m) else m.

Definition registerConnection (c : ConnectionId) (m : HostHealthMonitor) : HostHealthMonitor :=
  let m := set_connections (d_connections m ++ [c]) m in
  if connection_lives m c
  then h_emit (syncReceiveChannelsToHostHealth c (d_latestHealthCheckResult m)) m else m.

(** The loop of [processHealthResult]: the connections kept and the calls made. *)
Fixpoint sync_connections (live : ConnectionId → bool) (result : HostHealth) (l : list ConnectionId)
  : list ConnectionId * list HealthEffect :=
  match l with
  | [] => ([], [])
  | c :: l =>
      let (kept, es) := sync_connections live result l in
      if live c then (c :: kept, syncReceiveChannelsToHostHealth c result ++ es) else (kept, es)
  end.

Definition processHealthResult (result : HostHealth) (m : HostHealthMonitor) : HostHealthMonitor :=
  let m := set_latest result (set_tries 0 m) in
  let (kept, es) := sync_connections (connection_lives m) result (d_connections m) in
  h_emit es (set_connections kept m).

Definition scheduleNextCheck (m : HostHealthMonitor) : HostHealthMonitor :=
  h_emit [TimerReset (pollInterval (d_hostHealthConfig m))] m.

(** [checkHealth]; [d_currentTries] is a 32-bit counter. *)
Definition checkHealth (outcome : CheckOutcome) (m : HostHealthMonitor) : HostHealthMonitor :=
  let m := scheduleNextCheck m in
  match outcome with
  | Returns healthy => processHealthResult (if healthy then HEALTHY else UNHEALTHY) m
  | Throws =>
      let tries := d_currentTries m in
      let m := set_tries (uwrap 32 (tries + 1)) m in
      if maxRetriesOnFailure (d_hostHealthConfig m) <? tries
      then processHealthResult UNHEALTHY m else m
  end.

(** [handleTimerFired] for a monitor that exists; [cancelled] is the reason. *)
Definition handleTimerFired (cancelled : bool) (outcome : CheckOutcome) (m : HostHealthMonitor)
  : HostHealthMonitor := if cancelled then m else checkHealth outcome m.

Inductive HealthOp :=
| H_start
| H_stop
| H_connectionMade (c : ConnectionId)
| H_connectionGone (c : ConnectionId)
| H_register (c : ConnectionId)
| H_timer (cancelled : bool) (outcome : CheckOutcome).

Definition health_op (op : HealthOp) (m : HostHealthMonitor) : HostHealthMonitor :=
  match op with
  | H_start => HostHealthMonitor_start m
  | H_stop => HostHealthMonitor_stop m
  | H_connectionMade c => set_live (h_live m ++ [c]) m
  | H_connectionGone c => set_live (filter (λ c', c' ≠ c) (h_live m)) m
  | H_register c => registerConnection c m
  | H_timer cancelled outcome => handleTimerFired cancelled outcome m
  end.

Definition health_run (ops : list HealthOp) (m : HostHealthMonitor) : HostHealthMonitor :=
  fold_left (λ m op, health_op op m) ops m.

(** ** Specification *)

(** The outcomes of the checks of a run, the latest first. *)
Definition outcomes (ops : list HealthOp) : list CheckOutcome :=
  reverse (omap (λ op, match op with H_timer false o => Some o | _ => None end) ops).

Fixpoint failures (l : list CheckOutcome) : Z :=
  match l with Throws :: l => 1 + failures l | _ => 0 end.

Fixpoint last_result (l : list CheckOutcome) : bool :=
  match l with [] => false | Returns b :: _ => b | Throws :: l => last_result l end.

(** Healthy: the last check that returned said so, and at most [maxRetriesOnFailure + 1]
    checks have failed since. *)
Definition host_healthy (maxRetries : Z) (l : list CheckOutcome) : bool :=
  last_result l && (failures l <=? maxRetries + 1).

(** The last call of connection [c]: whether it was resumed. *)
Definition told (c : ConnectionId) (es : list HealthEffect) : option bool :=
  fold_left (λ acc e, match e with
                      | PauseReceiveChannels c' _ => if decide (c' = c) then Some false else acc
                      | ResumeReceiveChannels c' _ => if decide (c' = c) then Some true else acc
                      | _ => acc
                      end) es None.

(** ** Proofs *)

Lemma told_app c es es' :
  told c (es ++ es') = match told c es' with Some b => Some b | None => told c es end.
Proof.
  unfold told. rewrite fold_left_app. generalize (fold_left (λ acc e, match e with
    | PauseReceiveChannels c' _ => if decide (c' = c) then Some false else acc
    | ResumeReceiveChannels c' _ => if decide (c' = c) then Some true else acc
    | _ => acc end) es None) as acc.
  induction es' as [| e es' IH] using rev_ind; intros acc; [done |].
  rewrite !fold_left_app, IH. cbn. by destruct e; repeat case_decide.
Qed.

(** The health a connection is told. *)
Definition is_healthy (r : HostHealth) : bool := bool_decide (r = HEALTHY).

Lemma told_sync c c' r :
  r ≠ RETRY → told c (syncReceiveChannelsToHostHealth c' r) = if decide (c' = c) then Some (is_healthy r) else None.
Proof. intros Hr. destruct r; cbn; by case_decide. Qed.

Lemma sync_connections_spec live r l :
  r ≠ RETRY →
  (sync_connections live r l).1 = filter (λ c, live c = true) l ∧
  ∀ c, told c (sync_connections live r l).2
       = if decide (c ∈ filter (λ c, live c = true) l) then Some (is_healthy r) else None.
Proof.
  intros Hr. induction l as [| x l [IH1 IH2]]; [split; [done |]; intros c; by rewrite decide_False by set_solver |].
  cbn [sync_connections]. rewrite filter_cons. destruct (sync_connections live r l) as [kept es].
  cbn [fst snd] in *.
  destruct (decide (live x = true)) as [Hx | Hx]; [rewrite Hx | apply not_true_is_false in Hx; rewrite Hx];
    cbn [fst snd]; [| by split].
  split; [by rewrite IH1 |]. intros c. rewrite told_app, IH2, (told_sync _ _ _ Hr).
  destruct (decide (x = c)) as [-> | Hne]; repeat case_decide; try done; set_solver.
Qed.

Record health_inv (ops : list HealthOp) (m : HostHealthMonitor) : Prop := {
  he_tries : ∃ k, failures (outcomes ops) = d_currentTries m + k * (maxRetriesOnFailure (d_hostHealthConfig m) + 2) ∧
               0 ≤ k ∧ (0 < k → d_latestHealthCheckResult m = UNHEALTHY);
  he_range : 0 ≤ d_currentTries m ≤ maxRetriesOnFailure (d_hostHealthConfig m) + 1;
  he_latest : d_latestHealthCheckResult m ≠ RETRY;
  he_healthy : is_healthy (d_latestHealthCheckResult m)
               = host_healthy (maxRetriesOnFailure (d_hostHealthConfig m)) (outcomes ops);
  he_told c : c ∈ d_connections m → c ∈ h_live m →
    told c (h_trace m) = Some (is_healthy (d_latestHealthCheckResult m));
}.

Lemma health_inv_start config : 0 ≤ maxRetriesOnFailure config → health_inv [] (HostHealthMonitor_make config).
Proof.
  intros Hm. split; cbn; try done; try lia; [exists 0; lia | intros c Hc; by apply elem_of_nil in Hc].
Qed.

Lemma outcomes_snoc ops op :
  outcomes (ops ++ [op]) = match op with H_timer false o => [o] | _ => [] end ++ outcomes ops.
Proof. unfold outcomes. rewrite omap_app, reverse_app. by destruct op as [| | | | | [] o]. Qed.

(** Operations without a check. *)
Lemma health_inv_quiet ops op m m' :
  health_inv ops m → outcomes (ops ++ [op]) = outcomes ops →
  d_hostHealthConfig m' = d_hostHealthConfig m → d_currentTries m' = d_currentTries m →
  d_latestHealthCheckResult m' = d_latestHealthCheckResult m →
  (∀ c, c ∈ d_connections m' → c ∈ h_live m' →
     told c (h_trace m') = Some (is_healthy (d_latestHealthCheckResult m))) →
  health_inv (ops ++ [op]) m'.
Proof. intros [] Ho Hc Ht Hl Htold. split; rewrite ?Ho, ?Hc, ?Ht, ?Hl; done. Qed.

(** Once the result of a check is known. *)
Lemma processHealthResult_told r m :
  r ≠ RETRY →
  let m' := processHealthResult r m in
  d_hostHealthConfig m' = d_hostHealthConfig m ∧ d_currentTries m' = 0 ∧ d_latestHealthCheckResult m' = r ∧
  h_live m' = h_live m ∧ ∀ c, c ∈ d_connections m' → c ∈ h_live m' → told c (h_trace m') = Some (is_healthy r).
Proof.
  intros Hr. unfold processHealthResult. cbn zeta.
  destruct (sync_connections_spec (connection_lives (set_latest r (set_tries 0 m))) r (d_connections m) Hr) as [Hk Ht].
  change (d_connections (set_latest _ _)) with (d_connections m).
  destruct (sync_connections _ r (d_connections m)) as [kept es]. cbn [fst snd] in *. split_and!; try done.
  cbn [d_connections h_live h_trace h_emit set_connections]. intros c Hc Hl.
  rewrite told_app, Ht, decide_True; [done |]. by rewrite <- Hk.
Qed.

Lemma health_inv_check ops o m :
  health_inv ops m → maxRetriesOnFailure (d_hostHealthConfig m) < 2 ^ 16 →
  health_inv (ops ++ [H_timer false o]) (checkHealth o m).
Proof.
  intros [] Hmax. destruct he_tries0 as (k & Hk & Hk0 & Hku). set (max := maxRetriesOnFailure _) in *.
  assert (Hs : d_connections (scheduleNextCheck m) = d_connections m) by done.
  destruct o as [healthy |]; cbn [checkHealth].
  - destruct (processHealthResult_told (if healthy then HEALTHY else UNHEALTHY) (scheduleNextCheck m))
      as (Hc & Ht & Hl & Hlv & Htold); [by destruct healthy |].
    change (d_hostHealthConfig (scheduleNextCheck m)) with (d_hostHealthConfig m) in Hc.
    split; rewrite ?outcomes_snoc, ?Hc, ?Ht, ?Hl; cbn [app failures last_result]; fold max.
    + exists 0. split; [| split]; [cbn; lia | lia |]. intros H. lia.
    + lia.
    + by destruct healthy.
    + unfold host_healthy. cbn [last_result failures]. rewrite (proj2 (Z.leb_le _ _)) by lia. by destruct healthy.
    + intros c. rewrite <- Hl. rewrite Hl. apply Htold.
  - change (d_currentTries (scheduleNextCheck m)) with (d_currentTries m).
    change (d_hostHealthConfig (set_tries _ _)) with (d_hostHealthConfig m). fold max.
    assert (uwrap 32 (d_currentTries m + 1) = d_currentTries m + 1) as Hw.
    { apply uwrap_small, u_in_iff. change (2 ^ 16) with 65536 in Hmax. change (2 ^ 32) with 4294967296. lia. }
    rewrite Hw. destruct (Z.ltb_spec max (d_currentTries m)) as [Hlt | Hle].
    + destruct (processHealthResult_told UNHEALTHY (set_tries (d_currentTries m + 1) (scheduleNextCheck m)))
        as (Hc & Ht & Hl & Hlv & Htold); [done |].
      change (d_hostHealthConfig (set_tries _ _)) with (d_hostHealthConfig m) in Hc.
      split; rewrite ?outcomes_snoc, ?Hc, ?Ht, ?Hl; cbn [app failures last_result]; fold max.
      * exists (k + 1). split; [| split]; [cbn; fold max; lia | lia | done].
      * lia.
      * done.
      * unfold host_healthy. cbn [last_result failures].
        assert ((1 + failures (outcomes ops) <=? max + 1) = false) as -> by (apply Z.leb_gt; nia).
        by rewrite andb_false_r.
      * intros c. rewrite <- Hl at 1. rewrite Hl. apply Htold.
    + split; rewrite ?outcomes_snoc; cbn [app failures last_result]; cbn [d_hostHealthConfig set_tries scheduleNextCheck h_emit d_currentTries d_latestHealthCheckResult d_connections h_live h_trace]; fold max.
      * exists k. split; [lia |]. split; [lia | done].
      * lia.
      * done.
      * rewrite he_healthy0. unfold host_healthy. cbn [last_result failures]. destruct (Z.eq_dec k 0) as [-> | Hk1].
        -- by rewrite !(proj2 (Z.leb_le _ (max + 1))) by lia.
        -- by rewrite !(proj2 (Z.leb_gt _ (max + 1))) by nia.
      * intros c Hc Hlv. rewrite told_app. cbn. by apply he_told0.
Qed.

Lemma health_op_inv ops op m :
  maxRetriesOnFailure (d_hostHealthConfig m) < 2 ^ 16 →
  (∀ c, op = H_connectionMade c → c ∉ d_connections m) →
  health_inv ops m → health_inv (ops ++ [op]) (health_op op m).
Proof.
  intros Hmax Hnew Hi. pose proof Hi as [_ _ Hlat _ Htold].
  destruct op as [| | c | c | c | cancelled o]; cbn [health_op].
  - eapply health_inv_quiet; [exact Hi | by rewrite outcomes_snoc | by destruct m as [? ? ? ? []] ..|].
    intros c Hc Hl. unfold HostHealthMonitor_start.
    destruct m as [cf cs tr la [] lv t]; cbn [d_timer h_trace h_emit set_timer] in *;
      rewrite !told_app; apply Htold; done.
  - eapply health_inv_quiet; [exact Hi | by rewrite outcomes_snoc | by destruct m as [? ? ? ? []] ..|].
    intros c Hc Hl. unfold HostHealthMonitor_stop.
    destruct m as [cf cs tr la [] lv t]; cbn [d_timer h_trace h_emit set_timer] in *;
      rewrite ?told_app; apply Htold; done.
  - eapply health_inv_quiet; [exact Hi | by rewrite outcomes_snoc | done.. |].
    intros c' Hc [Hl | ->%list_elem_of_singleton]%elem_of_app; [by apply Htold | by destruct (Hnew c eq_refl)].
  - eapply health_inv_quiet; [exact Hi | by rewrite outcomes_snoc | done.. |].
    intros c' Hc [_ Hl]%list_elem_of_filter. by apply Htold.
  - unfold registerConnection. cbn zeta. unfold connection_lives. cbn [h_live set_connections].
    eapply health_inv_quiet; [exact Hi | by rewrite outcomes_snoc | by case_bool_decide.. |].
    case_bool_decide as Hl; cbn [d_connections h_live h_trace h_emit set_connections d_latestHealthCheckResult].
    + intros c' Hc Hl'. rewrite told_app, (told_sync _ _ _ Hlat). case_decide as Hd; [done |].
      apply Htold; [| done]. apply elem_of_app in Hc as [? | ->%list_elem_of_singleton]; done.
    + intros c' [Hc | ->%list_elem_of_singleton]%elem_of_app Hl'; [by apply Htold | done].
  - unfold handleTimerFired. destruct cancelled; [| by apply health_inv_check].
    by eapply health_inv_quiet; [exact Hi | by rewrite outcomes_snoc | ..].
Qed.

(** *** Runs *)

(** A run in which a connection is registered after it was made, and made once. *)
Fixpoint sensible (made : list ConnectionId) (ops : list HealthOp) : Prop :=
  match ops with
  | [] => True
  | H_connectionMade c :: ops => c ∉ made ∧ sensible (c :: made) ops
  | H_register c :: ops => c ∈ made ∧ sensible made ops
  | _ :: ops => sensible made ops
  end.

Definition registered (ops : list HealthOp) : list ConnectionId :=
  omap (λ op, match op with H_register c => Some c | _ => None end) ops.

(** The connections [made] cover those the monitor has, and it has those [reg] that live. *)
Record membership (made reg : list ConnectionId) (m : HostHealthMonitor) : Prop := {
  mb_connections c : c ∈ d_connections m → c ∈ made;
  mb_live c : c ∈ h_live m → c ∈ made;
  mb_reg c : c ∈ reg → c ∈ made;
  mb_kept c : c ∈ reg → c ∈ h_live m → c ∈ d_connections m;
}.

Lemma processHealthResult_members r m c :
  r ≠ RETRY → c ∈ d_connections (processHealthResult r m) ↔ c ∈ h_live m ∧ c ∈ d_connections m.
Proof.
  intros Hr. unfold processHealthResult. cbn zeta.
  destruct (sync_connections_spec (connection_lives (set_latest r (set_tries 0 m))) r (d_connections m) Hr) as [Hk _].
  change (d_connections (set_latest _ _)) with (d_connections m).
  destruct (sync_connections _ r (d_connections m)) as [kept es]. cbn [fst snd] in Hk. cbn. rewrite Hk, list_elem_of_filter.
  unfold connection_lives. cbn. by rewrite bool_decide_eq_true.
Qed.

Lemma processHealthResult_config r m : d_hostHealthConfig (processHealthResult r m) = d_hostHealthConfig m.
Proof. unfold processHealthResult. cbn zeta. by destruct (sync_connections _ _ _). Qed.

Lemma processHealthResult_members_live r m : h_live (processHealthResult r m) = h_live m.
Proof. unfold processHealthResult. cbn zeta. by destruct (sync_connections _ _ _). Qed.

Lemma check_members o m :
  h_live (checkHealth o m) = h_live m ∧
  (d_connections (checkHealth o m) = d_connections m ∨
   ∀ c, c ∈ d_connections (checkHealth o m) ↔ c ∈ h_live m ∧ c ∈ d_connections m).
Proof.
  destruct o as [healthy |]; cbn [checkHealth]; [| case_match; [| by split; [| left]]];
    (split; [by rewrite processHealthResult_members_live | right; intros c; by rewrite processHealthResult_members by (by destruct healthy || done)]).
Qed.

Lemma membership_op made reg op m :
  membership made reg m → sensible made [op] →
  membership (match op with H_connectionMade c => c :: made | _ => made end)
    (reg ++ registered [op]) (health_op op m).
Proof.
  intros [] Hs. destruct op as [| | c | c | c | cancelled o]; cbn [health_op registered omap list_omap]; rewrite ?app_nil_r.
  - by destruct m as [? ? ? ? []].
  - by destruct m as [? ? ? ? []].
  - destruct Hs as [Hs _]. split; cbn; intros c'; rewrite ?elem_of_app.
    + right. auto.
    + intros [? | ->%list_elem_of_singleton]; [right; auto | by left].
    + right. auto.
    + intros Hr [Hl | ->%list_elem_of_singleton]; [by apply mb_kept0 | by destruct Hs; apply mb_reg0].
  - split; cbn; try done.
    + intros c' [_ ?]%list_elem_of_filter. auto.
    + intros c' Hr [_ ?]%list_elem_of_filter. auto.
  - destruct Hs as [Hs _].
    assert (membership made (reg ++ [c]) (set_connections (d_connections m ++ [c]) m)) as Hm.
    { split; cbn; intros c'; rewrite ?elem_of_app, ?list_elem_of_singleton; try (by auto).
      - intros [? | ->]; auto.
      - intros [? | ->]; auto.
      - intros [? | ->]; auto. }
    unfold registerConnection. cbn zeta. destruct (connection_lives _ c); [| exact Hm].
    by destruct Hm.
  - unfold handleTimerFired. destruct cancelled; [done |].
    destruct (check_members o m) as [Hl Hc]. split; intros c; rewrite ?Hl; auto.
    + destruct Hc as [-> | Hc]; [auto |]. rewrite Hc. intros [? ?]. auto.
    + intros Hr Hlv. destruct Hc as [-> | Hc]; [auto |]. rewrite Hc. auto.
Qed.

Lemma health_op_config op m : d_hostHealthConfig (health_op op m) = d_hostHealthConfig m.
Proof.
  destruct op as [| | c | c | c | [] o]; cbn [health_op]; try done; try (by destruct m as [? ? ? ? []]).
  - unfold registerConnection. cbn zeta. by case_match.
  - unfold handleTimerFired. destruct o; cbn [checkHealth]; [by rewrite processHealthResult_config |].
    case_match; [by rewrite processHealthResult_config | done].
Qed.

Lemma sensible_split made op ops :
  sensible made (op :: ops) →
  sensible made [op] ∧ sensible (match op with H_connectionMade c => c :: made | _ => made end) ops.
Proof. destruct op; cbn; intuition. Qed.

Lemma health_run_inv ops : ∀ ops0 made m,
  maxRetriesOnFailure (d_hostHealthConfig m) < 2 ^ 16 → sensible made ops →
  health_inv ops0 m → membership made (registered ops0) m →
  health_inv (ops0 ++ ops) (health_run ops m) ∧
  ∃ made', membership made' (registered (ops0 ++ ops)) (health_run ops m).
Proof.
  induction ops as [| op ops IH]; intros ops0 made m Hmax Hs Hi Hm.
  { rewrite app_nil_r. split; [done |]. by exists made. }
  destruct (sensible_split _ _ _ Hs) as [Hs1 Hs2].
  rewrite (cons_middle op ops0 ops), app_assoc.
  eapply (IH (ops0 ++ [op]) _ (health_op op m)); [by rewrite health_op_config | exact Hs2 | |].
  - apply health_op_inv; [done | | done]. intros c -> Hc. destruct Hs1 as [Hs1 _]. apply Hs1.
    by apply (mb_connections _ _ _ Hm).
  - unfold registered. rewrite omap_app. by apply membership_op.
Qed.

(** What connections were told, exactly: resume, if the last check that returned said
    healthy and at most [maxRetriesOnFailure + 1] checks have thrown since, and pause in
    all other cases. (The documentation of [HostHealthConfig] allows one failure less:
    the first attempt and [maxRetriesOnFailure] retries.) *)
Lemma host_health_follows_checks config ops :
  0 ≤ maxRetriesOnFailure config < 2 ^ 16 → sensible [] ops →
  let m := health_run ops (HostHealthMonitor_make config) in
  ∀ c, c ∈ registered ops → c ∈ h_live m →
    told c (h_trace m) = Some (host_healthy (maxRetriesOnFailure config) (outcomes ops)).
Proof.
  intros Hmax Hs m c Hr Hl.
  destruct (health_run_inv ops [] [] (HostHealthMonitor_make config)) as [Hi (made & Hm)];
    [cbn; lia | exact Hs | apply health_inv_start; lia | split; cbn; try done; set_solver |].
  cbn [app] in *. fold m in Hi, Hm.
  assert (d_hostHealthConfig m = config) as Hc.
  { unfold m. change config with (d_hostHealthConfig (HostHealthMonitor_make config)) at 2.
    generalize (HostHealthMonitor_make config). clear. induction ops as [| op ops IH]; intros m; [done |].
    rewrite <- (health_op_config op m). apply IH. }
  pose proof (he_healthy _ _ Hi) as Hh. rewrite Hc in Hh. rewrite <- Hh.
  apply (he_told _ _ Hi); [| done]. by apply (mb_kept _ _ _ Hm).
Qed.

(** A check says healthy; then the checker throws, [maxRetriesOnFailure] times and twice more. *)
Definition sample_health_ops : list HealthOp :=
  [H_start; H_connectionMade 1; H_register 1%nat; H_timer false (Returns true);
   H_timer false Throws; H_timer false Throws].


