(* ===== verification/TopologyBuilder.v ===== *)
(** * TopologyBuilder: the application's topology and its updates

    Models [rmqa::Topology] (rmqa_topology.cpp) and [rmqa::TopologyUpdate]
    (rmqa_topologyupdate.cpp), with which an application builds the topology that
    [Topology] turns into AMQP methods, and [ExchangeUtil::validateName]
    (rmqt_exchange.cpp).

    The builder owns its queues and exchanges; a handle it returns is the address of
    one of them, or [null], at which nothing lives. An application is a list of calls
    that name the results of earlier calls by their position. *)

From Stdlib Require Import ZArith Lia String Strings.Byte.
From stdpp Require Import base tactics list gmap.
From S2P Require Import Prelude Wire FieldValue Props Methods Method Message Framer Topology.

Section TopologyBuilder.
Context {E : EpochUtil} {G : GuidUtil}.

(** [bdlpcre::RegEx]: whether a pattern matches a string. *)
Class RegEx := regex_match : bytes → bytes → bool.

(** A letter, a digit or one of [-_.:]. *)
Definition name_char (b : byte) : bool :=
  let v := byte_val b in
  (97 <=? v)%Z && (v <=? 122)%Z || (65 <=? v)%Z && (v <=? 90)%Z || (48 <=? v)%Z && (v <=? 57)%Z ||
  (v =? 45)%Z || (v =? 95)%Z || (v =? 46)%Z || (v =? 58)%Z.

Definition NAME_PATTERN : bytes := str "^[a-zA-Z0-9-_.:]*$".

(** [$] matches at the end and before a newline at the end. *)
Class RegExLaws (R : RegEx) : Prop :=
  regex_name s : regex_match NAME_PATTERN s = true ↔
    ∃ cs, Forall (λ b, name_char b = true) cs ∧ (s = cs ∨ s = cs ++ [Byte.x0a]).

Context {R : RegEx}.

Definition MAX_EXCHANGE_NAME_LENGTH : nat := 127.

Definition validateName (exchangeName : bytes) : bool :=
  Nat.leb (length exchangeName) MAX_EXCHANGE_NAME_LENGTH && regex_match NAME_PATTERN exchangeName.

(** ** The builder *)

(** A handle to nothing. *)
Definition null : positive := 1.

Record Builder := mkBuilder {
  b_heap : Heap;
  b_next : positive;
  b_topology : Topology;
  d_defaultExchange : ExchangeHandle;
}.

Definition Builder_make : Builder :=
  mkBuilder (mkHeap ∅ ∅) (Pos.succ null) (mkTopology [] [] [] []) null.

(** [insertIfNotDupe]'s search, for names *)
Definition name_taken {A} (name : A → bytes) (newItem : A) (container : list A) : bool :=
  existsb (λ x, bool_decide (name newItem = name x)) container.

Definition addExchangeImpl (exchange : rmqt_Exchange) (b : Builder) : ExchangeHandle * Builder :=
  if negb (validateName (exchange_name exchange)) then (null, b)
  else if name_taken exchange_name exchange (exchanges (b_topology b)) then (null, b)
  else
    (b_next b,
     mkBuilder (mkHeap (live_queues (b_heap b)) (<[b_next b := exchange]> (live_exchanges (b_heap b))))
       (Pos.succ (b_next b))
       (mkTopology (queues (b_topology b)) (exchanges (b_topology b) ++ [exchange])
          (queueBindings (b_topology b)) (exchangeBindings (b_topology b)))
       (d_defaultExchange b)).

Definition addQueueImpl (queue : rmqt_Queue) (b : Builder) : QueueHandle * Builder :=
  if name_taken queue_name queue (queues (b_topology b)) then (null, b)
  else
    (b_next b,
     mkBuilder (mkHeap (<[b_next b := queue]> (live_queues (b_heap b))) (live_exchanges (b_heap b)))
       (Pos.succ (b_next b))
       (mkTopology (queues (b_topology b) ++ [queue]) (exchanges (b_topology b))
          (queueBindings (b_topology b)) (exchangeBindings (b_topology b)))
       (d_defaultExchange b)).

Definition addQueue (name : bytes) (autoDelete durable : bool) (args : FieldTable)
  : Builder → QueueHandle * Builder :=
  addQueueImpl (mk_rmqt_Queue name false autoDelete durable args).

Definition addPassiveQueue (name : bytes) : Builder → QueueHandle * Builder :=
  addQueueImpl (mk_rmqt_Queue name true false true []).

Definition addExchange (name exchangeType : bytes) (autoDelete durable internal : bool)
  (args : FieldTable) : Builder → ExchangeHandle * Builder :=
  addExchangeImpl (mk_rmqt_Exchange name exchangeType false autoDelete durable internal args).

Definition addPassiveExchange (name : bytes) : Builder → ExchangeHandle * Builder :=
  addExchangeImpl (mk_rmqt_Exchange name ExchangeType_DIRECT true false true false []).

Definition set_topology (b : Builder) (t : Topology) : Builder :=
  mkBuilder (b_heap b) (b_next b) t (d_defaultExchange b).

(** [bind(exchange, queue, ...)] *)
Definition bindQueue (exchange : ExchangeHandle) (queue : QueueHandle) (bindingKey : bytes)
  (args : FieldTable) (b : Builder) : Builder :=
  let t := b_topology b in
  set_topology b
    (mkTopology (queues t) (exchanges t)
       (queueBindings t ++ [mk_rmqt_QueueBinding exchange queue bindingKey args]) (exchangeBindings t)).

(** [bind(sourceExchange, destinationExchange, ...)] *)
Definition bindExchange (sourceExchange destinationExchange : ExchangeHandle) (bindingKey : bytes)
  (args : FieldTable) (b : Builder) : Builder :=
  let t := b_topology b in
  set_topology b
    (mkTopology (queues t) (exchanges t) (queueBindings t)
       (exchangeBindings t ++ [mk_rmqt_ExchangeBinding sourceExchange destinationExchange bindingKey args])).

Definition the_default_exchange : rmqt_Exchange :=
  mk_rmqt_Exchange DEFAULT_EXCHANGE ExchangeType_DIRECT false false true false [].

Definition defaultExchange (b : Builder) : ExchangeHandle * Builder :=
  match lockExchange (b_heap b) (d_defaultExchange b) with
  | Some _ => (d_defaultExchange b, b)
  | None =>
      let (h, b) := addExchangeImpl the_default_exchange b in
      (h, mkBuilder (b_heap b) (b_next b) (b_topology b) h)
  end.

(** ** Updates *)

Definition update_bind (exchange : ExchangeHandle) (queue : QueueHandle) (bindingKey : bytes)
  (args : FieldTable) (u : TopologyUpdate) : TopologyUpdate :=
  u ++ [Update_QueueBinding (mk_rmqt_QueueBinding exchange queue bindingKey args)].

Definition update_unbind (exchange : ExchangeHandle) (queue : QueueHandle) (bindingKey : bytes)
  (args : FieldTable) (u : TopologyUpdate) : TopologyUpdate :=
  u ++ [Update_QueueUnbinding (mk_rmqt_QueueUnbinding exchange queue bindingKey args)].

Definition update_deleteQueue (queueName : bytes) (ifUnused ifEmpty : bool) (u : TopologyUpdate)
  : TopologyUpdate :=
  u ++ [Update_QueueDelete (mk_rmqt_QueueDelete queueName ifUnused ifEmpty false)].

(** ** Applications *)

(** A call of the application; [bind] names the calls whose results it is given. *)
Inductive BuilderCall :=
| Call_addQueue (name : bytes) (autoDelete durable : bool) (args : FieldTable)
| Call_addPassiveQueue (name : bytes)
| Call_addExchange (name exchangeType : bytes) (autoDelete durable internal : bool) (args : FieldTable)
| Call_addPassiveExchange (name : bytes)
| Call_defaultExchange
| Call_bindQueue (exchange queue : nat) (bindingKey : bytes) (args : FieldTable)
| Call_bindExchange (sourceExchange destinationExchange : nat) (bindingKey : bytes) (args : FieldTable).

(** What a call returned. *)
Inductive Returned (Q X : Type) := Returned_queue (h : Q) | Returned_exchange (h : X) | Returned_void.
Arguments Returned_queue {Q X}.
Arguments Returned_exchange {Q X}.
Arguments Returned_void {Q X}.

Definition the_queue {Q X} (d : Q) (env : list (Returned Q X)) (i : nat) : Q :=
  match env !! i with Some (Returned_queue h) => h | _ => d end.
Definition the_exchange {Q X} (d : X) (env : list (Returned Q X)) (i : nat) : X :=
  match env !! i with Some (Returned_exchange h) => h | _ => d end.

Definition run_call (s : Builder * list (Returned QueueHandle ExchangeHandle)) (c : BuilderCall)
  : Builder * list (Returned QueueHandle ExchangeHandle) :=
  let (b, env) := s in
  let queue (r : QueueHandle * Builder) := (r.2, env ++ [Returned_queue r.1]) in
  let exchange (r : ExchangeHandle * Builder) := (r.2, env ++ [Returned_exchange r.1]) in
  match c with
  | Call_addQueue n a d args => queue (addQueue n a d args b)
  | Call_addPassiveQueue n => queue (addPassiveQueue n b)
  | Call_addExchange n t a d i args => exchange (addExchange n t a d i args b)
  | Call_addPassiveExchange n => exchange (addPassiveExchange n b)
  | Call_defaultExchange => exchange (defaultExchange b)
  | Call_bindQueue x q k args =>
      (bindQueue (the_exchange null env x) (the_queue null env q) k args b, env ++ [Returned_void])
  | Call_bindExchange x y k args =>
      (bindExchange (the_exchange null env x) (the_exchange null env y) k args b, env ++ [Returned_void])
  end.

Definition run_calls (cs : list BuilderCall) : Builder * list (Returned QueueHandle ExchangeHandle) :=
  fold_left run_call cs (Builder_make, []).

(** ** What an application declares *)

(** The meaning of the calls, without handles: a result is the queue or exchange itself,
    or nothing; a binding is the request that makes it, or nothing. *)
Record Declared := mkDeclared {
  dc_queues : list rmqt_Queue;
  dc_exchanges : list rmqt_Exchange;
  dc_queueBindings : list (option AmqpMessage);
  dc_exchangeBindings : list (option AmqpMessage);
  dc_default : option rmqt_Exchange;
  dc_results : list (Returned (option rmqt_Queue) (option rmqt_Exchange));
}.

Definition Declared_nothing : Declared := mkDeclared [] [] [] [] None [].

Definition returns (d : Declared) (r : Returned (option rmqt_Queue) (option rmqt_Exchange)) : Declared :=
  mkDeclared (dc_queues d) (dc_exchanges d) (dc_queueBindings d) (dc_exchangeBindings d) (dc_default d)
    (dc_results d ++ [r]).

(** A queue of a new name; an exchange of a valid new name. *)
Definition declare_queue (q : rmqt_Queue) (d : Declared) : Declared :=
  if bool_decide (queue_name q ∈ queue_name <$> dc_queues d) then returns d (Returned_queue None)
  else returns (mkDeclared (dc_queues d ++ [q]) (dc_exchanges d) (dc_queueBindings d)
                  (dc_exchangeBindings d) (dc_default d) (dc_results d)) (Returned_queue (Some q)).

Definition new_exchange (x : rmqt_Exchange) (d : Declared) : bool :=
  validateName (exchange_name x) && negb (bool_decide (exchange_name x ∈ exchange_name <$> dc_exchanges d)).

Definition declare_exchange (x : rmqt_Exchange) (d : Declared) : Declared :=
  if new_exchange x d
  then returns (mkDeclared (dc_queues d) (dc_exchanges d ++ [x]) (dc_queueBindings d)
                  (dc_exchangeBindings d) (dc_default d) (dc_results d)) (Returned_exchange (Some x))
  else returns d (Returned_exchange None).

(** The default exchange, if it can be had. *)
Definition declare_default (d : Declared) : Declared :=
  match dc_default d with
  | Some x => returns d (Returned_exchange (Some x))
  | None =>
      let d' := declare_exchange the_default_exchange d in
      mkDeclared (dc_queues d') (dc_exchanges d') (dc_queueBindings d') (dc_exchangeBindings d')
        (if new_exchange the_default_exchange d then Some the_default_exchange else None) (dc_results d')
  end.

Definition bind_request (x : option rmqt_Exchange) (q : option rmqt_Queue) (k : bytes) (args : FieldTable)
  : option AmqpMessage :=
  match q, x with
  | Some q, Some x => Some (QueueMessage (QueueMethod_Bind
      (mkQueueBind (queue_name q) (exchange_name x) k false args)))
  | _, _ => None
  end.

Definition bind_exchanges_request (s d : option rmqt_Exchange) (k : bytes) (args : FieldTable)
  : option AmqpMessage :=
  match s, d with
  | Some s, Some d => Some (ExchangeMessage (ExchangeMethod_Bind
      (mkExchangeBind (exchange_name d) (exchange_name s) k false args)))
  | _, _ => None
  end.

Definition declare_call (d : Declared) (c : BuilderCall) : Declared :=
  match c with
  | Call_addQueue n a du args => declare_queue (mk_rmqt_Queue n false a du args) d
  | Call_addPassiveQueue n => declare_queue (mk_rmqt_Queue n true false true []) d
  | Call_addExchange n t a du i args => declare_exchange (mk_rmqt_Exchange n t false a du i args) d
  | Call_addPassiveExchange n => declare_exchange (mk_rmqt_Exchange n ExchangeType_DIRECT true false true false []) d
  | Call_defaultExchange => declare_default d
  | Call_bindQueue x q k args =>
      returns (mkDeclared (dc_queues d) (dc_exchanges d)
        (dc_queueBindings d ++ [bind_request (the_exchange None (dc_results d) x) (the_queue None (dc_results d) q) k args])
        (dc_exchangeBindings d) (dc_default d) (dc_results d)) Returned_void
  | Call_bindExchange x y k args =>
      returns (mkDeclared (dc_queues d) (dc_exchanges d) (dc_queueBindings d)
        (dc_exchangeBindings d ++ [bind_exchanges_request (the_exchange None (dc_results d) x)
                                     (the_exchange None (dc_results d) y) k args])
        (dc_default d) (dc_results d)) Returned_void
  end.

Definition declared (cs : list BuilderCall) : Declared := fold_left declare_call cs Declared_nothing.

(** The requests: queues, exchanges but the default one, bindings. *)
Definition declared_requests (d : Declared) : list AmqpMessage :=
  (queue_request <$> dc_queues d) ++ omap exchange_request (dc_exchanges d) ++
  omap id (dc_queueBindings d) ++ omap id (dc_exchangeBindings d).

(** Every binding was given queues and exchanges, not null handles. *)
Definition all_bound (d : Declared) : bool :=
  forallb (λ r, bool_decide (is_Some r)) (dc_queueBindings d) &&
  forallb (λ r, bool_decide (is_Some r)) (dc_exchangeBindings d).

(** ** The builder implements it *)

(** Handles are null or alive. *)
Definition good_queue (hp : Heap) (h : QueueHandle) : Prop := h = null ∨ is_Some (lockQueue hp h).
Definition good_exchange (hp : Heap) (h : ExchangeHandle) : Prop := h = null ∨ is_Some (lockExchange hp h).

Inductive same_result (hp : Heap) :
  Returned QueueHandle ExchangeHandle → Returned (option rmqt_Queue) (option rmqt_Exchange) → Prop :=
| same_queue h : good_queue hp h → same_result hp (Returned_queue h) (Returned_queue (lockQueue hp h))
| same_exchange h : good_exchange hp h → same_result hp (Returned_exchange h) (Returned_exchange (lockExchange hp h))
| same_void : same_result hp Returned_void Returned_void.

Definition good_queueBinding hp b := good_queue hp (qb_queue b) ∧ good_exchange hp (qb_exchange b).
Definition good_exchangeBinding hp b :=
  good_exchange hp (xb_sourceExchange b) ∧ good_exchange hp (xb_destinationExchange b).

Record implements (b : Builder) (env : list (Returned QueueHandle ExchangeHandle)) (d : Declared) : Prop := {
  im_null : lockQueue (b_heap b) null = None ∧ lockExchange (b_heap b) null = None;
  im_fresh h : (b_next b <= h)%positive → lockQueue (b_heap b) h = None ∧ lockExchange (b_heap b) h = None;
  im_next : (null < b_next b)%positive;
  im_queues : queues (b_topology b) = dc_queues d;
  im_exchanges : exchanges (b_topology b) = dc_exchanges d;
  im_queueBindings : queueBinding_request (b_heap b) <$> queueBindings (b_topology b) = dc_queueBindings d;
  im_exchangeBindings : exchangeBinding_request (b_heap b) <$> exchangeBindings (b_topology b) = dc_exchangeBindings d;
  im_goodBindings : Forall (good_queueBinding (b_heap b)) (queueBindings (b_topology b)) ∧
    Forall (good_exchangeBinding (b_heap b)) (exchangeBindings (b_topology b));
  im_default : good_exchange (b_heap b) (d_defaultExchange b) ∧ lockExchange (b_heap b) (d_defaultExchange b) = dc_default d;
  im_results : Forall2 (same_result (b_heap b)) env (dc_results d);
}.

(** A heap that grows where nothing lived keeps what the handles mean. *)
Definition grows (hp hp' : Heap) : Prop :=
  lockQueue hp' null = lockQueue hp null ∧ lockExchange hp' null = lockExchange hp null ∧
  (∀ h q, lockQueue hp h = Some q → lockQueue hp' h = Some q) ∧
  (∀ h x, lockExchange hp h = Some x → lockExchange hp' h = Some x).

Lemma grows_queue hp hp' h : grows hp hp' → good_queue hp h →
  good_queue hp' h ∧ lockQueue hp' h = lockQueue hp h.
Proof using.
  intros (H1 & _ & H2 & _) [-> | [q Hq]]; [split; [by left | done] |].
  pose proof (H2 _ _ Hq). split; [right; eauto | congruence].
Qed.

Lemma grows_exchange hp hp' h : grows hp hp' → good_exchange hp h →
  good_exchange hp' h ∧ lockExchange hp' h = lockExchange hp h.
Proof using.
  intros (_ & H1 & _ & H2) [-> | [q Hq]]; [split; [by left | done] |].
  pose proof (H2 _ _ Hq). split; [right; eauto | congruence].
Qed.

Lemma grows_results hp hp' env rs : grows hp hp' → Forall2 (same_result hp) env rs → Forall2 (same_result hp') env rs.
Proof using.
  intros Hg H. eapply Forall2_impl; [exact H |]. intros r r' [h Hh | h Hh |]; [| | constructor].
  - destruct (grows_queue _ _ _ Hg Hh) as [? <-]. by constructor.
  - destruct (grows_exchange _ _ _ Hg Hh) as [? <-]. by constructor.
Qed.

Lemma grows_bindings hp hp' bs xs : grows hp hp' →
  Forall (good_queueBinding hp) bs ∧ Forall (good_exchangeBinding hp) xs →
  (Forall (good_queueBinding hp') bs ∧ Forall (good_exchangeBinding hp') xs) ∧
  queueBinding_request hp' <$> bs = queueBinding_request hp <$> bs ∧
  exchangeBinding_request hp' <$> xs = exchangeBinding_request hp <$> xs.
Proof using.
  intros Hg [Hb Hx]. split_and!.
  - eapply Forall_impl; [exact Hb |]. intros b [H1 H2]. split; [by eapply grows_queue | by eapply grows_exchange].
  - eapply Forall_impl; [exact Hx |]. intros b [H1 H2]. split; by eapply grows_exchange.
  - apply Forall_fmap_ext. eapply Forall_impl; [exact Hb |]. intros b [H1 H2]. unfold queueBinding_request.
    destruct (grows_queue _ _ _ Hg H1) as [_ ->]. by destruct (grows_exchange _ _ _ Hg H2) as [_ ->].
  - apply Forall_fmap_ext. eapply Forall_impl; [exact Hx |]. intros b [H1 H2]. unfold exchangeBinding_request.
    destruct (grows_exchange _ _ _ Hg H1) as [_ ->]. by destruct (grows_exchange _ _ _ Hg H2) as [_ ->].
Qed.

Lemma name_taken_spec {A} (name : A → bytes) x l : name_taken name x l = bool_decide (name x ∈ name <$> l).
Proof using.
  apply eq_true_iff_eq. unfold name_taken. rewrite existsb_exists, bool_decide_eq_true, list_elem_of_fmap.
  setoid_rewrite bool_decide_eq_true. setoid_rewrite list_elem_of_In. naive_solver.
Qed.

Lemma implements_returns b env d r r' :
  implements b env d → same_result (b_heap b) r r' → implements b (env ++ [r]) (returns d r').
Proof using. intros [] Hr. split; cbn; try done. by apply Forall2_app; [| apply Forall2_cons]. Qed.

(** A new queue. *)
Lemma implements_queue b env d q :
  implements b env d →
  implements (addQueueImpl q b).2 (env ++ [Returned_queue (addQueueImpl q b).1]) (declare_queue q d).
Proof using.
  intros Hi. pose proof Hi as [Hn Hf Hnx Hq Hx Hqb Hxb Hg Hd Hr].
  unfold addQueueImpl, declare_queue. rewrite name_taken_spec, Hq.
  case_bool_decide; cbn [fst snd].
  { apply implements_returns; [done |]. destruct Hn as [Hn _]. rewrite <- Hn. constructor. by left. }
  set (hp' := mkHeap (<[b_next b := q]> (live_queues (b_heap b))) (live_exchanges (b_heap b))).
  assert (lockQueue hp' (b_next b) = Some q) as Hnew by apply lookup_insert_eq.
  assert (∀ h, h ≠ b_next b → lockQueue hp' h = lockQueue (b_heap b) h) as Hold
    by (intros h Hh; by apply lookup_insert_ne).
  assert (grows (b_heap b) hp') as Hgr.
  { split_and!; [apply Hold; lia | done | | done]. intros h q' Hh. rewrite Hold; [done |]. intros ->.
    destruct (Hf (b_next b)) as [? _]; [lia | congruence]. }
  destruct (grows_bindings _ _ _ _ Hgr Hg) as (Hg' & Hqb' & Hxb').
  split; cbn -[lockQueue lockExchange]; try done.
  - destruct Hn. split; [| done]. rewrite Hold by lia. done.
  - intros h Hh. destruct (Hf h) as [H1 H2]; [lia |]. split; [| done]. rewrite Hold by lia. done.
  - lia.
  - by rewrite Hqb'.
  - apply Forall2_app; [by eapply grows_results |]. apply Forall2_cons. split; [| done].
    rewrite <- Hnew. constructor. right. eauto.
Qed.

(** A new exchange. *)
Lemma implements_exchange b env d x :
  implements b env d →
  implements (addExchangeImpl x b).2 (env ++ [Returned_exchange (addExchangeImpl x b).1]) (declare_exchange x d) ∧
  lockExchange (b_heap (addExchangeImpl x b).2) (addExchangeImpl x b).1 = (if new_exchange x d then Some x else None) ∧
  good_exchange (b_heap (addExchangeImpl x b).2) (addExchangeImpl x b).1.
Proof using.
  intros Hi. pose proof Hi as [Hn Hf Hnx Hq Hx Hqb Hxb Hg Hd Hr].
  unfold addExchangeImpl, declare_exchange, new_exchange. rewrite name_taken_spec, Hx.
  assert (implements b (env ++ [Returned_exchange null]) (returns d (Returned_exchange None))) as Hnone.
  { apply implements_returns; [done |]. destruct Hn as [_ Hn]. rewrite <- Hn. constructor. by left. }
  destruct (validateName (exchange_name x)); cbn [negb andb fst snd]; [| split_and!; [done | apply Hn | by left]].
  case_bool_decide; cbn [negb fst snd]; [split_and!; [done | apply Hn | by left] |].
  set (hp' := mkHeap (live_queues (b_heap b)) (<[b_next b := x]> (live_exchanges (b_heap b)))).
  assert (lockExchange hp' (b_next b) = Some x) as Hnew by apply lookup_insert_eq.
  assert (∀ h, h ≠ b_next b → lockExchange hp' h = lockExchange (b_heap b) h) as Hold
    by (intros h Hh; by apply lookup_insert_ne).
  assert (grows (b_heap b) hp') as Hgr.
  { split_and!; [done | apply Hold; lia | done |]. intros h q' Hh. rewrite Hold; [done |]. intros ->.
    destruct (Hf (b_next b)) as [_ ?]; [lia | congruence]. }
  destruct (grows_bindings _ _ _ _ Hgr Hg) as (Hg' & Hqb' & Hxb').
  split_and!; [| exact Hnew | right; by eexists].
  split; cbn -[lockQueue lockExchange]; try done.
  - destruct Hn. split; [done |]. rewrite Hold by lia. done.
  - intros h Hh. destruct (Hf h) as [H1 H2]; [lia |]. split; [done |]. rewrite Hold by lia. done.
  - lia.
  - by rewrite Hqb'.
  - by rewrite Hxb'.
  - destruct Hd as [Hd1 Hd2]. destruct (grows_exchange _ _ _ Hgr Hd1) as [? Hd3]. split; [done |]. by rewrite <- Hd2.
  - apply Forall2_app; [by eapply grows_results |]. apply Forall2_cons. split; [| done].
    rewrite <- Hnew. constructor. right. eauto.
Qed.

Lemma implements_default b env d :
  implements b env d →
  implements (defaultExchange b).2 (env ++ [Returned_exchange (defaultExchange b).1]) (declare_default d).
Proof using.
  intros Hi. pose proof (im_default _ _ _ Hi) as [Hd1 Hd2]. unfold defaultExchange, declare_default.
  destruct (lockExchange _ _) as [x |] eqn:Hl; rewrite <- Hd2; cbn [fst snd].
  - apply implements_returns; [done |]. rewrite <- Hl. by constructor.
  - destruct (implements_exchange b env d the_default_exchange Hi) as ([] & Hh & Hg).
    destruct (addExchangeImpl the_default_exchange b) as [h b']. by split.
Qed.

Lemma implements_the_queue b env d i :
  implements b env d →
  good_queue (b_heap b) (the_queue null env i) ∧
  lockQueue (b_heap b) (the_queue null env i) = the_queue None (dc_results d) i.
Proof using.
  intros [[Hn _] _ _ _ _ _ _ _ _ Hr]. unfold QueueHandle, ExchangeHandle in *. unfold the_queue. pose proof (proj1 (Forall2_lookup _ _ _) Hr i) as Hi. clear Hr.
  destruct Hi as [? ? [h Hh | h Hh |] |]; (split; [first [done | by left] | done]).
Qed.

Lemma implements_the_exchange b env d i :
  implements b env d →
  good_exchange (b_heap b) (the_exchange null env i) ∧
  lockExchange (b_heap b) (the_exchange null env i) = the_exchange None (dc_results d) i.
Proof using.
  intros [[_ Hn] _ _ _ _ _ _ _ _ Hr]. unfold QueueHandle, ExchangeHandle in *. unfold the_exchange. pose proof (proj1 (Forall2_lookup _ _ _) Hr i) as Hi. clear Hr.
  destruct Hi as [? ? [h Hh | h Hh |] |]; (split; [first [done | by left] | done]).
Qed.

Lemma implements_call b env d c :
  implements b env d →
  implements (run_call (b, env) c).1 (run_call (b, env) c).2 (declare_call d c).
Proof using.
  intros Hi. destruct c as [n a du args | n | n t a du i args | n | | x q k args | x y k args];
    cbn -[addQueueImpl addExchangeImpl declare_queue declare_exchange defaultExchange declare_default].
  - by apply implements_queue.
  - by apply implements_queue.
  - by apply implements_exchange.
  - by apply implements_exchange.
  - by apply implements_default.
  - destruct (implements_the_exchange b env d x Hi) as [Hgx Hx], (implements_the_queue b env d q Hi) as [Hgq Hq].
    apply implements_returns; [| constructor]. destruct Hi as [Hn Hf Hnx Hqs Hxs Hqb Hxb [Hg1 Hg2] Hd Hr].
    split; cbn -[the_exchange the_queue lockQueue lockExchange queueBinding_request exchangeBinding_request]; try done.
    + rewrite fmap_app, Hqb. cbn [fmap list_fmap]. unfold queueBinding_request, bind_request.
      cbn [qb_queue qb_exchange qb_bindingKey qb_args]. unfold QueueHandle, ExchangeHandle in *. by rewrite Hx, Hq.
    + split; [| done]. apply Forall_app. split; [done |]. by apply Forall_singleton.
  - destruct (implements_the_exchange b env d x Hi) as [Hgx Hx], (implements_the_exchange b env d y Hi) as [Hgy Hy].
    apply implements_returns; [| constructor]. destruct Hi as [Hn Hf Hnx Hqs Hxs Hqb Hxb [Hg1 Hg2] Hd Hr].
    split; cbn -[the_exchange the_queue lockQueue lockExchange queueBinding_request exchangeBinding_request]; try done.
    + rewrite fmap_app, Hxb. cbn [fmap list_fmap]. unfold exchangeBinding_request, bind_exchanges_request.
      cbn [xb_sourceExchange xb_destinationExchange xb_bindingKey xb_args]. unfold QueueHandle, ExchangeHandle in *. by rewrite Hx, Hy.
    + split; [done |]. apply Forall_app. split; [done |]. by apply Forall_singleton.
Qed.

Lemma implements_make : implements Builder_make [] Declared_nothing.
Proof using.
  split; cbn; try done; try (split_and!; done).
  split; [by left | done].
Qed.

Lemma run_calls_implements cs : implements (run_calls cs).1 (run_calls cs).2 (declared cs).
Proof using.
  unfold run_calls, declared. induction cs as [| c cs IH] using rev_ind; [apply implements_make |].
  rewrite !fold_left_app. cbn [fold_left]. destruct (fold_left run_call cs _) as [b env].
  by apply implements_call.
Qed.

(** *** Names *)

Record names_fine (d : Declared) : Prop := {
  nf_queues : NoDup (queue_name <$> dc_queues d);
  nf_exchanges : NoDup (exchange_name <$> dc_exchanges d);
  nf_valid : Forall (λ x, validateName (exchange_name x) = true) (dc_exchanges d);
}.

Lemma NoDup_snoc {A} (l : list A) x : NoDup l → x ∉ l → NoDup (l ++ [x]).
Proof using. intros Hl Hx. apply NoDup_app. split_and!; [done | set_solver | apply NoDup_singleton]. Qed.

Lemma declare_exchange_names x d : names_fine d → names_fine (declare_exchange x d).
Proof using.
  intros [Hq Hx Hv]. unfold declare_exchange, new_exchange. destruct (validateName (exchange_name x)) eqn:Hval; [| by split].
  case_bool_decide as Hin; [by split |]. split; cbn; [done | |].
  - rewrite fmap_app. by apply NoDup_snoc.
  - apply Forall_app. split; [done |]. by apply Forall_singleton.
Qed.

Lemma declare_call_names d c : names_fine d → names_fine (declare_call d c).
Proof using.
  assert (∀ q d, names_fine d → names_fine (declare_queue q d)) as Hqueue.
  { clear. intros q d [Hq Hx Hv]. unfold declare_queue. case_bool_decide; split; cbn; try done.
    rewrite fmap_app. by apply NoDup_snoc. }
  intros Hd. destruct c; cbn [declare_call]; try (by apply Hqueue); try (by apply declare_exchange_names);
    try (by destruct Hd).
  unfold declare_default. destruct (dc_default d); [by destruct Hd |].
  by destruct (declare_exchange_names the_default_exchange d Hd).
Qed.

Lemma declared_names cs : names_fine (declared cs).
Proof using.
  unfold declared. induction cs as [| c cs IH] using rev_ind; [split; constructor |].
  rewrite fold_left_app. by apply declare_call_names.
Qed.

Lemma omap_id_fmap {A B} (f : A → option B) (l : list A) : omap id (f <$> l) = omap f l.
Proof using. induction l as [| x l IH]; [done |]. cbn. by rewrite IH. Qed.

Lemma forallb_fmap {A B} (f : A → B) (p : B → bool) (l : list A) : forallb p (f <$> l) = forallb (λ x, p (f x)) l.
Proof using. induction l as [| x l IH]; [done |]. cbn. by rewrite IH. Qed.

(** ** The claims *)

(** C35: What an application builds is what it asked for: for any sequence of calls,
    declaring the builder's topology sends the declarations of the queues and
    exchanges whose names were new (and valid) when they were added, in order, and the
    bindings between the objects that the named calls returned; declaring it fails
    exactly if a binding was given the null handle of a call that refused its name
    (or of [defaultExchange], when an exchange of the empty name was added before). *)
Theorem built_topology_is_declared cs :
  let b := (run_calls cs).1 in
  let t := TopologyTransformer_make (b_heap b) (b_topology b) in
  d_messages t = declared_requests (declared cs) ∧
  Transformer_hasError t = negb (all_bound (declared cs)) ∧
  Forall2 (same_result (b_heap b)) (run_calls cs).2 (dc_results (declared cs)).
Proof using.
  cbn zeta. destruct (run_calls_implements cs) as [_ _ _ Hq Hx Hqb Hxb _ _ Hr].
  destruct (TopologyTransformer_make_collects (b_heap (run_calls cs).1) (b_topology (run_calls cs).1)) as (_ & -> & _ & He).
  split_and!; [| unfold Transformer_hasError; rewrite He | done].
  - unfold topology_requests, declared_requests. by rewrite Hq, Hx, <- Hqb, <- Hxb, !omap_id_fmap.
  - unfold topology_alive, all_bound. by rewrite <- Hqb, <- Hxb, !forallb_fmap.
Qed.

(** C36: The topology an application builds is well formed whatever it calls: no two
    queues and no two exchanges have the same name, the names of exchanges have at
    most 127 characters, all letters, digits or [-_.:] but for a possible newline at
    the end, and every handle, in a binding or in the application's hands, is null or
    refers to a queue or exchange of the topology that is alive. *)
Theorem built_topology_well_formed {HR : RegExLaws R} cs :
  let b := (run_calls cs).1 in
  let t := b_topology b in
  NoDup (queue_name <$> queues t) ∧ NoDup (exchange_name <$> exchanges t) ∧
  Forall (λ x, length (exchange_name x) ≤ 127 ∧
    ∃ cs, Forall (λ b, name_char b = true) cs ∧ (exchange_name x = cs ∨ exchange_name x = cs ++ [Byte.x0a]))
    (exchanges t) ∧
  Forall (good_queueBinding (b_heap b)) (queueBindings t) ∧
  Forall (good_exchangeBinding (b_heap b)) (exchangeBindings t) ∧
  Forall (λ r, match r with
               | Returned_queue h => good_queue (b_heap b) h
               | Returned_exchange h => good_exchange (b_heap b) h
               | Returned_void => True
               end) (run_calls cs).2.
Proof using G.
  cbn zeta. destruct (run_calls_implements cs) as [_ _ _ Hq Hx _ _ [Hg1 Hg2] _ Hr].
  destruct (declared_names cs) as [Hnq Hnx Hv]. rewrite Hq, Hx. split_and!; try done.
  - eapply Forall_impl; [exact Hv |]. intros x [Hl Hm]%andb_true_iff. split; [by apply Nat.leb_le |]. by apply regex_name.
  - eapply Forall2_Forall_l; [exact Hr |]. apply Forall_true. by intros _ r [].
Qed.
End TopologyBuilder.

(** ** Witness *)

Definition regex_example : RegEx :=
  λ pattern s, bool_decide (pattern = NAME_PATTERN) &&
    (forallb name_char s ||
     match reverse s with b :: cs => bool_decide (b = Byte.x0a) && forallb name_char cs | [] => false end).

Lemma regex_example_laws : RegExLaws regex_example.
Proof.
  intros s. unfold regex_match, regex_example. rewrite bool_decide_eq_true_2 by done. cbn [andb]. rewrite orb_true_iff, forallb_forall.
  assert (∀ l, (∀ x, In x l → name_char x = true) ↔ Forall (λ b, name_char b = true) l) as Hl.
  { intros l. rewrite Forall_forall. by setoid_rewrite list_elem_of_In. }
  rewrite Hl. split.
  - intros [H | H]; [by exists s; auto |]. destruct (reverse s) as [| b cs] eqn:Hs; [done |].
    apply andb_true_iff in H as [->%bool_decide_eq_true Hcs]. exists (reverse cs). split.
    + rewrite forallb_forall, Hl in Hcs. by apply Forall_reverse.
    + right. by rewrite <- (reverse_involutive s), Hs, reverse_cons.
  - intros (cs & Hcs & [-> | ->]); [by left | right]. rewrite reverse_snoc, bool_decide_eq_true_2 by done. cbn [andb].
    apply forallb_forall, Hl. by apply Forall_reverse.
Qed.

Definition builder_example : list BuilderCall :=
  [Call_addQueue (str "jobs") false true []; Call_addExchange (str "jobs") ExchangeType_DIRECT false true false [];
   Call_addExchange (str "not valid") ExchangeType_DIRECT false true false []; Call_bindQueue 1 0 (str "k") [];
   Call_addQueue (str "jobs") true true []].

Lemma built_topology_well_formed_witness :
  let b := (run_calls (R := regex_example) builder_example).1 in
  Forall (λ x, length (exchange_name x) ≤ 127 ∧
    ∃ cs, Forall (λ b, name_char b = true) cs ∧ (exchange_name x = cs ∨ exchange_name x = cs ++ [Byte.x0a]))
    (exchanges (b_topology b)) ∧ length (exchanges (b_topology b)) = 1 ∧ length (queues (b_topology b)) = 1.
Proof.
  destruct (built_topology_well_formed (G := byte_GuidUtil) (R := regex_example) (HR := regex_example_laws) builder_example)
    as (_ & _ & H & _).
  split_and!; [exact H | vm_compute; reflexivity..].
Defined.
