(* ===== verification/Future.v ===== *)
(** * Future: results that may come later

    Models [rmqt::Future] (rmqt_future.h) and [rmqt::Result] (rmqt_result.h): promises
    and futures over shared control blocks, continuations with [then] and [thenFuture],
    and the cancel functions that run when nobody waits for a result.

    The control blocks ([Impl]) are a heap; a future in the application's hands is a
    handle that owns its block, a promise ([Maker]) a weak reference. A block owns the
    one its result is derived from (through the cancel function that
    [getLifetimeExtension] makes), a continuation the futures it captured, and a call in
    progress what its local variables hold. A block nobody owns is destroyed.

    Each call is atomic with respect to other threads (it holds the mutex of the block
    it works on); inside a call the control flow is explicit: a stack of tasks for what
    the nested calls have left to do. Locking a mutex that the call holds already is a
    deadlock. [blockResult] and the timed waits poll [d_done]; that they are woken up is
    the event [Ev_broadcast]. All value types are the type [V]. *)

From Stdlib Require Import ZArith Lia String Strings.Byte Wellfounded.
From stdpp Require Import base tactics list.
From S2P Require Import Prelude.

Section Future.
Context {V : Type}.

(** ** Results *)

Record Result := mkResult { r_value : option V; r_error : bytes; r_code : Z }.

(** The conversion to bool. *)
Definition Result_ok (r : Result) : bool := (r_code r =? 0)%Z.
Definition Result_error (error : bytes) (resultCode : Z) : Result := mkResult None error resultCode.
Definition Result_value (v : V) : Result := mkResult (Some v) [] 0.

Definition TIMEOUT : Z := 408.

(** ** Control blocks *)

(** A block, by its address. *)
Notation Id := nat (only parsing).

(** A function given to a future: what it returns, and the blocks whose mutex it takes
    while it runs, to look at their results. *)
Record Callback {A B : Type} := mkCallback { fn :> A → B; fn_locks : A → list Id }.

Definition pure_callback {A B : Type} (f : A → B) : Callback := mkCallback A B f (λ _, []).

(** What a function given to [thenFuture] returns: one of the futures it captured, a
    future resolved at once, or a new one whose promise is left with others. *)
Inductive Generated :=
| Gen_captured (i : nat)
| Gen_resolved (r : Result)
| Gen_made (cancelFunction : option nat).

(** The functions bound in [d_chain]: [converter] and [futureConverter], with the
    promise (a weak reference) they resolve; [converter] of a [makerWrapper]. *)
Inductive ChainEntry :=
| Chain_converter (b : Id) (f : Callback (A := Result) (B := Result))
| Chain_futureConverter (b : Id) (cGenerator : Callback (A := Result) (B := Generated)) (captured : list Id)
| Chain_makerWrapper (d b : Id).

(** [d_cancelFunc]: empty, one of the application's functions, or
    [extendChainParentLifetime] bound to a block. *)
Inductive CancelFunc :=
| Cancel_none
| Cancel_user (k : nat)
| Cancel_extends (p : Id).

(** How a block came to be; a record for the proofs, which no operation reads. *)
Inductive Origin :=
| Origin_make (cancelFunction : option nat)
| Origin_then (a : Id) (f : Callback (A := Result) (B := Result))
| Origin_thenFuture (a : Id) (cGenerator : Callback (A := Result) (B := Generated)) (captured : list Id)
| Origin_wrapper (c b : Id).

Record Impl := mkImpl {
  i_alive : bool;
  i_locked : bool;
  d_done : bool;
  d_result : Result;
  d_chain : list ChainEntry;
  d_cancelFunc : CancelFunc;
  i_origin : Origin;
}.

(** ** Calls in progress *)

Inductive Task :=
| Task_made (b : Id) (item : Result)                    (* a promise is called *)
| Task_entry (a : Id) (e : ChainEntry) (r : Result)      (* a continuation of [a] is called *)
| Task_addChain (a : Id) (e : ChainEntry)                (* the second half of [addChain] *)
| Task_finish (a : Id)                                   (* the end of [made] *)
| Task_unlock (a : Id)                                   (* the end of [addChain] *)
| Task_bind (b c d : Id).                                (* the end of [futureConverter] *)

(** A mutex would be locked again by the call that holds it. *)
Inductive Deadlock :=
| Deadlock_made (b : Id)
| Deadlock_bind (b : Id)
| Deadlock_addChain (c : Id)
| Deadlock_callback (b c : Id).   (* the function of [b] takes the mutex of [c] *)

Inductive FutureEvent :=
| Ev_continued (b : Id) (r : Result)
| Ev_generated (b : Id) (r : Result) (c : Id)
| Ev_broadcast (a : Id)
| Ev_cancelled (a : Id) (k : nat).

Record Futures := mkFutures {
  impls : list Impl;
  handles : list Id;
  tasks : list Task;
  stuck : option Deadlock;
  trace : list FutureEvent;
}.

Definition Futures_none : Futures := mkFutures [] [] [] None [].

Definition set_impls (s : Futures) (l : list Impl) : Futures := mkFutures l (handles s) (tasks s) (stuck s) (trace s).
Definition push (ts : list Task) (s : Futures) : Futures := mkFutures (impls s) (handles s) (ts ++ tasks s) (stuck s) (trace s).
Definition emit (e : FutureEvent) (s : Futures) : Futures :=
  mkFutures (impls s) (handles s) (tasks s) (stuck s) (trace s ++ [e]).
Definition deadlock (d : Deadlock) (s : Futures) : Futures := mkFutures (impls s) (handles s) (tasks s) (Some d) (trace s).
Definition set_handles (s : Futures) (hs : list Id) : Futures := mkFutures (impls s) hs (tasks s) (stuck s) (trace s).

(** [make_shared<Impl>]; the block's address is the number of blocks so far. *)
Definition new_impl (done : bool) (r : Result) (c : CancelFunc) (o : Origin) (s : Futures) : Futures :=
  set_impls s (impls s ++ [mkImpl true false done r [] c o]).

Definition fresh (s : Futures) : Id := length (impls s).

Definition update (i : Id) (f : Impl → Impl) (s : Futures) : Futures := set_impls s (alter f i (impls s)).

Definition lock_impl (k : Impl) : Impl :=
  mkImpl (i_alive k) true (d_done k) (d_result k) (d_chain k) (d_cancelFunc k) (i_origin k).
Definition unlock_impl (k : Impl) : Impl :=
  mkImpl (i_alive k) false (d_done k) (d_result k) (d_chain k) (d_cancelFunc k) (i_origin k).
(** [d_result = item; d_done = true], under the lock *)
Definition resolve_impl (item : Result) (k : Impl) : Impl :=
  mkImpl (i_alive k) true true item (d_chain k) (d_cancelFunc k) (i_origin k).
Definition chain_impl (e : ChainEntry) (k : Impl) : Impl :=
  mkImpl (i_alive k) (i_locked k) (d_done k) (d_result k) (d_chain k ++ [e]) (d_cancelFunc k) (i_origin k).
(** [d_chain.clear()], and the lock is released *)
Definition finish_impl (k : Impl) : Impl :=
  mkImpl (i_alive k) false (d_done k) (d_result k) [] (d_cancelFunc k) (i_origin k).
Definition cancel_impl (c : CancelFunc) (k : Impl) : Impl :=
  mkImpl (i_alive k) (i_locked k) (d_done k) (d_result k) (d_chain k) c (i_origin k).
Definition dead_impl (k : Impl) : Impl :=
  mkImpl false (i_locked k) (d_done k) (d_result k) [] Cancel_none (i_origin k).

(** [Impl]'s initial result *)
Definition Result_null : Result := Result_error (str "Null") (-1).

Definition cancel_of (k : option nat) : CancelFunc :=
  match k with Some k => Cancel_user k | None => Cancel_none end.

(** ** Operations of a block *)

(** [made]: the continuations are called, then the waiting threads. *)
Definition Impl_made (b : Id) (item : Result) (s : Futures) : Futures :=
  match impls s !! b with
  | None => s
  | Some k =>
      if negb (i_alive k) then s
      else if i_locked k then deadlock (Deadlock_made b) s
      else push (((λ e, Task_entry b e item) <$> d_chain k) ++ [Task_finish b]) (update b (resolve_impl item) s)
  end.

(** [addChain], for either kind of continuation, once its future is made. *)
Definition addChain (a : Id) (e : ChainEntry) (s : Futures) : Futures :=
  match impls s !! a with
  | None => s
  | Some k =>
      if i_locked k then deadlock (Deadlock_addChain a) s
      else if d_done k then push [Task_entry a e (d_result k); Task_unlock a] (update a lock_impl s)
      else update a (chain_impl e) s
  end.

(** [cGenerator(aResult)], with the future it returns. *)
Definition generate (captured : list Id) (g : Generated) (s : Futures) : Id * Futures :=
  let make_new k := (fresh s, new_impl false Result_null (cancel_of k) (Origin_make k) s) in
  match g with
  | Gen_captured i => match captured !! i with Some c => (c, s) | None => make_new None end
  | Gen_resolved r => (fresh s, new_impl true r Cancel_none (Origin_make None) s)
  | Gen_made k => make_new k
  end.

(** [futureConverter], when [b] is alive: the generated future [c], and
    [d = c.then(makerWrapper(bMaker))]. *)
Definition futureConverter (b : Id) (g : Callback (A := Result) (B := Generated)) (captured : list Id) (r : Result) (s : Futures)
  : Futures :=
  let (c, s) := generate captured (g r) s in
  let s := emit (Ev_generated b r c) s in
  let d := fresh s in
  let s := new_impl false Result_null (Cancel_extends c) (Origin_wrapper c b) s in
  push [Task_addChain c (Chain_makerWrapper d b); Task_bind b c d] s.

Definition impl_alive (s : Futures) (i : Id) : bool :=
  match impls s !! i with Some k => i_alive k | None => false end.

(** One task, already taken off the stack. *)
Definition exec (t : Task) (s : Futures) : Futures :=
  match t with
  | Task_made b item => Impl_made b item s
  | Task_entry _ (Chain_converter b f) r => push [Task_made b (f r)] (emit (Ev_continued b r) s)
  | Task_entry _ (Chain_makerWrapper d b) r => push [Task_made b r; Task_made d r] s
  | Task_entry _ (Chain_futureConverter b g captured) r =>
      if impl_alive s b then futureConverter b g captured r s else s
  | Task_addChain a e => addChain a e s
  | Task_finish a => emit (Ev_broadcast a) (update a finish_impl s)
  | Task_unlock a => update a unlock_impl s
  | Task_bind b c d =>
      match impls s !! b with
      | Some k =>
          if i_locked k then deadlock (Deadlock_bind b) s
          else update b (cancel_impl (Cancel_extends d)) s
      | None => s
      end
  end.

(** ** Ownership *)

Definition entry_captured (e : ChainEntry) : list Id :=
  match e with Chain_futureConverter _ _ captured => captured | _ => [] end.

Definition impl_owns (k : Impl) : list Id :=
  if i_alive k
  then match d_cancelFunc k with Cancel_extends p => [p] | _ => [] end ++ concat (entry_captured <$> d_chain k)
  else [].

Definition task_owns (t : Task) : list Id :=
  match t with
  | Task_made _ _ => []
  | Task_entry _ e _ => entry_captured e
  | Task_addChain a e => a :: entry_captured e
  | Task_finish a | Task_unlock a => [a]
  | Task_bind b c d => [b; c; d]
  end.

Definition owned (s : Futures) : list Id :=
  handles s ++ concat (task_owns <$> tasks s) ++ concat (impl_owns <$> impls s).

(** [~Impl] *)
Definition destroy (i : Id) (s : Futures) : Futures :=
  match impls s !! i with
  | None => s
  | Some k =>
      let s := match d_cancelFunc k with
               | Cancel_user u => if d_done k then s else emit (Ev_cancelled i u) s
               | _ => s
               end in
      update i dead_impl s
  end.

(** A block that lost its last owner. *)
Definition unowned (s : Futures) : option Id :=
  head (filter (λ i, impl_alive s i = true ∧ i ∉ owned s) (seq 0 (length (impls s)))).

Fixpoint sweep_loop (fuel : nat) (s : Futures) : Futures :=
  match fuel with
  | O => s
  | S fuel => match unowned s with Some i => sweep_loop fuel (destroy i s) | None => s end
  end.
Definition sweep (s : Futures) : Futures := sweep_loop (length (impls s)) s.

(** ** Steps and calls *)

Definition pop (s : Futures) : Futures := mkFutures (impls s) (handles s) (tail (tasks s)) (stuck s) (trace s).

(** The function a task calls: the future it makes the result of, and the mutexes it takes. *)
Definition task_callback (t : Task) (s : Futures) : option (Id * list Id) :=
  match t with
  | Task_entry _ (Chain_converter b f) r => Some (b, fn_locks f r)
  | Task_entry _ (Chain_futureConverter b g _) r => if impl_alive s b then Some (b, fn_locks g r) else None
  | _ => None
  end.

Definition impl_locked (s : Futures) (i : Id) : bool :=
  match impls s !! i with Some k => i_locked k | None => false end.

(** The function takes a mutex that the call holds. *)
Definition callback_blocked (t : Task) (s : Futures) : option Deadlock :=
  match task_callback t s with
  | Some (b, locks) => Deadlock_callback b <$> List.find (impl_locked s) locks
  | None => None
  end.

Definition step (s : Futures) : Futures :=
  match stuck s, tasks s with
  | None, t :: _ =>
      match callback_blocked t s with
      | Some d => deadlock d (pop s)
      | None => sweep (exec t (pop s))
      end
  | _, _ => s
  end.

Fixpoint run (fuel : nat) (s : Futures) : Futures :=
  match fuel with
  | O => s
  | S fuel => match stuck s, tasks s with None, _ :: _ => run fuel (step s) | _, _ => s end
  end.

(** The calls of the application, which holds the futures it uses. *)
Inductive FutureOp :=
| Op_resolved (item : Result)
| Op_make (cancelFunction : option nat)
| Op_resolve (a : Id) (item : Result)
| Op_then (a : Id) (f : Callback (A := Result) (B := Result))
| Op_thenFuture (a : Id) (g : Callback (A := Result) (B := Generated)) (captured : list Id)
| Op_copy (a : Id)
| Op_drop (a : Id).

Fixpoint remove_one (a : Id) (l : list Id) : list Id :=
  match l with [] => [] | x :: l => if Nat.eqb x a then l else x :: remove_one a l end.

Definition begin (o : FutureOp) (s : Futures) : Futures :=
  let held a := bool_decide (a ∈ handles s) in
  let derive a origin entry :=
    let b := fresh s in
    push [Task_addChain a (entry b)]
      (new_impl false Result_null (Cancel_extends a) origin (set_handles s (b :: handles s))) in
  match o with
  | Op_resolved item => new_impl true item Cancel_none (Origin_make None) (set_handles s (fresh s :: handles s))
  | Op_make k => new_impl false Result_null (cancel_of k) (Origin_make k) (set_handles s (fresh s :: handles s))
  | Op_resolve a item => push [Task_made a item] s
  | Op_then a f => if held a then derive a (Origin_then a f) (λ b, Chain_converter b f) else s
  | Op_thenFuture a g captured =>
      if held a && forallb held captured
      then derive a (Origin_thenFuture a g captured) (λ b, Chain_futureConverter b g captured) else s
  | Op_copy a => if held a then set_handles s (a :: handles s) else s
  | Op_drop a => set_handles s (remove_one a (handles s))
  end.

(** The work a call may have to do, in steps. *)
Definition entry_work (e : ChainEntry) : nat :=
  match e with Chain_converter _ _ => 3 | Chain_futureConverter _ _ _ => 9 | Chain_makerWrapper _ _ => 5 end.
Definition task_work (t : Task) : nat :=
  match t with
  | Task_made _ _ => 2
  | Task_entry _ e _ => entry_work e
  | Task_addChain _ e => 2 + entry_work e
  | Task_finish _ | Task_unlock _ | Task_bind _ _ _ => 1
  end.
Definition impl_work (k : Impl) : nat := if d_done k then 0 else sum_list (entry_work <$> d_chain k).
Definition work (s : Futures) : nat := sum_list (task_work <$> tasks s) + sum_list (impl_work <$> impls s).

Definition perform (o : FutureOp) (s : Futures) : Futures :=
  let s := sweep (begin o s) in run (work s) s.

(** [propagateError]: an error is the result, without a call. *)
Definition propagateError (fn : Callback (A := option V) (B := Generated)) : Callback (A := Result) (B := Generated) :=
  {| fn a := if Result_ok a then fn (r_value a) else Gen_resolved (Result_error (r_error a) (r_code a));
     fn_locks a := if Result_ok a then fn_locks fn (r_value a) else [] |}.

(** [tryResult] *)
Definition tryResult (a : Id) (s : Futures) : Result :=
  match impls s !! a with
  | Some k => if d_done k then d_result k else Result_error (str "TIMED OUT") TIMEOUT
  | None => Result_null
  end.

(** ** The heap *)

Definition origin_of (s : Futures) (i : Id) : option Origin := i_origin <$> impls s !! i.
Definition done_of (s : Futures) (i : Id) : bool := match impls s !! i with Some k => d_done k | None => false end.
Definition result_of (s : Futures) (i : Id) : option Result :=
  match impls s !! i with Some k => if d_done k then Some (d_result k) else None | None => None end.
Definition cancel_of_impl (s : Futures) (i : Id) : option CancelFunc := d_cancelFunc <$> impls s !! i.

Lemma concat_alter {A B} (h : A → list B) g (l : list A) : ∀ i k, l !! i = Some k →
  h k ++ concat (h <$> alter g i l) ≡ₚ h (g k) ++ concat (h <$> l).
Proof using.
  induction l as [| x l IH]; intros [| i] k Hi; simplify_eq/=.
  - solve_Permutation.
  - rewrite (Permutation_app_comm (h x)), app_assoc, (IH _ _ Hi). solve_Permutation.
Qed.

Lemma concat_alter_same {A B} (h : A → list B) g (l : list A) i k : l !! i = Some k → h (g k) = h k →
  concat (h <$> alter g i l) = concat (h <$> l).
Proof using.
  revert i. induction l as [| x l IH]; intros [| i] Hi He; simplify_eq/=; [by rewrite He | by rewrite (IH i)].
Qed.

Lemma update_lookup i f s j :
  impls (update i f s) !! j = (if decide (i = j) then f <$> impls s !! j else impls s !! j).
Proof using.
  cbn. destruct (decide (i = j)) as [-> |]; [apply list_lookup_alter_eq | by apply list_lookup_alter_ne].
Qed.

Lemma new_lookup done r c o s j :
  impls (new_impl done r c o s) !! j
  = (if decide (j = fresh s) then Some (mkImpl true false done r [] c o) else impls s !! j).
Proof using.
  cbn. unfold fresh. destruct (decide (j = _)) as [-> | Hj]; [by rewrite lookup_app_r, Nat.sub_diag |].
  destruct (decide (j < length (impls s))) as [Hlt | Hlt]; [by apply lookup_app_l |].
  rewrite (lookup_ge_None_2 (impls s)) by lia. apply lookup_ge_None_2. rewrite length_app. cbn. lia.
Qed.

Lemma fresh_None s : impls s !! fresh s = None.
Proof using. apply lookup_ge_None_2. unfold fresh. lia. Qed.

(** What never changes, and what changes only once. *)
Record evolves (k k' : Impl) : Prop := {
  ev_origin : i_origin k' = i_origin k;
  ev_done : d_done k = true → d_done k' = true ∧ d_result k' = d_result k;
  ev_alive : i_alive k' = true → i_alive k = true;
}.

Record extends (s s' : Futures) : Prop := {
  ex_impls i k : impls s !! i = Some k → ∃ k', impls s' !! i = Some k' ∧ evolves k k';
  ex_trace e : e ∈ trace s → e ∈ trace s';
}.

Lemma evolves_refl k : evolves k k.
Proof using. by split. Qed.

Lemma evolved_refl s : extends s s.
Proof using. split; [| done]. intros i k Hi. exists k. split; [done | apply evolves_refl]. Qed.

Lemma evolved_trans s1 s2 s3 : extends s1 s2 → extends s2 s3 → extends s1 s3.
Proof using.
  intros [H1 T1] [H2 T2]. split; [| auto]. intros i k Hi. destruct (H1 i k Hi) as (k' & Hi' & [Ho Hd Ha]).
  destruct (H2 i k' Hi') as (k'' & Hi'' & [Ho' Hd' Ha']). exists k''. split; [done |]. split; [congruence | | auto].
  intros Hk. destruct (Hd Hk) as [Hk' <-]. auto.
Qed.

Lemma extends_same s s' : impls s' = impls s → (∀ e, e ∈ trace s → e ∈ trace s') → extends s s'.
Proof using. intros Hi Ht. split; [| done]. intros i k Hk. exists k. rewrite Hi. split; [done | apply evolves_refl]. Qed.

Lemma extends_update s i f : (∀ k, impls s !! i = Some k → evolves k (f k)) → extends s (update i f s).
Proof using.
  intros Hf. split; [| done]. intros j k Hj. rewrite update_lookup. destruct (decide (i = j)) as [-> |].
  - exists (f k). rewrite Hj. split; [done | by apply Hf].
  - exists k. split; [done | apply evolves_refl].
Qed.

Lemma extends_new s done r c o : extends s (new_impl done r c o s).
Proof using.
  split; [| done]. intros j k Hj. rewrite new_lookup. destruct (decide (j = fresh s)) as [-> |]; [by rewrite fresh_None in Hj |].
  exists k. split; [done | apply evolves_refl].
Qed.

Lemma origin_extends s s' i o : extends s s' → origin_of s i = Some o → origin_of s' i = Some o.
Proof using.
  unfold origin_of. intros He Ho. destruct (impls s !! i) as [k |] eqn:Hi; [| done].
  destruct (ex_impls _ _ He i k Hi) as (k' & -> & Hk). cbn in *. by rewrite (ev_origin _ _ Hk).
Qed.

Lemma result_extends s s' i r : extends s s' → result_of s i = Some r → result_of s' i = Some r.
Proof using.
  unfold result_of. intros He Ho. destruct (impls s !! i) as [k |] eqn:Hi; [| done].
  destruct (ex_impls _ _ He i k Hi) as (k' & -> & Hk). destruct (d_done k) eqn:Hd; [| done].
  by destruct (ev_done _ _ Hk Hd) as [-> ->].
Qed.

Lemma alive_extends s s' i : extends s s' → is_Some (impls s !! i) → impl_alive s' i = true → impl_alive s i = true.
Proof using.
  unfold impl_alive. intros He [k Hi] Ha. destruct (ex_impls _ _ He i k Hi) as (k' & Hi' & Hk).
  rewrite Hi' in Ha. rewrite Hi. by apply (ev_alive _ _ Hk).
Qed.

(** ** The invariant *)

Definition entry_targets (e : ChainEntry) : list Id :=
  match e with Chain_converter b _ | Chain_futureConverter b _ _ => [b] | Chain_makerWrapper d b => [b; d] end.
Definition task_targets (t : Task) : list Id :=
  match t with
  | Task_made b _ => [b]
  | Task_entry _ e _ | Task_addChain _ e => entry_targets e
  | _ => []
  end.
Definition impl_targets (k : Impl) : list Id :=
  if d_done k then [] else concat (entry_targets <$> d_chain k).

(** The promises that calls and continuations still have to keep. *)
Definition targets (s : Futures) : list Id :=
  concat (task_targets <$> tasks s) ++ concat (impl_targets <$> impls s).

(** A continuation that waits for [x]'s result, or that is called with it. *)
Definition pending (s : Futures) (x : Id) (e : ChainEntry) : Prop :=
  (∃ k, impls s !! x = Some k ∧ d_done k = false ∧ e ∈ d_chain k) ∨
  Task_addChain x e ∈ tasks s ∨ ∃ r, Task_entry x e r ∈ tasks s.

(** The result a derived future must have. *)
Definition value_ok (s : Futures) (b : Id) (r : Result) : Prop :=
  match origin_of s b with
  | Some (Origin_then a f) => ∃ ra, result_of s a = Some ra ∧ r = f ra
  | Some (Origin_thenFuture a g captured) =>
      ∃ ra c, result_of s a = Some ra ∧ Ev_generated b ra c ∈ trace s ∧ result_of s c = Some r
  | Some (Origin_wrapper c _) => result_of s c = Some r
  | _ => True
  end.

Definition entry_ok (s : Futures) (x : Id) (e : ChainEntry) : Prop :=
  match e with
  | Chain_converter b f => origin_of s b = Some (Origin_then x f)
  | Chain_futureConverter b g captured =>
      origin_of s b = Some (Origin_thenFuture x g captured) ∧
      (impl_alive s b = true → cancel_of_impl s b = Some (Cancel_extends x)) ∧
      (∀ r c, Ev_generated b r c ∉ trace s)
  | Chain_makerWrapper d b =>
      origin_of s d = Some (Origin_wrapper x b) ∧
      (impl_alive s b = true → Task_bind b x d ∈ tasks s ∨ cancel_of_impl s b = Some (Cancel_extends d))
  end.

Definition task_ok (s : Futures) (t : Task) : Prop :=
  match t with
  | Task_made b r => value_ok s b r
  | Task_entry a e r => result_of s a = Some r
  | Task_addChain a e => True
  | Task_finish a | Task_unlock a => is_Some (result_of s a)
  | Task_bind b c d => origin_of s d = Some (Origin_wrapper c b)
  end.

Definition wrapper_ok (s : Futures) (c b : Id) : Prop :=
  ∃ a g captured ra, origin_of s b = Some (Origin_thenFuture a g captured) ∧ result_of s a = Some ra ∧
    Ev_generated b ra c ∈ trace s.

(** The cancel function of a living block. *)
Definition cancel_ok (k : Impl) : Prop :=
  match i_origin k with
  | Origin_make u => d_cancelFunc k = cancel_of u
  | Origin_then a _ | Origin_wrapper a _ => d_cancelFunc k = Cancel_extends a
  | Origin_thenFuture _ _ _ => ∃ p, d_cancelFunc k = Cancel_extends p
  end.

Definition task_locks (t : Task) : list Id :=
  match t with Task_finish a | Task_unlock a => [a] | _ => [] end.

(** No lock below a task that binds [b] is [b]'s. *)
Fixpoint binds_free (ts : list Task) : Prop :=
  match ts with
  | [] => True
  | t :: ts =>
      match t with Task_bind b _ _ => b ∉ concat (task_locks <$> ts) | _ => True end ∧ binds_free ts
  end.

Record Inv (s : Futures) : Prop := {
  i_nodup : NoDup (targets s);
  i_targets b : b ∈ targets s → ∃ k, impls s !! b = Some k ∧ d_done k = false;
  i_awaited b k : impls s !! b = Some k → i_alive k = true → d_done k = false →
    (∀ u, i_origin k ≠ Origin_make u) → b ∈ targets s;
  i_owned i : i ∈ owned s → impl_alive s i = true;
  i_cancel b k : impls s !! b = Some k → i_alive k = true → cancel_ok k;
  i_entries x e : pending s x e → entry_ok s x e;
  i_tasks t : t ∈ tasks s → task_ok s t;
  i_values b r : result_of s b = Some r → value_ok s b r;
  i_wrapper d c b : origin_of s d = Some (Origin_wrapper c b) → wrapper_ok s c b;
  i_unique d d' c c' b : origin_of s d = Some (Origin_wrapper c b) → origin_of s d' = Some (Origin_wrapper c' b) → d = d';
  i_generated b r c : Ev_generated b r c ∈ trace s → is_Some (impls s !! b);
  i_locks a k : impls s !! a = Some k → i_locked k = true → d_done k = true ∧ a ∈ concat (task_locks <$> tasks s);
  i_binds : binds_free (tasks s);
}.

(** ** Monotonicity *)

Lemma value_extends s s' b r : extends s s' → is_Some (impls s !! b) → value_ok s b r → value_ok s' b r.
Proof using.
  intros He Hb Hv. unfold value_ok in *. destruct (origin_of s b) as [o |] eqn:Ho.
  2: { unfold origin_of in Ho. destruct Hb as [k Hk]. by rewrite Hk in Ho. }
  rewrite (origin_extends _ _ _ _ He Ho). destruct o as [u | a f | a g cap | c b'].
  - done.
  - destruct Hv as (ra & Ha & ->). exists ra. split; [by apply (result_extends s) | done].
  - destruct Hv as (ra & c & Ha & Ht & Hc). exists ra, c.
    split_and!; [by apply (result_extends s) | by apply (ex_trace _ _ He) | by apply (result_extends s)].
  - by apply (result_extends s).
Qed.

Lemma wrapper_extends s s' c b : extends s s' → wrapper_ok s c b → wrapper_ok s' c b.
Proof using.
  intros He (a & g & cap & ra & Ho & Hr & Ht). exists a, g, cap, ra.
  split_and!; [by apply (origin_extends s) | by apply (result_extends s) | by apply (ex_trace _ _ He)].
Qed.

Lemma origin_impl s b o : origin_of s b = Some o → is_Some (impls s !! b).
Proof using. unfold origin_of. destruct (impls s !! b); [eauto | done]. Qed.

Lemma result_impl s b r : result_of s b = Some r → is_Some (impls s !! b).
Proof using. unfold result_of. destruct (impls s !! b); [eauto | done]. Qed.

(** ** Changes that make no block *)

Record calm (s s' : Futures) : Prop := {
  ca_extends : extends s s';
  ca_old i : is_Some (impls s' !! i) → is_Some (impls s !! i);
  ca_cancel b k k' : impls s !! b = Some k → impls s' !! b = Some k' → i_alive k' = true →
    d_cancelFunc k' = d_cancelFunc k;
  ca_generated b r c : Ev_generated b r c ∈ trace s' → Ev_generated b r c ∈ trace s;
  ca_bind b c d : Task_bind b c d ∈ tasks s → Task_bind b c d ∈ tasks s';
}.

Lemma cancel_calm s s' b c : calm s s' → impl_alive s' b = true → cancel_of_impl s b = Some c → cancel_of_impl s' b = Some c.
Proof using.
  intros Hc Ha. unfold cancel_of_impl, impl_alive in *. destruct (impls s' !! b) as [k' |] eqn:Hk'; [| done].
  destruct (ca_old _ _ Hc b ltac:(eauto)) as [k Hk]. rewrite Hk. cbn. by rewrite (ca_cancel _ _ Hc b k k').
Qed.

Lemma entry_calm s s' x e : calm s s' → entry_ok s x e → entry_ok s' x e.
Proof using.
  intros Hc. pose proof (ca_extends _ _ Hc) as He. destruct e as [b f | b g cap | d b]; cbn.
  - by apply origin_extends.
  - intros (Ho & Ha & Ht). split_and!; [by apply (origin_extends s) | |].
    + intros Hb. eapply cancel_calm; [done.. |]. apply Ha. eapply alive_extends; [done | by eapply origin_impl | done].
    + intros r c Hin%(ca_generated _ _ Hc). by eapply Ht.
  - intros (Ho & Ha). split; [by apply (origin_extends s) |]. intros Hb.
    assert (impl_alive s b = true) as Hb'.
    { eapply alive_extends; [done | | done]. apply (ca_old _ _ Hc). unfold impl_alive in Hb.
      destruct (impls s' !! b); [eauto | done]. }
    destruct (Ha Hb') as [? | ?]; [left; by apply (ca_bind _ _ Hc) | right; by eapply cancel_calm].
Qed.

Lemma origin_calm s s' i o : calm s s' → origin_of s' i = Some o → origin_of s i = Some o.
Proof using.
  intros Hc Ho. destruct (ca_old _ _ Hc i (origin_impl _ _ _ Ho)) as [k Hk].
  assert (origin_of s i = Some (i_origin k)) as Hs by (unfold origin_of; by rewrite Hk).
  pose proof (origin_extends _ _ _ _ (ca_extends _ _ Hc) Hs). congruence.
Qed.

Lemma task_extends s s' t : extends s s' → (∀ b r, t = Task_made b r → is_Some (impls s !! b)) → task_ok s t → task_ok s' t.
Proof using.
  intros He Hb. destruct t as [b r | a e r | a e | a | a | b c d]; cbn.
  - apply value_extends; eauto.
  - by apply result_extends.
  - done.
  - intros [r Hr]. exists r. by apply (result_extends s).
  - intros [r Hr]. exists r. by apply (result_extends s).
  - by apply origin_extends.
Qed.

(** A task's promises are among the targets. *)
Lemma task_target s t b : t ∈ tasks s → b ∈ task_targets t → b ∈ targets s.
Proof using.
  intros Ht Hb. unfold targets. apply elem_of_app. left. apply list_elem_of_In, in_concat.
  exists (task_targets t). split; apply list_elem_of_In; [by apply list_elem_of_fmap_2 | done].
Qed.

Lemma inv_calm s s' l :
  Inv s → calm s s' →
  targets s ≡ₚ l ++ targets s' → (∀ b, b ∈ l → done_of s' b = true ∨ impl_alive s' b = false) →
  (∀ b, b ∈ targets s' → done_of s' b = false) →
  (∀ i, i ∈ owned s' → impl_alive s' i = true) →
  (∀ x e, pending s' x e → pending s x e ∨ entry_ok s' x e) →
  (∀ t, t ∈ tasks s' → t ∈ tasks s ∨ task_ok s' t) →
  (∀ b r, result_of s' b = Some r → result_of s b = Some r ∨ value_ok s' b r) →
  (∀ a k, impls s' !! a = Some k → i_locked k = true → d_done k = true ∧ a ∈ concat (task_locks <$> tasks s')) →
  binds_free (tasks s') →
  Inv s'.
Proof using.
  intros Hi Hc Ht Hl Hdone Hown Hpend Htask Hval Hlock Hbind. pose proof (ca_extends _ _ Hc) as He.
  pose proof (i_nodup _ Hi) as Hnd. rewrite Ht in Hnd. apply NoDup_app in Hnd as (_ & _ & Hnd).
  split; [done | | | done | | | | | | | | done | done].
  - intros b Hb. assert (b ∈ targets s) as Hb' by (rewrite Ht; apply elem_of_app; by right).
    destruct (i_targets _ Hi b Hb') as (k & Hk & _). destruct (ex_impls _ _ He b k Hk) as (k' & Hk' & _).
    exists k'. split; [done |]. specialize (Hdone b Hb). unfold done_of in Hdone. by rewrite Hk' in Hdone.
  - intros b k' Hk' Ha Hd Ho. destruct (ca_old _ _ Hc b ltac:(eauto)) as [k Hk].
    destruct (ex_impls _ _ He b k Hk) as (k2 & Hk2 & [Hor Hdn Hal]). simplify_eq.
    assert (b ∈ targets s) as Hb.
    { apply (i_awaited _ Hi b k Hk); [auto | | intros u Hu; apply (Ho u); congruence].
      destruct (d_done k) eqn:Hdk; [| done]. destruct (Hdn eq_refl). congruence. }
    rewrite Ht in Hb. apply elem_of_app in Hb as [Hb | Hb]; [| done].
    destruct (Hl b Hb) as [H | H]; [unfold done_of in H | unfold impl_alive in H]; rewrite Hk' in H; congruence.
  - intros b k' Hk' Ha. destruct (ca_old _ _ Hc b ltac:(eauto)) as [k Hk].
    destruct (ex_impls _ _ He b k Hk) as (k2 & Hk2 & [Hor Hdn Hal]). simplify_eq.
    pose proof (i_cancel _ Hi b k Hk (Hal Ha)) as Hcn. unfold cancel_ok in *.
    by rewrite Hor, (ca_cancel _ _ Hc b k k' Hk Hk' Ha).
  - intros x e Hp. destruct (Hpend x e Hp) as [Hp' | ?]; [| done].
    eapply entry_calm; [done |]. by apply (i_entries _ Hi).
  - intros t Hin. destruct (Htask t Hin) as [Hin' | ?]; [| done].
    eapply task_extends; [done | | by apply (i_tasks _ Hi)]. intros b r ->.
    destruct (i_targets _ Hi b) as (k & Hk & _); [eapply task_target; [done | by left] | eauto].
  - intros b r Hr. destruct (Hval b r Hr) as [Hr' | ?]; [| done].
    eapply value_extends; [done | by eapply result_impl | by apply (i_values _ Hi)].
  - intros d c b Ho. eapply wrapper_extends; [done |]. eapply (i_wrapper _ Hi). by eapply origin_calm.
  - intros d d' c c' b Ho Ho'. eapply (i_unique _ Hi); by eapply origin_calm.
  - intros b r c Hg%(ca_generated _ _ Hc). destruct (i_generated _ Hi b r c Hg) as [k Hk].
    destruct (ex_impls _ _ He b k Hk) as (k' & Hk' & _). eauto.
Qed.

(** ** Tasks *)

Lemma calm_same l h h' ts ts' st st' tr tr' :
  (∀ e, e ∈ tr → e ∈ tr') → (∀ b r c, Ev_generated b r c ∈ tr' → Ev_generated b r c ∈ tr) →
  (∀ b c d, Task_bind b c d ∈ ts → Task_bind b c d ∈ ts') →
  calm (mkFutures l h ts st tr) (mkFutures l h' ts' st' tr').
Proof using.
  intros Ht Hg Hb. split; cbn; [by apply extends_same | done | | done | done].
  intros b k k' Hk Hk' _. congruence.
Qed.

Lemma calm_update l h h' ts ts' st st' tr tr' i f :
  (∀ k, l !! i = Some k → evolves k (f k) ∧ (i_alive (f k) = true → d_cancelFunc (f k) = d_cancelFunc k)) →
  (∀ e, e ∈ tr → e ∈ tr') → (∀ b r c, Ev_generated b r c ∈ tr' → Ev_generated b r c ∈ tr) →
  (∀ b c d, Task_bind b c d ∈ ts → Task_bind b c d ∈ ts') →
  calm (mkFutures l h ts st tr) (mkFutures (alter f i l) h' ts' st' tr').
Proof using.
  intros Hf Ht Hg Hb. split; cbn; [| | | done | done].
  - eapply (evolved_trans _ (update i f (mkFutures l h ts st tr))).
    + apply extends_update. intros k Hk. by apply Hf.
    + by apply extends_same.
  - intros j [k' Hk']. pose proof (update_lookup i f (mkFutures l h ts st tr) j) as Hu. cbn in Hu. rewrite Hu in Hk'.
    destruct (decide (i = j)); [destruct (l !! j); eauto; done | eauto].
  - intros j k k' Hk Hk' Ha. pose proof (update_lookup i f (mkFutures l h ts st tr) j) as Hu. cbn in Hu. rewrite Hu in Hk'.
    destruct (decide (i = j)) as [-> |]; [| congruence]. rewrite Hk in Hk'. cbn in Hk'. simplify_eq. by apply Hf.
Qed.

Lemma alter_lookup_Some {A} (f : A → A) (l : list A) i j x :
  alter f i l !! j = Some x → (i = j ∧ ∃ y, l !! j = Some y ∧ x = f y) ∨ (i ≠ j ∧ l !! j = Some x).
Proof using.
  intros H. destruct (decide (i = j)) as [-> | Hij].
  - rewrite list_lookup_alter_eq in H. destruct (l !! j) as [y |]; [| done]. cbn in H. simplify_eq. left. eauto.
  - rewrite list_lookup_alter_ne in H by done. by right.
Qed.

Lemma elem_concat_fmap {A B} (g : A → list B) (l : list A) x :
  x ∈ concat (g <$> l) ↔ ∃ y, y ∈ l ∧ x ∈ g y.
Proof using.
  rewrite list_elem_of_In, in_concat. setoid_rewrite <- list_elem_of_In. split.
  - intros (z & Hz & Hx). apply list_elem_of_fmap in Hz as (y & -> & Hy). eauto.
  - intros (y & Hy & Hx). exists (g y). split; [by apply list_elem_of_fmap_2 | done].
Qed.

Lemma elem_concat_alter {A B} (g : A → list B) f (l : list A) i x k :
  l !! i = Some k → x ∈ concat (g <$> alter f i l) → x ∈ concat (g <$> l) ∨ x ∈ g (f k).
Proof using.
  intros Hk (y & Hy & Hx)%elem_concat_fmap. apply list_elem_of_lookup in Hy as [j Hj].
  destruct (alter_lookup_Some _ _ _ _ _ Hj) as [(-> & z & Hz & ->) | [_ Hz]]; [simplify_eq; by right |].
  left. apply elem_concat_fmap. exists y. split; [by eapply list_elem_of_lookup_2 | done].
Qed.

Lemma alive_alter f l h ts st tr h' ts' st' tr' i j :
  (∀ k, i_alive (f k) = i_alive k) →
  impl_alive (mkFutures (alter f i l) h ts st tr) j = impl_alive (mkFutures l h' ts' st' tr') j.
Proof using.
  intros Hf. unfold impl_alive. cbn. destruct (decide (i = j)) as [-> | Hij].
  - rewrite list_lookup_alter_eq. destruct (l !! j); [apply Hf | done].
  - by rewrite list_lookup_alter_ne.
Qed.

Lemma binds_free_tail t ts : binds_free (t :: ts) → binds_free ts.
Proof using. by intros [_ H]. Qed.

Lemma binds_free_app new ts :
  (∀ t, t ∈ new → ∀ b c d, t ≠ Task_bind b c d) → binds_free ts → binds_free (new ++ ts).
Proof using.
  intros Hn Ht. induction new as [| t new IH]; [done |]. cbn. split; [| apply IH; intros t' Ht'; apply Hn; by right].
  destruct t; try done. destruct (Hn (Task_bind b c d) ltac:(by left) b c d eq_refl).
Qed.

(** The lock of a task that is none is another's. *)
Lemma locks_tail l h t ts st tr a k :
  Inv (mkFutures l h (t :: ts) st tr) → task_locks t = [] → l !! a = Some k → i_locked k = true →
  d_done k = true ∧ a ∈ concat (task_locks <$> ts).
Proof using. intros Hi Ht Ha Hl. destruct (i_locks _ Hi a k Ha Hl) as [? H]. split; [done |]. cbn in H. by rewrite Ht in H. Qed.

(** A task that leaves nothing but promises to call, or nothing. *)
Lemma inv_made_tasks l h t ts tr tr' (bs : list (Id * Result)) dropped :
  Inv (mkFutures l h (t :: ts) None tr) →
  task_locks t = [] → (∀ b c d, t ≠ Task_bind b c d) →
  task_targets t ≡ₚ dropped ++ bs.*1 →
  (∀ b, b ∈ dropped → impl_alive (mkFutures l h (t :: ts) None tr) b = false) →
  (∀ b r, (b, r) ∈ bs → value_ok (mkFutures l h (t :: ts) None tr) b r) →
  (∀ e, e ∈ tr → e ∈ tr') → (∀ b r c, Ev_generated b r c ∈ tr' → Ev_generated b r c ∈ tr) →
  Inv (mkFutures l h (((λ p, Task_made p.1 p.2) <$> bs) ++ ts) None tr').
Proof using.
  intros Hi Hlk Hnb Ht Hdead Hval Htr Hgen.
  assert (concat (task_targets <$> ((λ p, Task_made p.1 p.2) <$> bs)) = bs.*1) as Hbs.
  { clear. induction bs as [| [b r] bs IH]; [done |]. cbn. by rewrite IH. }
  assert (targets (mkFutures l h (t :: ts) None tr)
    ≡ₚ dropped ++ targets (mkFutures l h (((λ p, Task_made p.1 p.2) <$> bs) ++ ts) None tr')) as Htg.
  { unfold targets. cbn. rewrite fmap_app, concat_app, Hbs, Ht. solve_Permutation. }
  assert (calm (mkFutures l h (t :: ts) None tr) (mkFutures l h (((λ p, Task_made p.1 p.2) <$> bs) ++ ts) None tr')) as Hc.
  { apply calm_same; [done | done |]. intros b c d [H | H]%elem_of_cons; [by destruct (Hnb b c d) |].
    apply elem_of_app. by right. }
  assert (∀ t', t' ∈ ((λ p, Task_made p.1 p.2) <$> bs) → ∃ b r, t' = Task_made b r ∧ (b, r) ∈ bs) as Hmade.
  { intros t' ([b r] & -> & Hin)%list_elem_of_fmap. eauto. }
  eapply (inv_calm _ _ dropped Hi); cbn [tasks impls]; [done | done | | | | | | | |].
  - intros b Hb. right. by apply Hdead.
  - intros b Hb. destruct (i_targets _ Hi b) as (k & Hk & Hd); [rewrite Htg; apply elem_of_app; by right |].
    unfold done_of. cbn in *. by rewrite Hk.
  - intros i Hin. apply (i_owned _ Hi). unfold owned in *. cbn in *. rewrite fmap_app, concat_app in Hin.
    rewrite !elem_of_app in *. destruct Hin as [? | [[Hin | ?] | ?]]; [by left | | right; left; by right | by right; right].
    apply elem_concat_fmap in Hin as (t' & Ht' & Hin). destruct (Hmade t' Ht') as (b & r & -> & _). by apply elem_of_nil in Hin.
  - intros x e [H | [H | [r H]]]; left; [by left | | ]; cbn in H; apply elem_of_app in H as [H | H];
      [destruct (Hmade _ H) as (? & ? & ? & _); done | right; left; by right
      | destruct (Hmade _ H) as (? & ? & ? & _); done | right; right; exists r; by right].
  - intros t' [Ht' | Ht']%elem_of_app; [| left; by right]. right. destruct (Hmade t' Ht') as (b & r & -> & Hin).
    eapply value_extends; [by apply ca_extends | | by apply Hval].
    destruct (i_targets _ Hi b) as (k & Hk & _); [| by eexists]. rewrite Htg. unfold targets. cbn. rewrite fmap_app, concat_app, Hbs.
    rewrite !elem_of_app. right. left. left. apply list_elem_of_fmap. by exists (b, r).
  - intros b r Hr. by left.
  - intros a k Ha Hl. destruct (locks_tail _ _ _ _ _ _ _ _ Hi Hlk Ha Hl). split; [done |].
    rewrite fmap_app, concat_app, elem_of_app. by right.
  - apply binds_free_app; [| by eapply binds_free_tail, (i_binds _ Hi)].
    intros t' Ht' b c d ->. destruct (Hmade _ Ht') as (? & ? & ? & _). done.
Qed.

(** What a changed block and new tasks own. *)
Lemma owned_alter l h t ts new tr tr' i f k :
  Inv (mkFutures l h (t :: ts) None tr) → l !! i = Some k → (∀ k, i_alive (f k) = i_alive k) →
  (∀ j, j ∈ concat (task_owns <$> new) → impl_alive (mkFutures l h (t :: ts) None tr) j = true) →
  (∀ j, j ∈ impl_owns (f k) → impl_alive (mkFutures l h (t :: ts) None tr) j = true) →
  ∀ j, j ∈ owned (mkFutures (alter f i l) h (new ++ ts) None tr') →
    impl_alive (mkFutures (alter f i l) h (new ++ ts) None tr') j = true.
Proof using.
  intros Hi Hk Ha Hn Hf j Hj. rewrite (alive_alter _ _ _ _ _ _ h (t :: ts) None tr) by done.
  unfold owned in Hj. cbn in Hj. rewrite fmap_app, concat_app, !elem_of_app in Hj.
  destruct Hj as [Hj | [[Hj | Hj] | Hj]]; [| by apply Hn | |].
  - apply (i_owned _ Hi). apply elem_of_app. by left.
  - apply (i_owned _ Hi). unfold owned. rewrite !elem_of_app. right. left. cbn. apply elem_of_app. by right.
  - destruct (elem_concat_alter _ _ _ _ _ _ Hk Hj) as [Hj2 | Hj2]; [| by apply Hf].
    apply (i_owned _ Hi). unfold owned. rewrite !elem_of_app. by right; right.
Qed.

(** What an owner owns is owned. *)
Lemma owns_alive s i k j : Inv s → impls s !! i = Some k → j ∈ impl_owns k → impl_alive s j = true.
Proof using.
  intros Hi Hk Hj. apply (i_owned _ Hi). unfold owned. rewrite !elem_of_app. right. right.
  apply elem_concat_fmap. exists k. split; [by eapply list_elem_of_lookup_2 | done].
Qed.

Lemma task_owns_alive s t j : Inv s → t ∈ tasks s → j ∈ task_owns t → impl_alive s j = true.
Proof using.
  intros Hi Ht Hj. apply (i_owned _ Hi). unfold owned. rewrite !elem_of_app. right. left. apply elem_concat_fmap. eauto.
Qed.

Lemma pending_alter l h t ts new tr tr' i f k x e :
  l !! i = Some k → pending (mkFutures (alter f i l) h (new ++ ts) None tr') x e →
  pending (mkFutures l h (t :: ts) None tr) x e ∨ (x = i ∧ d_done (f k) = false ∧ e ∈ d_chain (f k)) ∨
  Task_addChain x e ∈ new ∨ ∃ r, Task_entry x e r ∈ new.
Proof using.
  intros Hk [(kx & Hx & Hdx & Hin) | [H | [r' H]]]; cbn in *.
  - destruct (alter_lookup_Some _ _ _ _ _ Hx) as [(-> & y & Hy & ->) | [_ Hy]].
    + simplify_eq. right. by left.
    + left. left. eauto.
  - apply elem_of_app in H as [H | H]; [right; right; by left | left; right; left; by right].
  - apply elem_of_app in H as [H | H]; [right; right; right; eauto | left; right; right; exists r'; by right].
Qed.

Lemma exec_made_inv b r l h ts tr :
  Inv (mkFutures l h (Task_made b r :: ts) None tr) →
  Inv (Impl_made b r (mkFutures l h ts None tr)) ∧ stuck (Impl_made b r (mkFutures l h ts None tr)) = None.
Proof using.
  intros Hi. destruct (i_targets _ Hi b) as (k & Hk & Hd); [by left |]. cbn in Hk.
  unfold Impl_made. cbn [impls]. rewrite Hk. destruct (i_alive k) eqn:Ha; cbn [negb].
  2: { split; [| done]. apply (inv_made_tasks l h (Task_made b r) ts tr _ [] [b]); try done.
    - intros b' ->%list_elem_of_singleton. unfold impl_alive. cbn. by rewrite Hk.
    - intros ? ? []%elem_of_nil. }
  destruct (i_locked k) eqn:Hlk; [by destruct (i_locks _ Hi b k Hk Hlk); congruence |]. split; [| done].
  pose proof (i_nodup _ Hi) as Hnd. cbn in Hnd. apply NoDup_cons in Hnd as [Hb Hnd].
  unfold push, update, set_impls. cbn [impls handles tasks stuck trace].
  set (new := ((λ e, Task_entry b e r) <$> d_chain k) ++ [Task_finish b]).
  assert (concat (task_targets <$> new) = impl_targets k) as Hnew.
  { unfold new, impl_targets. rewrite Hd, fmap_app, concat_app, <- list_fmap_compose. cbn. by rewrite app_nil_r. }
  assert (targets (mkFutures l h ts None tr)
    ≡ₚ targets (mkFutures (alter (resolve_impl r) b l) h (new ++ ts) None tr)) as Htg.
  { unfold targets. cbn. rewrite fmap_app, concat_app, Hnew.
    pose proof (concat_alter impl_targets (resolve_impl r) l b k Hk) as Hc. cbn in Hc. rewrite <- Hc. solve_Permutation. }
  eapply (inv_calm _ _ [b] Hi); cbn [tasks impls].
  - apply calm_update; [| done | done |].
    + intros k' Hk'. simplify_eq. split; [| done]. split; cbn; [done | congruence | done].
    + intros b' c d [?|?]%elem_of_cons; [done |]. apply elem_of_app. by right.
  - change (targets _) with ([b] ++ targets (mkFutures l h ts None tr)) at 1. by rewrite Htg.
  - intros b' ->%list_elem_of_singleton. left. unfold done_of. cbn. by rewrite list_lookup_alter_eq, Hk.
  - intros b' Hb'. rewrite <- Htg in Hb'. unfold done_of. cbn.
    destruct (i_targets _ Hi b') as (k' & Hk' & Hd'); [by right |]. cbn in Hk'.
    rewrite list_lookup_alter_ne by (intros ->; done). by rewrite Hk'.
  - intros i Hin. rewrite (alive_alter _ _ _ _ _ _ h (Task_made b r :: ts) None tr) by done.
    assert (impl_alive (mkFutures l h (Task_made b r :: ts) None tr) b = true) as Hba by (unfold impl_alive; cbn; by rewrite Hk).
    unfold owned in Hin. cbn in Hin. rewrite fmap_app, concat_app in Hin.
    rewrite !elem_of_app in Hin. destruct Hin as [Hin | [[Hin | Hin] | Hin]].
    + apply (i_owned _ Hi). apply elem_of_app. by left.
    + unfold new in Hin. rewrite fmap_app, concat_app, elem_of_app in Hin. destruct Hin as [Hin | Hin].
      * rewrite <- list_fmap_compose in Hin. apply elem_concat_fmap in Hin as (e & He & Hin). cbn in Hin.
        apply (i_owned _ Hi). unfold owned. rewrite !elem_of_app. right. right. apply elem_concat_fmap. exists k.
        split; [by eapply list_elem_of_lookup_2 |]. unfold impl_owns. rewrite Ha. apply elem_of_app. right.
        apply elem_concat_fmap. eauto.
      * cbn in Hin. apply list_elem_of_singleton in Hin as ->. done.
    + apply (i_owned _ Hi). unfold owned. rewrite !elem_of_app. right. left. cbn. done.
    + apply (i_owned _ Hi). unfold owned. rewrite !elem_of_app. right. right.
      destruct (elem_concat_alter _ _ _ _ _ _ Hk Hin) as [? | Hin2]; [done |]. apply elem_concat_fmap. exists k.
      split; [by eapply list_elem_of_lookup_2 | done].
  - intros x e [(kx & Hx & Hdx & Hin) | [H | [r' H]]]; left.
    + cbn in Hx. destruct (alter_lookup_Some _ _ _ _ _ Hx) as [(-> & y & Hy & ->) | [_ Hy]]; [done |]. left. eauto.
    + cbn in H. apply elem_of_app in H as [H | H]; [| right; left; by right]. unfold new in H.
      apply elem_of_app in H as [H | H]; [apply list_elem_of_fmap in H as (? & ? & ?); done |].
      by apply list_elem_of_singleton in H.
    + cbn in H. apply elem_of_app in H as [H | H]; [| right; right; exists r'; by right]. unfold new in H.
      apply elem_of_app in H as [H | H]; [| by apply list_elem_of_singleton in H].
      apply list_elem_of_fmap in H as (e' & ? & Hin). simplify_eq. left. exists k. done.
  - intros t Ht. apply elem_of_app in Ht as [Ht | Ht]; [| left; by right]. right. unfold new in Ht.
    assert (result_of (mkFutures (alter (resolve_impl r) b l) h (new ++ ts) None tr) b = Some r) as Hres.
    { unfold result_of. cbn. by rewrite list_lookup_alter_eq, Hk. }
    apply elem_of_app in Ht as [Ht | Ht].
    + apply list_elem_of_fmap in Ht as (e & -> & _). done.
    + apply list_elem_of_singleton in Ht as ->. cbn. eauto.
  - intros b' r' Hr'. unfold result_of in Hr'. cbn in Hr'. destruct (alter _ b l !! b') as [k' |] eqn:Hk'; [| done].
    destruct (alter_lookup_Some _ _ _ _ _ Hk') as [(-> & y & Hy & ->) | [_ Hy]].
    + right. cbn in Hr'. injection Hr' as ->. eapply value_extends; [| | by apply (i_tasks _ Hi (Task_made b' r')); left].
      * eapply ca_extends. apply calm_update; [| done | done |].
        -- intros k' Hk2. simplify_eq. split; [| done]. split; cbn; [done | congruence | done].
        -- intros b2 c d [?|?]%elem_of_cons; [done |]. apply elem_of_app. by right.
      * cbn. eauto.
    + left. unfold result_of. cbn. by rewrite Hy.
  - intros a ka Hka Hlka. cbn. rewrite fmap_app, concat_app, elem_of_app.
    destruct (alter_lookup_Some _ _ _ _ _ Hka) as [(<- & y & Hy & ->) | [_ Hy]].
    + split; [done |]. left. unfold new. rewrite fmap_app, concat_app, elem_of_app. right. by left.
    + destruct (locks_tail _ _ _ _ _ _ _ _ Hi eq_refl Hy Hlka). split; [done | by right].
  - apply binds_free_app; [| by eapply binds_free_tail, (i_binds _ Hi)]. intros t Ht b' c d ->. unfold new in Ht.
    apply elem_of_app in Ht as [Ht | Ht]; [apply list_elem_of_fmap in Ht as (? & ? & ?); done |].
    by apply list_elem_of_singleton in Ht.
Qed.

Lemma exec_converter_inv a b f r l h ts tr :
  Inv (mkFutures l h (Task_entry a (Chain_converter b f) r :: ts) None tr) →
  Inv (exec (Task_entry a (Chain_converter b f) r) (mkFutures l h ts None tr)).
Proof using.
  intros Hi. cbn. apply (inv_made_tasks l h (Task_entry a (Chain_converter b f) r) ts tr _ [(b, f r)] []); try done.
  - intros ? []%elem_of_nil.
  - intros b' r' [= -> ->]%list_elem_of_singleton. unfold value_ok.
    pose proof (i_entries _ Hi a (Chain_converter b f) ltac:(right; right; exists r; by left)) as Ho. cbn in Ho.
    rewrite Ho. exists r. split; [| done]. apply (i_tasks _ Hi (Task_entry a (Chain_converter b f) r)). by left.
  - intros e He. apply elem_of_app. by left.
  - intros b' r' c [? | ?%list_elem_of_singleton]%elem_of_app; done.
Qed.

Lemma exec_wrapper_inv a d b r l h ts tr :
  Inv (mkFutures l h (Task_entry a (Chain_makerWrapper d b) r :: ts) None tr) →
  Inv (exec (Task_entry a (Chain_makerWrapper d b) r) (mkFutures l h ts None tr)).
Proof using.
  intros Hi. cbn. pose proof (i_tasks _ Hi (Task_entry a (Chain_makerWrapper d b) r) ltac:(by left)) as Hr. cbn in Hr.
  pose proof (i_entries _ Hi a (Chain_makerWrapper d b) ltac:(right; right; exists r; by left)) as [Ho _].
  apply (inv_made_tasks l h (Task_entry a (Chain_makerWrapper d b) r) ts tr _ [(b, r); (d, r)] []); try done.
  - intros ? []%elem_of_nil.
  - intros b' r' [[= -> ->] | [= -> ->]%list_elem_of_singleton]%elem_of_cons; unfold value_ok.
    + destruct (i_wrapper _ Hi d a b Ho) as (a' & g & cap & ra & Hob & Hra & Hev). rewrite Hob. eauto.
    + by rewrite Ho.
Qed.

Lemma exec_dead_inv a b g cap r l h ts tr :
  impl_alive (mkFutures l h ts None tr) b = false →
  Inv (mkFutures l h (Task_entry a (Chain_futureConverter b g cap) r :: ts) None tr) →
  Inv (mkFutures l h ts None tr).
Proof using.
  intros Hb Hi. apply (inv_made_tasks l h (Task_entry a (Chain_futureConverter b g cap) r) ts tr _ [] [b]); try done.
  - by intros b' ->%list_elem_of_singleton.
  - intros ? ? []%elem_of_nil.
Qed.

(** *** A block changed in its lock or its continuations *)

Record same_but_chain (f : Impl → Impl) : Prop := {
  sb_alive k : i_alive (f k) = i_alive k;
  sb_done k : d_done (f k) = d_done k;
  sb_result k : d_result (f k) = d_result k;
  sb_cancel k : d_cancelFunc (f k) = d_cancelFunc k;
  sb_origin k : i_origin (f k) = i_origin k;
}.

Lemma inv_alter l h t ts new tr tr' i f k :
  let s := mkFutures l h (t :: ts) None tr in
  let s' := mkFutures (alter f i l) h (new ++ ts) None tr' in
  Inv s → l !! i = Some k → same_but_chain f →
  (∀ b c d, t ≠ Task_bind b c d) → (∀ t', t' ∈ new → ∀ b c d, t' ≠ Task_bind b c d) →
  targets s ≡ₚ targets s' →
  (∀ j, j ∈ concat (task_owns <$> new) → impl_alive s j = true) →
  (∀ e, e ∈ d_chain (f k) → e ∈ d_chain k ∨ pending s i e ∧ ∀ j, j ∈ entry_captured e → impl_alive s j = true) →
  (∀ x e, Task_addChain x e ∈ new ∨ (∃ r, Task_entry x e r ∈ new) → pending s x e) →
  (∀ t', t' ∈ new → task_ok s t' ∧ ∀ b r, t' ≠ Task_made b r) →
  (i_locked (f k) = true → d_done k = true ∧ i ∈ concat (task_locks <$> new ++ ts)) →
  (∀ j, j ∈ task_locks t → j = i) →
  (∀ e, e ∈ tr → e ∈ tr') → (∀ b r c, Ev_generated b r c ∈ tr' → Ev_generated b r c ∈ tr) →
  Inv s'.
Proof using.
  intros s s' Hi Hk [Sa Sd Sr Sc So] Htb Hnb Htg Hown Hch Hpend Hnt Hlk Htl Htr Hgen.
  assert (calm s s') as Hc.
  { apply calm_update; [| done | done |].
    - intros k' _. split; [split |]; rewrite ?Sa, ?Sd, ?Sr, ?Sc, ?So; done.
    - intros b c d [H | H]%elem_of_cons; [by destruct (Htb b c d) |]. apply elem_of_app. by right. }
  assert (∀ b, done_of s' b = done_of s b) as Hdone.
  { intros b. unfold done_of. cbn. destruct (decide (i = b)) as [-> | Hne].
    - rewrite list_lookup_alter_eq, Hk. apply Sd.
    - by rewrite list_lookup_alter_ne. }
  eapply (inv_calm s s' [] Hi Hc); [exact Htg | by intros ? ?%elem_of_nil | | | | | | |].
  - intros b Hb. rewrite Hdone. rewrite <- Htg in Hb. destruct (i_targets _ Hi b Hb) as (k' & Hk' & Hd').
    unfold done_of. by rewrite Hk'.
  - apply (owned_alter _ _ _ _ _ _ _ _ _ _ Hi Hk Sa Hown). intros j Hj. unfold impl_owns in Hj. rewrite Sa, Sc in Hj.
    destruct (i_alive k) eqn:Ha; [| by apply elem_of_nil in Hj].
    assert (∀ j, j ∈ impl_owns k → impl_alive s j = true) as Ho by (intros j'; by apply (owns_alive s i k j' Hi)).
    unfold impl_owns in Ho. rewrite Ha in Ho. apply elem_of_app in Hj as [Hj | Hj]; [apply Ho, elem_of_app; by left |].
    apply elem_concat_fmap in Hj as (e & He & Hj). destruct (Hch e He) as [He' | [_ He']]; [| by apply He'].
    apply Ho, elem_of_app. right. apply elem_concat_fmap. eauto.
  - intros x e Hp. left. destruct (pending_alter _ _ t _ _ tr _ _ _ _ _ _ Hk Hp) as [? | [(-> & Hd & H) | H]]; [done | |].
    + rewrite Sd in Hd. destruct (Hch e H) as [H' | [H' _]]; [left; eauto | done].
    + by apply Hpend.
  - intros t' [Ht | Ht]%elem_of_app; [right | left; by right]. destruct (Hnt t' Ht) as [Hok Hnm].
    eapply task_extends; [by apply ca_extends | | done]. intros b r ->. by destruct (Hnm b r).
  - intros b r Hr. left. unfold result_of in *. cbn in *. destruct (alter _ i l !! b) as [k' |] eqn:Hk'; [| done].
    destruct (alter_lookup_Some _ _ _ _ _ Hk') as [(<- & y & Hy & ->) | [_ Hy]]; rewrite Hy; [by rewrite Sd, Sr in Hr | done].
  - intros b k' Hk' Hl'. cbn [impls tasks s'] in *. destruct (alter_lookup_Some _ _ _ _ _ Hk') as [(<- & y & Hy & ->) | [Hne Hy]].
    + simplify_eq. rewrite Sd. by apply Hlk.
    + destruct (i_locks _ Hi b k' Hy Hl') as [Hd Hin]. split; [done |]. cbn in Hin. rewrite elem_of_app in Hin.
      rewrite fmap_app, concat_app, elem_of_app. destruct Hin as [Hin | Hin]; [by destruct Hne; symmetry; apply Htl | by right].
  - apply binds_free_app; [done |]. by eapply binds_free_tail, (i_binds _ Hi).
Qed.

(** A block that is done has no continuations that wait. *)
Lemma targets_alter_done l h h' t ts new tr tr' st st' i f k :
  l !! i = Some k → d_done k = true → d_done (f k) = true →
  task_targets t ≡ₚ concat (task_targets <$> new) →
  targets (mkFutures l h (t :: ts) st tr) ≡ₚ targets (mkFutures (alter f i l) h' (new ++ ts) st' tr').
Proof using.
  intros Hk Hd Hd' Ht. unfold targets. cbn. rewrite fmap_app, concat_app, Ht.
  rewrite (concat_alter_same impl_targets f l i k Hk); [done |]. unfold impl_targets. by rewrite Hd, Hd'.
Qed.

Lemma exec_addChain_inv a e l h ts tr :
  Inv (mkFutures l h (Task_addChain a e :: ts) None tr) →
  stuck (addChain a e (mkFutures l h ts None tr)) = None →
  Inv (addChain a e (mkFutures l h ts None tr)).
Proof using.
  intros Hi Hst. pose proof (task_owns_alive _ (Task_addChain a e) a Hi ltac:(by left) ltac:(by left)) as Ha.
  unfold impl_alive in Ha. cbn in Ha. unfold addChain in *. cbn [impls] in *.
  destruct (l !! a) as [k |] eqn:Hk; [| done]. destruct (i_locked k) eqn:Hlk; [done |].
  assert (∀ j, j ∈ entry_captured e → impl_alive (mkFutures l h (Task_addChain a e :: ts) None tr) j = true) as Hcap.
  { intros j Hj. apply (task_owns_alive _ (Task_addChain a e) j Hi); [by left | by right]. }
  assert (pending (mkFutures l h (Task_addChain a e :: ts) None tr) a e) as Hp by (right; left; by left).
  destruct (d_done k) eqn:Hd.
  - assert (result_of (mkFutures l h (Task_addChain a e :: ts) None tr) a = Some (d_result k)) as Hres
      by (unfold result_of; cbn; by rewrite Hk, Hd).
    refine (inv_alter l h (Task_addChain a e) ts [Task_entry a e (d_result k); Task_unlock a] tr tr a lock_impl k Hi Hk _ _ _ _ _ _ _ _ _ _ _ _); try done.
    + intros t' [-> | ->%list_elem_of_singleton]%elem_of_cons; done.
    + apply (targets_alter_done _ _ _ _ _ _ _ _ _ _ _ _ k); [done | done | done |]. cbn. by rewrite app_nil_r.
    + intros j [Hj | ->%list_elem_of_singleton]%elem_of_app; [by apply Hcap |]. unfold impl_alive. cbn. by rewrite Hk.
    + intros e' He'. by left.
    + intros x e' [[H | H%list_elem_of_singleton]%elem_of_cons | [r [H | H%list_elem_of_singleton]%elem_of_cons]]; by simplify_eq.
    + intros t' [-> | ->%list_elem_of_singleton]%elem_of_cons; (split; [| done]); cbn; eauto.
    + intros _. split; [done |]. cbn. by left.
    + by intros j []%elem_of_nil.
  - refine (inv_alter l h (Task_addChain a e) ts [] tr tr a (chain_impl e) k Hi Hk _ _ _ _ _ _ _ _ _ _ _ _); try done.
    + by intros t' []%elem_of_nil.
    + unfold targets. cbn. pose proof (concat_alter impl_targets (chain_impl e) l a k Hk) as Hc.
      unfold impl_targets at 1 3 in Hc. cbn in Hc. rewrite Hd, fmap_app, concat_app in Hc. cbn in Hc. rewrite app_nil_r in Hc.
      rewrite <- app_assoc in Hc. apply Permutation_app_inv_l in Hc. rewrite Hc. solve_Permutation.
    + by intros j []%elem_of_nil.
    + intros e' He'. cbn in He'. apply elem_of_app in He' as [? | ->%list_elem_of_singleton]; [by left | by right].
    + intros x e' [[]%elem_of_nil | [r []%elem_of_nil]].
    + by intros t' []%elem_of_nil.
    + intros Hl. cbn in Hl. congruence.
    + by intros j []%elem_of_nil.
Qed.

Lemma exec_release_inv a t f l h ts tr tr' :
  (t = Task_finish a ∧ f = finish_impl ∧ tr' = tr ++ [Ev_broadcast a]) ∨ (t = Task_unlock a ∧ f = unlock_impl ∧ tr' = tr) →
  Inv (mkFutures l h (t :: ts) None tr) → Inv (mkFutures (alter f a l) h ts None tr').
Proof using.
  intros Ht Hi.
  assert (is_Some (result_of (mkFutures l h (t :: ts) None tr) a)) as [r Hr].
  { pose proof (i_tasks _ Hi t ltac:(by left)) as Hok. by destruct Ht as [(-> & _) | (-> & _)]. }
  unfold result_of in Hr. cbn in Hr. destruct (l !! a) as [k |] eqn:Hk; [| done]. destruct (d_done k) eqn:Hd; [| done].
  refine (inv_alter l h t ts [] tr tr' a f k Hi Hk _ _ _ _ _ _ _ _ _ _ _ _).
  - by destruct Ht as [(_ & -> & _) | (_ & -> & _)].
  - by destruct Ht as [(-> & _) | (-> & _)].
  - by intros t' []%elem_of_nil.
  - apply (targets_alter_done _ _ _ _ _ [] _ _ _ _ _ _ k Hk Hd); by destruct Ht as [(-> & -> & _) | (-> & -> & _)].
  - by intros j []%elem_of_nil.
  - intros e He. destruct Ht as [(_ & -> & _) | (_ & -> & _)]; [by apply elem_of_nil in He | by left].
  - intros x e [[]%elem_of_nil | [r' []%elem_of_nil]].
  - by intros t' []%elem_of_nil.
  - by destruct Ht as [(_ & -> & _) | (_ & -> & _)].
  - intros j Hj. destruct Ht as [(-> & _) | (-> & _)]; by apply list_elem_of_singleton in Hj.
  - intros e He. destruct Ht as [(_ & _ & ->) | (_ & _ & ->)]; [apply elem_of_app; by left | done].
  - intros b r' c He. destruct Ht as [(_ & _ & ->) | (_ & _ & ->)]; [| done].
    apply elem_of_app in He as [? | ?%list_elem_of_singleton]; done.
Qed.

(** *** updateCancel *)

Lemma lookup_update l h ts st tr f i j :
  impls (mkFutures (alter f i l) h ts st tr) !! j = (if decide (i = j) then f <$> l !! j else l !! j).
Proof using. exact (update_lookup i f (mkFutures l h ts st tr) j). Qed.

Lemma exec_bind_inv b c d l h ts tr :
  Inv (mkFutures l h (Task_bind b c d :: ts) None tr) →
  Inv (exec (Task_bind b c d) (mkFutures l h ts None tr)) ∧ stuck (exec (Task_bind b c d) (mkFutures l h ts None tr)) = None.
Proof using.
  intros Hi. set (s := mkFutures l h (Task_bind b c d :: ts) None tr) in *.
  assert (∀ j, j ∈ [b; c; d] → impl_alive s j = true) as Ha by (intros j; apply (task_owns_alive s (Task_bind b c d) j Hi); by left).
  pose proof (Ha b ltac:(by left)) as Hba. unfold impl_alive in Hba. cbn in Hba. cbn. destruct (l !! b) as [k |] eqn:Hk; [| done].
  destruct (i_locked k) eqn:Hlk.
  { destruct (i_locks _ Hi b k Hk Hlk) as [_ Hin]. by destruct (i_binds _ Hi) as [Hn _]. }
  split; [| done]. unfold update, set_impls. cbn. set (s' := mkFutures _ h ts None tr).
  pose proof (i_tasks _ Hi (Task_bind b c d) ltac:(by left)) as Hod. cbn in Hod.
  destruct (i_wrapper _ Hi d c b Hod) as (a & g & cap & ra & Hob & Hra & Hev).
  assert (extends s s') as He.
  { eapply evolved_trans; [apply (extends_update s b (cancel_impl (Cancel_extends d))) | by apply extends_same].
    intros k' _. by split. }
  assert (∀ j, impl_alive s' j = impl_alive s j) as Hal by (intros j; by apply alive_alter).
  assert (∀ j k', impls s' !! j = Some k' → ∃ k0, l !! j = Some k0 ∧ i_origin k' = i_origin k0 ∧ d_done k' = d_done k0 ∧
    d_chain k' = d_chain k0 ∧ i_locked k' = i_locked k0 ∧ i_alive k' = i_alive k0 ∧ d_result k' = d_result k0 ∧
    (j ≠ b → d_cancelFunc k' = d_cancelFunc k0)) as Hold.
  { intros j k' Hj. destruct (alter_lookup_Some _ _ _ _ _ Hj) as [(<- & y & Hy & ->) | [Hne Hy]]; eexists; (split; [exact Hy |]);
      split_and!; done. }
  assert (targets s' = targets s) as Htg.
  { unfold targets. cbn. by rewrite (concat_alter_same impl_targets (cancel_impl (Cancel_extends d)) l b k Hk eq_refl). }
  assert (∀ j, origin_of s' j = origin_of s j) as Horig.
  { intros j. unfold origin_of. unfold s'. rewrite lookup_update. destruct (decide (b = j)) as [-> |]; [| done]. cbn. by destruct (l !! j). }
  assert (∀ j, result_of s' j = result_of s j) as Hres.
  { intros j. unfold result_of. unfold s'. rewrite lookup_update. destruct (decide (b = j)) as [-> |]; [| done]. cbn. by destruct (l !! j). }
  assert (∀ j, j ≠ b → cancel_of_impl s' j = cancel_of_impl s j) as Hcn.
  { intros j Hj. unfold cancel_of_impl, s'. by rewrite lookup_update, decide_False. }
  assert (∀ x e, pending s' x e → pending s x e) as Hpend.
  { intros x e [(kx & Hx & Hdx & Hin) | [H | [r H]]]; [left | right; left; by right | right; right; exists r; by right].
    destruct (Hold x kx Hx) as (k0 & Hk0 & _ & Hd0 & Hc0 & _). exists k0. rewrite <- Hd0, <- Hc0. done. }
  split; rewrite ?Htg.
  - apply (i_nodup _ Hi).
  - intros j Hj. destruct (i_targets _ Hi j Hj) as (kj & Hkj & Hdj). destruct (ex_impls _ _ He j kj Hkj) as (k' & Hk' & _).
    exists k'. split; [done |]. destruct (Hold j k' Hk') as (k0 & Hk0 & _ & -> & _). cbn in *. congruence.
  - intros j k' Hk' Hka Hkd Hko. destruct (Hold j k' Hk') as (k0 & Hk0 & Ho0 & Hd0 & _ & _ & Ha0 & _).
    rewrite ?Htg. apply (i_awaited _ Hi j k0 Hk0); [congruence | congruence |]. intros u Hu. apply (Hko u). congruence.
  - intros j Hj. rewrite Hal. unfold owned in Hj. cbn in Hj. rewrite !elem_of_app in Hj.
    destruct Hj as [Hj | [Hj | Hj]].
    + apply (i_owned _ Hi). apply elem_of_app. by left.
    + apply elem_concat_fmap in Hj as (t & Ht & Hj). apply (task_owns_alive s t j Hi); [by right | done].
    + destruct (elem_concat_alter _ _ _ _ _ _ Hk Hj) as [Hj2 | Hj2].
      * apply (i_owned _ Hi). unfold owned. rewrite !elem_of_app. by right; right.
      * unfold impl_owns in Hj2. cbn in Hj2. rewrite Hba in Hj2.
        apply elem_of_cons in Hj2 as [-> | Hj2]; [apply Ha; by right; right; left |].
        apply (owns_alive s b k j Hi Hk). unfold impl_owns. rewrite Hba. apply elem_of_app. by right.
  - intros j k' Hk' Hka. destruct (Hold j k' Hk') as (k0 & Hk0 & Ho0 & _ & _ & _ & Ha0 & _ & Hc0).
    pose proof (i_cancel _ Hi j k0 Hk0 ltac:(congruence)) as Hok. unfold cancel_ok in *. rewrite Ho0.
    destruct (decide (j = b)) as [-> | Hne]; [| by rewrite Hc0].
    unfold origin_of in Hob. cbn in Hob, Hk0. rewrite Hk0 in Hob. cbn in Hob. injection Hob as Hob. rewrite Hob.
    cbn in Hk'. rewrite list_lookup_alter_eq, Hk in Hk'. cbn in Hk'. simplify_eq. by exists d.
  - intros x e Hp. pose proof (i_entries _ Hi x e (Hpend x e Hp)) as Hok. destruct e as [b' f | b' g' cap' | d' b']; cbn in *.
    + by rewrite Horig.
    + destruct Hok as (Ho & Hc & Hg). rewrite Horig, Hal. split_and!; [done | | done]. intros Hb'. rewrite Hcn; [by apply Hc |].
      intros ->. by eapply Hg.
    + destruct Hok as (Ho & Hb). rewrite Horig, Hal. split; [done |]. intros Hb'.
      destruct (decide (b' = b)) as [-> | Hne].
      * right. rewrite (i_unique _ Hi _ _ _ _ _ Ho Hod). unfold cancel_of_impl, s'. rewrite lookup_update, decide_True by done. by rewrite Hk.
      * rewrite Hcn by done. destruct (Hb Hb') as [Hb2 | Hb2]; [| by right]. left.
        apply elem_of_cons in Hb2 as [Hb2 | Hb2]; [| done]. by simplify_eq.
  - intros t Ht. eapply task_extends; [done | | apply (i_tasks _ Hi); by right]. intros b' r ->.
    destruct (i_targets _ Hi b') as (k' & Hk' & _); [eapply task_target; [by right | by left] | eauto].
  - intros b' r Hr. rewrite Hres in Hr. eapply value_extends; [done | by eapply result_impl | by apply (i_values _ Hi)].
  - intros d' c' b' Ho. rewrite Horig in Ho. eapply wrapper_extends; [done |]. by apply (i_wrapper _ Hi d').
  - intros d1 d2 c1 c2 b' H1 H2. rewrite Horig in *. by eapply (i_unique _ Hi).
  - intros b' r c' Hg. destruct (i_generated _ Hi b' r c' Hg) as [k' Hk']. destruct (ex_impls _ _ He b' k' Hk') as (k2 & Hk2 & _). eauto.
  - intros j k' Hk' Hl'. destruct (Hold j k' Hk') as (k0 & Hk0 & _ & -> & _ & Hl0 & _).
    apply (locks_tail _ _ _ _ _ _ _ _ Hi eq_refl Hk0). congruence.
  - by eapply binds_free_tail, (i_binds _ Hi).
Qed.

(** *** New blocks *)

Section New.
Context (l : list Impl) (h : list Id) (ts : list Task) (tr : list FutureEvent).
Context (n : Impl) (h' : list Id) (ts' : list Task) (tr' : list FutureEvent).
Let s := mkFutures l h ts None tr.
Let s' := mkFutures (l ++ [n]) h' ts' None tr'.
Context (Hs : Inv s) (Htr : ∀ e, e ∈ tr → e ∈ tr') (Hn : i_alive n = true) (Hch : d_chain n = []).

Lemma grown_lookup j k : impls s' !! j = Some k → l !! j = Some k ∨ j = length l ∧ k = n.
Proof using.
  cbn. intros H. destruct (decide (j < length l)) as [Hj | Hj]; [rewrite lookup_app_l in H by done; by left |].
  rewrite lookup_app_r in H by lia. apply list_lookup_singleton_Some in H as [H1 <-]. right. split; [lia | done].
Qed.

Lemma grown_old j k : l !! j = Some k → impls s' !! j = Some k.
Proof using. intros H. cbn. by apply lookup_app_l_Some. Qed.

Lemma grown_new : impls s' !! length l = Some n.
Proof using. cbn. by rewrite lookup_app_r, Nat.sub_diag. Qed.

Lemma grown_extends : extends s s'.
Proof using Htr. split; [| done]. intros j k Hj. exists k. split; [by apply grown_old | apply evolves_refl]. Qed.

Lemma grown_alive j : impl_alive s j = true → impl_alive s' j = true.
Proof using. unfold impl_alive. intros H. cbn in *. destruct (l !! j) as [k |] eqn:Hj; [| done]. pose proof (grown_old j k Hj) as Hk. cbn in Hk. by rewrite Hk. Qed.

Lemma grown_alive_old j : is_Some (l !! j) → impl_alive s' j = impl_alive s j.
Proof using. unfold impl_alive. intros [k Hk]. pose proof (grown_old j k Hk) as H. cbn in *. by rewrite H, Hk. Qed.

Lemma grown_origin j o : origin_of s' j = Some o → origin_of s j = Some o ∨ j = length l ∧ o = i_origin n.
Proof using.
  unfold origin_of. intros H. destruct (impls s' !! j) as [k |] eqn:Hk; [| done]. cbn in H.
  destruct (grown_lookup j k Hk) as [Hj | [-> ->]]; [left; cbn; by rewrite Hj | right; split; congruence].
Qed.

Lemma grown_cancel j : is_Some (l !! j) → cancel_of_impl s' j = cancel_of_impl s j.
Proof using. unfold cancel_of_impl. intros [k Hk]. pose proof (grown_old j k Hk) as H. cbn in *. by rewrite H, Hk. Qed.

Lemma grown_result j r : result_of s' j = Some r → result_of s j = Some r ∨ j = length l ∧ d_done n = true ∧ r = d_result n.
Proof using.
  unfold result_of. intros H. destruct (impls s' !! j) as [k |] eqn:Hk; [| done].
  destruct (grown_lookup j k Hk) as [Hj | [-> ->]]; [left; cbn; by rewrite Hj |].
  right. destruct (d_done n); [| done]. split; [done |]. split; [done | congruence].
Qed.

Lemma grown_targets : concat (impl_targets <$> l ++ [n]) = concat (impl_targets <$> l).
Proof using Hch.
  rewrite fmap_app, concat_app. cbn. unfold impl_targets at 2. rewrite Hch. cbn. destruct (d_done n); by rewrite !app_nil_r.
Qed.

Lemma grown_owns j : j ∈ concat (impl_owns <$> l ++ [n]) → j ∈ concat (impl_owns <$> l) ∨ j ∈ impl_owns n.
Proof using. rewrite fmap_app, concat_app, elem_of_app. cbn. rewrite app_nil_r. done. Qed.

Lemma grown_pending x e : ts' = ts → pending s' x e → pending s x e.
Proof using Hch.
  intros Hts [(k & Hk & Hd & He) | H]; [| right; cbn in *; by rewrite Hts in H]. destruct (grown_lookup x k Hk) as [Hj | [-> ->]]; [left; eauto |].
  rewrite Hch in He. by apply elem_of_nil in He.
Qed.

(** Entries keep what they say about old blocks. *)
Lemma grown_entry x e :
  entry_ok s x e →
  (∀ b g cap, e = Chain_futureConverter b g cap → ∀ r c, Ev_generated b r c ∉ tr') →
  (∀ b c d, Task_bind b c d ∈ ts → Task_bind b c d ∈ ts') → (∀ b d, e = Chain_makerWrapper d b → is_Some (l !! b)) →
  entry_ok s' x e.
Proof using Htr.
  intros Hok Hg Hb Hex. pose proof grown_extends as He. destruct e as [b f | b g cap | d b]; cbn in *.
  - by apply (origin_extends s).
  - destruct Hok as (Ho & Hc & _). pose proof (origin_impl s b _ Ho) as Hb'. split_and!.
    + by apply (origin_extends s).
    + rewrite grown_alive_old, grown_cancel by done. done.
    + by eapply Hg.
  - destruct Hok as (Ho & Hc). split; [by apply (origin_extends s) |]. specialize (Hex b d eq_refl).
    rewrite grown_alive_old, grown_cancel by done. intros Ha. destruct (Hc Ha); [left; by apply Hb | by right].
Qed.

(** A block the application makes, or a function given to [thenFuture]. *)
Lemma inv_new u :
  i_origin n = Origin_make u → d_cancelFunc n = cancel_of u → i_locked n = false →
  ts' = ts → tr' = tr → (∀ j, j ∈ h' → j ∈ h ∨ j = length l) → Inv s'.
Proof using Hs Htr Hn Hch.
  intros Ho Hc Hl Hts Htr' Hh. pose proof grown_extends as He.
  assert (targets s' = targets s) as Htg by (unfold targets; cbn; by rewrite grown_targets, Hts).
  split; rewrite ?Htg.
  - apply (i_nodup _ Hs).
  - intros b Hb. destruct (i_targets _ Hs b Hb) as (k & Hk & Hd). exists k. split; [by apply grown_old | done].
  - intros b k Hk Ha Hd Hne. rewrite ?Htg. destruct (grown_lookup b k Hk) as [Hj | [-> ->]]; [by apply (i_awaited _ Hs b k) |].
    by destruct (Hne u).
  - intros i Hin. unfold owned in Hin. cbn in Hin. rewrite Hts in Hin. rewrite !elem_of_app in Hin. destruct Hin as [Hin | [Hin | Hin]].
    + destruct (Hh i Hin) as [Hin' | ->]; [apply grown_alive, (i_owned _ Hs), elem_of_app; by left |].
      unfold impl_alive. pose proof grown_new as H. cbn in *. by rewrite H.
    + apply grown_alive, (i_owned _ Hs). unfold owned. rewrite !elem_of_app. by right; left.
    + destruct (grown_owns i Hin) as [Hin' | Hin']; [apply grown_alive, (i_owned _ Hs); unfold owned; rewrite !elem_of_app; by right; right |].
      unfold impl_owns in Hin'. rewrite Hn, Hc, Hch in Hin'. destruct u; by apply elem_of_nil in Hin'.
  - intros b k Hk Ha. destruct (grown_lookup b k Hk) as [Hj | [-> ->]]; [by apply (i_cancel _ Hs b k) |].
    unfold cancel_ok. by rewrite Ho.
  - intros x e Hp. pose proof (i_entries _ Hs x e (grown_pending x e Hts Hp)) as Hok. apply grown_entry; [done | | by rewrite Hts |].
    + intros b g cap ->. rewrite Htr'. apply Hok.
    + intros b d ->. destruct Hok as [Hod _]. destruct (i_wrapper _ Hs _ _ _ Hod) as (a & g & cap & ra & Hob & _).
      by apply (origin_impl s b _ Hob).
  - intros t Ht. cbn in Ht. rewrite Hts in Ht. eapply (task_extends s); [done | | by apply (i_tasks _ Hs)]. intros b r ->.
    destruct (i_targets _ Hs b) as (k & Hk & _); [eapply task_target; [exact Ht | by left] | eauto].
  - intros b r Hr. destruct (grown_result b r Hr) as [Hr' | (-> & _ & _)].
    + eapply value_extends; [done | by eapply result_impl | by apply (i_values _ Hs)].
    + unfold value_ok, origin_of. pose proof grown_new as H. cbn in *. rewrite H. cbn. by rewrite Ho.
  - intros d c b Hod. destruct (grown_origin _ _ Hod) as [Hod' | [_ Hod']]; [| congruence].
    eapply (wrapper_extends s); [done | by apply (i_wrapper _ Hs d)].
  - intros d d' c c' b H1 H2. destruct (grown_origin _ _ H1) as [H1' | [_ H1']]; [| congruence].
    destruct (grown_origin _ _ H2) as [H2' | [_ H2']]; [| congruence]. by eapply (i_unique _ Hs).
  - intros b r c Hg. cbn in Hg. rewrite Htr' in Hg. destruct (i_generated _ Hs b r c Hg) as [k Hk]. exists k. by apply grown_old.
  - intros a k Hk Hlk. destruct (grown_lookup a k Hk) as [Hj | [-> ->]]; [cbn; rewrite Hts; by apply (i_locks _ Hs a k) | congruence].
  - cbn. rewrite Hts. apply (i_binds _ Hs).
Qed.

Lemma grown_made t : task_ok s t → t ∈ tasks s → task_ok s' t.
Proof using Hs Htr.
  intros Hok Ht. eapply (task_extends s); [apply grown_extends | | done]. intros b r ->.
  destruct (i_targets _ Hs b) as (k & Hk & _); [eapply task_target; [exact Ht | by left] | eauto].
Qed.

Lemma fresh_target : length l ∉ targets s.
Proof using Hs.
  intros Hin. destruct (i_targets _ Hs _ Hin) as (k & Hk & _). cbn in Hk. apply lookup_lt_Some in Hk. lia.
Qed.

(** A future derived by [then] or [thenFuture]. *)
Lemma inv_derive a e :
  d_done n = false → i_locked n = false → d_cancelFunc n = Cancel_extends a →
  (∃ f, e = Chain_converter (length l) f ∧ i_origin n = Origin_then a f) ∨
  (∃ g cap, e = Chain_futureConverter (length l) g cap ∧ i_origin n = Origin_thenFuture a g cap) →
  (∀ j, j ∈ a :: entry_captured e → impl_alive s j = true) →
  h' = length l :: h → ts' = Task_addChain a e :: ts → tr' = tr → Inv s'.
Proof using Hs Htr Hn Hch.
  intros Hd Hl Hc He0 Hown Hh Hts Htr'. pose proof grown_extends as He. pose proof fresh_target as Hfr.
  assert (entry_targets e = [length l]) as Het by (destruct He0 as [(f & -> & _) | (g & cap & -> & _)]; done).
  assert (targets s' = length l :: targets s) as Htg.
  { unfold targets. cbn. rewrite grown_targets, Hts. cbn. by rewrite Het. }
  assert (impl_alive s' (length l) = true) as Hna by (unfold impl_alive; by rewrite grown_new).
  split; rewrite ?Htg.
  - constructor; [done | apply (i_nodup _ Hs)].
  - intros b [-> | Hb]%elem_of_cons; [exists n; split; [apply grown_new | done] |].
    destruct (i_targets _ Hs b Hb) as (k & Hk & Hdk). exists k. split; [by apply grown_old | done].
  - intros b k Hk Ha Hdk Hne. rewrite ?Htg. destruct (grown_lookup b k Hk) as [Hj | [-> ->]]; [right; by apply (i_awaited _ Hs b k) | by left].
  - intros i Hin. unfold owned in Hin. cbn in Hin. rewrite Hts, Hh in Hin. rewrite !elem_of_app in Hin. destruct Hin as [Hin | [Hin | Hin]].
    + apply elem_of_cons in Hin as [-> | Hin]; [done |]. apply grown_alive, (i_owned _ Hs), elem_of_app. by left.
    + change (concat _) with ((a :: entry_captured e) ++ concat (task_owns <$> ts)) in Hin.
      apply elem_of_app in Hin as [Hin | Hin]; [by apply grown_alive, Hown |].
      apply grown_alive, (i_owned _ Hs). unfold owned. rewrite !elem_of_app. by right; left.
    + destruct (grown_owns i Hin) as [Hin' | Hin']; [apply grown_alive, (i_owned _ Hs); unfold owned; rewrite !elem_of_app; by right; right |].
      unfold impl_owns in Hin'. rewrite Hn, Hc, Hch in Hin'. apply list_elem_of_singleton in Hin' as ->. apply grown_alive, Hown. by left.
  - intros b k Hk Ha. destruct (grown_lookup b k Hk) as [Hj | [-> ->]]; [by apply (i_cancel _ Hs b k) |].
    unfold cancel_ok. destruct He0 as [(f & _ & ->) | (g & cap & _ & ->)]; [done | by exists a].
  - intros x e' Hp. assert (e' = e ∧ x = a ∨ pending s x e') as [[-> ->] | Hp'].
    { destruct Hp as [(k & Hk & Hdk & Hin) | [Hin | [r Hin]]].
      - destruct (grown_lookup x k Hk) as [Hj | [-> ->]]; [right; left; eauto |]. rewrite Hch in Hin. by apply elem_of_nil in Hin.
      - cbn in Hin. rewrite Hts in Hin. apply elem_of_cons in Hin as [Hin | Hin]; [left; by simplify_eq | right; right; by left].
      - cbn in Hin. rewrite Hts in Hin. apply elem_of_cons in Hin as [Hin | Hin]; [done | right; right; right; by exists r]. }
    + destruct He0 as [(f & -> & Ho) | (g & cap & -> & Ho)]; cbn.
      * unfold origin_of. rewrite grown_new. cbn. by rewrite Ho.
      * unfold origin_of, cancel_of_impl. rewrite grown_new. cbn. rewrite Ho, Hc. split_and!; [done | done |].
        intros r c Hg. cbn in Hg. rewrite Htr' in Hg. destruct (i_generated _ Hs _ _ _ Hg) as [k Hk]. cbn in Hk. apply lookup_lt_Some in Hk. lia.
    + pose proof (i_entries _ Hs x e' Hp') as Hok. apply grown_entry; [done | | |].
      * intros b g cap ->. rewrite Htr'. apply Hok.
      * rewrite Hts. intros b c d Hin. by right.
      * intros b d ->. destruct Hok as [Hod _]. destruct (i_wrapper _ Hs _ _ _ Hod) as (a' & g & cap & ra & Hob & _).
        by apply (origin_impl s b _ Hob).
  - intros t Ht. cbn in Ht. rewrite Hts in Ht. apply elem_of_cons in Ht as [-> | Ht]; [done |].
    apply grown_made; [by apply (i_tasks _ Hs) | done].
  - intros b r Hr. destruct (grown_result b r Hr) as [Hr' | (_ & ? & _)]; [| congruence].
    eapply value_extends; [done | by eapply result_impl | by apply (i_values _ Hs)].
  - intros d c b Hod. destruct (grown_origin _ _ Hod) as [Hod' | [_ Hod']];
      [| by destruct He0 as [(f & _ & Ho) | (g & cap & _ & Ho)]; rewrite Ho in Hod'].
    eapply (wrapper_extends s); [done | by apply (i_wrapper _ Hs d)].
  - intros d d' c c' b H1 H2. destruct (grown_origin _ _ H1) as [H1' | [_ H1']];
      [| by destruct He0 as [(f & _ & Ho) | (g & cap & _ & Ho)]; rewrite Ho in H1'].
    destruct (grown_origin _ _ H2) as [H2' | [_ H2']];
      [| by destruct He0 as [(f & _ & Ho) | (g & cap & _ & Ho)]; rewrite Ho in H2']. by eapply (i_unique _ Hs).
  - intros b r c Hg. cbn in Hg. rewrite Htr' in Hg. destruct (i_generated _ Hs b r c Hg) as [k Hk]. exists k. by apply grown_old.
  - intros b k Hk Hlk. destruct (grown_lookup b k Hk) as [Hj | [-> ->]]; [| congruence].
    destruct (i_locks _ Hs b k Hj Hlk) as [? Hin]. split; [done |]. cbn. rewrite Hts. done.
  - cbn. rewrite Hts. split; [done | apply (i_binds _ Hs)].
Qed.

(** The future [d] with which [futureConverter] follows [c]. *)
Lemma inv_wrapper_new a b g cap r c ts0 :
  ts = Task_entry a (Chain_futureConverter b g cap) r :: ts0 →
  impl_alive s b = true → impl_alive s c = true →
  n = mkImpl true false false Result_null [] (Cancel_extends c) (Origin_wrapper c b) →
  h' = h → ts' = Task_addChain c (Chain_makerWrapper (length l) b) :: Task_bind b c (length l) :: ts0 →
  tr' = tr ++ [Ev_generated b r c] → Inv s'.
Proof using Hs Htr Hn Hch.
  intros Hts0 Hb Hca Hnew Hh Hts Htr'. pose proof grown_extends as He. pose proof fresh_target as Hfr.
  set (T := concat (task_targets <$> ts0) ++ concat (impl_targets <$> l)).
  assert (targets s = b :: T) as Hold by (unfold targets; cbn; by rewrite Hts0).
  assert (targets s' = b :: length l :: T) as Htg by (unfold targets; cbn; by rewrite grown_targets, Hts).
  assert (impl_alive s' (length l) = true) as Hna by (unfold impl_alive; by rewrite grown_new).
  pose proof (i_nodup _ Hs) as Hnd. rewrite Hold in Hnd, Hfr. apply NoDup_cons in Hnd as [HbT HndT].
  apply not_elem_of_cons in Hfr as [Hbl HlT].
  pose proof (i_entries _ Hs a (Chain_futureConverter b g cap)
    ltac:(right; right; exists r; cbn; rewrite Hts0; by left)) as (Hob & Hcb & Hgb).
  assert (result_of s a = Some r) as Hra
    by (apply (i_tasks _ Hs (Task_entry a (Chain_futureConverter b g cap) r)); cbn; rewrite Hts0; by left).
  assert (∃ kb, l !! b = Some kb ∧ d_done kb = false) as (kb & Hkb & Hdb)
    by (apply (i_targets _ Hs b); rewrite Hold; by left).
  assert (origin_of s' (length l) = Some (Origin_wrapper c b)) as Hod by (unfold origin_of; rewrite grown_new; cbn; by rewrite Hnew).
  assert (wrapper_ok s' c b) as Hwr.
  { exists a, g, cap, r. split_and!; [by apply (origin_extends s) | by apply (result_extends s) |].
    cbn. rewrite Htr'. apply elem_of_app. right. by left. }
  assert (∀ d c', origin_of s d ≠ Some (Origin_wrapper c' b)) as Hnone.
  { intros d c' Hd. destruct (i_wrapper _ Hs _ _ _ Hd) as (? & ? & ? & ra & _ & _ & Hg). by eapply Hgb. }
  assert (∀ t, t ∈ ts0 → t ∈ tasks s) as Hin0 by (intros t Ht; cbn; rewrite Hts0; by right).
  split; rewrite ?Htg.
  - constructor; [rewrite not_elem_of_cons; done | by constructor].
  - intros b' Hb'. apply elem_of_cons in Hb' as [-> | Hb']; [exists kb; split; [by apply grown_old | done] |].
    apply elem_of_cons in Hb' as [-> | Hb']; [exists n; split; [apply grown_new | by rewrite Hnew] |].
    destruct (i_targets _ Hs b') as (k & Hk & Hdk); [rewrite Hold; by right |]. exists k. split; [by apply grown_old | done].
  - intros b' k Hk Ha Hdk Hne. rewrite ?Htg. destruct (grown_lookup b' k Hk) as [Hj | [-> ->]]; [| right; by left].
    pose proof (i_awaited _ Hs b' k Hj Ha Hdk Hne) as Hin. rewrite Hold in Hin.
    apply elem_of_cons in Hin as [-> | Hin]; [by left | right; by right].
  - intros i Hin. unfold owned in Hin. cbn in Hin. rewrite Hts, Hh in Hin. rewrite !elem_of_app in Hin. destruct Hin as [Hin | [Hin | Hin]].
    + apply grown_alive, (i_owned _ Hs), elem_of_app. by left.
    + change (concat _) with ([c; b; c; length l] ++ concat (task_owns <$> ts0)) in Hin.
      apply elem_of_app in Hin as [Hin | Hin].
      * repeat (apply elem_of_cons in Hin as [-> | Hin]; [first [done | by apply grown_alive] |]). by apply elem_of_nil in Hin.
      * apply elem_concat_fmap in Hin as (t & Ht & Hin). apply grown_alive, (task_owns_alive s t i Hs); [by apply Hin0 | done].
    + destruct (grown_owns i Hin) as [Hin' | Hin']; [apply grown_alive, (i_owned _ Hs); unfold owned; rewrite !elem_of_app; by right; right |].
      rewrite Hnew in Hin'. apply list_elem_of_singleton in Hin' as ->. by apply grown_alive.
  - intros b' k Hk Ha. destruct (grown_lookup b' k Hk) as [Hj | [-> ->]]; [by apply (i_cancel _ Hs b' k) | by rewrite Hnew].
  - intros x e Hp. assert (e = Chain_makerWrapper (length l) b ∧ x = c ∨ pending (mkFutures l h ts0 None tr) x e) as [[-> ->] | Hp'].
    { destruct Hp as [(k & Hk & Hdk & Hin) | [Hin | [r' Hin]]].
      - destruct (grown_lookup x k Hk) as [Hj | [-> ->]]; [right; left; eauto |]. rewrite Hch in Hin. by apply elem_of_nil in Hin.
      - cbn in Hin. rewrite Hts in Hin. apply elem_of_cons in Hin as [Hin | Hin]; [left; by simplify_eq |].
        apply elem_of_cons in Hin as [Hin | Hin]; [done | right; right; by left].
      - cbn in Hin. rewrite Hts in Hin. apply elem_of_cons in Hin as [Hin | Hin]; [done |].
        apply elem_of_cons in Hin as [Hin | Hin]; [done | right; right; right; by exists r']. }
    + cbn. split; [done |]. intros _. left. rewrite Hts. right. by left.
    + assert (pending s x e) as Hps.
      { destruct Hp' as [H | [H | [r' H]]]; [by left | right; left; by apply Hin0 | right; right; exists r'; by apply Hin0]. }
      assert (∀ j, j ∈ entry_targets e → j ∈ T) as Hjt.
      { intros j Hj. unfold T. apply elem_of_app. destruct Hp' as [(k & Hk & Hdk & Hin) | [Hin | [r' Hin]]].
        - right. apply elem_concat_fmap. exists k. split; [by eapply list_elem_of_lookup_2 |]. unfold impl_targets. rewrite Hdk.
          apply elem_concat_fmap. eauto.
        - left. apply elem_concat_fmap. eauto.
        - left. apply elem_concat_fmap. eauto. }
      pose proof (i_entries _ Hs x e Hps) as Hok. apply grown_entry; [done | | |].
      * intros b' g' cap' -> r' c'. rewrite Htr'. rewrite not_elem_of_app. split; [by apply Hok |].
        rewrite list_elem_of_singleton. intros [= -> _ _]. apply HbT, Hjt. by left.
      * rewrite Hts0, Hts. intros b' c' d [Hin | Hin]%elem_of_cons; [done | right; by right].
      * intros b' d ->. destruct Hok as [Hod' _]. destruct (i_wrapper _ Hs _ _ _ Hod') as (a' & g' & cap' & ra & Hob' & _).
        by apply (origin_impl s b' _ Hob').
  - intros t Ht. cbn in Ht. rewrite Hts in Ht. apply elem_of_cons in Ht as [-> | Ht]; [done |].
    apply elem_of_cons in Ht as [-> | Ht]; [done |]. apply grown_made; [by apply (i_tasks _ Hs), Hin0 | by apply Hin0].
  - intros b' r' Hr. destruct (grown_result b' r' Hr) as [Hr' | (_ & Hd' & _)]; [| by rewrite Hnew in Hd'].
    eapply value_extends; [done | by eapply result_impl | by apply (i_values _ Hs)].
  - intros d c' b' Ho. destruct (grown_origin _ _ Ho) as [Ho' | [_ Ho']].
    + eapply (wrapper_extends s); [done | by apply (i_wrapper _ Hs d)].
    + rewrite Hnew in Ho'. cbn in Ho'. by simplify_eq.
  - intros d d' c1 c2 b' H1 H2. destruct (grown_origin _ _ H1) as [H1' | [-> H1']], (grown_origin _ _ H2) as [H2' | [-> H2']];
      rewrite ?Hnew in H1', H2'; cbn in *; simplify_eq; try done.
    + by eapply (i_unique _ Hs).
    + by destruct (Hnone _ _ H1').
    + by destruct (Hnone _ _ H2').
  - intros b' r' c' Hg. cbn in Hg. rewrite Htr' in Hg. apply elem_of_app in Hg as [Hg | Hg].
    + destruct (i_generated _ Hs b' r' c' Hg) as [k Hk]. exists k. by apply grown_old.
    + apply list_elem_of_singleton in Hg as [= -> _ _]. exists kb. by apply grown_old.
  - intros b' k Hk Hlk. destruct (grown_lookup b' k Hk) as [Hj | [-> ->]]; [| by rewrite Hnew in Hlk].
    destruct (i_locks _ Hs b' k Hj Hlk) as [? Hin]. split; [done |]. cbn in *. rewrite Hts0 in Hin. rewrite Hts. done.
  - cbn. rewrite Hts. split; [done |]. pose proof (i_binds _ Hs) as Hbf. cbn in Hbf. rewrite Hts0 in Hbf.
    split; [| by destruct Hbf]. intros Hin. apply elem_concat_fmap in Hin as (t & Ht & Hin).
    pose proof (i_tasks _ Hs t (Hin0 t Ht)) as Hok.
    assert (is_Some (result_of s b)) as [rb Hrb]
      by (destruct t; cbn in Hin; try (by apply elem_of_nil in Hin); apply list_elem_of_singleton in Hin as ->; done).
    unfold result_of in Hrb. cbn in Hrb. by rewrite Hkb, Hdb in Hrb.
Qed.
End New.

Lemma generate_inv cap x l h ts tr :
  Inv (mkFutures l h ts None tr) → (∀ j, j ∈ cap → impl_alive (mkFutures l h ts None tr) j = true) →
  ∃ c l', (∀ ts', generate cap x (mkFutures l h ts' None tr) = (c, mkFutures l' h ts' None tr)) ∧
    Inv (mkFutures l' h ts None tr) ∧ impl_alive (mkFutures l' h ts None tr) c = true ∧
    ∀ j, impl_alive (mkFutures l h ts None tr) j = true → impl_alive (mkFutures l' h ts None tr) j = true.
Proof using.
  intros Hi Hcap.
  assert (∀ n u, i_origin n = Origin_make u → d_cancelFunc n = cancel_of u → i_locked n = false → i_alive n = true → d_chain n = [] →
    Inv (mkFutures (l ++ [n]) h ts None tr) ∧ impl_alive (mkFutures (l ++ [n]) h ts None tr) (length l) = true ∧
    ∀ j, impl_alive (mkFutures l h ts None tr) j = true → impl_alive (mkFutures (l ++ [n]) h ts None tr) j = true) as Hnew.
  { intros n u Ho Hc Hl Ha Hch. split_and!.
    - apply (inv_new l h ts tr n h ts tr Hi ltac:(done) Ha Hch u Ho Hc Hl eq_refl eq_refl). by left.
    - unfold impl_alive. cbn. by rewrite lookup_app_r, Nat.sub_diag.
    - intros j. exact (grown_alive l h ts tr n h ts tr j). }
  destruct x as [i | r | u]; cbn [generate].
  - destruct (cap !! i) as [c |] eqn:Hc.
    + exists c, l. split_and!; [done | done | | done]. apply Hcap. by eapply list_elem_of_lookup_2.
    + destruct (Hnew (mkImpl true false false Result_null [] Cancel_none (Origin_make None)) None) as (H1 & H2 & H3); try done.
      exists (length l), (l ++ [mkImpl true false false Result_null [] Cancel_none (Origin_make None)]). split_and!; [done | exact H1 | exact H2 | exact H3].
  - destruct (Hnew (mkImpl true false true r [] Cancel_none (Origin_make None)) None) as (H1 & H2 & H3); try done.
    exists (length l), (l ++ [mkImpl true false true r [] Cancel_none (Origin_make None)]). split_and!; [done | exact H1 | exact H2 | exact H3].
  - destruct (Hnew (mkImpl true false false Result_null [] (cancel_of u) (Origin_make u)) u) as (H1 & H2 & H3); try done.
    exists (length l), (l ++ [mkImpl true false false Result_null [] (cancel_of u) (Origin_make u)]). split_and!; [done | exact H1 | exact H2 | exact H3].
Qed.

Lemma exec_future_inv a b g cap r l h ts tr :
  Inv (mkFutures l h (Task_entry a (Chain_futureConverter b g cap) r :: ts) None tr) →
  Inv (exec (Task_entry a (Chain_futureConverter b g cap) r) (mkFutures l h ts None tr)) ∧
  stuck (exec (Task_entry a (Chain_futureConverter b g cap) r) (mkFutures l h ts None tr)) = None.
Proof using.
  intros Hi. cbn. destruct (impl_alive _ b) eqn:Hb; [| split; [by eapply exec_dead_inv | done]].
  destruct (generate_inv cap (g r) _ _ _ _ Hi) as (c & l' & Hg & Hi' & Hc & Hal).
  { intros j Hj. apply (task_owns_alive _ (Task_entry a (Chain_futureConverter b g cap) r) j Hi); [by left | done]. }
  unfold futureConverter. rewrite Hg. split; [| done]. cbn.
  refine (inv_wrapper_new _ _ _ _ _ _ _ _ Hi' _ _ _ a b g cap r c ts eq_refl _ _ _ _ _ _); try done.
  - intros e He. apply elem_of_app. by left.
  - by apply Hal.
Qed.

(** A task that does not deadlock keeps the invariant; only [addChain] can. *)
Lemma exec_inv t l h ts tr :
  Inv (mkFutures l h (t :: ts) None tr) →
  let s' := exec t (mkFutures l h ts None tr) in
  (stuck s' = None → Inv s') ∧
  (∀ d, stuck s' = Some d → ∃ c e, t = Task_addChain c e ∧ d = Deadlock_addChain c ∧ s' = deadlock d (mkFutures l h ts None tr) ∧
     ∃ k, l !! c = Some k ∧ i_locked k = true).
Proof using.
  intros Hi. cbn zeta. destruct t as [b r | a e r | a e | a | a | b c d].
  - destruct (exec_made_inv _ _ _ _ _ _ Hi) as [H1 H2]. cbn. rewrite H2. done.
  - destruct e as [b f | b g cap | d b].
    + split; [| done]. intros _. by apply exec_converter_inv.
    + destruct (exec_future_inv _ _ _ _ _ _ _ _ _ Hi) as [H1 H2]. rewrite H2. done.
    + split; [| done]. intros _. by apply exec_wrapper_inv.
  - split; [by apply exec_addChain_inv |]. cbn. unfold addChain. cbn. intros d Hd. destruct (l !! a) as [k |] eqn:Hk; [| done].
    destruct (i_locked k) eqn:Hlk; [| by destruct (d_done k)]. cbn in Hd. exists a, e. split_and!; try done; [congruence | by simplify_eq |]. eauto.
  - split; [| done]. intros _. eapply exec_release_inv; [left; split_and!; reflexivity | done].
  - split; [| done]. intros _. eapply exec_release_inv; [right; split_and!; reflexivity | done].
  - destruct (exec_bind_inv _ _ _ _ _ _ _ Hi) as [H1 H2]. cbn in *. rewrite H2. done.
Qed.

(** *** Destruction *)

Lemma destroy_spec i s :
  impl_alive s i = true → ∃ tr', destroy i s = mkFutures (alter dead_impl i (impls s)) (handles s) (tasks s) (stuck s) tr' ∧
    (tr' = trace s ∨ ∃ u, tr' = trace s ++ [Ev_cancelled i u]).
Proof using.
  intros Ha. unfold destroy, impl_alive in *. destruct (impls s !! i) as [k |]; [| done].
  destruct (d_cancelFunc k) as [| u | p]; try (eexists; split; [reflexivity | by left]).
  destruct (d_done k); eexists; (split; [reflexivity |]); [by left | right; eauto].
Qed.

Lemma destroy_inv i s : Inv s → i ∉ owned s → impl_alive s i = true → Inv (destroy i s).
Proof using.
  intros Hi Hno Ha. destruct (destroy_spec i s Ha) as (tr' & -> & Htr').
  unfold impl_alive in Ha. destruct (impls s !! i) as [k |] eqn:Hk; [| done].
  destruct s as [l h ts st tr]. cbn [impls handles tasks stuck trace] in *.
  set (s := mkFutures l h ts st tr) in *. set (s' := mkFutures _ h ts st tr').
  assert (calm s s') as Hc.
  { apply calm_update; [| | | done].
    - intros k' _. split; [split; cbn; done | done].
    - intros e He. destruct Htr' as [-> | [u ->]]; [done | apply elem_of_app; by left].
    - intros b r c Hg. destruct Htr' as [-> | [u ->]]; [done |].
      apply elem_of_app in Hg as [? | ?%list_elem_of_singleton]; done. }
  assert (impl_targets (dead_impl k) = []) as Hdt by (unfold impl_targets; cbn; by destruct (d_done k)).
  assert (targets s ≡ₚ impl_targets k ++ targets s') as Htg.
  { unfold targets. cbn. pose proof (concat_alter impl_targets dead_impl l i k Hk) as Hca. rewrite Hdt in Hca. cbn in Hca.
    rewrite <- Hca. solve_Permutation. }
  assert (∀ j, j ≠ i → impls s' !! j = l !! j) as Hold by (intros j Hj; unfold s'; rewrite lookup_update; by rewrite decide_False).
  assert (impls s' !! i = Some (dead_impl k)) as Hnew by (unfold s'; rewrite lookup_update, decide_True, Hk; done).
  assert (∀ j, j ∈ owned s' → j ∈ owned s) as Hown.
  { intros j Hj. unfold owned in *. cbn in *. rewrite !elem_of_app in *. destruct Hj as [? | [? | Hj]]; [by left | by right; left |].
    destruct (elem_concat_alter _ _ _ _ _ _ Hk Hj) as [? | Hj2]; [by right; right |]. by apply elem_of_nil in Hj2. }
  eapply (inv_calm s s' _ Hi Hc Htg).
  - intros b Hb. destruct (impl_alive s' b) eqn:Hab; [exfalso | by right].
    unfold impl_targets in Hb. destruct (d_done k) eqn:Hd; [by apply elem_of_nil in Hb |].
    apply elem_concat_fmap in Hb as (e & He & Hb). apply Hno.
    assert (b ≠ i) as Hbi by (intros ->; unfold impl_alive in Hab; by rewrite Hnew in Hab).
    assert (impl_alive s b = true ∧ ∃ kb, l !! b = Some kb ∧ i_alive kb = true) as (Hba & kb & Hkb & Hkba).
    { unfold impl_alive in *. rewrite Hold in Hab by done. cbn. destruct (l !! b) as [kb |]; [split; eauto | done]. }
    pose proof (i_entries _ Hi i e ltac:(left; eauto)) as Hok. pose proof (i_cancel _ Hi b kb Hkb Hkba) as Hcb.
    assert (∀ j kj p, l !! j = Some kj → i_alive kj = true → d_cancelFunc kj = Cancel_extends p → p ∈ owned s) as Hext.
    { intros j kj p Hj Haj Hp. unfold owned. rewrite !elem_of_app. right. right. apply elem_concat_fmap. exists kj.
      split; [by eapply list_elem_of_lookup_2 |]. unfold impl_owns. rewrite Haj, Hp. by left. }
    unfold cancel_ok in Hcb. destruct e as [b' f | b' g cap | d b']; cbn in Hb, Hok.
    + apply list_elem_of_singleton in Hb as ->. unfold origin_of in Hok. cbn in Hok. rewrite Hkb in Hok. cbn in Hok.
      injection Hok as Hok. rewrite Hok in Hcb. by eapply Hext.
    + apply list_elem_of_singleton in Hb as ->. destruct Hok as (_ & Hok & _). specialize (Hok Hba).
      unfold cancel_of_impl in Hok. cbn in Hok. rewrite Hkb in Hok. cbn in Hok. injection Hok as Hok. by eapply Hext.
    + destruct Hok as [Hod Hok].
      assert (∀ kd, l !! d = Some kd → i_alive kd = true → i ∈ owned s) as Hd2.
      { intros kd Hkd Had. pose proof (i_cancel _ Hi d kd Hkd Had) as Hcd. unfold cancel_ok in Hcd.
        unfold origin_of in Hod. cbn in Hod. rewrite Hkd in Hod. cbn in Hod. injection Hod as Hod. rewrite Hod in Hcd. by eapply Hext. }
      apply elem_of_cons in Hb as [-> | ->%list_elem_of_singleton]; [| by eapply Hd2].
      destruct (Hok Hba) as [Hin | Hcan].
      * unfold owned. rewrite !elem_of_app. right. left. apply elem_concat_fmap. exists (Task_bind b' i d).
        split; [done |]. cbn. right. by left.
      * unfold cancel_of_impl in Hcan. cbn in Hcan. rewrite Hkb in Hcan. cbn in Hcan. injection Hcan as Hcan.
        pose proof (i_owned _ Hi d (Hext _ _ _ Hkb Hkba Hcan)) as Had. unfold impl_alive in Had. cbn in Had.
        destruct (l !! d) as [kd |] eqn:Hkd; [| done]. by eapply Hd2.
  - intros b Hb. destruct (i_targets _ Hi b) as (kb & Hkb & Hdb); [rewrite Htg; apply elem_of_app; by right |].
    unfold done_of. destruct (decide (b = i)) as [-> | Hbi]; [rewrite Hnew; cbn in *; congruence |]. rewrite Hold by done. cbn in Hkb. by rewrite Hkb.
  - intros j Hj%Hown. assert (j ≠ i) as Hji by (intros ->; done). pose proof (i_owned _ Hi j Hj) as Haj.
    unfold impl_alive in *. by rewrite Hold.
  - intros x e [(kx & Hx & Hdx & Hin) | H]; left; [left | by right].
    destruct (alter_lookup_Some _ _ _ _ _ Hx) as [(-> & y & Hy & ->) | [_ Hy]]; [by apply elem_of_nil in Hin | eauto].
  - intros t Ht. by left.
  - intros b r Hr. left. unfold result_of in *. cbn in *. destruct (alter _ i l !! b) as [k' |] eqn:Hk'; [| done].
    destruct (alter_lookup_Some _ _ _ _ _ Hk') as [(<- & y & Hy & ->) | [_ Hy]]; by rewrite Hy.
  - intros b k' Hk' Hl'. destruct (alter_lookup_Some _ _ _ _ _ Hk') as [(<- & y & Hy & ->) | [_ Hy]]; [| by apply (i_locks _ Hi b k')].
    cbn in *. by apply (i_locks _ Hi i y).
  - apply (i_binds _ Hi).
Qed.

Lemma unowned_spec s i : unowned s = Some i → impl_alive s i = true ∧ i ∉ owned s.
Proof using.
  unfold unowned. intros H. assert (i ∈ filter (λ i, impl_alive s i = true ∧ i ∉ owned s) (seq 0 (length (impls s)))) as Hin.
  { destruct (filter _ _); [done |]. cbn in H. simplify_eq. by left. }
  by apply list_elem_of_filter in Hin as [? _].
Qed.

Lemma sweep_loop_inv n : ∀ s, Inv s → Inv (sweep_loop n s).
Proof using.
  induction n as [| n IH]; intros s Hi; cbn; [done |]. destruct (unowned s) as [i |] eqn:Hu; [| done].
  destruct (unowned_spec _ _ Hu). by apply IH, destroy_inv.
Qed.

Lemma sweep_inv s : Inv s → Inv (sweep s).
Proof using. apply sweep_loop_inv. Qed.

(** *** Steps and calls *)

Lemma sweep_loop_same n : ∀ s, handles (sweep_loop n s) = handles s ∧ tasks (sweep_loop n s) = tasks s ∧
  stuck (sweep_loop n s) = stuck s ∧ length (impls (sweep_loop n s)) = length (impls s).
Proof using.
  induction n as [| n IH]; intros s; cbn; [done |]. destruct (unowned s) as [i |] eqn:Hu; [| done].
  destruct (unowned_spec _ _ Hu) as [Ha _]. destruct (destroy_spec i s Ha) as (tr' & -> & _).
  destruct (IH (mkFutures (alter dead_impl i (impls s)) (handles s) (tasks s) (stuck s) tr')) as (-> & -> & -> & ->).
  cbn. by rewrite length_alter.
Qed.

Lemma sweep_same s : handles (sweep s) = handles s ∧ tasks (sweep s) = tasks s ∧
  stuck (sweep s) = stuck s ∧ length (impls (sweep s)) = length (impls s).
Proof using. apply sweep_loop_same. Qed.

(** A step that does not deadlock runs its task. *)
Lemma step_runs s :
  stuck s = None → stuck (step s) = None →
  step s = match tasks s with t :: _ => sweep (exec t (pop s)) | [] => s end.
Proof using. unfold step. intros ->. destruct (tasks s) as [| t ts]; [done |]. by destruct (callback_blocked t s). Qed.

Lemma step_stuck s d : stuck s = Some d → step s = s.
Proof using. intros Hs. unfold step. by rewrite Hs. Qed.

Lemma future_step_inv s : Inv s → stuck s = None → stuck (step s) = None → Inv (step s).
Proof using.
  intros Hi Hs Hst. pose proof (step_runs s Hs Hst) as Heq. rewrite Heq in *. clear Heq. destruct s as [l h ts st tr]. cbn [stuck tasks] in *. subst st.
  destruct ts as [| t ts]; [done |]. unfold pop in *. cbn [impls handles tasks stuck trace tail] in *.
  destruct (sweep_same (exec t (mkFutures l h ts None tr))) as (_ & _ & Hsw & _). rewrite Hsw in Hst.
  apply sweep_inv. by apply (exec_inv t l h ts tr Hi).
Qed.

(** A promise is used once. *)
Definition promise_unused (o : FutureOp) (s : Futures) : Prop :=
  match o with
  | Op_resolve a _ => (∃ u, origin_of s a = Some (Origin_make u)) ∧ done_of s a = false
  | _ => True
  end.

(** The states between the tasks of any sequence of calls. *)
Inductive reachable : Futures → Prop :=
| reach_start : reachable Futures_none
| reach_call s o : reachable s → tasks s = [] → stuck s = None → promise_unused o s → reachable (sweep (begin o s))
| reach_step s : reachable s → reachable (step s).

Lemma inv_handles l h h' ts tr :
  Inv (mkFutures l h ts None tr) → (∀ j, j ∈ h' → j ∈ h) → Inv (mkFutures l h' ts None tr).
Proof using.
  intros Hi Hh. apply (inv_calm _ _ [] Hi); try done.
  - by apply calm_same.
  - by intros b []%elem_of_nil.
  - intros b Hb. destruct (i_targets _ Hi b Hb) as (k & Hk & Hd). unfold done_of. cbn in *. by rewrite Hk.
  - intros j Hj. apply (i_owned _ Hi). unfold owned in *. cbn in *. rewrite !elem_of_app in *.
    destruct Hj as [Hj | Hj]; [left; by apply Hh | by right].
  - intros x e Hp. by left.
  - intros t Ht. by left.
  - intros b r Hr. by left.
  - intros a k Hk Hl. by apply (i_locks _ Hi a k).
  - apply (i_binds _ Hi).
Qed.

Lemma remove_one_elem a j h : j ∈ remove_one a h → j ∈ h.
Proof using.
  induction h as [| x h IH]; [done |]. cbn. destruct (Nat.eqb x a); [by right |].
  intros [-> | Hj]%elem_of_cons; [by left | right; by apply IH].
Qed.

(** Only a source's promise is made a target by a call. *)
Lemma source_no_target s a u : Inv s → tasks s = [] → origin_of s a = Some (Origin_make u) → a ∉ targets s.
Proof using.
  intros Hi Ht Ho Hin. unfold targets in Hin. rewrite Ht in Hin. cbn in Hin.
  apply elem_concat_fmap in Hin as (k & Hk & Hin). apply list_elem_of_lookup in Hk as [x Hx].
  unfold impl_targets in Hin. destruct (d_done k) eqn:Hd; [by apply elem_of_nil in Hin |].
  apply elem_concat_fmap in Hin as (e & He & Hin).
  pose proof (i_entries _ Hi x e ltac:(left; eauto)) as Hok. destruct e as [b f | b g cap | d b]; cbn in *.
  - apply list_elem_of_singleton in Hin as ->. congruence.
  - apply list_elem_of_singleton in Hin as ->. destruct Hok as [Hok _]. congruence.
  - destruct Hok as [Hod _]. apply elem_of_cons in Hin as [-> | ->%list_elem_of_singleton]; [| congruence].
    destruct (i_wrapper _ Hi _ _ _ Hod) as (? & ? & ? & ? & Hb & _). congruence.
Qed.

Lemma inv_resolve l h tr a r u :
  Inv (mkFutures l h [] None tr) → origin_of (mkFutures l h [] None tr) a = Some (Origin_make u) →
  done_of (mkFutures l h [] None tr) a = false → Inv (mkFutures l h [Task_made a r] None tr).
Proof using.
  intros Hi Ho Hd. pose proof (source_no_target _ _ _ Hi eq_refl Ho) as Hn.
  set (s := mkFutures l h [] None tr) in *. set (s' := mkFutures l h [Task_made a r] None tr).
  assert (extends s s') as He by (by apply extends_same).
  assert (targets s' = a :: targets s) as Htg by done.
  destruct (origin_impl _ _ _ Ho) as [ka Hka].
  split; rewrite ?Htg.
  - constructor; [done | apply (i_nodup _ Hi)].
  - intros b [-> | Hb]%elem_of_cons; [| by apply (i_targets _ Hi)]. exists ka. split; [done |]. unfold done_of in Hd. by rewrite Hka in Hd.
  - intros b k Hk Ha Hdk Hne. rewrite ?Htg. right. by apply (i_awaited _ Hi b k).
  - intros i Hin. by apply (i_owned _ Hi).
  - apply (i_cancel _ Hi).
  - intros x e [H | [H | [r' H]]]; [| by apply list_elem_of_singleton in H..].
    assert (pending s x e) as Hp by (by left). pose proof (i_entries _ Hi x e Hp) as Hok.
    apply (entry_calm s); [| done]. apply calm_same; [done | done |]. by intros b c d []%elem_of_nil.
  - intros t ->%list_elem_of_singleton. cbn. unfold value_ok. by rewrite (origin_extends s s' a _ He Ho).
  - intros b r' Hr. apply (value_extends s); [done | by apply (result_impl s b r') | by apply (i_values _ Hi)].
  - intros d c b Hod. apply (wrapper_extends s); [done |]. by apply (i_wrapper _ Hi d).
  - apply (i_unique _ Hi).
  - apply (i_generated _ Hi).
  - intros b k Hk Hl. destruct (i_locks _ Hi b k Hk Hl) as [_ []%elem_of_nil].
  - done.
Qed.

Lemma begin_inv o s : Inv s → tasks s = [] → stuck s = None → promise_unused o s → Inv (begin o s).
Proof using.
  destruct s as [l h ts st tr]. cbn. intros Hi -> -> Ho.
  assert (∀ n u, i_origin n = Origin_make u → d_cancelFunc n = cancel_of u → i_locked n = false → i_alive n = true → d_chain n = [] →
    Inv (mkFutures (l ++ [n]) (length l :: h) [] None tr)) as Hnew.
  { intros n u H1 H2 H3 H4 H5. apply (inv_new l h [] tr n (length l :: h) [] tr Hi ltac:(done) H4 H5 u H1 H2 H3 eq_refl eq_refl).
    intros j [-> | ?]%elem_of_cons; [by right | by left]. }
  destruct o as [r | u | a r | a f | a g cap | a | a]; cbn.
  - by apply (Hnew _ None).
  - by apply (Hnew _ u).
  - destruct Ho as [[u Ho] Hd]. by apply (inv_resolve _ _ _ _ _ u).
  - case_bool_decide as Ha; [| done]. unfold push, new_impl, set_impls, set_handles. cbn.
    refine (inv_derive l h [] tr _ _ _ _ Hi _ _ _ a (Chain_converter (length l) f) _ _ _ _ _ _ _ _); try done; [left; by exists f |].
    intros j ->%list_elem_of_singleton. apply (i_owned _ Hi), elem_of_app. by left.
  - destruct (bool_decide (a ∈ h) && _) eqn:Ha; [| done]. unfold push, new_impl, set_impls, set_handles. cbn.
    apply andb_true_iff in Ha as [Ha Hcap]. apply bool_decide_eq_true_1 in Ha.
    refine (inv_derive l h [] tr _ _ _ _ Hi _ _ _ a (Chain_futureConverter (length l) g cap) _ _ _ _ _ _ _ _); try done; [right; by exists g, cap |].
    intros j Hj. apply (i_owned _ Hi), elem_of_app. left. apply elem_of_cons in Hj as [-> | Hj]; [done |].
    rewrite forallb_forall in Hcap. apply list_elem_of_In in Hj. specialize (Hcap j Hj). by apply bool_decide_eq_true_1 in Hcap.
  - case_bool_decide as Ha; [| done]. apply (inv_handles _ _ _ _ _ Hi). intros j [-> | ?]%elem_of_cons; done.
  - apply (inv_handles _ _ _ _ _ Hi). intros j. apply remove_one_elem.
Qed.

Lemma Inv_none : Inv Futures_none.
Proof using.
  split; cbn; try done; try (by intros ? ?%elem_of_nil); try (by intros ? ? []%elem_of_nil).
  - constructor.
  - intros x e [(k & Hk & _) | [H | [r H]]]; [done | by apply elem_of_nil in H..].
  - intros b r c []%elem_of_nil.
Qed.

Lemma reachable_inv s : reachable s → stuck s = None → Inv s.
Proof using.
  intros Hr. induction Hr as [| s o Hr IH Ht Hst Ho | s Hr IH]; intros Hs.
  - apply Inv_none.
  - apply sweep_inv, begin_inv; auto.
  - destruct (stuck s) as [d |] eqn:He; [rewrite (step_stuck s d He) in Hs; congruence |]. by apply future_step_inv; auto.
Qed.

(** *** Termination *)

Lemma sum_app l l' : sum_list (l ++ l') = sum_list l + sum_list l'.
Proof using. apply sum_list_with_app. Qed.

Lemma sum_alter {A} (g : A → nat) f (l : list A) : ∀ i k, l !! i = Some k →
  g k + sum_list (g <$> alter f i l) = g (f k) + sum_list (g <$> l).
Proof using.
  induction l as [| x l IH]; intros [| i] k Hi; simplify_eq/=; [unfold id; lia |].
  specialize (IH i k Hi). unfold id in *. lia.
Qed.

Lemma work_push ts s : work (push ts s) = sum_list (task_work <$> ts) + work s.
Proof using. unfold work. cbn. rewrite fmap_app, sum_app. lia. Qed.

Lemma work_update i f s k : impls s !! i = Some k → impl_work k + work (update i f s) = impl_work (f k) + work s.
Proof using. intros Hk. unfold work. cbn. pose proof (sum_alter impl_work f _ _ _ Hk). lia. Qed.

Lemma work_new done r c o s : work (new_impl done r c o s) = work s.
Proof using. unfold work. cbn. rewrite fmap_app, sum_app. cbn. unfold impl_work at 2. cbn. destruct done; cbn; lia. Qed.

Lemma destroy_work i s : impl_alive s i = true → work (destroy i s) ≤ work s.
Proof using.
  intros Ha. destruct (destroy_spec i s Ha) as (tr' & -> & _). unfold impl_alive in Ha.
  destruct (impls s !! i) as [k |] eqn:Hk; [| done]. pose proof (work_update i dead_impl s k Hk) as Hw.
  assert (impl_work (dead_impl k) = 0) as Hz by (unfold impl_work; cbn; by destruct (d_done k)).
  unfold work in *. cbn in *. lia.
Qed.

Lemma sweep_work s : work (sweep s) ≤ work s.
Proof using.
  unfold sweep. generalize (length (impls s)). intros n. revert s.
  induction n as [| n IH]; intros s; cbn; [done |]. destruct (unowned s) as [i |] eqn:Hu; [| done].
  destruct (unowned_spec _ _ Hu) as [Ha _]. pose proof (destroy_work i s Ha). pose proof (IH (destroy i s)). lia.
Qed.

#[local] Ltac work_lia := unfold work in *; cbn in *; unfold id in *; lia.

Lemma exec_work t l h ts tr :
  Inv (mkFutures l h (t :: ts) None tr) →
  work (exec t (mkFutures l h ts None tr)) < task_work t + work (mkFutures l h ts None tr).
Proof using.
  intros Hi. set (s := mkFutures l h ts None tr). destruct t as [b r | a [b f | b g cap | d b] r | a e | a | a | b c d]; cbn [exec task_work].
  - destruct (i_targets _ Hi b) as (k & Hk & Hd); [by left |]. cbn in Hk. unfold Impl_made. cbn [impls s]. rewrite Hk.
    destruct (negb _); [work_lia |]. destruct (i_locked k); [work_lia |].
    rewrite work_push, fmap_app, sum_app. pose proof (work_update b (resolve_impl r) s k Hk) as Hw.
    unfold impl_work at 1 2 in Hw. cbn in Hw. rewrite Hd in Hw. rewrite <- list_fmap_compose. change (task_work ∘ (λ e, Task_entry b e r)) with entry_work.
    work_lia.
  - rewrite work_push. unfold work. work_lia.
  - destruct (impl_alive s b); [| work_lia]. unfold futureConverter.
    assert (work (generate cap (g r) s).2 = work s) as Hg.
    { destruct (g r) as [i | r' | u]; cbn [generate]; [destruct (cap !! i); [done |] | |]; cbn [snd]; apply work_new. }
    destruct (generate cap (g r) s) as [c s1]. cbn [snd] in Hg. rewrite work_push, work_new. cbn. unfold id.
    work_lia.
  - rewrite work_push. work_lia.
  - unfold addChain. cbn [impls s]. destruct (l !! a) as [k |] eqn:Hk; [| work_lia]. destruct (i_locked k); [work_lia |].
    destruct (d_done k) eqn:Hd.
    + rewrite work_push. pose proof (work_update a lock_impl s k Hk) as Hw. unfold impl_work at 1 2 in Hw. cbn in Hw. rewrite Hd in Hw.
      work_lia.
    + pose proof (work_update a (chain_impl e) s k Hk) as Hw. unfold impl_work at 1 2 in Hw. cbn in Hw. rewrite Hd, fmap_app, sum_app in Hw.
      work_lia.
  - change (work (emit _ _)) with (work (update a finish_impl s)).
    pose proof (task_owns_alive _ (Task_finish a) a Hi ltac:(by left) ltac:(by left)) as Ha. unfold impl_alive in Ha. cbn in Ha.
    destruct (l !! a) as [k |] eqn:Hk; [| done]. pose proof (work_update a finish_impl s k Hk) as Hw.
    assert (impl_work (finish_impl k) = 0) as Hz by (unfold impl_work; cbn; by destruct (d_done k)). work_lia.
  - pose proof (task_owns_alive _ (Task_unlock a) a Hi ltac:(by left) ltac:(by left)) as Ha. unfold impl_alive in Ha. cbn in Ha.
    destruct (l !! a) as [k |] eqn:Hk; [| done]. pose proof (work_update a unlock_impl s k Hk) as Hw.
    change (impl_work (unlock_impl k)) with (impl_work k) in Hw. work_lia.
  - cbn [impls s]. destruct (l !! b) as [k |] eqn:Hk; [| work_lia]. destruct (i_locked k); [work_lia |].
    pose proof (work_update b (cancel_impl (Cancel_extends d)) s k Hk) as Hw.
    change (impl_work (cancel_impl _ k)) with (impl_work k) in Hw. work_lia.
Qed.

Lemma task_work_pos t : 0 < task_work t.
Proof using. destruct t as [| ? [] | ? [] | | |]; cbn; lia. Qed.

Lemma step_work s t ts : Inv s → stuck s = None → tasks s = t :: ts → work (step s) < work s.
Proof using.
  destruct s as [l h ts' st tr]. cbn [stuck tasks]. intros Hi -> ->. unfold step. cbn [stuck tasks]. unfold pop. cbn [impls handles tasks stuck trace tail].
  pose proof (sweep_work (exec t (mkFutures l h ts None tr))). pose proof (exec_work t l h ts tr Hi).
  assert (work (mkFutures l h (t :: ts) None tr) = task_work t + work (mkFutures l h ts None tr)) as -> by work_lia.
  destruct (callback_blocked _ _) as [d |]; [| lia].
  change (work (deadlock d ?x)) with (work x). pose proof (task_work_pos t). lia.
Qed.

Lemma run_reachable n : ∀ s, reachable s → reachable (run n s).
Proof using.
  induction n as [| n IH]; intros s Hs; cbn; [done |]. destruct (stuck s); [done |].
  destruct (tasks s); [done |]. by apply IH, reach_step.
Qed.

Lemma run_finishes n : ∀ s, reachable s → work s ≤ n → tasks (run n s) = [] ∨ is_Some (stuck (run n s)).
Proof using.
  induction n as [| n IH]; intros s Hs Hn; cbn.
  - left. destruct (tasks s) as [| t ts] eqn:Ht; [done |]. unfold work in Hn. rewrite Ht in Hn. cbn in Hn. unfold id in Hn.
    destruct t as [| ? [] | | | |]; cbn in Hn; lia.
  - destruct (stuck s) as [d |] eqn:Hst; [right; rewrite Hst; eauto |]. destruct (tasks s) as [| t ts] eqn:Ht; [by left |].
    apply IH; [by apply reach_step |]. pose proof (step_work s t ts (reachable_inv s Hs Hst) Hst Ht). lia.
Qed.

Lemma perform_reachable o s :
  reachable s → tasks s = [] → stuck s = None → promise_unused o s → reachable (perform o s).
Proof using. intros. unfold perform. apply run_reachable. by apply reach_call. Qed.

(** *** Calls once *)

Definition called_id (e : FutureEvent) : option Id :=
  match e with Ev_continued b _ | Ev_generated b _ _ => Some b | _ => None end.
Definition called (s : Futures) : list Id := omap called_id (trace s).

Definition entry_calls (e : ChainEntry) : list Id :=
  match e with Chain_converter b _ | Chain_futureConverter b _ _ => [b] | Chain_makerWrapper _ _ => [] end.
Definition task_calls (t : Task) : list Id :=
  match t with Task_entry _ e _ | Task_addChain _ e => entry_calls e | _ => [] end.
Definition impl_calls (k : Impl) : list Id := if d_done k then [] else concat (entry_calls <$> d_chain k).

(** The calls made and those that are waiting. *)
Definition calls (s : Futures) : list Id :=
  called s ++ concat (task_calls <$> tasks s) ++ concat (impl_calls <$> impls s).

Lemma calls_alter l h h' ts ts' st st' tr tr' i f k :
  l !! i = Some k →
  omap called_id tr ++ concat (task_calls <$> ts) ++ impl_calls k ≡ₚ
    omap called_id tr' ++ concat (task_calls <$> ts') ++ impl_calls (f k) →
  calls (mkFutures l h ts st tr) ≡ₚ calls (mkFutures (alter f i l) h' ts' st' tr').
Proof using.
  intros Hk Hp. unfold calls, called. cbn. apply (Permutation_app_inv_l (impl_calls k)).
  pose proof (concat_alter impl_calls f l i k Hk) as Hc. transitivity ((omap called_id tr ++ concat (task_calls <$> ts) ++ impl_calls k) ++ concat (impl_calls <$> l));
    [solve_Permutation |]. rewrite Hp. transitivity ((omap called_id tr' ++ concat (task_calls <$> ts')) ++ impl_calls (f k) ++ concat (impl_calls <$> l));
    [solve_Permutation |]. rewrite <- Hc. solve_Permutation.
Qed.

Lemma calls_new l n : d_chain n = [] → concat (impl_calls <$> l ++ [n]) = concat (impl_calls <$> l).
Proof using.
  intros Hch. rewrite fmap_app, concat_app. cbn. unfold impl_calls at 2. rewrite Hch. cbn. destruct (d_done n); by rewrite !app_nil_r.
Qed.

Lemma exec_calls t l h ts tr :
  Inv (mkFutures l h (t :: ts) None tr) →
  ∃ dropped, calls (mkFutures l h (t :: ts) None tr) ≡ₚ dropped ++ calls (exec t (mkFutures l h ts None tr)).
Proof using.
  intros Hi. set (s := mkFutures l h ts None tr).
  assert (calls (mkFutures l h (t :: ts) None tr) ≡ₚ task_calls t ++ calls s) as Hpop by (unfold calls; cbn; solve_Permutation).
  destruct t as [b r | a [b f | b g cap | d b] r | a e | a | a | b c d]; cbn [exec].
  - exists []. cbn [app]. destruct (i_targets _ Hi b) as (k & Hk & Hd); [by left |]. cbn in Hk. unfold Impl_made. cbn [impls s]. rewrite Hk.
    destruct (negb _); [by rewrite Hpop |]. destruct (i_locked k); [by rewrite Hpop |]. apply (calls_alter _ _ _ _ _ _ _ _ _ _ _ k Hk).
    cbn. rewrite !fmap_app, !concat_app, <- list_fmap_compose. change (task_calls ∘ (λ e, Task_entry b e r)) with entry_calls.
    unfold impl_calls. rewrite Hd. cbn. solve_Permutation.
  - exists []. unfold calls, called. cbn. rewrite omap_app. cbn. solve_Permutation.
  - destruct (impl_alive s b); [| exists [b]; by rewrite Hpop]. exists []. unfold futureConverter.
    assert (trace (generate cap (g r) s).2 = tr ∧ tasks (generate cap (g r) s).2 = ts ∧
      concat (impl_calls <$> impls (generate cap (g r) s).2) = concat (impl_calls <$> l)) as (H1 & H2 & H3).
    { destruct (g r) as [i | r' | u]; cbn [generate]; [destruct (cap !! i) as [c |] | |]; cbn; split_and!; try done; by apply calls_new. }
    destruct (generate cap (g r) s) as [c s1]. cbn [snd] in *. unfold calls, called. cbn. rewrite calls_new, H1, H2, H3 by done.
    rewrite omap_app. cbn. solve_Permutation.
  - exists []. rewrite Hpop. done.
  - pose proof (task_owns_alive _ (Task_addChain a e) a Hi ltac:(by left) ltac:(by left)) as Ha. unfold impl_alive in Ha. cbn in Ha.
    unfold addChain. cbn [impls s]. destruct (l !! a) as [k |] eqn:Hk; [| done].
    destruct (i_locked k); [exists (entry_calls e); by rewrite Hpop |]. exists []. cbn [app]. destruct (d_done k) eqn:Hd.
    + apply (calls_alter _ _ _ _ _ _ _ _ _ _ _ k Hk). unfold impl_calls. cbn. rewrite Hd. solve_Permutation.
    + apply (calls_alter _ _ _ _ _ _ _ _ _ _ _ k Hk). unfold impl_calls. cbn. rewrite Hd, fmap_app, concat_app. cbn. rewrite app_nil_r. solve_Permutation.
  - pose proof (i_tasks _ Hi (Task_finish a) ltac:(by left)) as [r Hr]. unfold result_of in Hr. cbn in Hr.
    destruct (l !! a) as [k |] eqn:Hk; [| done]. destruct (d_done k) eqn:Hd; [| done]. exists []. cbn [app].
    apply (calls_alter _ _ _ _ _ _ _ _ _ _ _ k Hk). unfold impl_calls. cbn. rewrite Hd, omap_app. cbn. solve_Permutation.
  - pose proof (i_tasks _ Hi (Task_unlock a) ltac:(by left)) as [r Hr]. unfold result_of in Hr. cbn in Hr.
    destruct (l !! a) as [k |] eqn:Hk; [| done]. exists []. cbn [app].
    by apply (calls_alter _ _ _ _ _ _ _ _ _ _ _ k Hk).
  - exists []. cbn [app]. cbn [impls s]. destruct (l !! b) as [k |] eqn:Hk; [| by rewrite Hpop]. destruct (i_locked k); [by rewrite Hpop |].
    by apply (calls_alter _ _ _ _ _ _ _ _ _ _ _ k Hk).
Qed.

Lemma destroy_calls i s : impl_alive s i = true → ∃ dropped, calls s ≡ₚ dropped ++ calls (destroy i s).
Proof using.
  intros Ha. destruct (destroy_spec i s Ha) as (tr' & -> & Htr). unfold impl_alive in Ha. destruct s as [l h ts st tr]. cbn in *.
  destruct (l !! i) as [k |] eqn:Hk; [| done]. exists (impl_calls k).
  assert (omap called_id tr' = omap called_id tr) as Heq by (destruct Htr as [-> | [u ->]]; [done | rewrite omap_app; cbn; by rewrite app_nil_r]).
  unfold calls, called. cbn. rewrite Heq. pose proof (concat_alter impl_calls dead_impl l i k Hk) as Hc.
  assert (impl_calls (dead_impl k) = []) as Hz by (unfold impl_calls; cbn; by destruct (d_done k)). rewrite Hz in Hc. cbn in Hc.
  rewrite <- Hc. solve_Permutation.
Qed.

(** *** What tasks leave alone *)

Definition cancelled_id (e : FutureEvent) : option Id := match e with Ev_cancelled a _ => Some a | _ => None end.

Record frames (s s' : Futures) : Prop := {
  fr_fwd a k : impls s !! a = Some k → ∃ k', impls s' !! a = Some k' ∧ i_origin k' = i_origin k ∧ i_alive k' = i_alive k ∧
    (i_alive k = false → d_done k' = d_done k);
  fr_back a k' : impls s' !! a = Some k' → is_Some (impls s !! a) ∨ i_alive k' = true;
  fr_trace : ∃ new, trace s' = trace s ++ new ∧ ∀ e, e ∈ new → cancelled_id e = None;
}.

Lemma frames_refl s s' : impls s' = impls s → trace s' = trace s → frames s s'.
Proof using.
  intros Hi Ht. split; [| | exists []; split; [by rewrite app_nil_r | by intros e []%elem_of_nil]]; rewrite Hi.
  - intros a k Hk. exists k. done.
  - intros a k' Hk'. left. eauto.
Qed.

Lemma frames_trans s1 s2 s3 : frames s1 s2 → frames s2 s3 → frames s1 s3.
Proof using.
  intros [F1 B1 (n1 & T1 & N1)] [F2 B2 (n2 & T2 & N2)]. split.
  - intros a k Hk. destruct (F1 a k Hk) as (k' & Hk' & Ho & Ha & Hd). destruct (F2 a k' Hk') as (k2 & Hk2 & Ho2 & Ha2 & Hd2).
    exists k2. split; [done |]. split; [congruence |]. split; [congruence |]. intros H. rewrite Hd2 by congruence. by apply Hd.
  - intros a k3 Hk3. destruct (B2 a k3 Hk3) as [[k2 Hk2] | ?]; [| by right]. destruct (B1 a k2 Hk2) as [? | Ha]; [by left |].
    destruct (F2 a k2 Hk2) as (k3' & Hk3' & _ & Ha' & _). right. congruence.
  - exists (n1 ++ n2). rewrite T2, T1, <- app_assoc. split; [done |]. intros e [?|?]%elem_of_app; auto.
Qed.

Lemma frames_update i f s :
  (∀ k, impls s !! i = Some k → i_origin (f k) = i_origin k ∧ i_alive (f k) = i_alive k ∧ (i_alive k = false → d_done (f k) = d_done k)) →
  frames s (update i f s).
Proof using.
  intros Hf. split; [| | exists []; split; [by rewrite app_nil_r | by intros e []%elem_of_nil]].
  - intros a k Hk. rewrite update_lookup. destruct (decide (i = a)) as [-> |]; [exists (f k); rewrite Hk; split; [done | by apply Hf] | exists k; done].
  - intros a k' Hk'. rewrite update_lookup in Hk'. left. destruct (decide (i = a)); [destruct (impls s !! a); [eauto | done] | eauto].
Qed.

Lemma frames_new done r c o s : frames s (new_impl done r c o s).
Proof using.
  split; [| | exists []; split; [by rewrite app_nil_r | by intros e []%elem_of_nil]].
  - intros a k Hk. exists k. split; [cbn; by apply lookup_app_l_Some | done].
  - intros a k' Hk'. rewrite new_lookup in Hk'. destruct (decide (a = fresh s)); [right; by simplify_eq | left; eauto].
Qed.

Lemma frames_emit e s : cancelled_id e = None → frames s (emit e s).
Proof using.
  intros He. split; [| | exists [e]; split; [done | by intros e' ->%list_elem_of_singleton]].
  - intros a k Hk. exists k. done.
  - intros a k' Hk'. left. eauto.
Qed.

Lemma exec_frames t s : frames s (exec t s).
Proof using.
  assert (∀ s s', impls s' = impls s → trace s' = trace s → frames s s') as Hsame by apply frames_refl.
  destruct t as [b r | a [b f | b g cap | d b] r | a e | a | a | b c d]; cbn [exec].
  - unfold Impl_made. destruct (impls s !! b) as [k |] eqn:Hk; [| by apply Hsame]. destruct (i_alive k) eqn:Ha; cbn [negb]; [| by apply Hsame].
    destruct (i_locked k); [by apply Hsame |]. eapply frames_trans; [apply (frames_update b (resolve_impl r)) | by apply Hsame].
    intros k' Hk'. simplify_eq. split_and!; [done | done | congruence].
  - eapply frames_trans; [by apply (frames_emit (Ev_continued b r)) | by apply Hsame].
  - destruct (impl_alive s b); [| by apply Hsame]. unfold futureConverter.
    assert (frames s (generate cap (g r) s).2) as Hg.
    { destruct (g r) as [i | r' | u]; cbn [generate]; [destruct (cap !! i); [by apply Hsame |] | |]; apply frames_new. }
    destruct (generate cap (g r) s) as [c s1]. cbn [snd] in Hg. eapply frames_trans; [exact Hg |].
    eapply frames_trans; [by apply (frames_emit (Ev_generated b r c)) |].
    eapply frames_trans; [apply (frames_new false Result_null (Cancel_extends c) (Origin_wrapper c b)) | by apply Hsame].
  - by apply Hsame.
  - unfold addChain. destruct (impls s !! a) as [k |] eqn:Hk; [| by apply Hsame]. destruct (i_locked k); [by apply Hsame |].
    destruct (d_done k).
    + eapply frames_trans; [by apply (frames_update a lock_impl) | by apply Hsame].
    + by apply frames_update.
  - eapply frames_trans; [by apply (frames_update a finish_impl) | by apply frames_emit].
  - by apply frames_update.
  - destruct (impls s !! b) as [k |]; [| by apply Hsame]. destruct (i_locked k); [by apply Hsame | by apply frames_update].
Qed.

Lemma begin_frames o s : frames s (begin o s).
Proof using.
  assert (∀ s s', impls s' = impls s → trace s' = trace s → frames s s') as Hsame by apply frames_refl.
  destruct o as [r | u | a r | a f | a g cap | a | a]; cbn [begin].
  - eapply frames_trans; [| apply frames_new]. by apply Hsame.
  - eapply frames_trans; [| apply frames_new]. by apply Hsame.
  - by apply Hsame.
  - destruct (bool_decide _); [| by apply Hsame].
    eapply frames_trans; [by apply (Hsame s (set_handles s (fresh s :: handles s))) |]. eapply frames_trans; [apply frames_new | by apply Hsame].
  - destruct (_ && _); [| by apply Hsame].
    eapply frames_trans; [by apply (Hsame s (set_handles s (fresh s :: handles s))) |]. eapply frames_trans; [apply frames_new | by apply Hsame].
  - destruct (bool_decide _); by apply Hsame.
  - by apply Hsame.
Qed.

(** *** Invariants of all runs *)

Lemma NoDup_snoc_id (l : list Id) x : NoDup l → x ∉ l → NoDup (l ++ [x]).
Proof using. intros Hl Hx. apply NoDup_app. split_and!; [done | by intros y Hy ->%list_elem_of_singleton | apply NoDup_singleton]. Qed.

Definition once (s : Futures) : Prop := NoDup (calls s) ∧ ∀ b, b ∈ calls s → is_Some (impls s !! b).

Lemma once_step s s' dropped :
  calls s ≡ₚ dropped ++ calls s' → (∀ a, is_Some (impls s !! a) → is_Some (impls s' !! a)) → once s → once s'.
Proof using.
  intros Hp Hf [Hn Hb]. rewrite Hp in Hn. apply NoDup_app in Hn as (_ & _ & Hn). split; [done |].
  intros b Hin. apply Hf, Hb. rewrite Hp. apply elem_of_app. by right.
Qed.

Lemma frames_some s s' a : frames s s' → is_Some (impls s !! a) → is_Some (impls s' !! a).
Proof using. intros Hf [k Hk]. destruct (fr_fwd _ _ Hf a k Hk) as (k' & Hk' & _). eauto. Qed.

Definition cancel_events_ok (s : Futures) : Prop :=
  NoDup (omap cancelled_id (trace s)) ∧
  ∀ a u, Ev_cancelled a u ∈ trace s ↔
    ∃ k, impls s !! a = Some k ∧ i_origin k = Origin_make (Some u) ∧ i_alive k = false ∧ d_done k = false.

Lemma cancel_frames s s' : frames s s' → cancel_events_ok s → cancel_events_ok s'.
Proof using.
  intros [Hf Hb (new & Ht & Hn)] [Hnd Hc].
  assert (omap cancelled_id new = []) as Hnew.
  { clear -Hn. induction new as [| e new IH]; [done |]. cbn. rewrite Hn by (by left). apply IH. intros e' He'. apply Hn. by right. }
  split; [by rewrite Ht, omap_app, Hnew, app_nil_r |]. intros a u. rewrite Ht, elem_of_app.
  assert (Ev_cancelled a u ∉ new) as Hno by (intros Hin; by specialize (Hn _ Hin)). split.
  - intros [Hin | ?]; [| done]. apply Hc in Hin as (k & Hk & Ho & Ha & Hd). destruct (Hf a k Hk) as (k' & Hk' & Ho' & Ha' & Hd').
    exists k'. split_and!; [done | congruence | congruence | rewrite Hd'; done].
  - intros (k' & Hk' & Ho & Ha & Hd). left. apply Hc. destruct (Hb a k' Hk') as [[k Hk] | ?]; [| congruence].
    destruct (Hf a k Hk) as (k2 & Hk2 & Ho2 & Ha2 & Hd2). simplify_eq. exists k.
    assert (i_alive k = false) as Hak by congruence. split_and!; [done | congruence | done | rewrite <- Hd2; done].
Qed.

Lemma destroy_cancels i s : Inv s → impl_alive s i = true → cancel_events_ok s → cancel_events_ok (destroy i s).
Proof using.
  intros Hi Ha [Hnd Hc]. unfold impl_alive in Ha. destruct (impls s !! i) as [k |] eqn:Hk; [| done].
  pose proof (i_cancel _ Hi i k Hk Ha) as Hcan.
  assert (∀ s', impls s' = alter dead_impl i (impls s) →
    (trace s' = trace s ∧ (∀ u, i_origin k = Origin_make (Some u) → d_done k = true)) ∨
    (∃ u, trace s' = trace s ++ [Ev_cancelled i u] ∧ i_origin k = Origin_make (Some u) ∧ d_done k = false) →
    cancel_events_ok s') as Hgoal.
  { intros s' Hi' Ht. assert (∀ u, Ev_cancelled i u ∉ trace s) as Hno.
    { intros u Hin. apply Hc in Hin as (k' & Hk' & _ & Ha' & _). congruence. }
    assert (∀ a, a ≠ i → impls s' !! a = impls s !! a) as Hold by (intros a Hai; rewrite Hi'; by rewrite list_lookup_alter_ne).
    assert (impls s' !! i = Some (dead_impl k)) as Hnew by (rewrite Hi', list_lookup_alter_eq, Hk; done).
    split.
    - destruct Ht as [[-> _] | (u & -> & _)]; [done |]. rewrite omap_app. apply NoDup_snoc_id; [done |].
      intros (e & He & Hid)%list_elem_of_omap. destruct e; cbn in Hid; simplify_eq. by eapply Hno.
    - intros a u. destruct (decide (a = i)) as [-> | Hai].
      + rewrite Hnew. split.
        * intros Hin. destruct Ht as [[Ht _] | (u' & Ht & Ho & Hd)]; rewrite Ht in Hin; [by destruct (Hno u) |].
          apply elem_of_app in Hin as [Hin | Hin]; [by destruct (Hno u) |]. apply list_elem_of_singleton in Hin as [= ->].
          by exists (dead_impl k).
        * intros (k' & Hk' & Ho & _ & Hd). simplify_eq. cbn in Ho, Hd. destruct Ht as [[_ Ht] | (u' & Ht & Ho' & _)].
          -- by rewrite (Ht u Ho) in Hd.
          -- rewrite Ht. apply elem_of_app. right. rewrite Ho in Ho'. simplify_eq. by left.
      + rewrite Hold by done. rewrite <- Hc. destruct Ht as [[-> _] | (u' & -> & _)]; [done |].
        rewrite elem_of_app, list_elem_of_singleton. split; [intros [? | [= -> _]]; done | by left]. }
  unfold destroy. rewrite Hk. unfold cancel_ok in Hcan. destruct (d_cancelFunc k) as [| u | p] eqn:Hdc.
  - apply Hgoal; [done |]. left. split; [done |]. intros u Hu. rewrite Hu in Hcan. done.
  - assert (i_origin k = Origin_make (Some u)) as Ho.
    { destruct (i_origin k) as [[u' |] | | |]; cbn in Hcan; try done; [by simplify_eq | by destruct Hcan]. }
    destruct (d_done k) eqn:Hd.
    + apply Hgoal; [done |]. left. done.
    + apply Hgoal; [done |]. right. by exists u.
  - apply Hgoal; [done |]. left. split; [done |]. intros u Hu. rewrite Hu in Hcan. done.
Qed.

Lemma sweep_loop_keeps n : ∀ s, Inv s → once s → cancel_events_ok s → once (sweep_loop n s) ∧ cancel_events_ok (sweep_loop n s).
Proof using.
  induction n as [| n IH]; intros s Hi Ho Hc; cbn; [done |]. destruct (unowned s) as [i |] eqn:Hu; [| done].
  destruct (unowned_spec _ _ Hu) as [Ha Hno]. apply IH; [by apply destroy_inv | | by apply destroy_cancels].
  destruct (destroy_calls i s Ha) as [dr Hdr]. apply (once_step s _ dr); [done | | done]. intros a [k Hk].
  destruct (destroy_spec i s Ha) as (tr' & -> & _). cbn. destruct (decide (i = a)) as [-> |].
  - rewrite list_lookup_alter_eq, Hk. eauto.
  - rewrite list_lookup_alter_ne by done. eauto.
Qed.

Lemma begin_once o s : once s → once (begin o s).
Proof using.
  intros Ho. pose proof (begin_frames o s) as Hf.
  assert (calls (begin o s) ≡ₚ calls s ∨ calls (begin o s) ≡ₚ fresh s :: calls s ∧ is_Some (impls (begin o s) !! fresh s)) as [Hp | [Hp Hfr]].
  { destruct o as [r | u | a r | a f | a g cap | a | a]; cbn [begin].
    - left. unfold calls. cbn. by rewrite calls_new.
    - left. unfold calls. cbn. by rewrite calls_new.
    - by left.
    - destruct (bool_decide _); [right | by left]. split; [| cbn; unfold fresh; rewrite lookup_app_r, Nat.sub_diag by done; cbn; eauto].
      unfold calls. cbn. rewrite calls_new by done. solve_Permutation.
    - destruct (_ && _); [right | by left]. split; [| cbn; unfold fresh; rewrite lookup_app_r, Nat.sub_diag by done; cbn; eauto].
      unfold calls. cbn. rewrite calls_new by done. solve_Permutation.
    - destruct (bool_decide _); by left.
    - by left. }
  - apply (once_step s _ []); [by rewrite Hp | intros a; by apply frames_some | done].
  - destruct Ho as [Hn Hb]. split.
    + rewrite Hp. constructor; [| done]. intros Hin. destruct (Hb _ Hin) as [k Hk]. by rewrite fresh_None in Hk.
    + intros b Hin. rewrite Hp in Hin. apply elem_of_cons in Hin as [-> | Hin]; [done |]. by eapply frames_some, Hb.
Qed.

Lemma reachable_keeps s : reachable s → stuck s = None → once s ∧ cancel_events_ok s.
Proof using.
  intros Hr. induction Hr as [| s o Hr IH Ht Hst Ho | s Hr IH]; intros Hs.
  - split; split; cbn; try constructor; try by intros ? []%elem_of_nil.
    + intros []%elem_of_nil.
    + intros (k & Hk & _). done.
  - destruct (IH Hst) as [H1 H2]. apply sweep_loop_keeps.
    + apply begin_inv; [by apply reachable_inv | done..].
    + by apply begin_once.
    + eapply cancel_frames; [apply begin_frames | done].
  - destruct (stuck s) as [d |] eqn:He; [rewrite (step_stuck s d He) in Hs; congruence |]. destruct (IH eq_refl) as [H1 H2].
    pose proof (reachable_inv s Hr He) as Hi. pose proof (step_runs s He Hs) as Heq. rewrite Heq in *. clear Heq. destruct s as [l h ts st tr]. cbn in He. subst st.
    cbn [stuck tasks] in *. destruct ts as [| t ts]; [done |].
    unfold pop in *. cbn [impls handles tasks stuck trace tail] in *.
    destruct (sweep_same (exec t (mkFutures l h ts None tr))) as (_ & _ & Hsw & _). rewrite Hsw in Hs.
    pose proof (exec_frames t (mkFutures l h ts None tr)) as Hf. apply sweep_loop_keeps.
    + by apply (exec_inv t l h ts tr Hi).
    + destruct (exec_calls t l h ts tr Hi) as [dr Hdr]. apply (once_step _ _ dr Hdr); [| done]. intros a Ha. by apply (frames_some _ _ _ Hf).
    + by apply (cancel_frames _ _ Hf).
Qed.

(** *** Nothing unowned is left *)

Definition living (s : Futures) : nat := sum_list ((λ k, if i_alive k then 1 else 0) <$> impls s).

Lemma unowned_None s : unowned s = None → ∀ i, impl_alive s i = true → i ∈ owned s.
Proof using.
  unfold unowned. intros H i Hi. destruct (decide (i ∈ owned s)) as [| Hno]; [done |].
  assert (i ∈ filter (λ i, impl_alive s i = true ∧ i ∉ owned s) (seq 0 (length (impls s)))) as Hin.
  { apply list_elem_of_filter. split; [done |]. apply elem_of_seq. split; [lia |]. unfold impl_alive in Hi.
    destruct (impls s !! i) eqn:Hk; [| done]. apply lookup_lt_Some in Hk. cbn. lia. }
  destruct (filter _ _); [by apply elem_of_nil in Hin | done].
Qed.

Lemma sweep_loop_complete n : ∀ s, living s ≤ n → unowned (sweep_loop n s) = None.
Proof using.
  induction n as [| n IH]; intros s Hn; cbn.
  - destruct (unowned s) as [i |] eqn:Hu; [| done]. destruct (unowned_spec _ _ Hu) as [Ha _]. unfold impl_alive in Ha.
    destruct (impls s !! i) as [k |] eqn:Hk; [| done]. unfold living in Hn.
    pose proof (sum_alter (λ k, if i_alive k then 1 else 0) dead_impl _ _ _ Hk) as Hsum. cbn in Hsum. rewrite Ha in Hsum. lia.
  - destruct (unowned s) as [i |] eqn:Hu; [| done]. apply IH. destruct (unowned_spec _ _ Hu) as [Ha _].
    destruct (destroy_spec i s Ha) as (tr' & -> & _). unfold impl_alive in Ha. destruct (impls s !! i) as [k |] eqn:Hk; [| done].
    unfold living in *. pose proof (sum_alter (λ k, if i_alive k then 1 else 0) dead_impl _ _ _ Hk) as Hsum. cbn in *. rewrite Ha in Hsum. lia.
Qed.

Lemma sweep_complete s i : impl_alive (sweep s) i = true → i ∈ owned (sweep s).
Proof using.
  apply unowned_None. unfold sweep. apply sweep_loop_complete. unfold living.
  induction (impls s) as [| k l IH]; cbn; [done |]. unfold id in *. destruct (i_alive k); lia.
Qed.

Lemma reachable_owned s i : reachable s → stuck s = None → impl_alive s i = true → i ∈ owned s.
Proof using.
  intros Hr. induction Hr as [| s o Hr IH Ht Hst Ho | s Hr IH]; intros Hs Ha.
  - done.
  - by apply sweep_complete.
  - destruct (stuck s) as [d |] eqn:He; [rewrite (step_stuck s d He) in Hs; congruence |].
    pose proof (step_runs s He Hs) as Heq. rewrite Heq in *. clear Heq. destruct (tasks s) as [| t ts]; [by apply IH |]. by apply sweep_complete.
Qed.

(** *** The call of the application at the bottom of the stack *)

Definition inner_addChain (ts : list Task) : Prop :=
  ∀ a e, Task_addChain a e ∈ ts → ∃ d b, e = Chain_makerWrapper d b.

Definition calls_shape (ts : list Task) : Prop := (∃ a e, ts = [Task_addChain a e]) ∨ inner_addChain ts.

Lemma exec_shape t l h ts tr : calls_shape (t :: ts) → calls_shape (tasks (exec t (mkFutures l h ts None tr))).
Proof using.
  intros Hsh. assert (inner_addChain ts) as Hts.
  { destruct Hsh as [(a & e & [= -> ->]) | Hin]; [intros a' e' []%elem_of_nil | intros a' e' H; apply (Hin a'); by right]. }
  assert (∀ new, (∀ a e, Task_addChain a e ∈ new → ∃ d b, e = Chain_makerWrapper d b) → inner_addChain (new ++ ts)) as Happ.
  { intros new Hn a e [H | H]%elem_of_app; [by apply (Hn a) | by apply (Hts a)]. }
  right. destruct t as [b r | a [b f | b g cap | d b] r | a e | a | a | b c d]; cbn [exec].
  - unfold Impl_made. cbn [impls]. destruct (l !! b) as [k |]; [| done]. destruct (negb _); [done |]. destruct (i_locked k); [done |].
    cbn. apply Happ. intros a e [H | H]%elem_of_app; [apply list_elem_of_fmap in H as (? & ? & _); done | by apply list_elem_of_singleton in H].
  - cbn. apply (Happ [_]). by intros ? ? ?%list_elem_of_singleton.
  - destruct (impl_alive _ b); [| done]. unfold futureConverter.
    assert (tasks (generate cap (g r) (mkFutures l h ts None tr)).2 = ts) as H2.
    { destruct (g r) as [i | r' | u]; cbn [generate]; [destruct (cap !! i) as [c |] | |]; done. }
    destruct (generate cap (g r) _) as [c s1]. cbn [snd] in H2. cbn. rewrite H2. apply (Happ [_; _]).
    intros a' e [H | H]%elem_of_cons; [simplify_eq; eauto | by apply list_elem_of_singleton in H].
  - cbn. apply (Happ [_; _]). intros a' e [H | H]%elem_of_cons; [done | by apply list_elem_of_singleton in H].
  - unfold addChain. cbn [impls]. destruct (l !! a) as [k |]; [| done]. destruct (i_locked k); [done |]. destruct (d_done k); [| done].
    cbn. apply (Happ [_; _]). intros a' e' [H | H]%elem_of_cons; [done | by apply list_elem_of_singleton in H].
  - done.
  - done.
  - cbn. destruct (l !! b) as [k |]; [| done]. by destruct (i_locked k).
Qed.

Lemma reachable_shape s : reachable s → stuck s = None → calls_shape (tasks s).
Proof using.
  intros Hr. induction Hr as [| s o Hr IH Ht Hst Ho | s Hr IH]; intros Hs.
  - right. by intros a e []%elem_of_nil.
  - destruct (sweep_same (begin o s)) as (_ & -> & _). assert (inner_addChain []) as Hnil by (by intros a e []%elem_of_nil).
    destruct o as [r | u | a r | a f | a g cap | a | a]; cbn [begin]; cbn; rewrite ?Ht; try by right.
    + right. by intros ? ? ?%list_elem_of_singleton.
    + destruct (bool_decide _); cbn; rewrite Ht; [left; eauto | by right].
    + destruct (_ && _); cbn; rewrite Ht; [left; eauto | by right].
    + destruct (bool_decide _); cbn; rewrite Ht; by right.
  - destruct (stuck s) as [d |] eqn:He; [rewrite (step_stuck s d He) in Hs; congruence |]. pose proof (step_runs s He Hs) as Heq. rewrite Heq in *. clear Heq.
    destruct s as [l h ts st tr]. cbn [stuck tasks] in *. subst st. destruct ts as [| t ts]; [by apply IH |].
    unfold pop in *. cbn [impls handles tasks stuck trace tail] in *.
    destruct (sweep_same (exec t (mkFutures l h ts None tr))) as (_ & -> & _). by apply exec_shape, IH.
Qed.

(** *** What the futures at rest say *)

Section Rest.
Context (s : Futures) (Hr : reachable s) (Ht : tasks s = []) (Hst : stuck s = None).

Lemma rest_extends j kj p :
  impls s !! j = Some kj → i_alive kj = true → d_cancelFunc kj = Cancel_extends p → impl_alive s p = true.
Proof using Hr Hst.
  intros Hj Haj Hp. apply (owns_alive s j kj p (reachable_inv s Hr Hst) Hj). unfold impl_owns. rewrite Haj, Hp. by left.
Qed.

Lemma rest_undone x kx : impls s !! x = Some kx → d_done kx = false → result_of s x = None.
Proof using. intros Hx Hdx. unfold result_of. by rewrite Hx, Hdx. Qed.

(** An unresolved derived future waits in some chain. *)
Lemma rest_waits b k :
  impls s !! b = Some k → i_alive k = true → result_of s b = None → (∀ u, i_origin k ≠ Origin_make u) →
  ∃ x kx e, impls s !! x = Some kx ∧ d_done kx = false ∧ e ∈ d_chain kx ∧ b ∈ entry_targets e ∧ entry_ok s x e.
Proof using Hr Ht Hst.
  intros Hk Ha Hres Hne. pose proof (reachable_inv s Hr Hst) as Hi.
  assert (d_done k = false) as Hd by (unfold result_of in Hres; rewrite Hk in Hres; by destruct (d_done k)).
  pose proof (i_awaited _ Hi b k Hk Ha Hd Hne) as Hin. unfold targets in Hin. rewrite Ht in Hin. cbn in Hin.
  apply elem_concat_fmap in Hin as (kx & Hkx & Hin). apply list_elem_of_lookup in Hkx as [x Hx]. unfold impl_targets in Hin.
  destruct (d_done kx) eqn:Hdx; [by apply elem_of_nil in Hin |]. apply elem_concat_fmap in Hin as (e & He & Hin).
  exists x, kx, e. split_and!; try done. apply (i_entries _ Hi). left. eauto.
Qed.

Lemma rest_then b k a f :
  impls s !! b = Some k → i_alive k = true → i_origin k = Origin_then a f →
  impl_alive s a = true ∧ result_of s b = f <$> result_of s a ∧
  (result_of s a = None → ∃ ka, impls s !! a = Some ka ∧ Chain_converter b f ∈ d_chain ka).
Proof using Hr Ht Hst.
  intros Hk Ha Hor. pose proof (reachable_inv s Hr Hst) as Hi.
  assert (origin_of s b = Some (Origin_then a f)) as Ho by (unfold origin_of; rewrite Hk; cbn; by rewrite Hor).
  pose proof (i_cancel _ Hi b k Hk Ha) as Hcan. unfold cancel_ok in Hcan. rewrite Hor in Hcan.
  split; [by eapply rest_extends |]. destruct (result_of s b) as [rb |] eqn:Hrb.
  - pose proof (i_values _ Hi b rb Hrb) as Hv. unfold value_ok in Hv. rewrite Ho in Hv. destruct Hv as (ra & -> & ->). done.
  - destruct (rest_waits b k Hk Ha Hrb) as (x & kx & e & Hx & Hdx & He & Hin & Hok); [intros u; congruence |].
    destruct e as [b0 f0 | b0 g0 cap0 | d b0]; cbn in Hin, Hok.
    + apply list_elem_of_singleton in Hin as ->. rewrite Ho in Hok. simplify_eq. rewrite (rest_undone x kx Hx Hdx). split; [done |]. eauto.
    + apply list_elem_of_singleton in Hin as ->. destruct Hok as [Hok _]. congruence.
    + destruct Hok as [Hod _]. apply elem_of_cons in Hin as [-> | ->%list_elem_of_singleton]; [| congruence].
      destruct (i_wrapper _ Hi _ _ _ Hod) as (? & ? & ? & ? & Hb & _). congruence.
Qed.

Lemma rest_thenFuture b k a g captured :
  impls s !! b = Some k → i_alive k = true → i_origin k = Origin_thenFuture a g captured →
  match result_of s a with
  | None => impl_alive s a = true ∧ result_of s b = None ∧
      ∃ ka, impls s !! a = Some ka ∧ Chain_futureConverter b g captured ∈ d_chain ka
  | Some r => ∃ c, Ev_generated b r c ∈ trace s ∧ result_of s b = result_of s c ∧
      (result_of s c = None → impl_alive s c = true ∧
         ∃ kc d, impls s !! c = Some kc ∧ Chain_makerWrapper d b ∈ d_chain kc)
  end.
Proof using Hr Ht Hst.
  intros Hk Ha Hor. pose proof (reachable_inv s Hr Hst) as Hi.
  assert (origin_of s b = Some (Origin_thenFuture a g captured)) as Ho by (unfold origin_of; rewrite Hk; cbn; by rewrite Hor).
  assert (impl_alive s b = true) as Hba by (unfold impl_alive; by rewrite Hk).
  destruct (result_of s b) as [rb |] eqn:Hrb.
  - pose proof (i_values _ Hi b rb Hrb) as Hv. unfold value_ok in Hv. rewrite Ho in Hv.
    destruct Hv as (ra & c & -> & Hev & Hc). exists c. by rewrite Hc.
  - destruct (rest_waits b k Hk Ha Hrb) as (x & kx & e & Hx & Hdx & He & Hin & Hok); [intros u; congruence |].
    destruct e as [b0 f0 | b0 g0 cap0 | d b0]; cbn in Hin, Hok.
    + apply list_elem_of_singleton in Hin as ->. congruence.
    + apply list_elem_of_singleton in Hin as ->. destruct Hok as (Hob & Hca & _). rewrite Ho in Hob. simplify_eq.
      rewrite (rest_undone x kx Hx Hdx). split_and!; [| done | eauto]. specialize (Hca Hba). unfold cancel_of_impl in Hca.
      rewrite Hk in Hca. cbn in Hca. injection Hca as Hca. exact (rest_extends b0 k _ Hk Ha Hca).
    + destruct Hok as [Hod Hb]. apply elem_of_cons in Hin as [-> | ->%list_elem_of_singleton]; [| congruence].
      destruct (i_wrapper _ Hi _ _ _ Hod) as (a' & g' & cap' & ra & Hob & Hra & Hev). rewrite Ho in Hob. simplify_eq. rewrite Hra.
      exists x. rewrite (rest_undone x kx Hx Hdx). split_and!; [done | done |]. intros _. split; [| by exists kx, d].
      destruct (Hb Hba) as [Hbind | Hca]; [rewrite Ht in Hbind; by apply elem_of_nil in Hbind |].
      unfold cancel_of_impl in Hca. rewrite Hk in Hca. cbn in Hca. injection Hca as Hca. pose proof (rest_extends b0 k d Hk Ha Hca) as Had.
      unfold impl_alive in Had. destruct (impls s !! d) as [kd |] eqn:Hkd; [| done]. pose proof (i_cancel _ Hi d kd Hkd Had) as Hcd.
      unfold cancel_ok in Hcd. unfold origin_of in Hod. rewrite Hkd in Hod. cbn in Hod. injection Hod as Hod. rewrite Hod in Hcd.
      exact (rest_extends d kd _ Hkd Had Hcd).
Qed.
End Rest.

(** *** From one state to a later one *)

Lemma destroy_extends i s : impl_alive s i = true → extends s (destroy i s).
Proof using.
  intros Ha. destruct (destroy_spec i s Ha) as (tr' & -> & Htr). eapply evolved_trans; [apply (extends_update s i dead_impl) |].
  - intros k _. by split.
  - apply extends_same; [done |]. cbn. intros e He. destruct Htr as [-> | [u ->]]; [done | apply elem_of_app; by left].
Qed.

Lemma sweep_loop_extends n : ∀ s, extends s (sweep_loop n s).
Proof using.
  induction n as [| n IH]; intros s; cbn; [apply evolved_refl |]. destruct (unowned s) as [i |] eqn:Hu; [| apply evolved_refl].
  destruct (unowned_spec _ _ Hu) as [Ha _]. eapply evolved_trans; [by apply destroy_extends | apply IH].
Qed.

Lemma exec_extends t l h ts tr :
  Inv (mkFutures l h (t :: ts) None tr) → extends (mkFutures l h ts None tr) (exec t (mkFutures l h ts None tr)).
Proof using.
  intros Hi. assert (∀ s s', impls s' = impls s → (∀ e, e ∈ trace s → e ∈ trace s') → extends s s') as Hsame by apply extends_same.
  assert (∀ e s, extends s (emit e s)) as Hemit by (intros e s; apply Hsame; [done | intros e' He'; apply elem_of_app; by left]).
  set (s := mkFutures l h ts None tr).
  destruct t as [b r | a [b f | b g cap | d b] r | a e | a | a | b c d]; cbn [exec].
  - destruct (i_targets _ Hi b) as (k & Hk & Hd); [by left |]. cbn in Hk. unfold Impl_made. cbn [impls s]. rewrite Hk.
    destruct (negb _); [apply evolved_refl |]. destruct (i_locked k); [by apply Hsame |].
    eapply evolved_trans; [apply (extends_update s b (resolve_impl r)) | by apply Hsame].
    intros k' Hk'. cbn in Hk'. simplify_eq. split; [done | congruence | done].
  - eapply evolved_trans; [apply (Hemit (Ev_continued b r)) | by apply Hsame].
  - destruct (impl_alive s b); [| apply evolved_refl]. unfold futureConverter.
    assert (extends s (generate cap (g r) s).2) as Hg.
    { destruct (g r) as [i | r' | u]; cbn [generate]; [destruct (cap !! i); [apply evolved_refl |] | |]; apply extends_new. }
    destruct (generate cap (g r) s) as [c s1]. cbn [snd] in Hg. eapply evolved_trans; [exact Hg |].
    eapply evolved_trans; [apply (Hemit (Ev_generated b r c)) |].
    eapply evolved_trans; [apply (extends_new _ false Result_null (Cancel_extends c) (Origin_wrapper c b)) | by apply Hsame].
  - by apply Hsame.
  - unfold addChain. cbn [impls s]. destruct (l !! a) as [k |] eqn:Hk; [| apply evolved_refl]. destruct (i_locked k); [by apply Hsame |].
    destruct (d_done k).
    + eapply evolved_trans; [by apply (extends_update s a lock_impl) | by apply Hsame].
    + by apply extends_update.
  - eapply evolved_trans; [by apply (extends_update s a finish_impl) | apply Hemit].
  - by apply extends_update.
  - cbn [impls s]. destruct (l !! b) as [k |]; [| apply evolved_refl]. destruct (i_locked k); [by apply Hsame |].
    by apply extends_update.
Qed.

Lemma step_extends s : reachable s → extends s (step s).
Proof using.
  intros Hr. unfold step. destruct (stuck s) eqn:Hst; [apply evolved_refl |]. destruct (tasks s) as [| t ts] eqn:Ht; [apply evolved_refl |].
  destruct (callback_blocked t s); [by apply extends_same |].
  pose proof (reachable_inv s Hr Hst) as Hi. destruct s as [l h ts' st tr]. cbn in *. subst ts' st.
  eapply (evolved_trans _ (mkFutures l h ts None tr)); [by apply extends_same |].
  eapply evolved_trans; [by apply exec_extends | apply sweep_loop_extends].
Qed.

Lemma exec_handles t s : handles (exec t s) = handles s.
Proof using.
  destruct t as [b r | a [b f | b g cap | d b] r | a e | a | a | b c d]; cbn [exec]; try done.
  - unfold Impl_made. destruct (impls s !! b) as [k |]; [| done]. destruct (negb _); [done |]. by destruct (i_locked k).
  - destruct (impl_alive s b); [| done]. unfold futureConverter.
    assert (handles (generate cap (g r) s).2 = handles s) as Hg
      by (destruct (g r) as [i | r' | u]; cbn [generate]; [destruct (cap !! i) | |]; done).
    by destruct (generate cap (g r) s) as [c s1].
  - unfold addChain. destruct (impls s !! a) as [k |]; [| done]. destruct (i_locked k); [done |]. by destruct (d_done k).
  - destruct (impls s !! b) as [k |]; [| done]. by destruct (i_locked k).
Qed.

Lemma step_handles s : handles (step s) = handles s.
Proof using.
  unfold step. destruct (stuck s); [done |]. destruct (tasks s) as [| t ts]; [done |]. destruct (callback_blocked t s); [done |].
  destruct (sweep_same (exec t (pop s))) as (-> & _). by rewrite exec_handles.
Qed.

Lemma run_later n : ∀ s, reachable s → extends s (run n s) ∧ handles (run n s) = handles s.
Proof using.
  induction n as [| n IH]; intros s Hr; cbn; [split; [apply evolved_refl | done] |]. destruct (stuck s); [split; [apply evolved_refl | done] |].
  destruct (tasks s); [split; [apply evolved_refl | done] |]. destruct (IH (step s) (reach_step s Hr)) as [He Hh].
  split; [eapply evolved_trans; [by apply step_extends | done] | by rewrite Hh, step_handles].
Qed.

(** Why a call deadlocks: a function returned a future whose continuations are being
    called, or looked at the result of one. *)
Definition deadlock_cause (s : Futures) (d : Deadlock) : Prop :=
  match d with
  | Deadlock_addChain c => is_Some (result_of s c) ∧ ∃ b r, Ev_generated b r c ∈ trace s
  | Deadlock_callback b c =>
      is_Some (result_of s c) ∧ impl_locked s c = true ∧
      ∃ a r, result_of s a = Some r ∧
        ((∃ f, origin_of s b = Some (Origin_then a f) ∧ c ∈ fn_locks f r) ∨
         (∃ g captured, origin_of s b = Some (Origin_thenFuture a g captured) ∧ c ∈ fn_locks g r))
  | _ => False
  end.

Lemma callback_blocked_cause s t ts d :
  Inv s → tasks s = t :: ts → callback_blocked t s = Some d → deadlock_cause (deadlock d (pop s)) d.
Proof using.
  intros Hi Ht Hb. unfold callback_blocked in Hb.
  destruct (task_callback t s) as [[b locks] |] eqn:Hc; [| done].
  destruct (List.find (impl_locked s) locks) as [c |] eqn:Hf; [| done]. injection Hb as <-.
  apply List.find_some in Hf as [Hin Hlk]. pose proof Hlk as Hlk'. unfold impl_locked in Hlk'.
  destruct (impls s !! c) as [k |] eqn:Hk; [| done]. destruct (i_locks s Hi c k Hk Hlk') as [Hd _].
  split; [exists (d_result k); unfold result_of; cbn; by rewrite Hk, Hd |]. split; [exact Hlk |].
  apply list_elem_of_In in Hin. destruct t as [| a [b' f | b' g cap |] r | | | |]; try done; cbn in Hc.
  - injection Hc as -> <-. exists a, r. assert (Task_entry a (Chain_converter b f) r ∈ tasks s) as Hin' by (rewrite Ht; by left).
    split; [exact (i_tasks s Hi _ Hin') |]. left. exists f. split; [| done].
    pose proof (i_entries s Hi a (Chain_converter b f) ltac:(right; right; eexists; exact Hin')) as Ho. exact Ho.
  - destruct (impl_alive s b'); [| done]. injection Hc as -> <-. exists a, r.
    assert (Task_entry a (Chain_futureConverter b g cap) r ∈ tasks s) as Hin' by (rewrite Ht; by left).
    split; [exact (i_tasks s Hi _ Hin') |]. right. exists g, cap. split; [| done].
    pose proof (i_entries s Hi a (Chain_futureConverter b g cap) ltac:(right; right; eexists; exact Hin')) as [Ho _]. exact Ho.
Qed.

Lemma reachable_deadlock s d : reachable s → stuck s = Some d → deadlock_cause s d.
Proof using.
  intros Hr. induction Hr as [| s o Hr IH Ht Hst Ho | s Hr IH]; intros Hs.
  - done.
  - destruct (sweep_same (begin o s)) as (_ & _ & Hsw & _). rewrite Hsw in Hs.
    destruct o as [r | u | a r | a f | a g cap | a | a]; cbn in Hs; try congruence; destruct (bool_decide _); cbn in Hs; try congruence.
    destruct (forallb _ _); cbn in Hs; congruence.
  - destruct (stuck s) as [d' |] eqn:Hst; [rewrite (step_stuck s d' Hst) in *; rewrite Hst in Hs; by apply IH |].
    pose proof (reachable_inv s Hr Hst) as Hi. pose proof (reachable_shape s Hr Hst) as Hsh. pose proof (step_extends s Hr) as He.
    unfold step in Hs, He |- *. rewrite Hst in *. destruct (tasks s) as [| t ts] eqn:Ht; [congruence |].
    destruct (callback_blocked t s) as [d' |] eqn:Hb.
    { cbn in Hs. injection Hs as ->. by eapply callback_blocked_cause. }
    destruct (sweep_same (exec t (pop s))) as (_ & _ & Hsw & _). rewrite Hsw in Hs. clear Hb.
    destruct s as [l h ts' st tr]. cbn in Ht, Hst. subst ts' st. unfold pop in *. cbn [impls handles tasks stuck trace tail] in *.
    destruct (exec_inv t l h ts tr Hi) as [_ Hd]. destruct (Hd d Hs) as (c & e & -> & -> & _ & k & Hk & Hlk).
    destruct (i_locks _ Hi c k Hk Hlk) as [Hdone Hin].
    destruct Hsh as [(a & e' & [= -> -> ->]) | Hin2]; [by apply elem_of_nil in Hin |].
    destruct (Hin2 c e ltac:(by left)) as (d & b & ->).
    pose proof (i_entries _ Hi c (Chain_makerWrapper d b) ltac:(right; left; by left)) as [Hod _].
    destruct (i_wrapper _ Hi _ _ _ Hod) as (a & g & cap & ra & _ & _ & Hev).
    split; [| exists b, ra; by apply (ex_trace _ _ He)]. exists (d_result k).
    apply (result_extends _ _ _ _ He). unfold result_of. cbn. by rewrite Hk, Hdone.
Qed.

(** ** The claims *)

(** C12: Futures are what their continuations make of the futures they come from. In any
    run, between calls: as long as somebody holds [b = a.then(f)], [a] exists, and [b]
    is resolved exactly if [a] is, with [f] of its result (otherwise [f] is waiting in
    [a]'s chain). For [b = a.thenFuture(g)], [b] is unresolved while [a] is, and
    afterwards [g] was called with [a]'s result and [b] has the result of the future it
    returned, which exists as long as it is unresolved. Every such function is called
    at most once. *)
Theorem futures_follow_their_sources s :
  reachable s → tasks s = [] → stuck s = None →
  NoDup (called s) ∧
  ∀ b k, impls s !! b = Some k → i_alive k = true →
    match i_origin k with
    | Origin_then a f =>
        impl_alive s a = true ∧ result_of s b = f <$> result_of s a ∧
        (result_of s a = None → ∃ ka, impls s !! a = Some ka ∧ Chain_converter b f ∈ d_chain ka)
    | Origin_thenFuture a g captured =>
        match result_of s a with
        | None => impl_alive s a = true ∧ result_of s b = None ∧
            ∃ ka, impls s !! a = Some ka ∧ Chain_futureConverter b g captured ∈ d_chain ka
        | Some r => ∃ c, Ev_generated b r c ∈ trace s ∧ result_of s b = result_of s c ∧
            (result_of s c = None → impl_alive s c = true ∧
               ∃ kc d, impls s !! c = Some kc ∧ Chain_makerWrapper d b ∈ d_chain kc)
        end
    | _ => True
    end.
Proof using.
  intros Hr Ht Hst. split.
  - destruct (reachable_keeps s Hr Hst) as [[Hn _] _]. unfold calls in Hn. by apply NoDup_app in Hn as (Hn & _ & _).
  - intros b k Hk Ha. destruct (i_origin k) eqn:Ho; try done; [by eapply rest_then | by eapply rest_thenFuture].
Qed.

(** C14: Every call on a future returns, unless it deadlocks: the tasks it leaves are
    done after [work] steps, whatever continuations it sets off. It deadlocks only when a
    function given to [then] or [thenFuture], called with the result of its source,
    takes the mutex of a future whose continuations are being called at that time (its
    source is one), or when one given to [thenFuture] returns such a future. (The functions
    themselves return; functions that change other futures, or wait for them, while they
    run are not in the model.) *)
Theorem future_calls_return s o :
  reachable s → tasks s = [] → stuck s = None → promise_unused o s →
  let s' := perform o s in
  reachable s' ∧ (tasks s' = [] ∨ is_Some (stuck s')) ∧
  ∀ d, stuck s' = Some d → deadlock_cause s' d.
Proof using.
  intros Hr Ht Hst Ho. cbn zeta. pose proof (perform_reachable o s Hr Ht Hst Ho) as Hp. split; [done |]. split.
  - unfold perform. apply run_finishes; [by apply reach_call | done].
  - intros d Hd. by apply reachable_deadlock.
Qed.

(** A cancel function has been called exactly if its block was destroyed without a result. *)
Lemma cancelled_iff_unresolved s a u :
  reachable s → stuck s = None →
  Ev_cancelled a u ∈ trace s ↔
    ∃ k, impls s !! a = Some k ∧ i_origin k = Origin_make (Some u) ∧ i_alive k = false ∧ d_done k = false.
Proof using. intros Hr Hst. destruct (reachable_keeps s Hr Hst) as [_ [_ H2]]. apply H2. Qed.

(** C15: Control blocks are counted exactly: at any time in any run a block is alive if
    and only if something owns it (a future in the application's hands, a future derived
    from it, a function that captured it, or a call in progress). A cancel function is
    called at most once, only when its block has been destroyed, and it has been called if
    the block was destroyed while its promise was still open, so that no operation
    somebody gave up goes on unnoticed. *)
Theorem abandoned_operations_cancelled s :
  reachable s → stuck s = None →
  (∀ i, impl_alive s i = true ↔ i ∈ owned s) ∧
  NoDup (omap cancelled_id (trace s)) ∧
  (∀ a u, Ev_cancelled a u ∈ trace s → impl_alive s a = false ∧ origin_of s a = Some (Origin_make (Some u))) ∧
  (∀ a u, origin_of s a = Some (Origin_make (Some u)) → impl_alive s a = false → result_of s a = None →
     Ev_cancelled a u ∈ trace s).
Proof using.
  intros Hr Hst. destruct (reachable_keeps s Hr Hst) as [_ [H1 _]]. split_and!; [| done | |].
  - intros i. split; [by apply reachable_owned | by apply (i_owned s (reachable_inv s Hr Hst))].
  - intros a u (k & Hk & Ho & Ha & _)%(cancelled_iff_unresolved s a u Hr Hst). unfold impl_alive, origin_of. by rewrite Hk, <- Ho.
  - intros a u Ho Ha Hn. apply (cancelled_iff_unresolved s a u Hr Hst). unfold origin_of, impl_alive, result_of in *.
    destruct (impls s !! a) as [k |]; [| done]. exists k. cbn in Ho. split_and!; [done | congruence | done | by destruct (d_done k)].
Qed.

(** [b] is derived from [a] by calls of [then]; the functions composed. *)
Inductive derives (s : Futures) (a : Id) : Id → (Result → Result) → Prop :=
| derives_self : derives s a a (λ r, r)
| derives_then b F c kc f :
    derives s a b F → impls s !! c = Some kc → i_origin kc = Origin_then b f → derives s a c (λ r, f (F r)).

Lemma derives_alive s a b F :
  reachable s → tasks s = [] → stuck s = None → derives s a b F → impl_alive s b = true → impl_alive s a = true.
Proof using.
  intros Hr Ht Hst Hd. induction Hd as [| b F c kc f Hd IH Hc Ho]; intros Hal; [done |]. apply IH.
  unfold impl_alive in Hal. rewrite Hc in Hal. by eapply (rest_then s Hr Ht Hst c kc b f).
Qed.

Lemma derives_value s s' a b F r :
  reachable s' → tasks s' = [] → stuck s' = None → extends s s' → derives s a b F →
  impl_alive s' b = true → result_of s' a = Some r → result_of s' b = Some (F r).
Proof using.
  intros Hr Ht Hst He Hd. induction Hd as [| b F c kc f Hd IH Hc Ho]; intros Hal Hres; [done |].
  destruct (ex_impls _ _ He c kc Hc) as (kc' & Hc' & [Ho' _ _]). unfold impl_alive in Hal. rewrite Hc' in Hal.
  destruct (rest_then s' Hr Ht Hst c kc' b f Hc' Hal ltac:(congruence)) as (Hb & -> & _). by rewrite (IH Hb Hres).
Qed.

(** What a call of a promise does, unless it deadlocks. *)
Lemma perform_resolve s a r :
  reachable s → tasks s = [] → stuck s = None → promise_unused (Op_resolve a r) s → impl_alive s a = true →
  let s' := perform (Op_resolve a r) s in
  reachable s' ∧ extends s s' ∧ handles s' = handles s ∧ (stuck s' = None → tasks s' = [] ∧ result_of s' a = Some r).
Proof using.
  intros Hr Ht Hst Ho Haa. cbn zeta. pose proof (reachable_inv s Hr Hst) as Hi.
  pose proof (perform_reachable _ s Hr Ht Hst Ho) as Hr'.
  assert (stuck (perform (Op_resolve a r) s) = None → tasks (perform (Op_resolve a r) s) = []) as Ht'.
  { intros Hst'. destruct (run_finishes (work (sweep (begin (Op_resolve a r) s))) _ (reach_call s _ Hr Ht Hst Ho) ltac:(done)) as [H | [d H]]; [done |].
    unfold perform in Hst'. congruence. }
  set (s0 := push [Task_made a r] s) in *.
  assert (sweep s0 = s0) as Hs0.
  { assert (unowned s0 = None) as Hu.
    { destruct (unowned s0) as [i |] eqn:Hu; [| done]. destruct (unowned_spec _ _ Hu) as [Hai Hni]. destruct Hni.
      exact (reachable_owned s i Hr Hst Hai). }
    unfold sweep. destruct (length (impls s0)); cbn; [done | by rewrite Hu]. }
  pose proof (reach_call s (Op_resolve a r) Hr Ht Hst Ho) as Hr0. cbn [begin] in Hr0. fold s0 in Hr0. rewrite Hs0 in Hr0.
  unfold perform in Hr', Ht' |- *. cbn [begin] in Hr', Ht' |- *. fold s0 in Hr', Ht' |- *. rewrite Hs0 in Hr', Ht' |- *.
  destruct (work s0) as [| n] eqn:Hw; [unfold work in Hw; cbn in Hw; lia |].
  cbn [run] in Hr', Ht' |- *. assert (stuck s0 = None) as Hst0 by done. assert (tasks s0 = Task_made a r :: []) as Ht0 by (cbn; by rewrite Ht).
  rewrite Hst0, Ht0 in Hr', Ht' |- *. pose proof (step_extends s0 Hr0) as He0. pose proof (reach_step s0 Hr0) as Hr1.
  destruct (run_later n (step s0) Hr1) as [He1 Hh1]. rewrite step_handles in Hh1.
  split; [done |]. split; [| split; [done |]].
  { eapply (evolved_trans _ s0); [by apply extends_same |]. by eapply evolved_trans. }
  intros Hst'. split; [by apply Ht' |]. apply (result_extends (step s0)); [done |].
  unfold step. rewrite Hst0, Ht0. cbn [callback_blocked task_callback]. apply (result_extends (exec (Task_made a r) (pop s0))); [apply sweep_loop_extends |].
  cbn [exec]. unfold Impl_made. unfold impl_alive in Haa. cbn [impls pop s0 push]. destruct (impls s !! a) as [k |] eqn:Hk; [| done].
  rewrite Haa. cbn [negb]. destruct (i_locked k) eqn:Hlk.
  { destruct (i_locks _ Hi a k Hk Hlk) as [_ Hin]. rewrite Ht in Hin. by apply elem_of_nil in Hin. }
  unfold result_of. cbn. by rewrite list_lookup_alter_eq, Hk.
Qed.

(** C13: A promise reaches everybody who waits: if [b] is derived from [a] by calls of
    [then] and somebody holds [b], then resolving [a] with [r] resolves [b] with the
    functions applied to [r], even when nobody holds the futures in between (unless a
    function given to some [then] or [thenFuture] deadlocks the call). *)
Theorem promise_reaches_derived s a r b F :
  reachable s → tasks s = [] → stuck s = None → promise_unused (Op_resolve a r) s →
  derives s a b F → b ∈ handles s →
  let s' := perform (Op_resolve a r) s in
  stuck s' = None → tasks s' = [] ∧ tryResult b s' = F r.
Proof using.
  intros Hr Ht Hst Ho Hd Hb. cbn zeta. intros Hst'. pose proof (reachable_inv s Hr Hst) as Hi.
  assert (impl_alive s b = true) as Hba by (apply (i_owned s Hi), elem_of_app; by left).
  destruct (perform_resolve s a r Hr Ht Hst Ho (derives_alive s a b F Hr Ht Hst Hd Hba)) as (Hr' & He & Hh & Hres).
  destruct (Hres Hst') as [Ht' Hra]. split; [done |].
  assert (result_of (perform (Op_resolve a r) s) b = Some (F r)) as Hfin.
  { apply (derives_value s _ a b F r Hr' Ht' Hst'); try done.
    apply (i_owned _ (reachable_inv _ Hr' Hst')), elem_of_app. left. by rewrite Hh. }
  unfold result_of in Hfin. unfold tryResult. destruct (impls (perform (Op_resolve a r) s) !! b) as [k |]; [| done].
  destruct (d_done k); [by simplify_eq | done].
Qed.
End Future.

(** ** Witnesses *)

(** A promise with a cancel function, a future derived with [then], one derived from
    that with [thenFuture]; the application keeps the last two. *)
Definition add_one (r : Result (V := nat)) : Result :=
  match r_value r with Some n => Result_value (S n) | None => r end.
Definition resolve_with (r : Result (V := nat)) : Generated := Gen_resolved (add_one r).

Definition futures_1 : Futures (V := nat) := perform (Op_make (Some 7)) Futures_none.
Definition futures_2 : Futures := perform (Op_then 0 (pure_callback add_one)) futures_1.
Definition futures_3 : Futures := perform (Op_thenFuture 1 (pure_callback resolve_with) []) futures_2.
Definition futures_4 : Futures := perform (Op_drop 0) futures_3.
Definition futures_5 : Futures := perform (Op_resolve 0 (Result_value 41)) futures_4.

Lemma futures_4_reachable : reachable futures_4.
Proof. repeat (apply perform_reachable; [| vm_compute; done..]). apply reach_start. Qed.

Lemma futures_5_reachable : reachable futures_5.
Proof.
  apply perform_reachable; [apply futures_4_reachable | vm_compute; done | vm_compute; done |].
  vm_compute. split; [by exists (Some 7) | done].
Qed.

Lemma futures_follow_their_sources_witness :
  NoDup (called futures_5) ∧ called futures_5 = [1; 2] ∧ tryResult 2 futures_5 = Result_value 43.
Proof.
  destruct (futures_follow_their_sources futures_5 futures_5_reachable ltac:(vm_compute; done) ltac:(vm_compute; done)) as [H _].
  split; [exact H | vm_compute; done].
Defined.

Lemma future_calls_return_witness :
  let s' := perform (Op_resolve 0 (Result_value 41)) futures_4 in
  (tasks s' = [] ∨ is_Some (stuck s')) ∧ work (sweep (begin (Op_resolve 0 (Result_value 41)) futures_4)) = 14.
Proof.
  destruct (future_calls_return futures_4 (Op_resolve 0 (Result_value 41)) futures_4_reachable
    ltac:(vm_compute; done) ltac:(vm_compute; done)) as (_ & H & _).
  - vm_compute. split; [by exists (Some 7) | done].
  - split; [exact H | vm_compute; done].
Defined.

(** Everything dropped before the result came: the cancel function is called. *)
Definition futures_6 : Futures := perform (Op_drop 1) (perform (Op_drop 2) futures_4).

Lemma futures_6_reachable : reachable futures_6.
Proof. do 2 (apply perform_reachable; [| vm_compute; done..]). apply futures_4_reachable. Qed.

Lemma abandoned_operations_cancelled_witness : Ev_cancelled 0 7 ∈ trace futures_6.
Proof.
  destruct (abandoned_operations_cancelled futures_6 futures_6_reachable ltac:(vm_compute; done)) as (_ & _ & _ & H).
  apply (H 0 7); vm_compute; reflexivity.
Defined.

Lemma promise_reaches_derived_witness :
  tryResult 1 (perform (Op_resolve 0 (Result_value 41)) futures_4) = add_one (Result_value 41).
Proof.
  apply (promise_reaches_derived futures_4 0 (Result_value 41) 1 (λ r, pure_callback add_one r)); try (vm_compute; done).
  - apply futures_4_reachable.
  - vm_compute. split; [by exists (Some 7) | done].
  - eapply (derives_then _ 0 0 (λ r, r)); [apply derives_self | vm_compute; reflexivity | vm_compute; reflexivity].
  - vm_compute. right. left.
Defined.

(** A function given to [thenFuture] that returns the future it continues. *)
Example returning_the_source_deadlocks :
  let s := perform (Op_thenFuture 0 (pure_callback (λ _, Gen_captured 0)) [0]) futures_1 in
  stuck (perform (Op_resolve 0 (Result_value 41)) s) = Some (Deadlock_addChain 0).
Proof. vm_compute. reflexivity. Qed.

(** A function given to [then] that looks at the future it continues. *)
Example looking_at_the_source_deadlocks :
  let s := perform (Op_then 0 (mkCallback _ _ add_one (λ _, [0]))) futures_1 in
  stuck (perform (Op_resolve 0 (Result_value 41)) s) = Some (Deadlock_callback 1 0).
Proof. vm_compute. reflexivity. Qed.
