(* ===== verification/EventLoop.v ===== *)
(** * EventLoop: the thread that runs the tasks

    Models [rmqio::EventLoop] (rmqio_eventloop.cpp, .h) and [rmqio::AsioEventLoop]
    (rmqio_asioeventloop.cpp): starting the worker thread, [post], [dispatch] and [postF],
    waiting for the exit, the destructor, and the resolver it keeps.

    [boost::asio::io_context] is not modelled: it is a class, [IoContext], of operations
    with the laws its documentation gives them for one thread calling [run] (the handlers
    of an implicit strand are called one after the other, in the order they were posted;
    [dispatch] calls the function at once if it is called from a handler; [run] returns
    when there is neither a handler, nor an operation under way, nor a work guard). What a
    task does to the event loop while it runs is a piece of [Code]; a step of the worker
    thread is one call of this code, so that other threads interleave with it. *)

From Stdlib Require Import ZArith Lia String.
From stdpp Require Import base tactics list sets.
From S2P Require Import Prelude.

(** What a task calls: it posts or dispatches a task, starts an operation with a
    completion handler, resolves a promise. *)
Inductive Code :=
| C_end
| C_post (id : nat) (c : Code) (k : Code)
| C_dispatch (id : nat) (c : Code) (k : Code)
| C_async (id : nat) (c : Code) (k : Code)
| C_resolve (p : nat) (k : Code).

(** A task with its name in the trace. *)
Notation Item := (nat * Code)%type (only parsing).

(** What [run] does next: it calls a handler, it waits, or it returns. *)
Inductive RunOne (Ctx : Type) :=
| R_handler (item : Item) (ctx : Ctx)
| R_waits
| R_returns.
Arguments R_handler {Ctx}.
Arguments R_waits {Ctx}.
Arguments R_returns {Ctx}.

(** [boost::asio::io_context]. The laws are on what can be seen of a context: the
    handlers to be called, the operations under way (each with its completion handler),
    and whether there is a work guard. *)
Class IoContext := {
  io_context : Type;
  io_queue : io_context → list Item;
  io_ops : io_context → list Item;
  io_guarded : io_context → bool;

  io_make : io_context;
  make_work_guard : io_context → io_context;
  reset_work_guard : io_context → io_context;
  io_post : Item → io_context → io_context;
  (* the caller is a handler of the context; [None]: the function is called at once *)
  io_dispatch : bool → Item → io_context → option io_context;
  io_async : Item → io_context → io_context;
  io_complete : nat → io_context → io_context;
  io_run_one : io_context → RunOne io_context;

  io_make_spec : io_queue io_make = [] ∧ io_ops io_make = [];
  make_guard_spec ctx : io_queue (make_work_guard ctx) = io_queue ctx ∧ io_ops (make_work_guard ctx) = io_ops ctx ∧
    io_guarded (make_work_guard ctx) = true;
  reset_guard_spec ctx : io_queue (reset_work_guard ctx) = io_queue ctx ∧ io_ops (reset_work_guard ctx) = io_ops ctx ∧
    io_guarded (reset_work_guard ctx) = false;
  io_post_spec item ctx : io_queue (io_post item ctx) = io_queue ctx ++ [item] ∧ io_ops (io_post item ctx) = io_ops ctx ∧
    io_guarded (io_post item ctx) = io_guarded ctx;
  io_dispatch_spec inside item ctx : io_dispatch inside item ctx = if inside then None else Some (io_post item ctx);
  io_async_spec item ctx : io_queue (io_async item ctx) = io_queue ctx ∧ io_ops (io_async item ctx) = io_ops ctx ++ [item] ∧
    io_guarded (io_async item ctx) = io_guarded ctx;
  io_complete_spec i item ctx : io_ops ctx !! i = Some item →
    io_queue (io_complete i ctx) = io_queue ctx ++ [item] ∧ io_ops (io_complete i ctx) = delete i (io_ops ctx) ∧
    io_guarded (io_complete i ctx) = io_guarded ctx;
  io_run_one_spec ctx :
    match io_run_one ctx with
    | R_handler item ctx' => io_queue ctx = item :: io_queue ctx' ∧ io_ops ctx' = io_ops ctx ∧ io_guarded ctx' = io_guarded ctx
    | R_waits => io_queue ctx = [] ∧ (io_guarded ctx = true ∨ io_ops ctx ≠ [])
    | R_returns => io_queue ctx = [] ∧ io_guarded ctx = false ∧ io_ops ctx = []
    end;
}.

Inductive LoopEvent :=
| LE_posted (id : nat)
| LE_started (id : nat)      (* taken from the queue *)
| LE_inline (id : nat)       (* called by [dispatch] in a task *)
| LE_ended
| LE_resolved (p : nat)
| LE_exited.

Inductive ThreadState := TS_none | TS_running | TS_finished.

#[export] Instance ThreadState_eq_dec : EqDecision ThreadState.
Proof. solve_decision. Defined.

(** Where the call of [start] is; the loop's owner calls it, from one thread. *)
Inductive StartPhase := SP_none | SP_created | SP_blocked (p : nat).

Section EventLoop.
Context {IO : IoContext}.

(** [l_frames] is the code of the task being run and of those it dispatched, innermost
    first. *)
Record EventLoop := mkEventLoop {
  d_thread : ThreadState;
  d_started : bool;
  d_joined : bool;
  l_start : StartPhase;
  d_context : io_context;
  l_frames : list Code;
  d_resolver : option (nat * bool);
  l_resolvers : nat;
  d_exited : bool;
  l_promises : nat;
  l_trace : list LoopEvent;
}.

Definition EventLoop_make : EventLoop :=
  mkEventLoop TS_none false false SP_none (make_work_guard io_make) [] None 0 false 0 [].

Definition l_queue (s : EventLoop) : list Item := io_queue (d_context s).
Definition l_pending (s : EventLoop) : list Item := io_ops (d_context s).
Definition d_workGuard (s : EventLoop) : bool := io_guarded (d_context s).

Definition l_set_thread (t : ThreadState) (s : EventLoop) : EventLoop :=
  mkEventLoop t (d_started s) (d_joined s) (l_start s) (d_context s) (l_frames s) (d_resolver s) (l_resolvers s) (d_exited s) (l_promises s) (l_trace s).
Definition l_set_flags (started joined : bool) (st : StartPhase) (s : EventLoop) : EventLoop :=
  mkEventLoop (d_thread s) started joined st (d_context s) (l_frames s) (d_resolver s) (l_resolvers s) (d_exited s) (l_promises s) (l_trace s).
Definition l_set_context (ctx : io_context) (fs : list Code) (s : EventLoop) : EventLoop :=
  mkEventLoop (d_thread s) (d_started s) (d_joined s) (l_start s) ctx fs (d_resolver s) (l_resolvers s) (d_exited s) (l_promises s) (l_trace s).
Definition l_set_resolver (r : option (nat * bool)) (n : nat) (s : EventLoop) : EventLoop :=
  mkEventLoop (d_thread s) (d_started s) (d_joined s) (l_start s) (d_context s) (l_frames s) r n (d_exited s) (l_promises s) (l_trace s).
Definition removeWorkGuard (s : EventLoop) : EventLoop := l_set_context (reset_work_guard (d_context s)) (l_frames s) s.
Definition l_set_exited (s : EventLoop) : EventLoop :=
  mkEventLoop (d_thread s) (d_started s) (d_joined s) (l_start s) (d_context s) (l_frames s) (d_resolver s) (l_resolvers s) true (l_promises s) (l_trace s).
Definition l_new_promise (s : EventLoop) : EventLoop :=
  mkEventLoop (d_thread s) (d_started s) (d_joined s) (l_start s) (d_context s) (l_frames s) (d_resolver s) (l_resolvers s) (d_exited s) (S (l_promises s)) (l_trace s).
Definition l_emit (e : LoopEvent) (s : EventLoop) : EventLoop :=
  mkEventLoop (d_thread s) (d_started s) (d_joined s) (l_start s) (d_context s) (l_frames s) (d_resolver s) (l_resolvers s) (d_exited s) (l_promises s) (l_trace s ++ [e]).

(** ** Giving tasks to the loop *)

Definition postImpl (item : Item) (s : EventLoop) : EventLoop :=
  l_emit (LE_posted item.1) (l_set_context (io_post item (d_context s)) (l_frames s) s).

(** [inside]: the caller is a task, on the worker thread. If the context calls the
    function at once, it becomes the innermost frame. *)
Definition dispatchImpl (inside : bool) (item : Item) (s : EventLoop) : EventLoop :=
  match io_dispatch inside item (d_context s) with
  | None => l_emit (LE_inline item.1) (l_set_context (d_context s) (item.2 :: l_frames s) s)
  | Some ctx => l_emit (LE_posted item.1) (l_set_context ctx (l_frames s) s)
  end.

(** [processResult]: the promise is resolved when the function has returned. *)
Fixpoint then_resolve (p : nat) (c : Code) : Code :=
  match c with
  | C_end => C_resolve p C_end
  | C_post id c k => C_post id c (then_resolve p k)
  | C_dispatch id c k => C_dispatch id c (then_resolve p k)
  | C_async id c k => C_async id c (then_resolve p k)
  | C_resolve q k => C_resolve q (then_resolve p k)
  end.

(** The future of [postF] is the number of its promise. *)
Definition postF (item : Item) (s : EventLoop) : nat * EventLoop :=
  let p := l_promises s in
  (p, postImpl (item.1, then_resolve p item.2) (l_new_promise s)).

(** ** Starting *)

(** The name [loopStarted] has in the trace. *)
Definition loopStarted : Item := (0, C_end).

(** [start] up to the creation of the thread, with the code of the creation. *)
Definition start (error_code : Z) (s : EventLoop) : EventLoop :=
  if d_started s then s
  else if Z.eqb error_code 0 then l_set_flags (d_started s) (d_joined s) SP_created (l_set_thread TS_running s)
  else s.

Definition start_post (s : EventLoop) : EventLoop :=
  let (p, s) := postF loopStarted s in l_set_flags (d_started s) (d_joined s) (SP_blocked p) s.

(** [blockResult] returned. *)
Definition start_return (s : EventLoop) : EventLoop := l_set_flags true (d_joined s) SP_none s.

(** ** The worker thread *)

(** [onThreadStarted] after [d_context.run()]. *)
Definition context_returned (s : EventLoop) : EventLoop :=
  l_emit LE_exited (l_set_exited (l_set_thread TS_finished s)).

(** What the task does next. *)
Definition code_step (c : Code) (fs : list Code) (s : EventLoop) : EventLoop :=
  match c with
  | C_end => l_emit LE_ended (l_set_context (d_context s) fs s)
  | C_post id c k => postImpl (id, c) (l_set_context (d_context s) (k :: fs) s)
  | C_dispatch id c k => dispatchImpl true (id, c) (l_set_context (d_context s) (k :: fs) s)
  | C_async id c k => l_set_context (io_async (id, c) (d_context s)) (k :: fs) s
  | C_resolve p k => l_emit (LE_resolved p) (l_set_context (d_context s) (k :: fs) s)
  end.

(** The worker in [d_context.run()], and what follows its return. *)
Definition onThreadStarted_step (s : EventLoop) : EventLoop :=
  match d_thread s with
  | TS_running =>
      match l_frames s with
      | c :: fs => code_step c fs s
      | [] =>
          match io_run_one (d_context s) with
          | R_handler item ctx => l_emit (LE_started item.1) (l_set_context ctx [item.2] s)
          | R_waits => s
          | R_returns => context_returned s
          end
      end
  | _ => s
  end.

(** The operating system completes an operation: its handler is to be called. *)
Definition operation_completes (i : nat) (s : EventLoop) : EventLoop :=
  match l_pending s !! i with
  | Some item => l_emit (LE_posted item.1) (l_set_context (io_complete i (d_context s)) (l_frames s) s)
  | None => s
  end.

(** ** Leaving *)

(** [waitForEventLoopExit] up to the wait. *)
Definition waitForEventLoopExit (s : EventLoop) : EventLoop :=
  if d_exited s then s else removeWorkGuard (l_set_resolver None (l_resolvers s) s).

(** What it returns, if anything yet. *)
Definition wait_result (timed_out : bool) (s : EventLoop) : option bool :=
  if d_exited s then Some true else if timed_out then Some false else None.

(** [~AsioEventLoop] up to [join]. *)
Definition AsioEventLoop_destroy (s : EventLoop) : EventLoop :=
  if d_started s then waitForEventLoopExit s else s.

(** [join], if it returns. *)
Definition join (s : EventLoop) : option EventLoop :=
  if d_started s && negb (d_joined s) then
    match d_thread s with TS_finished => Some (l_set_flags (d_started s) true (l_start s) s) | _ => None end
  else Some s.

(** The resolver is made by the first call that needs it. *)
Definition resolver (shuffleConnectionEndpoints : bool) (s : EventLoop) : option (nat * bool) * EventLoop :=
  match d_resolver s with
  | Some r => (Some r, s)
  | None =>
      let r := Some (l_resolvers s, shuffleConnectionEndpoints) in
      (r, l_set_resolver r (S (l_resolvers s)) s)
  end.

(** ** Runs *)

Inductive LoopOp :=
| L_start (error_code : Z)      (* the three steps of [start] *)
| L_start_post
| L_start_return
| L_post (item : Item)          (* calls of other threads *)
| L_dispatch (item : Item)
| L_postF (item : Item)
| L_resolver (shuffle : bool)
| L_wait
| L_destroy
| L_join
| L_run                         (* the worker thread *)
| L_complete (i : nat).         (* the operating system *)

Definition loop_step (s : EventLoop) (op : LoopOp) : EventLoop :=
  match op with
  | L_start e => match l_start s with SP_none => start e s | _ => s end
  | L_start_post => match l_start s with SP_created => start_post s | _ => s end
  | L_start_return =>
      match l_start s with
      | SP_blocked p => if existsb (λ e, match e with LE_resolved q => Nat.eqb p q | _ => false end) (l_trace s) then start_return s else s
      | _ => s
      end
  | L_post item => postImpl item s
  | L_dispatch item => dispatchImpl false item s
  | L_postF item => (postF item s).2
  | L_resolver b => (resolver b s).2
  | L_wait => waitForEventLoopExit s
  | L_destroy => AsioEventLoop_destroy s
  | L_join => default s (join s)
  | L_run => onThreadStarted_step s
  | L_complete i => operation_completes i s
  end.

Definition loop_run (ops : list LoopOp) (s : EventLoop) : EventLoop := fold_left loop_step ops s.

(** ** What a trace says *)

Definition posted (t : list LoopEvent) : list nat := omap (λ e, match e with LE_posted id => Some id | _ => None end) t.
Definition started (t : list LoopEvent) : list nat := omap (λ e, match e with LE_started id => Some id | _ => None end) t.

#[local] Arguments posted : simpl never.
#[local] Arguments started : simpl never.

Lemma posted_app t u : posted (t ++ u) = posted t ++ posted u.
Proof. unfold posted. apply omap_app. Qed.
Lemma started_app t u : started (t ++ u) = started t ++ started u.
Proof. apply omap_app. Qed.

(** The context's laws, one view at a time. *)
Section Laws.
Context (item : Item) (ctx : io_context).

Lemma queue_guard : io_queue (make_work_guard ctx) = io_queue ctx. Proof. apply make_guard_spec. Qed.
Lemma ops_guard : io_ops (make_work_guard ctx) = io_ops ctx. Proof. apply make_guard_spec. Qed.
Lemma guarded_guard : io_guarded (make_work_guard ctx) = true. Proof. apply make_guard_spec. Qed.
Lemma queue_reset : io_queue (reset_work_guard ctx) = io_queue ctx. Proof. apply reset_guard_spec. Qed.
Lemma ops_reset : io_ops (reset_work_guard ctx) = io_ops ctx. Proof. apply reset_guard_spec. Qed.
Lemma guarded_reset : io_guarded (reset_work_guard ctx) = false. Proof. apply reset_guard_spec. Qed.
Lemma queue_post : io_queue (io_post item ctx) = io_queue ctx ++ [item]. Proof. apply io_post_spec. Qed.
Lemma ops_post : io_ops (io_post item ctx) = io_ops ctx. Proof. apply io_post_spec. Qed.
Lemma guarded_post : io_guarded (io_post item ctx) = io_guarded ctx. Proof. apply io_post_spec. Qed.
Lemma queue_async : io_queue (io_async item ctx) = io_queue ctx. Proof. apply io_async_spec. Qed.
Lemma ops_async : io_ops (io_async item ctx) = io_ops ctx ++ [item]. Proof. apply io_async_spec. Qed.
Lemma guarded_async : io_guarded (io_async item ctx) = io_guarded ctx. Proof. apply io_async_spec. Qed.
End Laws.

#[local] Hint Rewrite queue_guard ops_guard guarded_guard queue_reset ops_reset guarded_reset
  queue_post ops_post guarded_post queue_async ops_async guarded_async : loop.
#[local] Hint Rewrite posted_app started_app app_nil_r (@fmap_app Item nat fst) : loop.

Lemma dispatch_outside item s : dispatchImpl false item s = postImpl item s.
Proof. unfold dispatchImpl. by rewrite io_dispatch_spec. Qed.
Lemma dispatch_inside item s :
  dispatchImpl true item s = l_emit (LE_inline item.1) (l_set_context (d_context s) (item.2 :: l_frames s) s).
Proof. unfold dispatchImpl. by rewrite io_dispatch_spec. Qed.

(** What a completed operation leaves. *)
Lemma completes_cases i s :
  (∃ item ctx, l_pending s !! i = Some item ∧
     operation_completes i s = l_emit (LE_posted item.1) (l_set_context ctx (l_frames s) s) ∧
     io_queue ctx = l_queue s ++ [item] ∧ io_ops ctx = delete i (l_pending s) ∧ io_guarded ctx = d_workGuard s) ∨
  (operation_completes i s = s ∧ l_pending s !! i = None).
Proof.
  unfold operation_completes. destruct (l_pending s !! i) as [item |] eqn:Hi; [left | by right].
  exists item, (io_complete i (d_context s)). split; [done |]. split; [done |]. by apply io_complete_spec.
Qed.

(** What the worker does between two tasks. *)
Lemma idle_step s :
  d_thread s = TS_running → l_frames s = [] →
  (∃ item ctx, onThreadStarted_step s = l_emit (LE_started item.1) (l_set_context ctx [item.2] s) ∧
     l_queue s = item :: io_queue ctx ∧ io_ops ctx = l_pending s ∧ io_guarded ctx = d_workGuard s) ∨
  (onThreadStarted_step s = s ∧ l_queue s = [] ∧ (d_workGuard s = true ∨ l_pending s ≠ [])) ∨
  (onThreadStarted_step s = context_returned s ∧ l_queue s = [] ∧ d_workGuard s = false ∧ l_pending s = []).
Proof.
  intros Ht Hf. unfold onThreadStarted_step. rewrite Ht, Hf. pose proof (io_run_one_spec (d_context s)) as H.
  destruct (io_run_one (d_context s)) as [item ctx | |]; [left; by exists item, ctx | right; by left | right; by right].
Qed.

(** ** The invariant *)

(** What the loop leaves behind when it exits: only posted tasks come after it. *)
Definition exit_trace (tr : list LoopEvent) : Prop :=
  ∃ t u, tr = t ++ LE_exited :: u ∧ posted t = started t ∧ ∀ e, e ∈ u → ∃ id, e = LE_posted id.

Record loop_inv (s : EventLoop) : Prop := {
  li_order : posted (l_trace s) = started (l_trace s) ++ (fst <$> l_queue s);
  li_idle : d_thread s ≠ TS_running → l_frames s = [];
  li_exited : d_exited s = true ↔ d_thread s = TS_finished;
  li_gone : d_exited s = true → d_workGuard s = false ∧ l_pending s = [] ∧ exit_trace (l_trace s);
  li_live : d_exited s = false → LE_exited ∉ l_trace s;
  li_start : l_start s = SP_none → d_started s = false → d_thread s = TS_none;
  li_joined : d_joined s = true → d_exited s = true;
}.

Lemma exit_trace_post tr id : exit_trace tr → exit_trace (tr ++ [LE_posted id]).
Proof.
  intros (t & u & -> & Hp & Hu). exists t, (u ++ [LE_posted id]). rewrite <- app_assoc. split_and!; [done | done |].
  intros e [He | ->%list_elem_of_singleton]%elem_of_app; [by apply Hu | by exists id].
Qed.

Ltac loop_simpl := unfold l_queue, l_pending, d_workGuard in *; cbn in *; autorewrite with loop; cbn; try done.

(** Fields a step does not mention keep their part of the invariant. *)
Ltac loop_fields :=
  repeat match goal with
  | H : loop_inv _ |- _ => destruct H
  end; split; loop_simpl.

Lemma not_in_snoc (t : list LoopEvent) e : LE_exited ∉ t → e ≠ LE_exited → LE_exited ∉ t ++ [e].
Proof. intros H He [? | Hx%list_elem_of_singleton]%elem_of_app; [done | congruence]. Qed.
#[local] Hint Resolve not_in_snoc exit_trace_post : loop.

(** Posting keeps the invariant, whatever the posted task and its code. *)
Lemma post_inv item s : loop_inv s → loop_inv (postImpl item s).
Proof.
  intros H. loop_fields.
  - by rewrite li_order0, <- app_assoc.
  - intros He. destruct (li_gone0 He) as (? & ? & ?). auto using exit_trace_post.
  - intros He. apply not_in_snoc; auto.
Qed.

Lemma flags_inv st joined ph s :
  loop_inv s → (ph = SP_none → st = false → d_thread s = TS_none) → (joined = true → d_exited s = true) →
  loop_inv (l_set_flags st joined ph s).
Proof. intros H H1 H2. loop_fields. Qed.

Lemma postF_inv item s : loop_inv s → loop_inv (postF item s).2.
Proof. intros H. apply post_inv. loop_fields. Qed.

Lemma loop_start_inv e s : loop_inv s → l_start s = SP_none → loop_inv (start e s).
Proof.
  intros H Hp. unfold start. destruct (d_started s) eqn:Hs; [done |]. destruct (e =? 0)%Z; [| done].
  pose proof (li_start _ H Hp Hs) as Ht. loop_fields.
  split; [| done]. intros He%li_exited0. congruence.
Qed.

Lemma wait_inv s : loop_inv s → loop_inv (waitForEventLoopExit s).
Proof. intros H. unfold waitForEventLoopExit. destruct (d_exited s) eqn:He; [done |]. loop_fields; congruence. Qed.

Lemma code_step_inv c fs s :
  loop_inv s → d_thread s = TS_running → l_frames s = c :: fs → loop_inv (code_step c fs s).
Proof.
  intros H Ht Hf. assert (d_exited s = false) as He.
  { destruct (d_exited s) eqn:E; [| done]. apply (li_exited _ H) in E. congruence. }
  destruct H. rewrite Hf in *. destruct c; cbn [code_step]; rewrite ?dispatch_inside; split; loop_simpl; try (by rewrite li_order0, <- ?app_assoc, ?app_nil_r);
    try (intros _; apply not_in_snoc; auto; done); congruence.
Qed.

Lemma run_step_inv s : loop_inv s → loop_inv (onThreadStarted_step s).
Proof.
  intros H. destruct (d_thread s) eqn:Ht; [by unfold onThreadStarted_step; rewrite Ht | | by unfold onThreadStarted_step; rewrite Ht].
  destruct (l_frames s) as [| c fs] eqn:Hf; [| unfold onThreadStarted_step; rewrite Ht, Hf; by apply code_step_inv].
  assert (d_exited s = false) as He.
  { destruct (d_exited s) eqn:E; [| done]. apply (li_exited _ H) in E. congruence. }
  destruct (idle_step s Ht Hf) as [(item & ctx & -> & Hq & Ho & Hg) | [(-> & _) | (-> & Hq & Hg & Hp)]]; [| done |].
  - destruct H. rewrite Hf, Hq in *. split; loop_simpl.
    + by rewrite li_order0, <- app_assoc.
    + congruence.
    + intros _. apply not_in_snoc; auto.
  - destruct H. rewrite Hf, Hq in *. split; loop_simpl.
    + by rewrite li_order0, Hq.
    + intros _. split_and!; [done | done |]. exists (l_trace s), []. split_and!; [done | by rewrite li_order0, app_nil_r | by intros e ?%not_elem_of_nil].
    + intros Hn Hs. rewrite (li_start0 Hn Hs) in Ht. done.
Qed.

Lemma completes_inv i s : loop_inv s → loop_inv (operation_completes i s).
Proof.
  intros H. destruct (completes_cases i s) as [(item & ctx & Hi & -> & Hq & Ho & Hg) | [-> _]]; [| done].
  loop_fields.
  - by rewrite li_order0, Hq, fmap_app, <- app_assoc.
  - intros He. destruct (li_gone0 He) as (_ & Hp & _). by rewrite Hp in Hi.
  - intros He. apply not_in_snoc; auto.
Qed.

Lemma loop_step_inv s op : loop_inv s → loop_inv (loop_step s op).
Proof.
  intros H. destruct op as [e | | | item | item | item | b | | | | | i]; cbn [loop_step]; rewrite ?dispatch_outside.
  - destruct (l_start s) eqn:?; [by apply loop_start_inv | done | done].
  - destruct (l_start s) eqn:?; [done | | done]. unfold start_post. pose proof (postF_inv loopStarted s H) as Hi.
    destruct (postF loopStarted s) as [p s'] eqn:Hp. apply flags_inv; [done | done | apply (li_joined _ Hi)].
  - destruct (l_start s) eqn:?; [done | done |]. destruct (existsb _ _); [| done]. apply flags_inv; [done | done | apply (li_joined _ H)].
  - by apply post_inv.
  - by apply post_inv.
  - by apply postF_inv.
  - unfold resolver. destruct (d_resolver s); [done |]. loop_fields.
  - by apply wait_inv.
  - unfold AsioEventLoop_destroy. destruct (d_started s); [by apply wait_inv | done].
  - unfold join. destruct (_ && _) eqn:Hj; [| done]. destruct (d_thread s) eqn:Ht; [done | done |]. cbn.
    apply andb_prop in Hj as [Hs _]. rewrite Hs. apply flags_inv; [done | done | intros _; by apply (li_exited _ H)].
  - by apply run_step_inv.
  - by apply completes_inv.
Qed.

Lemma loop_run_inv ops s : loop_inv s → loop_inv (loop_run ops s).
Proof. revert s. induction ops as [| op ops IH]; intros s H; [done |]. apply IH. by apply loop_step_inv. Qed.

Lemma loop_make_inv : loop_inv EventLoop_make.
Proof.
  split; loop_simpl.
  - by rewrite (proj1 io_make_spec).
  - intros _ ?%elem_of_nil. done.
Qed.

(** ** The exit is asked for *)

Definition leaving (op : LoopOp) : bool := match op with L_wait | L_destroy => true | _ => false end.

Lemma run_step_guard s : d_workGuard (onThreadStarted_step s) = d_workGuard s.
Proof.
  destruct (d_thread s) eqn:Ht; [| | ]. 1, 3: by unfold onThreadStarted_step; rewrite Ht.
  destruct (l_frames s) as [| c fs] eqn:Hf.
  - by destruct (idle_step s Ht Hf) as [(item & ctx & -> & _ & _ & Hg) | [(-> & _) | (-> & _)]].
  - unfold onThreadStarted_step. rewrite Ht, Hf. destruct c; cbn [code_step]; rewrite ?dispatch_inside; loop_simpl.
Qed.

Lemma completes_guard i s : d_workGuard (operation_completes i s) = d_workGuard s.
Proof. by destruct (completes_cases i s) as [(item & ctx & _ & -> & _ & _ & Hg) | [-> _]]. Qed.

Lemma step_guard s op : leaving op = false → d_workGuard (loop_step s op) = d_workGuard s.
Proof.
  intros Hl. destruct op as [e | | | item | item | item | b | | | | | i]; try done; cbn [loop_step]; rewrite ?dispatch_outside.
  - destruct (l_start s); [| done | done]. unfold start. destruct (d_started s); [done |]. by destruct (e =? 0)%Z.
  - destruct (l_start s); [done | loop_simpl | done].
  - destruct (l_start s); [done | done |]. by destruct (existsb _ _).
  - loop_simpl.
  - loop_simpl.
  - loop_simpl.
  - unfold resolver. by destruct (d_resolver s).
  - unfold join. destruct (_ && _); [| done]. by destruct (d_thread s).
  - apply run_step_guard.
  - apply completes_guard.
Qed.

Lemma run_guard ops s : existsb leaving ops = false → d_workGuard (loop_run ops s) = d_workGuard s.
Proof.
  revert s. induction ops as [| op ops IH]; intros s H; [done |]. cbn in H. apply orb_false_elim in H as [Ho H].
  cbn. unfold loop_run in IH. rewrite IH by done. by apply step_guard.
Qed.

(** The loop exits only after somebody asked it to by [waitForEventLoopExit] or the
    destructor, and leaves no posted task behind; what is posted afterwards is never
    run. The destructor's [join] returns only then. *)
Theorem loop_exits_only_when_asked ops :
  let s := loop_run ops EventLoop_make in
  (d_exited s = true → existsb leaving ops = true ∧ exit_trace (l_trace s)) ∧
  (d_exited s = false → LE_exited ∉ l_trace s ∧ d_joined s = false).
Proof.
  intros s. pose proof (loop_run_inv ops _ loop_make_inv) as Hi. fold s in Hi. destruct Hi. split.
  - intros He. destruct (li_gone0 He) as (Hg & _ & Ht). split; [| done].
    destruct (existsb leaving ops) eqn:Hl; [done |]. unfold s in Hg. rewrite (run_guard _ _ Hl) in Hg.
    revert Hg. loop_simpl.
  - intros He. split; [auto |]. destruct (d_joined s) eqn:Hj; [rewrite li_joined0 in He; done | done].
Qed.

(** ** How much is left to do *)

(** The steps of a task, without those of the tasks it posts or starts. *)
Fixpoint steps (c : Code) : nat :=
  match c with
  | C_end => 1
  | C_post _ _ k | C_async _ _ k | C_resolve _ k => S (steps k)
  | C_dispatch _ c k => S (steps c + steps k)
  end.

(** With them, each with the step that takes it from the queue and, for an operation,
    its completion. *)
Fixpoint all_steps (c : Code) : nat :=
  match c with
  | C_end => 1
  | C_post _ c k => S (S (all_steps c) + all_steps k)
  | C_async _ c k => S (S (S (all_steps c)) + all_steps k)
  | C_resolve _ k => S (all_steps k)
  | C_dispatch _ c k => S (all_steps c + all_steps k)
  end.

(** What the worker does until it has run the tasks in [fs] and [q]. *)
Definition ahead (q : list Item) (fs : list Code) : nat :=
  sum_list (steps <$> fs) + sum_list ((λ i : Item, S (steps i.2)) <$> q).

Definition loop_work (s : EventLoop) : nat :=
  sum_list (all_steps <$> l_frames s) + sum_list ((λ i : Item, S (all_steps i.2)) <$> l_queue s) +
  sum_list ((λ i : Item, S (S (all_steps i.2))) <$> l_pending s) + (if d_exited s then 0 else 1).

Lemma sum_list_app (l k : list nat) : sum_list (l ++ k) = sum_list l + sum_list k.
Proof. apply sum_list_with_app. Qed.

Lemma steps_pos c : 0 < steps c.
Proof. destruct c; cbn; lia. Qed.

(** ** Promises are resolved *)

(** The code resolves the promise, itself or by a task it dispatches. *)
Fixpoint owes (p : nat) (c : Code) : Prop :=
  match c with
  | C_end => False
  | C_post _ _ k | C_async _ _ k => owes p k
  | C_dispatch _ c k => owes p c ∨ owes p k
  | C_resolve q k => q = p ∨ owes p k
  end.

Lemma then_resolve_owes p c : owes p (then_resolve p c).
Proof. induction c as [| | ? c _ k IH | | q k IH]; cbn; auto. Qed.

Lemma then_resolve_steps p c : steps (then_resolve p c) = S (steps c).
Proof. induction c as [| id c _ k IH | id c _ k IH | id c _ k IH | q k IH]; cbn; rewrite ?IH; lia. Qed.

(** Within [n] steps of the worker the promise is resolved. *)
Definition resolves_within (p n : nat) (s : EventLoop) : Prop :=
  LE_resolved p ∈ l_trace s ∨
  (d_thread s = TS_running ∧ ∃ front back, l_queue s = front ++ back ∧ ahead front (l_frames s) ≤ n ∧
    ((∃ c, c ∈ l_frames s ∧ owes p c) ∨ (∃ i, i ∈ front ∧ owes p i.2))).

Lemma resolves_trace p n s s' :
  (∃ t, l_trace s' = l_trace s ++ t) → LE_resolved p ∈ l_trace s → resolves_within p n s'.
Proof. intros [t Ht] H. left. rewrite Ht, elem_of_app. by left. Qed.

Lemma post_resolves p n item s : resolves_within p n s → resolves_within p n (postImpl item s).
Proof.
  intros [H | (Ht & front & back & Hq & Hn & Ho)]; [apply (resolves_trace p n s); [by eexists | done] |].
  right. split; [done |]. exists front, (back ++ [item]). unfold l_queue. cbn. rewrite queue_post.
  unfold l_queue in Hq. by rewrite Hq, <- app_assoc.
Qed.

Lemma code_step_resolves p n c fs s :
  d_thread s = TS_running → l_frames s = c :: fs → resolves_within p (S n) s → resolves_within p n (code_step c fs s).
Proof.
  intros Ht Hf [H | (_ & front & back & Hq & Hn & Ho)].
  { apply (resolves_trace p n s); [| done]. destruct c; cbn [code_step]; rewrite ?dispatch_inside; cbn; try (by eexists).
    exists []. by rewrite app_nil_r. }
  rewrite Hf in Hn, Ho. unfold ahead in Hn. cbn in Hn.
  assert (∀ fs' m, (∀ c', c' ∈ fs → c' ∈ fs') → (owes p c → ∃ c', c' ∈ fs' ∧ owes p c') → sum_list (steps <$> fs') + m < steps c + sum_list (steps <$> fs) + m →
    ahead front fs' ≤ n ∧ ((∃ c', c' ∈ fs' ∧ owes p c') ∨ (∃ i, i ∈ front ∧ owes p i.2))) as Hgo.
  { intros fs' m Hin Hc Hm. unfold ahead. split; [lia |]. destruct Ho as [(c' & [-> | Hc']%elem_of_cons & Hoc) | Hi]; [by left; auto | | by right].
    left. exists c'. auto. }
  destruct c as [| id c k | id c k | id c k | q k]; cbn [code_step].
  - right. split; [done |]. exists front, back. split; [done |]. apply (Hgo fs 0); cbn; [done | done | lia].
  - right. split; [done |]. exists front, (back ++ [(id, c)]). unfold l_queue. cbn. rewrite queue_post.
    unfold l_queue in Hq. rewrite Hq, <- app_assoc. split; [done |].
    apply (Hgo (k :: fs) 0); cbn; [by right | intros Hk; exists k; split; [left | done] | lia].
  - rewrite dispatch_inside. right. split; [done |]. exists front, back. split; [done |].
    apply (Hgo (c :: k :: fs) 0); cbn; [by repeat right | | lia].
    intros [Hk | Hk]; [exists c | exists k]; (split; [set_solver | done]).
  - right. split; [done |]. exists front, back. split; [unfold l_queue; cbn; by rewrite queue_async |].
    apply (Hgo (k :: fs) 0); cbn; [by right | intros Hk; exists k; split; [left | done] | lia].
  - destruct (decide (q = p)) as [-> | Hne]; [left; cbn; set_solver |].
    right. split; [done |]. exists front, back. split; [done |].
    apply (Hgo (k :: fs) 0); cbn; [by right | intros [? | Hk]; [done |]; exists k; split; [left | done] | lia].
Qed.

Lemma run_step_resolves p n s : resolves_within p (S n) s → resolves_within p n (onThreadStarted_step s).
Proof.
  intros H. destruct (d_thread s) eqn:Ht; [| | ].
  1, 3: unfold onThreadStarted_step; rewrite Ht; by destruct H as [? | [? _]]; [left | congruence].
  destruct (l_frames s) as [| c fs] eqn:Hf; [| unfold onThreadStarted_step; rewrite Ht, Hf; by apply code_step_resolves].
  destruct H as [H | (_ & front & back & Hq & Hn & Ho)].
  { apply (resolves_trace p n s); [| done].
    destruct (idle_step s Ht Hf) as [(item & ctx & -> & _) | [(-> & _) | (-> & _)]]; cbn; [by eexists | exists []; by rewrite app_nil_r | by eexists]. }
  rewrite Hf in Hn, Ho. destruct Ho as [(c & ?%elem_of_nil & _) | (i & Hi & Ho)]; [done |].
  destruct front as [| i0 front]; [by apply elem_of_nil in Hi |].
  destruct (idle_step s Ht Hf) as [(item & ctx & -> & Hq' & _) | [(-> & Hq' & _) | (-> & Hq' & _)]]; rewrite Hq in Hq'; [| done | done].
  injection Hq' as <- Hq'. right. split; [done |]. exists front, back. unfold l_queue, ahead in *. cbn in *. split; [done |]. split; [lia |].
  apply elem_of_cons in Hi as [-> | Hi]; [left; exists (i0.2); split; [left | done] | right; by exists i].
Qed.

Lemma step_resolves p n s op : op ≠ L_run → resolves_within p n s → resolves_within p n (loop_step s op).
Proof.
  assert (∀ s', l_trace s' = l_trace s → d_thread s' = d_thread s ∨ d_thread s' = TS_running → l_queue s' = l_queue s → l_frames s' = l_frames s →
    resolves_within p n s → resolves_within p n s') as Hsame.
  { intros s' Ht Hd Hq Hf [H | (Hr & H)]; [left; by rewrite Ht | right]. split; [by destruct Hd as [-> |] |]. by rewrite Hq, Hf. }
  intros Hop H. destruct op as [e | | | item | item | item | b | | | | | i]; try done; cbn [loop_step]; rewrite ?dispatch_outside.
  - destruct (l_start s); [| done | done]. unfold start. destruct (d_started s); [done |]. destruct (e =? 0)%Z; [| done].
    apply Hsame; try done. by right.
  - destruct (l_start s); [done | | done]. apply (post_resolves p n _ (l_new_promise s)). apply Hsame; auto.
  - destruct (l_start s); [done | done |]. destruct (existsb _ _); [apply Hsame; auto | done].
  - by apply post_resolves.
  - by apply post_resolves.
  - apply (post_resolves p n _ (l_new_promise s)). apply Hsame; auto.
  - unfold resolver. destruct (d_resolver s); [done | apply Hsame; auto].
  - unfold waitForEventLoopExit. destruct (d_exited s); [done | apply Hsame; auto; apply queue_reset].
  - unfold AsioEventLoop_destroy, waitForEventLoopExit. destruct (d_started s), (d_exited s); try done; apply Hsame; auto; apply queue_reset.
  - unfold join. destruct (_ && _); [| done]. destruct (d_thread s) eqn:Ht; [done | done |]. apply Hsame; auto.
  - destruct (completes_cases i s) as [(item & ctx & _ & -> & Hq & _) | [-> _]]; [| done].
    destruct H as [H | (Ht & front & back & Hq' & Hn & Ho)]; [apply (resolves_trace p n s); [by eexists | done] |].
    right. split; [done |]. exists front, (back ++ [item]). unfold l_queue. cbn. by rewrite Hq, Hq', <- app_assoc.
Qed.

Definition runs_of (ops : list LoopOp) : nat := length (List.filter (λ op, match op with L_run => true | _ => false end) ops).

Lemma run_resolves p ops : ∀ n s, runs_of ops ≥ n → resolves_within p n s → LE_resolved p ∈ l_trace (loop_run ops s).
Proof.
  assert (∀ s, resolves_within p 0 s → LE_resolved p ∈ l_trace s) as H0.
  { intros s [H | (_ & front & back & _ & Hn & Ho)]; [done |]. exfalso. unfold ahead in Hn.
    destruct Ho as [(c & Hc & _) | (i & Hi & _)].
    - destruct (l_frames s) as [| c' fs]; [by apply elem_of_nil in Hc |]. cbn in Hn. pose proof (steps_pos c'). lia.
    - destruct front as [| i' front]; [by apply elem_of_nil in Hi |]. cbn in Hn. lia. }
  induction ops as [| op ops IH]; intros n s Hn H.
  - cbn in *. assert (n = 0) as -> by lia. by apply H0.
  - assert (op = L_run ∨ op ≠ L_run) as [-> | Hop] by (destruct op; (by left) || (by right)).
    + unfold runs_of in Hn. cbn in Hn. destruct n as [| n].
      * apply (IH 0); [lia |]. cbn. left.
        assert (resolves_within p 0 (onThreadStarted_step s)) as Hs; [| by apply H0].
        apply run_step_resolves. left. by apply H0.
      * apply (IH n); [unfold runs_of; lia | by apply run_step_resolves].
    + apply (IH n); [unfold runs_of in *; by destruct op | by apply step_resolves].
Qed.

(** C30: A future of [postF] is resolved: once the worker runs, after as many of its steps
    as the tasks being run and queued and the posted function take, whatever else is
    posted meanwhile, whatever these tasks post, and even if the application is waiting
    for the exit of the loop. The same for the task [start] waits for: then [start] can
    return, and the loop counts as started. *)
Theorem postF_resolves ops item ops' :
  let s := loop_run ops EventLoop_make in
  d_thread s = TS_running →
  ahead (l_queue s) (l_frames s) + 2 + steps item.2 ≤ runs_of ops' →
  (let (p, s') := postF item s in LE_resolved p ∈ l_trace (loop_run ops' s')) ∧
  (l_start s = SP_created → item = loopStarted →
     ∃ p, l_start (start_post s) = SP_blocked p ∧ LE_resolved p ∈ l_trace (loop_run ops' (start_post s)) ∧
       (l_start (loop_run ops' (start_post s)) = SP_blocked p →
          d_started (loop_step (loop_run ops' (start_post s)) L_start_return) = true)).
Proof.
  intros s Ht Hn.
  assert (∀ i, i = item → resolves_within (l_promises s) (runs_of ops') (postF i s).2) as Hw.
  { intros i ->. right. split; [done |]. exists (l_queue s ++ [(item.1, then_resolve (l_promises s) item.2)]), []. cbn.
    split; [unfold l_queue; cbn; by rewrite queue_post, app_nil_r |]. split; [| right; eexists; split; [apply elem_of_app; right; left | apply then_resolve_owes]].
    unfold ahead in *. rewrite fmap_app, sum_list_app. cbn. rewrite then_resolve_steps. lia. }
  split; [apply (run_resolves (l_promises s) ops' (runs_of ops')); [lia | by apply (Hw item)] |].
  intros Hp Hi. exists (l_promises s). split; [done |].
  assert (LE_resolved (l_promises s) ∈ l_trace (loop_run ops' (start_post s))) as Hr.
  { apply (run_resolves (l_promises s) ops' (runs_of ops')); [lia |]. subst item. exact (Hw loopStarted eq_refl). }
  split; [done |]. intros Hb. cbn [loop_step]. rewrite Hb.
  assert (existsb (λ e, match e with LE_resolved q => Nat.eqb (l_promises s) q | _ => false end) (l_trace (loop_run ops' (start_post s))) = true) as ->; [| done].
  apply existsb_exists. eexists. split; [by apply list_elem_of_In |]. cbn. apply Nat.eqb_refl.
Qed.

(** ** The loop ends *)

(** What happens when nothing is posted from outside any more. *)
Definition winding_down (op : LoopOp) : Prop := op = L_run ∨ ∃ i, op = L_complete i.

Lemma sum_delete (f : Item → nat) l i x : l !! i = Some x → sum_list (f <$> l) = f x + sum_list (f <$> delete i l).
Proof.
  intros H. apply delete_Permutation in H. rewrite H at 1. by cbn.
Qed.

Lemma run_works s :
  loop_inv s → loop_work (onThreadStarted_step s) < loop_work s ∨
    (onThreadStarted_step s = s ∧
     (d_thread s = TS_running → l_frames s = [] ∧ l_queue s = [] ∧ (d_workGuard s = true ∨ l_pending s ≠ []))).
Proof.
  intros H. destruct (d_thread s) eqn:Ht; [by right; unfold onThreadStarted_step; rewrite Ht | | by right; unfold onThreadStarted_step; rewrite Ht].
  assert (d_exited s = false) as He.
  { destruct (d_exited s) eqn:E; [| done]. apply (li_exited _ H) in E. congruence. }
  destruct (l_frames s) as [| c fs] eqn:Hf.
  - destruct (idle_step s Ht Hf) as [(item & ctx & -> & Hq & Ho & _) | [(-> & Hq & Hb) | (-> & Hq & Hg & Hp)]]; [left | right; auto | left];
      unfold loop_work; rewrite Hf, Hq, He; unfold l_queue, l_pending in *; cbn; rewrite ?Ho, ?Hq, ?He, ?Hf; cbn; lia.
  - left. unfold onThreadStarted_step. rewrite Ht, Hf. unfold loop_work. rewrite Hf, He.
    destruct c; cbn [code_step]; rewrite ?dispatch_inside; loop_simpl; rewrite ?He, ?fmap_app, ?sum_list_app; cbn; lia.
Qed.

Lemma operation_works s i :
  loop_work (operation_completes i s) < loop_work s ∨ (operation_completes i s = s ∧ l_pending s !! i = None).
Proof.
  destruct (completes_cases i s) as [(item & ctx & Hi & -> & Hq & Ho & _) | [-> Hn]]; [left | by right].
  unfold loop_work. rewrite (sum_delete (λ i : Item, S (S (all_steps i.2))) _ _ _ Hi). unfold l_queue, l_pending in *. cbn.
  rewrite Hq, Ho, fmap_app, sum_list_app. cbn. lia.
Qed.

Lemma winding_down_works s op :
  loop_inv s → winding_down op → loop_work (loop_step s op) < loop_work s ∨ loop_step s op = s.
Proof.
  intros H [-> | [i ->]]; cbn [loop_step]; [destruct (run_works s H) | destruct (operation_works s i)]; intuition.
Qed.

Lemma winding_down_keeps s op :
  winding_down op → d_workGuard (loop_step s op) = d_workGuard s ∧ (d_thread s ≠ TS_none → d_thread (loop_step s op) ≠ TS_none).
Proof.
  intros H. split; [apply step_guard; by destruct H as [-> | [i ->]] |]. intros Hn.
  destruct H as [-> | [i ->]]; cbn [loop_step]; [| by destruct (completes_cases i s) as [(item & ctx & _ & -> & _) | [-> _]]].
  destruct (d_thread s) eqn:Ht; [done | | unfold onThreadStarted_step; rewrite Ht; congruence].
  destruct (l_frames s) as [| c fs] eqn:Hf.
  - destruct (idle_step s Ht Hf) as [(item & ctx & -> & _) | [(-> & _) | (-> & _)]]; cbn; congruence.
  - unfold onThreadStarted_step. rewrite Ht, Hf. destruct c; cbn [code_step]; rewrite ?dispatch_inside; cbn; congruence.
Qed.

Lemma quiet_exited s :
  loop_inv s → d_workGuard s = false → d_thread s ≠ TS_none → (∀ op, winding_down op → loop_step s op = s) → d_exited s = true.
Proof.
  intros H Hg Hn Hq. destruct (d_thread s) eqn:Ht; [done | | by apply (li_exited _ H)]. exfalso.
  pose proof (Hq L_run (or_introl eq_refl)) as Hr. cbn in Hr.
  destruct (run_works s H) as [Hlt | [_ Hb]]; [rewrite Hr in Hlt; lia |].
  destruct (Hb Ht) as (_ & _ & [? | Hp]); [congruence |]. destruct (l_pending s) as [| x l] eqn:Hl; [done |].
  pose proof (Hq (L_complete 0) (or_intror (ex_intro _ 0 eq_refl))) as Hc. cbn [loop_step] in Hc.
  destruct (operation_works s 0) as [Hlt | [_ Hb']]; [rewrite Hc in Hlt; lia | by rewrite Hl in Hb'].
Qed.

(** The steps that do something. *)
Fixpoint effective (ops : list LoopOp) (s : EventLoop) : Prop :=
  match ops with
  | [] => True
  | op :: ops => winding_down op ∧ loop_step s op ≠ s ∧ effective ops (loop_step s op)
  end.

Lemma effective_bounded ops : ∀ s, loop_inv s → effective ops s →
  length ops + loop_work (loop_run ops s) ≤ loop_work s ∧
  (d_thread s ≠ TS_none → d_thread (loop_run ops s) ≠ TS_none) ∧ d_workGuard (loop_run ops s) = d_workGuard s.
Proof.
  induction ops as [| op ops IH]; intros s H He; [cbn; lia || by split_and!; [lia | |] |]. destruct He as (Hw & Hne & He).
  destruct (IH _ (loop_step_inv s op H) He) as (Hl & Ht & Hg). destruct (winding_down_keeps s op Hw) as [Hg' Ht'].
  change (loop_run (op :: ops) s) with (loop_run ops (loop_step s op)). cbn [length].
  destruct (winding_down_works s op H Hw) as [Hlt |]; [| done]. split_and!; [lia | auto | congruence].
Qed.


End EventLoop.

(** ** A run *)

(** A context: its lists. *)
Record ListContext := mkListContext { lc_queue : list Item; lc_ops : list Item; lc_guarded : bool }.

#[export] Program Instance list_context : IoContext := {|
  io_context := ListContext;
  io_queue := lc_queue;
  io_ops := lc_ops;
  io_guarded := lc_guarded;
  io_make := mkListContext [] [] false;
  make_work_guard ctx := mkListContext (lc_queue ctx) (lc_ops ctx) true;
  reset_work_guard ctx := mkListContext (lc_queue ctx) (lc_ops ctx) false;
  io_post item ctx := mkListContext (lc_queue ctx ++ [item]) (lc_ops ctx) (lc_guarded ctx);
  io_dispatch inside item ctx :=
    if inside then None else Some (mkListContext (lc_queue ctx ++ [item]) (lc_ops ctx) (lc_guarded ctx));
  io_async item ctx := mkListContext (lc_queue ctx) (lc_ops ctx ++ [item]) (lc_guarded ctx);
  io_complete i ctx := mkListContext (lc_queue ctx ++ option_list (lc_ops ctx !! i)) (delete i (lc_ops ctx)) (lc_guarded ctx);
  io_run_one ctx :=
    match lc_queue ctx with
    | item :: q => R_handler item (mkListContext q (lc_ops ctx) (lc_guarded ctx))
    | [] => if lc_guarded ctx || negb (bool_decide (lc_ops ctx = [])) then R_waits else R_returns
    end;
|}.
Next Obligation. done. Qed.
Next Obligation. done. Qed.
Next Obligation. done. Qed.
Next Obligation. done. Qed.
Next Obligation. done. Qed.
Next Obligation. done. Qed.
Next Obligation. intros i item ctx H. cbn. by rewrite H. Qed.
Next Obligation.
  intros [[| item q] ops g]; cbn; [| done]. destruct g; cbn; [by split; [| left] |].
  destruct (bool_decide (ops = [])) eqn:E; cbn; [by apply bool_decide_eq_true in E | apply bool_decide_eq_false in E; auto].
Qed.

(** Two tasks are posted; the first posts another, dispatches one and starts an
    operation. *)
Definition busy_task : Item := (1, C_post 2 C_end (C_dispatch 3 C_end (C_async 4 C_end C_end))).

Definition loop_sample : EventLoop :=
  loop_run ([L_post busy_task; L_start 0; L_run; L_start_post; L_post (5, C_end)] ++ replicate 20 L_run ++ [L_start_return])
    EventLoop_make.

Lemma postF_resolves_witness :
  LE_resolved 0 ∈ l_trace (loop_run (replicate 8 L_run) (postF (7, C_end) (loop_run [L_start 0; L_post (6, C_end)] EventLoop_make)).2).
Proof.
  pose proof (postF_resolves [L_start 0; L_post (6, C_end)] (7, C_end) (replicate 8 L_run)) as H. cbv zeta in H.
  destruct (postF (7, C_end) _) as [p s'] eqn:Hp. assert (p = 0) as -> by (vm_compute in Hp; congruence).
  apply H; [reflexivity | vm_compute; lia].
Defined.

