(* ===== verification/Timer.v ===== *)
(** * Timer: a timer whose waits are cancelled and rearmed

    Models [rmqio::basic_AsioTimer] (rmqio_asiotimer.h) against the contract of
    [rmqio::Timer] (rmqio_timer.h). [startTimer] binds a copy of the callback to the wait
    it starts, so a wait calls the callback of the time it was started.

    [boost::asio::basic_waitable_timer] is not modelled: it is a class, [WaitableTimer],
    of operations with the laws its documentation gives them: a wait completes once, when
    its time is up or when it is cancelled, and its handler is called some time later; a
    handler that is waiting to be called is not affected by a later [cancel]. *)

From Stdlib Require Import ZArith Lia.
From stdpp Require Import base tactics list.
From S2P Require Import Prelude Heartbeat.

(** The [boost::system::error_code] a handler is called with. *)
Inductive WaitError := no_error | operation_aborted | other_error.

#[export] Instance WaitError_eq_dec : EqDecision WaitError.
Proof. solve_decision. Defined.

(** A wait with its handler, and how it completed, if it did: then its handler is to be
    called. *)
Notation AsyncWait H := (H * option WaitError)%type.

(** The wait completes, unless it has. *)
Definition complete_with {H} (e : WaitError) (w : AsyncWait H) : AsyncWait H :=
  (w.1, Some (default e w.2)).

(** [boost::asio::basic_waitable_timer]. The laws are on its waits, in the order they were
    started. *)
Class WaitableTimer := {
  waitable_timer : Type → Type;
  wt_waits {H} : waitable_timer H → list (AsyncWait H);

  wt_make {H} : waitable_timer H;
  wt_async_wait {H} : H → waitable_timer H → waitable_timer H;
  wt_cancel {H} : waitable_timer H → waitable_timer H;
  wt_expires_after {H} : Z → waitable_timer H → waitable_timer H;
  (* the waits under way complete by themselves *)
  wt_complete {H} : WaitError → waitable_timer H → waitable_timer H;
  (* the handler of a completed wait is taken to be called *)
  wt_take {H} : nat → waitable_timer H → option (H * WaitError * waitable_timer H);

  wt_make_spec {H} : wt_waits (H := H) wt_make = [];
  wt_async_wait_spec {H} (h : H) t : wt_waits (wt_async_wait h t) = wt_waits t ++ [(h, None)];
  wt_cancel_spec {H} (t : waitable_timer H) : wt_waits (wt_cancel t) = complete_with operation_aborted <$> wt_waits t;
  wt_expires_after_spec {H} d (t : waitable_timer H) :
    wt_waits (wt_expires_after d t) = complete_with operation_aborted <$> wt_waits t;
  wt_complete_spec {H} e (t : waitable_timer H) : wt_waits (wt_complete e t) = complete_with e <$> wt_waits t;
  wt_take_spec {H} i (t : waitable_timer H) :
    match wt_take i t with
    | Some (h, e, t') => wt_waits t !! i = Some (h, Some e) ∧ wt_waits t' = delete i (wt_waits t)
    | None => ∀ h e, wt_waits t !! i ≠ Some (h, Some e)
    end;
}.

Section Timer.
Context {WT : WaitableTimer} {C : Type}.

(** What [async_wait] is given is [handler_internal], bound to a copy of the callback. *)
Record Timer := mkTimer {
  d_callback : option C;
  d_timeout : Z;
  d_timer : waitable_timer (option C);
}.

Definition t_waits (t : Timer) : list (AsyncWait (option C)) := wt_waits (d_timer t).

Definition Timer_createWithTimeout (timeout : Z) : Timer := mkTimer None timeout wt_make.
Definition Timer_createWithCallback (callback : C) : Timer := mkTimer (Some callback) 0 wt_make.

Definition Timer_cancel (t : Timer) : Timer := mkTimer (d_callback t) (d_timeout t) (wt_cancel (d_timer t)).

Definition Timer_startTimer (t : Timer) : Timer :=
  mkTimer (d_callback t) (d_timeout t) (wt_async_wait (d_callback t) (wt_expires_after (d_timeout t) (d_timer t))).

Definition Timer_reset (timeout : Z) (t : Timer) : Timer :=
  match d_callback t with
  | None => t
  | Some _ => Timer_startTimer (mkTimer (d_callback t) timeout (d_timer t))
  end.

Definition Timer_resetCallback (callback : C) (t : Timer) : Timer :=
  mkTimer (Some callback) (d_timeout t) (d_timer t).

Definition Timer_start (callback : C) (t : Timer) : Timer :=
  Timer_startTimer (Timer_resetCallback callback t).

(** [handler]: the reason the callback is called with. *)
Definition handler_reason (error : WaitError) : InterruptReason :=
  match error with no_error => EXPIRE | operation_aborted | other_error => CANCEL end.

(** [handler_internal] is called: [alive] is what the weak pointer to the timer says. *)
Definition Timer_handler (alive : bool) (i : nat) (t : Timer) : option (C * InterruptReason) * Timer :=
  match wt_take i (d_timer t) with
  | Some (callback, error, timer) =>
      (if alive then (λ c, (c, handler_reason error)) <$> callback else None, mkTimer (d_callback t) (d_timeout t) timer)
  | None => (None, t)
  end.

(** The waits complete by themselves: their time is up, or they fail. *)
Definition waits_complete (e : WaitError) (t : Timer) : Timer :=
  mkTimer (d_callback t) (d_timeout t) (wt_complete e (d_timer t)).

Inductive TimerOp :=
| T_start (callback : C)
| T_reset (timeout : Z)
| T_resetCallback (callback : C)
| T_cancel
| T_complete (e : WaitError)
| T_handler (i : nat).

(** A timer with the calls of its callbacks. *)
Definition timer_step (s : list (C * InterruptReason) * Timer) (op : TimerOp) : list (C * InterruptReason) * Timer :=
  let (calls, t) := s in
  match op with
  | T_start callback => (calls, Timer_start callback t)
  | T_reset timeout => (calls, Timer_reset timeout t)
  | T_resetCallback callback => (calls, Timer_resetCallback callback t)
  | T_cancel => (calls, Timer_cancel t)
  | T_complete e => (calls, waits_complete e t)
  | T_handler i => let (call, t) := Timer_handler true i t in (calls ++ option_list call, t)
  end.

Definition timer_run (ops : list TimerOp) (s : list (C * InterruptReason) * Timer) := fold_left timer_step ops s.

(** ** What is counted *)

(** The callbacks waits were started with. *)
Definition armed (op : TimerOp) (t : Timer) : list C :=
  match op with
  | T_start callback => [callback]
  | T_reset _ => option_list (d_callback t)
  | _ => []
  end.

Fixpoint arms (ops : list TimerOp) (s : list (C * InterruptReason) * Timer) : list C :=
  match ops with [] => [] | op :: ops => armed op s.2 ++ arms ops (timer_step s op) end.

(** The callbacks whose call is still to come, the waits that have not completed, and
    those that completed for a reason. *)
Definition outstanding (t : Timer) : list C := omap fst (t_waits t).
Definition uncompleted (w : AsyncWait (option C)) : bool := match w.2 with None => true | Some _ => false end.
Definition waiting (t : Timer) : list (AsyncWait (option C)) := List.filter uncompleted (t_waits t).

Definition same_reason (r r' : InterruptReason) : bool :=
  match r, r' with EXPIRE, EXPIRE | CANCEL, CANCEL => true | _, _ => false end.
Definition completed (r : InterruptReason) (w : AsyncWait (option C)) : bool :=
  match w.2 with Some e => same_reason r (handler_reason e) | None => false end.
Definition called (r : InterruptReason) (call : C * InterruptReason) : bool := same_reason r call.2.

Definition tally (r : InterruptReason) (s : list (C * InterruptReason) * Timer) : nat :=
  length (List.filter (called r) s.1) + length (List.filter (completed r) (t_waits s.2)).

(** An operation that makes waits complete for the reason. *)
Definition causes (r : InterruptReason) (op : TimerOp) : bool :=
  match op with
  | T_start _ | T_reset _ | T_cancel => same_reason r CANCEL
  | T_complete e => same_reason r (handler_reason e)
  | T_resetCallback _ | T_handler _ => false
  end.

(** ** The waits *)

Lemma waits_cancel t : t_waits (Timer_cancel t) = complete_with operation_aborted <$> t_waits t.
Proof. apply wt_cancel_spec. Qed.
Lemma waits_start t :
  t_waits (Timer_startTimer t) = (complete_with operation_aborted <$> t_waits t) ++ [(d_callback t, None)].
Proof. unfold t_waits. cbn. by rewrite wt_async_wait_spec, wt_expires_after_spec. Qed.
Lemma waits_completed e t : t_waits (waits_complete e t) = complete_with e <$> t_waits t.
Proof. apply wt_complete_spec. Qed.

Lemma Timer_handler_cases alive i t :
  (∃ cb e t', t_waits t !! i = Some (cb, Some e) ∧ t_waits t' = delete i (t_waits t) ∧
     d_callback t' = d_callback t ∧ d_timeout t' = d_timeout t ∧
     Timer_handler alive i t = (if alive then (λ c, (c, handler_reason e)) <$> cb else None, t')) ∨
  (Timer_handler alive i t = (None, t) ∧ ∀ cb e, t_waits t !! i ≠ Some (cb, Some e)).
Proof.
  unfold Timer_handler, t_waits. pose proof (wt_take_spec i (d_timer t)) as H.
  destruct (wt_take i (d_timer t)) as [[[cb e] w] |]; [left | by right].
  exists cb, e, (mkTimer (d_callback t) (d_timeout t) w). by destruct H.
Qed.

Section Complete.
Context (e : WaitError).
Implicit Types (l : list (AsyncWait (option C))).

Lemma omap_complete l : omap fst (complete_with e <$> l) = omap fst l.
Proof. induction l as [| w l IH]; [done |]. cbn. by rewrite IH. Qed.

Lemma waiting_complete l : List.filter uncompleted (complete_with e <$> l) = [].
Proof. induction l as [| w l IH]; [done |]. exact IH. Qed.

Lemma completed_complete r l :
  length (List.filter (completed r) (complete_with e <$> l)) =
  length (List.filter (completed r) l) + (if same_reason r (handler_reason e) then length (List.filter uncompleted l) else 0).
Proof.
  induction l as [| [cb e'] l IH]; [by destruct (same_reason _ _) |]. rewrite fmap_cons. cbn [List.filter].
  destruct e' as [e' |].
  - change (completed r (complete_with e (cb, Some e'))) with (same_reason r (handler_reason e')).
    change (completed r (cb, Some e')) with (same_reason r (handler_reason e')).
    destruct (same_reason r (handler_reason e')); cbn [length]; rewrite IH; cbn; lia.
  - change (completed r (complete_with e (cb, None))) with (same_reason r (handler_reason e)).
    destruct (same_reason r (handler_reason e)); cbn [length]; rewrite IH; cbn; lia.
Qed.
End Complete.

Lemma filter_delete {A} (f : A → bool) (l : list A) i x :
  l !! i = Some x → length (List.filter f l) = (if f x then 1 else 0) + length (List.filter f (delete i l)).
Proof.
  revert i. induction l as [| y l IH]; intros [| i] Hx; [done | done | |]; cbn in Hx.
  - injection Hx as ->. change (delete 0 (x :: l)) with l. cbn. by destruct (f x).
  - specialize (IH i Hx). change (delete (S i) (y :: l)) with (y :: delete i l). cbn. destruct (f y); cbn; lia.
Qed.

(** ** The invariant *)

(** Every wait has a callback, and at most one wait has not completed. *)
Definition timer_inv (t : Timer) : Prop :=
  Forall (λ w : AsyncWait (option C), is_Some w.1) (t_waits t) ∧ length (waiting t) ≤ 1.

(** What a step does to the calls made and to come. *)
Record step_spec (s s' : list (C * InterruptReason) * Timer) (op : TimerOp) : Prop := {
  ss_inv : timer_inv s'.2;
  ss_calls : s'.1.*1 ++ outstanding s'.2 ≡ₚ s.1.*1 ++ outstanding s.2 ++ armed op s.2;
  ss_tally r : tally r s' ≤ tally r s + (if causes r op then 1 else 0);
}.

Lemma complete_spec e calls t t' op :
  timer_inv t → armed op t = [] → t_waits t' = complete_with e <$> t_waits t →
  (∀ r, same_reason r (handler_reason e) = true → causes r op = true) → step_spec (calls, t) (calls, t') op.
Proof.
  intros [Hf Hw] Ha Ht Hc. split; cbn.
  - split; [rewrite Ht; by apply Forall_fmap |]. unfold waiting. rewrite Ht, waiting_complete. cbn. lia.
  - unfold outstanding. by rewrite Ht, omap_complete, Ha, app_nil_r.
  - intros r. unfold tally, waiting in *. cbn. rewrite Ht, completed_complete. specialize (Hc r).
    destruct (same_reason r (handler_reason e)); [rewrite Hc by done |]; lia.
Qed.

Lemma start_spec calls t t' op cb :
  timer_inv t → armed op t = [cb] → t_waits t' = (complete_with operation_aborted <$> t_waits t) ++ [(Some cb, None)] →
  (∀ r, causes r op = same_reason r CANCEL) → step_spec (calls, t) (calls, t') op.
Proof.
  intros [Hf Hw] Ha Ht Hc. split; cbn.
  - split; [rewrite Ht; apply Forall_app; split; [by apply Forall_fmap | by repeat constructor] |].
    unfold waiting. rewrite Ht, List.filter_app, waiting_complete. cbn. lia.
  - unfold outstanding. by rewrite Ht, omap_app, omap_complete, Ha.
  - intros r. unfold tally, waiting in *. cbn. rewrite Ht, List.filter_app, length_app, completed_complete, Hc. cbn.
    destruct (same_reason r CANCEL); lia.
Qed.

Lemma handler_spec calls t i :
  timer_inv t → step_spec (calls, t) (timer_step (calls, t) (T_handler i)) (T_handler i).
Proof.
  intros Hi. cbn [timer_step].
  destruct (Timer_handler_cases true i t) as [(cb & e & t' & Hl & Ht & _ & _ & ->) | [-> _]];
    [| split; cbn; rewrite ?app_nil_r; [done | done | intros r; lia]].
  destruct Hi as [Hf Hw]. pose proof Hf as Hf'. rewrite Forall_lookup in Hf'. destruct (Hf' i _ Hl) as [c Hc]. cbn in Hc. subst cb.
  split; cbn.
  - unfold timer_inv, waiting in *. rewrite Ht. split; [by apply Forall_delete |].
    pose proof (filter_delete uncompleted _ _ _ Hl). lia.
  - rewrite fmap_app, <- app_assoc, app_nil_r. cbn. f_equiv. unfold outstanding. rewrite Ht.
    by rewrite (delete_Permutation (t_waits t) i _ Hl) at 2.
  - intros r. unfold tally. cbn. rewrite List.filter_app, length_app, Ht. pose proof (filter_delete (completed r) _ _ _ Hl) as Hd.
    change (completed r (Some c, Some e)) with (same_reason r (handler_reason e)) in Hd. cbn [option_list List.filter].
    change (called r (c, handler_reason e)) with (same_reason r (handler_reason e)).
    destruct (same_reason r (handler_reason e)); cbn [length] in *; lia.
Qed.

Lemma timer_step_spec op calls t : timer_inv t → step_spec (calls, t) (timer_step (calls, t) op) op.
Proof.
  intros Hi. destruct op as [cb | d | cb | | e | i]; [| | | | | by apply handler_spec]; cbn [timer_step].
  - apply (start_spec _ _ _ _ cb); [done | done | apply waits_start | done].
  - unfold Timer_reset. destruct (d_callback t) as [cb |] eqn:Hc.
    + apply (start_spec _ _ _ _ cb); [done | cbn; by rewrite Hc | rewrite waits_start; cbn; done | done].
    + split; cbn; rewrite ?Hc; cbn; rewrite ?app_nil_r; [done | done | intros r; apply Nat.le_add_r].
  - split; cbn; rewrite ?app_nil_r; [done | done | intros r; apply Nat.le_add_r].
  - eapply complete_spec; [done | done | apply waits_cancel | done].
  - apply (complete_spec e); [done | done | apply waits_completed | done].
Qed.

Lemma run_timer ops : ∀ s, timer_inv s.2 →
  let s' := timer_run ops s in
  timer_inv s'.2 ∧ s'.1.*1 ++ outstanding s'.2 ≡ₚ s.1.*1 ++ outstanding s.2 ++ arms ops s ∧
  ∀ r, tally r s' ≤ tally r s + length (List.filter (causes r) ops).
Proof.
  induction ops as [| op ops IH]; intros [calls t] Hi; cbn [arms].
  - rewrite app_nil_r. split_and!; [done | done |]. intros r. cbn. lia.
  - destruct (timer_step_spec op calls t Hi) as [Hi' Hp Ht]. destruct (IH _ Hi') as (Hi'' & Hp' & Ht').
    change (timer_run (op :: ops) (calls, t)) with (timer_run ops (timer_step (calls, t) op)). cbv zeta.
    split_and!; [done | rewrite Hp', app_assoc, Hp; cbn [fst snd]; by rewrite <- !app_assoc |].
    intros r. specialize (Ht r). specialize (Ht' r). cbn [List.filter]. destruct (causes r op); cbn [length]; lia.
Qed.

(** When the waits of a timer are over, its handlers are called one after the other. *)
Definition pending_call (w : AsyncWait (option C)) : option (C * InterruptReason) :=
  match w with (Some c, Some e) => Some (c, handler_reason e) | _ => None end.

Lemma drain_timer ws : ∀ calls t, t_waits t = ws → Forall (λ w, is_Some (pending_call w)) ws →
  let s := timer_run (repeat (T_handler 0) (length ws)) (calls, t) in
  s.1 = calls ++ omap pending_call ws ∧ t_waits s.2 = [].
Proof.
  induction ws as [| w ws IH]; intros calls t Hw Hc; [by rewrite app_nil_r |].
  apply Forall_cons in Hc as [[call Hcall] Hc]. cbn [length repeat].
  change (timer_run (T_handler 0 :: repeat (T_handler 0) (length ws)) (calls, t))
    with (timer_run (repeat (T_handler 0) (length ws)) (timer_step (calls, t) (T_handler 0))).
  destruct w as [[c |] [e |]]; cbn in Hcall; try done. injection Hcall as <-. cbn [timer_step].
  destruct (Timer_handler_cases true 0 t) as [(cb & e' & t' & Hl & Ht & _ & _ & ->) | [_ Hn]]; [| exfalso; apply (Hn (Some c) e); by rewrite Hw].
  rewrite Hw in Hl, Ht. injection Hl as <- <-. destruct (IH (calls ++ option_list (Some (c, handler_reason e))) t' Ht Hc) as [Hcalls Hno].
  split; [| exact Hno]. etrans; [exact Hcalls |]. cbn. by rewrite <- app_assoc.
Qed.

Lemma cancelled_pending t :
  timer_inv t → Forall (λ w, is_Some (pending_call w)) (t_waits (Timer_cancel t)).
Proof.
  intros [Hf _]. rewrite waits_cancel. apply Forall_fmap. eapply Forall_impl; [exact Hf |].
  intros [[c |] e] Hw; cbn; [by eexists | by destruct Hw].
Qed.

Lemma cancelled_calls t :
  timer_inv t → waiting t = t_waits t →
  omap pending_call (t_waits (Timer_cancel t)) = (λ c, (c, CANCEL)) <$> outstanding t.
Proof.
  intros [Hf _] Hw. rewrite waits_cancel. unfold waiting, outstanding in *. assert (Forall (λ w, uncompleted w = true) (t_waits t)) as Hu.
  { rewrite <- Hw. apply Forall_forall. intros w Hin. apply list_elem_of_In, List.filter_In in Hin. by destruct Hin. }
  clear Hw. revert Hf Hu. generalize (t_waits t) as l. induction l as [| [[c |] [e |]] l IH]; intros Hf Hu; [done | ..];
    apply Forall_cons in Hf as [Hs Hf]; apply Forall_cons in Hu as [Hx Hu]; cbn in *; try done; try (by rewrite IH); by destruct Hs.
Qed.

(** A handler that waits to be called when the timer is cancelled is called, with the
    result of its wait. *)
Lemma expired_wait_survives_cancel c i t :
  t_waits t !! i = Some (Some c, Some no_error) → (Timer_handler true i (Timer_cancel t)).1 = Some (c, EXPIRE).
Proof.
  intros Hl. assert (t_waits (Timer_cancel t) !! i = Some (Some c, Some no_error)) as Hl'.
  { rewrite waits_cancel, list_lookup_fmap, Hl. done. }
  destruct (Timer_handler_cases true i (Timer_cancel t)) as [(cb & e & t' & Hx & _ & _ & _ & ->) | [_ Hn]]; [| by apply Hn in Hl'].
  rewrite Hl' in Hx. by injection Hx as <- <-.
Qed.

(** C31: A timer calls back once for every time it was started. In any sequence of calls,
    completed waits and called handlers: the callbacks that were called, with those whose
    call is still to come, are those the timer was started or reset with, each as often,
    whatever callback was set since; [reset] before the first [start] does nothing. At
    most one wait is under way. There are no more calls for EXPIRE than there were times
    the timeout elapsed, and no more for CANCEL than there were calls of [start], [reset]
    and [cancel] and failures of a wait. After [cancel] all the calls that are still to
    come are made by the handlers then waiting; if no handler was waiting when the timer
    was cancelled, this is at most one call, for CANCEL. A timer that was destroyed calls
    nothing. *)
Theorem timer_calls_back_once ops t0 :
  (∃ timeout, t0 = Timer_createWithTimeout timeout) ∨ (∃ callback, t0 = Timer_createWithCallback callback) →
  let s := timer_run ops ([], t0) in
  let (calls, t) := s in
  calls.*1 ++ outstanding t ≡ₚ arms ops ([], t0) ∧
  length (waiting t) ≤ 1 ∧
  (∀ r, length (List.filter (called r) calls) ≤ length (List.filter (causes r) ops)) ∧
  (let (calls', t') := timer_run (T_cancel :: repeat (T_handler 0) (length (t_waits t))) s in
   outstanding t' = [] ∧ calls'.*1 ≡ₚ arms ops ([], t0) ∧
   (waiting t = t_waits t → length (outstanding t) ≤ 1 ∧ calls' = calls ++ ((λ c, (c, CANCEL)) <$> outstanding t))) ∧
  (∀ i, (Timer_handler false i t).1 = None).
Proof.
  intros Ht0. assert (t_waits t0 = []) as Ho0 by (destruct Ht0 as [[d ->] | [c ->]]; apply wt_make_spec).
  assert (timer_inv t0) as Hi0 by (unfold timer_inv, waiting; rewrite Ho0; split; [done | exact (Nat.le_0_l 1)]).
  destruct (run_timer ops ([], t0) Hi0) as (Hi & Hp & Hr). cbv zeta. destruct (timer_run ops ([], t0)) as [calls t]. cbn [fst snd] in *.
  unfold outstanding at 2 in Hp. rewrite Ho0 in Hp. split_and!; [exact Hp | apply Hi | | |].
  - intros r. specialize (Hr r). unfold tally in Hr. cbn in Hr. rewrite Ho0 in Hr. cbn in Hr. lia.
  - change (timer_run (T_cancel :: ?ops) (calls, t)) with (timer_run ops (calls, Timer_cancel t)).
    replace (length (t_waits t)) with (length (t_waits (Timer_cancel t))) by (by rewrite waits_cancel, length_fmap).
    destruct (drain_timer _ calls (Timer_cancel t) eq_refl (cancelled_pending t Hi)) as [Hc Hw].
    destruct (run_timer (repeat (T_handler 0) (length (t_waits (Timer_cancel t)))) (calls, Timer_cancel t)) as (_ & Hp' & _).
    { by apply (timer_step_spec T_cancel calls t). }
    destruct (timer_run _ (calls, Timer_cancel t)) as [calls' t']. cbn [fst snd] in *. unfold outstanding at 1 in Hp'. rewrite Hw in Hp'.
    assert (outstanding t' = []) as Ho' by (unfold outstanding; by rewrite Hw).
    split; [done |]. split.
    + rewrite <- Hp. cbn in Hp'. rewrite app_nil_r in Hp'. rewrite Hp'. unfold outstanding at 1. rewrite waits_cancel, omap_complete.
      assert (∀ n s, arms (repeat (T_handler 0) n) s = []) as -> by (intros n; induction n as [| n IH]; intros s; [done | apply IH]).
      by rewrite app_nil_r.
    + intros Hall. split; [| by rewrite Hc, cancelled_calls].
      destruct Hi as [_ Hw1]. rewrite Hall in Hw1. unfold outstanding. etrans; [| exact Hw1]. clear.
      induction (t_waits t) as [| [[c |] e] l IH]; cbn; lia.
  - intros i. by destruct (Timer_handler_cases false i t) as [(cb & e & t' & _ & _ & _ & _ & ->) | [-> _]].
Qed.
End Timer.

Arguments Timer {WT} C.

(** ** A run *)

(** A waitable timer: its waits. *)
Definition list_take {H} (i : nat) (t : list (AsyncWait H)) : option (H * WaitError * list (AsyncWait H)) :=
  match t !! i with Some (h, Some e) => Some (h, e, delete i t) | _ => None end.

#[export] Program Instance list_timer : WaitableTimer := {|
  waitable_timer H := list (AsyncWait H);
  wt_waits _ t := t;
  wt_make _ := [];
  wt_async_wait _ h t := t ++ [(h, None)];
  wt_cancel _ t := complete_with operation_aborted <$> t;
  wt_expires_after _ _ t := complete_with operation_aborted <$> t;
  wt_complete _ e t := complete_with e <$> t;
  wt_take _ i t := list_take i t;
|}.
Next Obligation. done. Qed.
Next Obligation. done. Qed.
Next Obligation. done. Qed.
Next Obligation. done. Qed.
Next Obligation. done. Qed.
Next Obligation. intros H i t. unfold list_take. destruct (t !! i) as [[h [e |]] |]; by intros. Qed.

(** Started; the timeout elapses; started again, with another callback set, and cancelled. *)
Definition sample_timer_ops : list (TimerOp (C := nat)) :=
  [T_reset 1; T_start 1; T_complete no_error; T_handler 0; T_start 2; T_resetCallback 3; T_cancel; T_handler 0].

Lemma timer_calls_back_once_witness :
  timer_run sample_timer_ops ([], Timer_createWithTimeout 5) = ([(1, EXPIRE); (2, CANCEL)], mkTimer (Some 3) 5 []) ∧
  [1; 2] ≡ₚ arms sample_timer_ops ([], Timer_createWithTimeout 5).
Proof.
  split; [reflexivity |].
  pose proof (timer_calls_back_once sample_timer_ops (Timer_createWithTimeout 5) ltac:(left; by exists 5%Z)) as H.
  exact (proj1 H).
Defined.
