(* ===== verification/ClientConnection.v ===== *)
(** * ClientConnection: the application's handle of a connection

    Models [rmqa::ConnectionImpl] (rmqa_connectionimpl.cpp): what it checks before a
    producer or consumer is created, and how it closes the [rmqamqp::Connection] it
    holds. Equality of exchanges and of the values in their arguments is [operator==] of
    rmqt_exchange.cpp and rmqt_fieldvalue.cpp.

    Closing is a matter of ownership. [doClose] gives up the connection to a timer whose
    callback owns both the connection and the timer itself; the connection is told to
    close by a task posted to the event loop, which owns it too. The model counts these
    owners: the timer is the one of Timer.v, over any [WaitableTimer]; every step ends with the objects that lost
    their last owner being destroyed, and owners elsewhere (the event loop's handlers, a
    future's cancel function) are a number that may grow while the connection exists. *)

From Stdlib Require Import ZArith Lia String Strings.Byte.
From stdpp Require Import base tactics list gmap.
From S2P Require Import Prelude FieldValue Topology Retry Heartbeat Timer Future.

Section ClientConnection.
Context {E : EpochUtil} {WT : WaitableTimer}.

(** ** [operator==] *)

(** IEEE 754 equality, of bit patterns with [m] bits of mantissa and [x] of exponent:
    NaNs differ from everything, zeros are equal. *)
Definition is_nan (m x bits : Z) : bool :=
  (Z.land (Z.shiftr bits m) (2 ^ x - 1) =? 2 ^ x - 1)%Z && negb (Z.land bits (2 ^ m - 1) =? 0)%Z.
Definition is_zero (m x bits : Z) : bool := (Z.land bits (2 ^ (m + x) - 1) =? 0)%Z.
Definition float_eqb (m x a b : Z) : bool :=
  negb (is_nan m x a) && negb (is_nan m x b) && ((a =? b)%Z || is_zero m x a && is_zero m x b).

Fixpoint FieldValue_eqb (left right : FieldValue) : bool :=
  match left, right with
  | FV_unset, FV_unset => true
  | FV_bool a, FV_bool b => Bool.eqb a b
  | FV_int8 a, FV_int8 b | FV_uint8 a, FV_uint8 b | FV_int16 a, FV_int16 b | FV_uint16 a, FV_uint16 b
  | FV_int32 a, FV_int32 b | FV_uint32 a, FV_uint32 b | FV_int64 a, FV_int64 b | FV_uint64 a, FV_uint64 b => (a =? b)%Z
  | FV_float a, FV_float b => float_eqb 23 8 a b
  | FV_double a, FV_double b => float_eqb 52 11 a b
  | FV_string a, FV_string b | FV_bytes a, FV_bytes b => bool_decide (a = b)
  | FV_datetime a, FV_datetime b => bool_decide (a = b)
  | FV_array a, FV_array b =>
      (fix go (a b : list FieldValue) : bool :=
         match a, b with
         | [], [] => true
         | x :: a, y :: b => FieldValue_eqb x y && go a b
         | _, _ => false
         end) a b
  | FV_table a, FV_table b =>
      (fix go (a b : list (bytes * FieldValue)) : bool :=
         match a, b with
         | [], [] => true
         | (k, x) :: a, (k', y) :: b => bool_decide (k = k') && FieldValue_eqb x y && go a b
         | _, _ => false
         end) a b
  | _, _ => false
  end.

Definition Exchange_eqb (lhs rhs : rmqt_Exchange) : bool :=
  bool_decide (exchange_name lhs = exchange_name rhs) && Bool.eqb (exchange_passive lhs) (exchange_passive rhs) &&
  bool_decide (exchange_type lhs = exchange_type rhs) && Bool.eqb (exchange_autoDelete lhs) (exchange_autoDelete rhs) &&
  Bool.eqb (exchange_durable lhs) (exchange_durable rhs) && Bool.eqb (exchange_internal lhs) (exchange_internal rhs) &&
  FieldValue_eqb (FV_table (exchange_args lhs)) (FV_table (exchange_args rhs)).

(** ** Creating producers and consumers *)

(** The tunable for infinite immediate retries. *)
Definition IIR : bytes := str "IIR".

Definition createRetryHandler {CB} (tunables : list bytes) : RetryHandler BackoffStrategy CB :=
  if bool_decide (IIR ∈ tunables) then RetryHandler_make (Backoff_make (2 ^ 32 - 1) 1 60)
  else RetryHandler_make Backoff_default.

(** [setupProducer], [setupConsumer]: what becomes of the channel; [start] is the
    consumer's. *)
Definition setupProducer {V W} (create : option V → W) (sendChannel : Result (V := V)) : Result (V := W) :=
  if Result_ok sendChannel then Result_value (create (r_value sendChannel))
  else Result_error (r_error sendChannel) (r_code sendChannel).

Definition setupConsumer {V W U} (create : option V → W) (start : W → Result (V := U)) (receiveChannel : Result (V := V))
    : Result (V := W) :=
  if Result_ok receiveChannel then
    let consumer := create (r_value receiveChannel) in
    let result := start consumer in
    if Result_ok result then Result_value consumer else Result_error (r_error result) (r_code result)
  else Result_error (r_error receiveChannel) (r_code receiveChannel).

(** ** The connection and its owners *)

(** The callbacks the timer can have; the first is bound to the timer and the connection. *)
Inductive CloseTimerCallback := gracefulCloseTimeout | noopTimerHandler.

(** Tasks posted to the event loop, which are bound to the connection: [Connection::close]
    and the creation of a channel. *)
Inductive LoopTask := L_close | L_createChannel.

Inductive ClientEvent :=
| CE_closePosted
| CE_channelPosted
| CE_closed                  (* [Connection::close] is called *)
| CE_interrupted (reason : InterruptReason)
| CE_destroyed.

Record Client := mkClient {
  d_connection : bool;
  c_loop : list LoopTask;
  c_timer : option (Timer CloseTimerCallback);
  c_closeCb : bool;
  c_others : nat;
  c_alive : bool;
  c_trace : list ClientEvent;
}.

Definition c_set_connection (b : bool) (c : Client) : Client :=
  mkClient b (c_loop c) (c_timer c) (c_closeCb c) (c_others c) (c_alive c) (c_trace c).
Definition c_set_loop (l : list LoopTask) (c : Client) : Client :=
  mkClient (d_connection c) l (c_timer c) (c_closeCb c) (c_others c) (c_alive c) (c_trace c).
Definition c_set_timer (t : option (Timer CloseTimerCallback)) (c : Client) : Client :=
  mkClient (d_connection c) (c_loop c) t (c_closeCb c) (c_others c) (c_alive c) (c_trace c).
Definition c_set_closeCb (b : bool) (c : Client) : Client :=
  mkClient (d_connection c) (c_loop c) (c_timer c) b (c_others c) (c_alive c) (c_trace c).
Definition c_set_others (n : nat) (c : Client) : Client :=
  mkClient (d_connection c) (c_loop c) (c_timer c) (c_closeCb c) n (c_alive c) (c_trace c).
Definition c_set_alive (b : bool) (c : Client) : Client :=
  mkClient (d_connection c) (c_loop c) (c_timer c) (c_closeCb c) (c_others c) b (c_trace c).
Definition c_emit (e : ClientEvent) (c : Client) : Client :=
  mkClient (d_connection c) (c_loop c) (c_timer c) (c_closeCb c) (c_others c) (c_alive c) (c_trace c ++ [e]).

(** [ConnectionImpl::make], with the connection's other owners. *)
Definition ConnectionImpl_make (others : nat) : Client := mkClient true [] None false others true [].

Definition binds (cb : option CloseTimerCallback) : nat :=
  match cb with Some gracefulCloseTimeout => 1 | _ => 0 end.

(** The copies of the callback bound to the timer's waits. *)
Definition wait_owners (t : Timer CloseTimerCallback) : nat :=
  sum_list ((λ w : AsyncWait (option CloseTimerCallback), binds w.1) <$> t_waits t).

(** The callbacks that own the timer and the connection: the timer's, and those. *)
Definition timer_owners (t : option (Timer CloseTimerCallback)) : nat :=
  match t with
  | Some t => binds (d_callback t) + wait_owners t
  | None => 0
  end.

Definition connection_owners (c : Client) : nat :=
  (if d_connection c then 1 else 0) + length (c_loop c) + timer_owners (c_timer c) + c_others c.

Definition cancelCloseTimer (c : Client) : Client :=
  match c_timer c with
  | Some timer => c_set_timer (Some (Timer_cancel (Timer_resetCallback noopTimerHandler timer))) c
  | None => c
  end.

(** What lost its last owner is destroyed; [~Connection] calls [d_closeCb]. *)
Definition client_sweep (c : Client) : Client :=
  let c :=
    if c_alive c && Nat.eqb (connection_owners c) 0 then
      let c := c_emit CE_destroyed (c_set_alive false c) in
      if c_closeCb c then c_set_closeCb false (cancelCloseTimer c) else c
    else c in
  if Nat.eqb (timer_owners (c_timer c)) 0 then c_set_timer None c else c.

Definition GRACEFUL_CLOSE_TIMEOUT_SEC : Z := 5.

Definition doClose (c : Client) : Client :=
  if d_connection c then
    let timer := Timer_createWithTimeout (ofSeconds GRACEFUL_CLOSE_TIMEOUT_SEC) in
    let c := c_set_timer (Some (Timer_start gracefulCloseTimeout timer)) c in
    let c := c_emit CE_closePosted (c_set_loop (c_loop c ++ [L_close]) c) in
    c_set_connection false c
  else c.

(** ** The checks *)

Inductive Created := Created_error (error : bytes) | Created_pending.

Definition postChannel (c : Client) : Client := c_emit CE_channelPosted (c_set_loop (c_loop c ++ [L_createChannel]) c).

(** [*element == *exchange], of exchanges at addresses of the heap *)
Definition DoesExist (hp : Heap) (element exchange : ExchangeHandle) : bool :=
  bool_decide (element = exchange) ||
  match lockExchange hp element, lockExchange hp exchange with
  | Some x, Some y => Exchange_eqb x y
  | _, _ => false
  end.

(** [exchanges] are the addresses in [topology.exchanges]. *)
Definition createProducerAsync (hp : Heap) (exchanges : list ExchangeHandle) (exchangeHandle : ExchangeHandle) (c : Client)
    : Created * Client :=
  match lockExchange hp exchangeHandle with
  | exchange =>
      if negb (d_connection c) then (Created_error (str "close() has been called"), c)
      else
        match exchange with
        | None => (Created_error (str "Exchange is not valid"), c)
        | Some _ =>
            match List.find (λ element, DoesExist hp element exchangeHandle) exchanges with
            | None => (Created_error (str "Exchange does not exist in the topology"), c)
            | Some _ => (Created_pending, postChannel c)
            end
        end
  end.

Definition createConsumerAsync (c : Client) : Created * Client :=
  if negb (d_connection c) then (Created_error (str "close() has been called"), c)
  else (Created_pending, postChannel c).

(** ** Steps *)

(** The application closes or destroys the [ConnectionImpl] or creates something with it;
    the event loop runs its next task; the connection calls [d_closeCb]; the timer
    expires, the handler of a wait is called; other owners come and go. *)
Inductive ClientOp :=
| C_close
| C_createProducer (hp : Heap) (exchanges : list ExchangeHandle) (exchangeHandle : ExchangeHandle)
| C_createConsumer
| C_task
| C_closeFinished
| C_expire
| C_handler (i : nat)
| C_acquire
| C_release.

Definition client_act (op : ClientOp) (c : Client) : Client :=
  match op with
  | C_close => doClose c
  | C_createProducer hp exchanges exchangeHandle => (createProducerAsync hp exchanges exchangeHandle c).2
  | C_createConsumer => (createConsumerAsync c).2
  | C_task =>
      match c_loop c with
      | [] => c
      | L_close :: ts => c_emit CE_closed (c_set_closeCb true (c_set_loop ts c))
      | L_createChannel :: ts => c_set_loop ts c
      end
  | C_closeFinished => if c_alive c && c_closeCb c then c_set_closeCb false (cancelCloseTimer c) else c
  | C_expire => c_set_timer (waits_complete no_error <$> c_timer c) c
  | C_handler i =>
      match c_timer c with
      | Some timer =>
          let (call, timer') := Timer_handler true i timer in
          match call with
          | Some (gracefulCloseTimeout, reason) =>
              c_emit (CE_interrupted reason) (c_set_timer (Some (Timer_resetCallback noopTimerHandler timer')) c)
          | _ => c_set_timer (Some timer') c
          end
      | None => c
      end
  | C_acquire => if c_alive c then c_set_others (S (c_others c)) c else c
  | C_release => c_set_others (pred (c_others c)) c
  end.

Definition client_step (c : Client) (op : ClientOp) : Client := client_sweep (client_act op c).

Definition client_run (ops : list ClientOp) (c : Client) : Client := fold_left client_step ops c.
End ClientConnection.

(** ** The invariant of closing *)

Section Closing.
Context {E : EpochUtil} {WT : WaitableTimer}.
Implicit Types (c : Client) (op : ClientOp (E := E)).

Definition is_closePosted (e : ClientEvent) : bool := match e with CE_closePosted => true | _ => false end.
Definition is_closed (e : ClientEvent) : bool := match e with CE_closed => true | _ => false end.
Definition is_destroyed (e : ClientEvent) : bool := match e with CE_destroyed => true | _ => false end.
Definition is_close (t : LoopTask) : bool := match t with L_close => true | L_createChannel => false end.

Definition count {A} (p : A → bool) (l : list A) : nat := length (List.filter p l).

Lemma count_app {A} (p : A → bool) l l' : count p (l ++ l') = count p l + count p l'.
Proof. unfold count. by rewrite List.filter_app, length_app. Qed.

#[local] Arguments count : simpl never.

(** Counts of events, from those before a step. *)
Ltac counts := intros; cbn; rewrite ?count_app; unfold count in *; cbn in *; lia.

(** The timer waits, or was told to forget its callback; its last wait may be over. *)
Inductive close_shape : option CloseTimerCallback → list (AsyncWait (option CloseTimerCallback)) → Prop :=
| shape_set st : close_shape (Some gracefulCloseTimeout) [(Some gracefulCloseTimeout, st)]
| shape_cancelled e : close_shape (Some noopTimerHandler) [(Some gracefulCloseTimeout, Some e)]
| shape_over : close_shape (Some noopTimerHandler) [].

Definition timer_shape (t : Timer CloseTimerCallback) : Prop := close_shape (Timer.d_callback t) (t_waits t).

(** What holds at any time in the life of the connection. *)
Record client_living c : Prop := {
  cl_timer : ∀ t, c_timer c = Some t → timer_shape t;
  cl_open : d_connection c = true →
    c_timer c = None ∧ c_closeCb c = false ∧ count is_close (c_loop c) = 0 ∧
    count is_closePosted (c_trace c) = 0 ∧ count is_closed (c_trace c) = 0;
  cl_shut : d_connection c = false →
    count is_closePosted (c_trace c) = 1 ∧ count is_close (c_loop c) + count is_closed (c_trace c) = 1;
  cl_there : c_alive c = true;
  cl_not_destroyed : count is_destroyed (c_trace c) = 0;
}.

(** The connection has gone, and with it everything it was closed with. *)
Definition client_dead c : Prop :=
  d_connection c = false ∧ c_loop c = [] ∧ c_timer c = None ∧ c_closeCb c = false ∧ c_others c = 0 ∧ c_alive c = false ∧
  ∃ tr, c_trace c = tr ++ [CE_destroyed] ∧ count is_destroyed tr = 0 ∧ count is_closePosted tr = 1 ∧ count is_closed tr = 1.

Definition client_inv c : Prop :=
  (client_living c ∧ connection_owners c ≠ 0 ∧ (∀ t, c_timer c = Some t → timer_owners (Some t) ≠ 0)) ∨ client_dead c.

(** A cancelled timer that was told to forget its callback is owned by its waits. *)
Lemma forget_owners t :
  timer_owners (Some (Timer_cancel (Timer_resetCallback noopTimerHandler t))) = wait_owners t.
Proof.
  unfold timer_owners, wait_owners. rewrite waits_cancel. cbn. change (t_waits (Timer_resetCallback noopTimerHandler t)) with (t_waits t).
  generalize (t_waits t) as l. induction l as [| w l IH]; [done |]. cbn. by rewrite IH.
Qed.

(** The timer's callbacks keep the connection and the timer. *)
Lemma sweep_owned c : timer_owners (c_timer c) ≠ 0 → client_sweep c = c.
Proof.
  intros Hn. unfold client_sweep. assert (connection_owners c ≠ 0) as Hc by (unfold connection_owners; lia).
  apply Nat.eqb_neq in Hn, Hc. by rewrite Hc, andb_false_r, Hn.
Qed.

(** The connection lost its last owner. *)
Lemma sweep_unowned c :
  c_alive c = true → connection_owners c = 0 →
  ∃ tr, client_sweep c = mkClient (d_connection c) (c_loop c) None false (c_others c) false tr ∧ tr = c_trace c ++ [CE_destroyed].
Proof.
  intros Ha H0. assert (timer_owners (c_timer c) = 0) as Ht by (unfold connection_owners in H0; lia).
  eexists. split; [| reflexivity]. unfold client_sweep. rewrite Ha, H0. cbn [andb Nat.eqb]. unfold cancelCloseTimer.
  destruct c as [dc l [t |] cb o al tr]; cbn in *; destruct cb; cbn -[timer_owners]; try done;
    cbn in Ht; try (assert (wait_owners t = 0) as Hw by lia); rewrite ?forget_owners, ?Hw; try done; cbn; by rewrite Ht.
Qed.

(** A step's end. *)
Lemma sweep_client c : client_living c → client_inv (client_sweep c).
Proof.
  intros Hc. pose proof Hc as [Ht Ho Hs Ha Hd]. unfold client_sweep. rewrite Ha. cbn [andb].
  destruct (Nat.eqb_spec (connection_owners c) 0) as [H0 | H0].
  - right. destruct (sweep_unowned c Ha H0) as (tr & Hsw & ->). unfold client_sweep in Hsw. rewrite Ha, H0 in Hsw. cbn [andb Nat.eqb] in Hsw.
    rewrite Hsw. unfold connection_owners in H0. destruct (d_connection c) eqn:Hdc; [lia |].
    destruct (c_loop c) as [| t ts] eqn:Hl; [| cbn in H0; lia]. destruct (Hs eq_refl) as [Hp Hcl]. cbn in Hcl.
    unfold client_dead. cbn. repeat (split; [done || lia |]). by exists (c_trace c).
  - left. destruct (Nat.eqb_spec (timer_owners (c_timer c)) 0) as [Ht0 | Ht0].
    + split_and!.
      * split; cbn; try done. intros Hdc. destruct (Ho Hdc) as (_ & ? & ? & ? & ?). auto.
      * unfold connection_owners in *. cbn. rewrite Ht0 in H0. done.
      * done.
    + split; [done |]. split; [done |]. intros t Htc. by rewrite <- Htc.
Qed.

Lemma shape_cancel t : timer_shape t → timer_shape (Timer_cancel (Timer_resetCallback noopTimerHandler t)).
Proof.
  unfold timer_shape. rewrite waits_cancel. cbn. change (t_waits (Timer_resetCallback noopTimerHandler t)) with (t_waits t).
  intros H. destruct H; constructor.
Qed.

Lemma shape_expire t : timer_shape t → timer_shape (waits_complete no_error t).
Proof. unfold timer_shape. rewrite waits_completed. cbn. intros H. destruct H; constructor. Qed.

Lemma shape_start t :
  t_waits t = [] → timer_shape (Timer_start gracefulCloseTimeout t).
Proof.
  intros H. unfold timer_shape, Timer_start. rewrite waits_start. change (t_waits (Timer_resetCallback _ t)) with (t_waits t).
  rewrite H. constructor.
Qed.

(** The handler of a wait: its only call is [gracefulCloseTimeout]. *)
Lemma shape_handler i t :
  timer_shape t →
  (Timer_handler true i t = (None, t)) ∨
  (∃ e t', t_waits t = [(Some gracefulCloseTimeout, Some e)] ∧ i = 0 ∧ t_waits t' = [] ∧
     Timer_handler true i t = (Some (gracefulCloseTimeout, handler_reason e), t')).
Proof.
  unfold timer_shape. intros H. destruct (Timer_handler_cases true i t) as [(cb & e & t' & Hl & Ht' & _ & _ & ->) | [-> _]]; [right | by left].
  destruct H as [[e' |] | e' |]; destruct i as [| i]; try done; injection Hl as <- <-; exists e', t'; auto.
Qed.

Lemma act_living op c : client_living c → client_living (client_act op c).
Proof.
  intros Hc. pose proof Hc as [Ht Ho Hs Ha Hd].
  assert (∀ c', c_timer c' = c_timer c → d_connection c' = d_connection c → c_closeCb c' = c_closeCb c →
    c_alive c' = true → count is_close (c_loop c') = count is_close (c_loop c) →
    count is_closePosted (c_trace c') = count is_closePosted (c_trace c) →
    count is_closed (c_trace c') = count is_closed (c_trace c) →
    count is_destroyed (c_trace c') = count is_destroyed (c_trace c) → client_living c') as Hsame.
  { intros c' H1 H2 H3 H4 H5 H6 H7 H8. split; rewrite ?H1, ?H2, ?H3, ?H5, ?H6, ?H7, ?H8; done. }
  assert (∀ t, (∀ t', t = Some t' → timer_shape t') → d_connection c = false → client_living (c_set_timer t c)) as Htimer.
  { intros t Hsh Hdc. split; cbn; try done. intros Hdc'. congruence. }
  destruct op as [| hp xs x | | | | | i | |]; cbn [client_act].
  - unfold doClose. destruct (d_connection c) eqn:Hdc; [| done]. destruct (Ho eq_refl) as (_ & _ & H1 & H2 & H3).
    split; [| done | counts | done | counts]. intros t [= <-]. apply shape_start, wt_make_spec.
  - unfold createProducerAsync. destruct (negb _); [done |]. destruct (lockExchange hp x); [| done].
    destruct (List.find _ xs); [| done]. apply Hsame; done || counts.
  - unfold createConsumerAsync. destruct (negb _); [done |]. apply Hsame; done || counts.
  - destruct (c_loop c) as [| [|] ts] eqn:Hl; [done | |].
    + destruct (d_connection c) eqn:Hdc.
      { destruct (Ho eq_refl) as (_ & _ & H1 & _). done. }
      destruct (Hs eq_refl) as [H1 H2]. rewrite ?Hl in *. split; [done | intros H; cbn in H; congruence | counts | done | counts].
    + by apply Hsame.
  - rewrite Ha. cbn [andb]. destruct (c_closeCb c) eqn:Hcb; [| done].
    assert (d_connection c = false) as Hdc.
    { destruct (d_connection c); [| done]. by destruct (Ho eq_refl) as (_ & H & _). }
    unfold cancelCloseTimer. destruct (c_timer c) as [t |] eqn:Htc.
    + split; cbn; try done; [| congruence]. intros t' [= <-]. apply shape_cancel. by apply Ht.
    + split; cbn; try done; [rewrite Htc; done | congruence].
  - destruct (c_timer c) as [t |] eqn:Htc; cbn.
    + assert (d_connection c = false) as Hdc by (destruct (d_connection c); [by destruct (Ho eq_refl) | done]).
      apply Htimer; [| done]. intros t' [= <-]. apply shape_expire. by apply Ht.
    + apply Hsame; done.
  - destruct (c_timer c) as [t |] eqn:Htc; [| done].
    assert (d_connection c = false) as Hdc by (destruct (d_connection c); [by destruct (Ho eq_refl) | done]).
    pose proof (Ht t eq_refl) as Hsh. destruct (shape_handler i t Hsh) as [-> | (e & t' & Hw & _ & Hw' & ->)].
    + apply Htimer; [| done]. intros t' [= <-]. done.
    + destruct (Hs Hdc) as [H1 H2].
      split; [| intros H; cbn in H; congruence | counts | done | counts].
      intros t0 [= <-]. unfold timer_shape. cbn. change (t_waits (Timer_resetCallback noopTimerHandler t')) with (t_waits t').
      rewrite Hw'. constructor.
  - rewrite Ha. apply Hsame; done.
  - apply Hsame; done.
Qed.

Lemma dead_step op c : client_dead c → client_step c op = c.
Proof.
  intros (Hd & Hl & Ht & Hcb & Ho & Ha & _). destruct c as [dc l t cb o al tr]. cbn in *. subst.
  destruct op; done.
Qed.

Lemma step_client op c : client_inv c → client_inv (client_step c op).
Proof.
  intros [(Hc & _) | Hc].
  - by apply sweep_client, act_living.
  - rewrite (dead_step op c Hc). by right.
Qed.

Lemma client_make_inv others : client_inv (ConnectionImpl_make others).
Proof. left. split_and!; [split; done | unfold connection_owners; cbn; lia | done]. Qed.

Lemma run_client ops : ∀ c, client_inv c → client_inv (client_run ops c).
Proof. induction ops as [| op ops IH]; intros c Hc; [done |]. cbn. by apply IH, step_client. Qed.

Lemma count_elem {A} (p : A → bool) l x : p x = true → x ∈ l → count p l ≠ 0.
Proof.
  intros Hp Hx. unfold count. induction l as [| y l IH]; [by apply not_elem_of_nil in Hx |]. cbn.
  apply elem_of_cons in Hx as [<- | Hx]; [by rewrite Hp |]. destruct (p y); [done | by apply IH].
Qed.

Lemma count_closed tr : count is_closed tr ≠ 0 → CE_closed ∈ tr.
Proof.
  unfold count. induction tr as [| e tr IH]; [done |]. cbn. intros H. apply elem_of_cons.
  destruct e; cbn in H; try (right; by apply IH). by left.
Qed.

(** The end of the close does not destroy the connection whose member function reports it. *)
Lemma closeFinished_alive c : client_inv c → c_alive c = true → c_alive (client_step c C_closeFinished) = true.
Proof.
  intros [(Hc & Hown & Htn) | (_ & _ & _ & _ & _ & Hd & _)] Ha; [| congruence]. unfold client_step, client_act. rewrite Ha. cbn [andb].
  assert (∀ c', c_alive c' = true → connection_owners c' ≠ 0 → c_alive (client_sweep c') = true) as Hsweep.
  { intros c' Ha' Ho'. unfold client_sweep. rewrite Ha'. apply Nat.eqb_neq in Ho'. rewrite Ho'. cbn zeta. cbn [andb].
    by destruct (Nat.eqb (timer_owners (c_timer c')) 0). }
  destruct (c_closeCb c) eqn:Hcb; [| by apply Hsweep].
  unfold cancelCloseTimer. destruct (c_timer c) as [t |] eqn:Ht; [| apply Hsweep; [done |]].
  - apply Hsweep; [done |]. pose proof (cl_timer _ Hc t Ht) as Hsh. pose proof (Htn t eq_refl) as Hn.
    unfold connection_owners. cbn [c_timer c_set_closeCb c_set_timer]. rewrite forget_owners.
    assert (wait_owners t ≠ 0); [| lia]. unfold timer_shape, timer_owners, wait_owners in *. by destruct Hsh.
  - unfold connection_owners in *. cbn. by rewrite Ht in *.
Qed.

(** C25: A connection is closed once, and before it goes. However the application, the
    event loop, the timer and the connection itself interleave: the connection is told to
    close exactly once after the application closed (or destroyed) its handle, and not
    before; until then it exists. It is destroyed at most once, after [Connection::close]
    was called, and nothing happens to it afterwards. The end of the close, which takes
    away the timer's hold on the connection, never destroys the connection that is
    calling. A closed handle creates nothing. *)
Theorem client_connection_closed_once others ops :
  let c := client_run ops (ConnectionImpl_make others) in
  count is_closePosted (c_trace c) = (if d_connection c then 0 else 1) ∧
  count is_closed (c_trace c) ≤ 1 ∧
  (d_connection c = true → c_alive c = true ∧ CE_closed ∉ c_trace c) ∧
  (CE_destroyed ∈ c_trace c → c_alive c = false ∧ ∃ tr, c_trace c = tr ++ [CE_destroyed] ∧ CE_destroyed ∉ tr ∧ CE_closed ∈ tr) ∧
  (c_alive c = true → c_alive (client_step c C_closeFinished) = true) ∧
  (d_connection c = false → ∀ hp exchanges x,
     createProducerAsync hp exchanges x c = (Created_error (str "close() has been called"), c) ∧
     createConsumerAsync c = (Created_error (str "close() has been called"), c)).
Proof.
  intros c. assert (client_inv c) as Hi by apply run_client, client_make_inv. clearbody c.
  split_and!.
  - destruct Hi as [(Hc & _) | (Hd & _ & _ & _ & _ & _ & tr & -> & _ & Hp & _)].
    + destruct (d_connection c) eqn:Hdc; [by apply (cl_open c Hc) | by apply (cl_shut c Hc)].
    + rewrite Hd. counts.
  - destruct Hi as [(Hc & _) | (Hd & _ & _ & _ & _ & _ & tr & -> & _ & _ & Hp)].
    + destruct (d_connection c) eqn:Hdc.
      * destruct (cl_open c Hc Hdc) as (_ & _ & _ & _ & ->). lia.
      * destruct (cl_shut c Hc Hdc). lia.
    + counts.
  - intros Hdc. destruct Hi as [(Hc & _) | (Hd & _)]; [| congruence]. split; [apply (cl_there c Hc) |].
    intros Hin. apply (count_elem is_closed) in Hin; [| done]. by destruct (cl_open c Hc Hdc) as (_ & _ & _ & _ & ?).
  - intros Hin. destruct Hi as [(Hc & _) | (Hd & _ & _ & _ & _ & Ha & tr & Htr & Hnd & _ & Hp)].
    + apply (count_elem is_destroyed) in Hin; [| done]. by rewrite (cl_not_destroyed c Hc) in Hin.
    + split; [done |]. exists tr. split; [done |]. split; [| by apply count_closed; rewrite Hp].
      intros Hin'. by apply (count_elem is_destroyed) in Hin'.
  - by apply closeFinished_alive.
  - intros Hdc hp exchanges x. unfold createProducerAsync, createConsumerAsync. by rewrite Hdc.
Qed.

(** *** Release *)

Definition released c : Prop := c_alive c = false ∧ c_timer c = None ∧ c_loop c = [].

(** A closed handle whose connection has no other owners. *)
Definition closing (n : nat) c : Prop :=
  client_inv c ∧ d_connection c = false ∧ c_others c = 0 ∧ length (c_loop c) = n.

Lemma sweep_fields c :
  d_connection (client_sweep c) = d_connection c ∧ c_others (client_sweep c) = c_others c ∧ c_loop (client_sweep c) = c_loop c.
Proof.
  unfold client_sweep, cancelCloseTimer.
  destruct (c_alive c && _); cbn; [destruct (c_closeCb c); cbn; [destruct (c_timer c); cbn |] |]; by destruct (Nat.eqb _ 0).
Qed.

Lemma closing_task n c : closing (S n) c → closing n (client_step c C_task).
Proof.
  intros (Hi & Hd & Ho & Hl). split; [by apply step_client |]. unfold client_step.
  destruct (sweep_fields (client_act (E := E) C_task c)) as (-> & -> & ->). cbn [client_act].
  destruct (c_loop c) as [| [|] ts]; cbn in *; [done | |]; split_and!; auto.
Qed.

Lemma closing_tasks n : ∀ c, closing n c → closing 0 (client_run (repeat C_task n) c).
Proof. induction n as [| n IH]; intros c Hc; [done |]. cbn. by apply IH, closing_task. Qed.

(** The close timer of a connection without other owners. *)
Lemma expired_release c t :
  c_alive c = true → d_connection c = false → c_loop c = [] → c_others c = 0 → c_timer c = Some t → timer_shape t →
  timer_owners (Some t) ≠ 0 → released (client_run [C_expire; C_handler 0] c).
Proof.
  intros Ha Hd Hl Ho Ht Hsh Hn. pose proof (shape_expire t Hsh) as Hsh1. set (t1 := waits_complete no_error t) in *.
  assert (∃ e, t_waits t1 = [(Some gracefulCloseTimeout, Some e)]) as [e Hw].
  { unfold t1. rewrite waits_completed. unfold timer_shape, timer_owners, wait_owners in *.
    destruct Hsh as [st | e |]; [by eexists | by eexists | done]. }
  set (c1 := c_set_timer (Some t1) c).
  assert (timer_owners (Some t1) ≠ 0) as Hn1 by (unfold timer_owners, wait_owners; rewrite Hw; cbn; lia).
  assert (client_step c C_expire = c1) as Hc1.
  { unfold client_step, client_act. rewrite Ht. by apply sweep_owned. }
  change (client_run [C_expire; C_handler 0] c) with (client_step (client_step c C_expire) (C_handler 0)). rewrite Hc1. clear Hc1.
  unfold client_step, client_act. cbn [c1 c_set_timer c_timer].
  destruct (shape_handler 0 t1 Hsh1) as [Hh | (e' & t2 & _ & _ & Hw2 & ->)].
  { destruct (Timer_handler_cases true 0 t1) as [(cb & e' & t' & Hl' & _ & _ & _ & Hh') | [_ Hx]]; [| exfalso; apply (Hx (Some gracefulCloseTimeout) e); by rewrite Hw].
    rewrite Hw in Hl'. injection Hl' as <- <-. by rewrite Hh in Hh'. }
  cbv beta iota.
  destruct (sweep_unowned (c_emit (CE_interrupted (handler_reason e')) (c_set_timer (Some (Timer_resetCallback noopTimerHandler t2)) c1))) as (tr & -> & _).
  - done.
  - unfold connection_owners, timer_owners, wait_owners. cbn. change (t_waits (Timer_resetCallback noopTimerHandler t2)) with (t_waits t2).
    by rewrite Hd, Hl, Ho, Hw2.
  - done.
Qed.

Lemma closing_release c : closing 0 c → released (client_run [C_expire; C_handler 0] c).
Proof.
  intros (Hi & Hd & Ho & Hl). apply nil_length_inv in Hl. destruct Hi as [(Hc & Hown & Htn) | Hdead].
  - unfold connection_owners in Hown. rewrite Hd, Hl, Ho in Hown. destruct (c_timer c) as [t |] eqn:Ht; [| done].
    apply (expired_release c t); auto; [apply (cl_there c Hc) | by apply (cl_timer c Hc)].
  - cbn. rewrite !(dead_step _ _ Hdead). by destruct Hdead as (_ & Hl' & Ht & _ & _ & Ha & _).
Qed.


(** What a producer needs: an open handle, and an exchange that exists and equals one of
    the topology's. *)
Lemma createProducerAsync_pending hp exchanges x c :
  (createProducerAsync hp exchanges x c).1 = Created_pending ↔
  d_connection c = true ∧ is_Some (lockExchange hp x) ∧ ∃ y, y ∈ exchanges ∧ DoesExist hp y x = true.
Proof.
  unfold createProducerAsync. destruct (d_connection c); cbn [negb]; [| by split; [| intros [??]]].
  destruct (lockExchange hp x) as [e |]; [| split; [done | intros (_ & [? ?] & _); done]].
  destruct (List.find _ exchanges) as [y |] eqn:Hf.
  - apply List.find_some in Hf as [Hin Hy]. split; [| done]. intros _. split_and!; [done.. |].
    exists y. by rewrite list_elem_of_In.
  - split; [done |]. intros (_ & _ & y & Hin & Hy). apply list_elem_of_In in Hin.
    pose proof (List.find_none _ _ Hf y Hin) as Hn. cbn in Hn. congruence.
Qed.

(** *** Immediate retries *)

#[local] Open Scope Z_scope.

Definition immediate (n : Z) (b : BackoffStrategy) : Prop :=
  d_backoffLevel b = IMMEDIATE ∧ d_currentWait b = 0 ∧ d_continuousRetries b = 2 ^ 32 - 1 ∧
  d_maxWaitSeconds b = 60 ∧ 0 ≤ d_numRetries b ≤ n.

Lemma immediate_attempt now n b : 0 ≤ n → immediate n b → immediate (n + 1) (Backoff_attempt now b).
Proof.
  intros Hn (Hl & Hw & Hc & Hm & Hr). unfold Backoff_attempt, immediate. destruct (_ && _); cbn; split_and!; try done; lia.
Qed.

Lemma immediate_success n b : 0 ≤ n → immediate n b → immediate n (Backoff_success b).
Proof.
  intros Hn (Hl & Hw & Hc & Hm & Hr). unfold Backoff_success, immediate. rewrite move_level.
  cbn [set_currentWait d_backoffLevel]. rewrite Hl. cbn. split_and!; try done; lia.
Qed.

Lemma immediate_next now n b :
  0 ≤ n < 2 ^ 32 - 1 → immediate n b →
  immediate n (Backoff_getNextRetryInterval now b).2 ∧ (Backoff_getNextRetryInterval now b).1 = 0.
Proof.
  intros Hn Hb. unfold Backoff_getNextRetryInterval. destruct (negb _); [| split; [done | apply Hb]].
  set (b' := if thresholdRetryTime b <? now then Backoff_success b else Backoff_fail b).
  assert (immediate n b') as Hb'.
  { unfold b'. destruct (_ <? now); [apply immediate_success; lia || done |]. unfold Backoff_fail.
    destruct Hb as (Hl & Hw & Hc & Hm & Hr). rewrite Hc. destruct (Z.leb_spec (2 ^ 32 - 1) (d_numRetries b)); [lia |].
    unfold immediate. split_and!; try done; lia. }
  clearbody b'. clear Hb. destruct Hb' as (Hl & Hw & Hc & Hm & Hr). unfold Backoff_calculateNextInterval. rewrite Hl, Hm, Hw. cbn.
  change (60 <? seconds 0) with false. cbn iota.
  split; [| done]. unfold immediate. split_and!; try done; lia.
Qed.

Definition handler_immediate (n : Z) (h : RetryHandler BackoffStrategy unit) : Prop :=
  immediate n (d_retryStrategy h) ∧ (d_sleepTimer h = None ∨ d_sleepTimer h = Some 0).

Lemma immediate_step e n h :
  0 ≤ n < 2 ^ 32 - 1 → handler_immediate n h → handler_immediate (n + 1) (retry_step e h).
Proof.
  intros Hn [Hb Ht].
  assert (∀ b, immediate n b → immediate (n + 1) b) as Hmono by (intros b (? & ? & ? & ? & ?); split_and!; try done; lia).
  destruct e as [now | now |]; cbn [retry_step].
  - unfold RetryHandler_retry, RetryHandler_scheduleRetry, handler_immediate. cbn [d_retryStrategy d_sleepTimer strategy_next Backoff_strategy].
    destruct (immediate_next now n _ Hn Hb) as [Hi H0]. destruct (Backoff_getNextRetryInterval now _) as [w b]. cbn in *. subst. auto.
  - destruct (d_sleepTimer h) as [t |] eqn:Hs; [| split; [by apply Hmono | by left]]. unfold RetryHandler_handleRetry. cbn.
    split; cbn; [apply immediate_attempt; [lia | done] | by left].
  - unfold RetryHandler_success, handler_immediate. cbn. split; [| exact Ht]. apply Hmono, immediate_success; [lia | done].
Qed.

(** With the tunable IIR no wait between retries is longer than zero, for the first 2^32 - 2
    events of a handler. *)
Lemma IIR_retries_immediately evs tunables now :
  IIR ∈ tunables → Z.of_nat (length evs) < 2 ^ 32 - 1 →
  d_sleepTimer (retry_step (RE_retry now) (retry_run evs (createRetryHandler tunables))) = Some 0.
Proof.
  intros Hin Hlen. assert (∀ l h n, 0 ≤ n → n + Z.of_nat (length l) < 2 ^ 32 - 1 → handler_immediate n h →
    handler_immediate (n + Z.of_nat (length l)) (retry_run l h)) as Hrun.
  { induction l as [| e l IH]; intros h n Hn Hl Hh; [by rewrite Z.add_0_r |].
    change (retry_run (e :: l) h) with (retry_run l (retry_step e h)).
    replace (n + Z.of_nat (length (e :: l))) with ((n + 1) + Z.of_nat (length l)) by (cbn [length]; lia).
    cbn [length] in Hl. apply IH; [lia | lia |]. apply immediate_step; [lia | done]. }
  assert (handler_immediate 0 (createRetryHandler tunables)) as H0.
  { unfold createRetryHandler. rewrite bool_decide_true by done. split; [| by left]. unfold immediate. cbn. split_and!; try done; lia. }
  specialize (Hrun evs _ 0 ltac:(lia) Hlen H0). set (h := retry_run evs (createRetryHandler tunables)) in *.
  destruct Hrun as [Hb _]. cbn [retry_step]. unfold RetryHandler_retry, RetryHandler_scheduleRetry. cbn [d_retryStrategy strategy_next Backoff_strategy].
  destruct (immediate_next now (0 + Z.of_nat (length evs)) _ ltac:(lia) Hb) as [_ Hw]. destruct (Backoff_getNextRetryInterval now _) as [w b]. cbn in *. by subst.
Qed.
End Closing.

#[local] Instance run_EpochUtil : EpochUtil := {
  Datetime := Z; convertToTimeT64 := id; convertFromTimeT64 := Some; wholeSeconds := id;
}.

(** Closed while a channel is being created; the broker confirms late. *)
Definition sample_client_ops : list ClientOp :=
  [C_createConsumer; C_task; C_createConsumer; C_close; C_close; C_release].

