(* ===== verification/VHost.v ===== *)
(** * VHost: the connections behind a virtual host

    Models [rmqa::VHostImpl] (rmqa_vhostimpl.cpp) and how [rmqa::RabbitContextImpl]
    (rmqa_rabbitcontextimpl.cpp) makes a connection: [createNewConnection] with its cancel
    function and [initiateConnection]. A virtual host makes one connection for producers
    and one for consumers, each when it is first needed, and keeps the futures of them;
    producers and consumers are created by functions given to [thenFuture].

    The futures are those of Future.v. An [rmqamqp::Connection] is its number in the order
    of creation, which is also what its future's cancel function is called with. What a
    connection's own [createProducerAsync] returns is an argument of the call. *)

From Stdlib Require Import ZArith Lia String Strings.Byte.
From stdpp Require Import base tactics list.
From S2P Require Import Prelude Future.

(** What the futures' results point to. *)
Inductive Handle := H_connection (k : nat) | H_producer (i : nat) | H_consumer (i : nat).

Notation HFutures := (Futures (V := Handle)) (only parsing).
Notation HResult := (Result (V := Handle)) (only parsing).
Notation HGenerated := (Generated (V := Handle)) (only parsing).

(** [proxyCreateProducerAsync] or [proxyCreateConsumerAsync], bound to its arguments. *)
Notation Proxy := (Callback (A := option Handle) (B := HGenerated)) (only parsing).

(** What [createNewConnection] is bound to: the name, whether there are an endpoint and
    credentials, and whether the event loop was started. *)
Record ConnectionMaker := mkConnectionMaker {
  userDefinedName : bytes;
  has_endpoint : bool;
  has_credentials : bool;
  loop_started : bool;
}.

Inductive VHostEvent :=
| VE_startFirstConnection (k : nat)   (* posted to the event loop *)
| VE_closeConnection (h : option Handle).   (* [ConnectionImpl::close] *)

Record VHost := mkVHost {
  d_newConnection : ConnectionMaker;
  d_producerFuture : option nat;
  d_consumerFuture : option nat;
  v_futures : HFutures;
  v_created : list bytes;
  v_trace : list VHostEvent;
}.

Definition v_set_futures (f : HFutures) (v : VHost) : VHost :=
  mkVHost (d_newConnection v) (d_producerFuture v) (d_consumerFuture v) f (v_created v) (v_trace v).
Definition v_create (name : bytes) (v : VHost) : VHost :=
  mkVHost (d_newConnection v) (d_producerFuture v) (d_consumerFuture v) (v_futures v) (v_created v ++ [name]) (v_trace v).
Definition v_emit (e : VHostEvent) (v : VHost) : VHost :=
  mkVHost (d_newConnection v) (d_producerFuture v) (d_consumerFuture v) (v_futures v) (v_created v) (v_trace v ++ [e]).
Definition v_perform (o : FutureOp) (v : VHost) : VHost := v_set_futures (perform o (v_futures v)) v.

(** The two futures of connections. *)
Inductive Role := R_producer | R_consumer.

#[export] Instance Role_eq_dec : EqDecision Role.
Proof. solve_decision. Defined.

Definition role_suffix (r : Role) : bytes := match r with R_producer => str "producer" | R_consumer => str "consumer" end.
Definition role_future (r : Role) (v : VHost) : option nat :=
  match r with R_producer => d_producerFuture v | R_consumer => d_consumerFuture v end.
Definition v_set_future (r : Role) (a : option nat) (v : VHost) : VHost :=
  match r with
  | R_producer => mkVHost (d_newConnection v) a (d_consumerFuture v) (v_futures v) (v_created v) (v_trace v)
  | R_consumer => mkVHost (d_newConnection v) (d_producerFuture v) a (v_futures v) (v_created v) (v_trace v)
  end.

Definition VHostImpl_make (connectionMaker : ConnectionMaker) : VHost :=
  mkVHost connectionMaker None None Futures_none [] [].

(** ** Making a connection *)

Definition connection_name (userDefinedName suffix : bytes) : bytes :=
  match suffix with [] => userDefinedName | _ => userDefinedName ++ str "-" ++ suffix end.

(** A future that is made and resolved with an error at once. *)
Definition failed_future (error : bytes) (v : VHost) : nat * VHost :=
  let a := fresh (v_futures v) in
  (a, v_perform (Op_resolve a (Result_error error (-1))) (v_perform (Op_make None) v)).

Definition createNewConnection (suffix : bytes) (v : VHost) : nat * VHost :=
  let m := d_newConnection v in
  let name := connection_name (userDefinedName m) suffix in
  if negb (has_endpoint m) then failed_future (str "Provided endpoint is NULL") v
  else if negb (has_credentials m) then failed_future (str "Provided credentials is NULL") v
  else if negb (loop_started m) then failed_future (str "Event loop worker thread not started") v
  else
    let amqpConn := length (v_created v) in
    let v := v_create name v in
    let a := fresh (v_futures v) in
    let v := v_perform (Op_make (Some amqpConn)) v in
    (a, v_emit (VE_startFirstConnection amqpConn) v).

(** [initiateConnection], for the connection with the future [a]; the promise is that of a
    future that still exists or it does nothing. *)
Definition initiateConnection (success : bool) (amqpConn a : nat) (v : VHost) : VHost :=
  v_perform
    (Op_resolve a
       (if success then Result_value (H_connection amqpConn)
        else Result_error (str "Failed to connect - not retrying") (-1))) v.

(** ** [VHostImpl] *)

(** The connection's future, made when it is first needed. *)
Definition ensureFuture (r : Role) (v : VHost) : VHost :=
  match role_future r v with
  | None => let (a, v) := createNewConnection (role_suffix r) v in v_set_future r (Some a) v
  | Some _ => v
  end.

(** [createProducerAsync] and [createConsumerAsync]; [proxy] is [proxyCreateProducerAsync]
    bound to its arguments. *)
Definition VHostImpl_createAsync (r : Role) (proxy : Proxy) (v : VHost) : nat * VHost :=
  let v := ensureFuture r v in
  match role_future r v with
  | Some a => (fresh (v_futures v), v_perform (Op_thenFuture a (propagateError proxy) []) v)
  | None => (0, v)
  end.

Definition shutdownConnectionFuture (r : Role) (v : VHost) : VHost :=
  match role_future r v with
  | None => v
  | Some a =>
      let connection := tryResult a (v_futures v) in
      let v := if Result_ok connection then v_emit (VE_closeConnection (r_value connection)) v else v in
      v_set_future r None (v_perform (Op_drop a) v)
  end.

Definition VHostImpl_close (v : VHost) : VHost :=
  shutdownConnectionFuture R_consumer (shutdownConnectionFuture R_producer v).

(** ** Runs *)

(** Calls of the application, which may also let go of a future it was given; a connection
    attempt ends; a future made by a connection is resolved. *)
Inductive VHostOp :=
| V_create (r : Role) (proxy : Proxy)
| V_close
| V_drop (b : nat)
| V_connected (success : bool) (a : nat)
| V_resolve (c : nat) (item : HResult).

(** Whether a promise can be used: it is a promise, and it was not used before. *)
Definition promise_of (a : nat) (f : HFutures) : option (option nat) :=
  match impls f !! a with
  | Some k => if d_done k then None else match i_origin k with Origin_make u => Some u | _ => None end
  | None => None
  end.

(** The application holds what it was given, not the futures of connections. *)
Definition vhost_step (v : VHost) (op : VHostOp) : VHost :=
  match op with
  | V_create r proxy => (VHostImpl_createAsync r proxy v).2
  | V_close => VHostImpl_close v
  | V_drop b =>
      if bool_decide (d_producerFuture v = Some b) || bool_decide (d_consumerFuture v = Some b) then v
      else v_perform (Op_drop b) v
  | V_connected success a =>
      match promise_of a (v_futures v) with
      | Some (Some k) => initiateConnection success k a v
      | _ => v
      end
  | V_resolve c item =>
      match promise_of c (v_futures v) with
      | Some None => v_perform (Op_resolve c item) v
      | _ => v
      end
  end.

Definition vhost_run (ops : list VHostOp) (v : VHost) : VHost := fold_left vhost_step ops v.

(** ** Calls on futures *)

Section Calls.
Context {V : Type}.
Implicit Types (s : Futures (V := V)) (o : FutureOp (V := V)).

(** A state between calls, unless a call deadlocked. *)
Definition at_rest s : Prop := stuck s = None → reachable s ∧ tasks s = [].

Lemma begin_stuck o s : stuck (begin o s) = stuck s.
Proof.
  destruct o as [r | u | a r | a f | a g cap | a | a]; try done; cbn [begin].
  - by destruct (bool_decide _).
  - by destruct (_ && _).
  - by destruct (bool_decide _).
Qed.

Lemma run_stuck n s d : stuck s = Some d → run n s = s.
Proof. intros Hd. destruct n; [done |]. cbn. by rewrite Hd. Qed.

Lemma perform_stuck o s : stuck (perform o s) = None → stuck s = None.
Proof.
  intros H. destruct (stuck s) as [d |] eqn:Hd; [| done]. unfold perform in H.
  assert (stuck (sweep (begin o s)) = Some d) as Hb.
  { destruct (sweep_same (begin o s)) as (_ & _ & -> & _). by rewrite begin_stuck. }
  rewrite (run_stuck _ _ d Hb) in H. congruence.
Qed.

Lemma perform_at_rest o s : at_rest s → promise_unused o s → at_rest (perform o s).
Proof.
  intros Hs Ho Hst. pose proof (perform_stuck _ _ Hst) as Hst0. destruct (Hs Hst0) as [Hr Ht].
  split; [by apply perform_reachable |]. unfold perform in *.
  destruct (run_finishes _ _ (reach_call s o Hr Ht Hst0 Ho) (le_n _)) as [? | [d Hd]]; [done | congruence].
Qed.

Lemma begin_extends o s : extends s (begin o s).
Proof.
  assert (∀ hs x r c og, extends s (new_impl x r c og (set_handles s hs))) as Hnew.
  { intros hs x r c og. eapply (evolved_trans _ (set_handles s hs)); [by apply extends_same | apply extends_new]. }
  destruct o as [r | u | a r | a f | a g cap | a | a]; cbn [begin]; try apply Hnew; try by apply extends_same.
  - destruct (bool_decide _); [| apply evolved_refl]. eapply evolved_trans; [apply Hnew | by apply extends_same].
  - destruct (_ && _); [| apply evolved_refl]. eapply evolved_trans; [apply Hnew | by apply extends_same].
  - destruct (bool_decide _); [by apply extends_same | apply evolved_refl].
Qed.

Lemma perform_extends o s :
  at_rest s → promise_unused o s → stuck (perform o s) = None →
  extends s (perform o s) ∧ handles (perform o s) = handles (begin o s).
Proof.
  intros Hs Ho Hst. pose proof (perform_stuck _ _ Hst) as Hst0. destruct (Hs Hst0) as [Hr Ht]. unfold perform.
  destruct (run_later (work (sweep (begin o s))) _ (reach_call s o Hr Ht Hst0 Ho)) as [He ->].
  destruct (sweep_same (begin o s)) as (-> & _). split; [| done].
  eapply evolved_trans; [apply begin_extends |]. eapply evolved_trans; [apply sweep_loop_extends | exact He].
Qed.

(** A block made by a call, if its handle is kept. *)
Lemma perform_made o s k :
  at_rest s → promise_unused o s → stuck (perform o s) = None →
  impls (begin o s) = impls s ++ [k] → fresh s ∈ handles (begin o s) → i_alive k = true →
  ∃ k', impls (perform o s) !! fresh s = Some k' ∧ evolves k k'.
Proof.
  intros Hs Ho Hst Hk Hh Ha. pose proof (perform_stuck _ _ Hst) as Hst0. destruct (Hs Hst0) as [Hr Ht]. unfold perform.
  destruct (run_later (work (sweep (begin o s))) _ (reach_call s o Hr Ht Hst0 Ho)) as [He _].
  assert (extends (begin o s) (run (work (sweep (begin o s))) (sweep (begin o s)))) as He'.
  { eapply evolved_trans; [apply sweep_loop_extends | exact He]. }
  apply (ex_impls _ _ He' (fresh s) k). rewrite Hk. unfold fresh. by rewrite list_lookup_middle.
Qed.

Lemma held_alive s i : at_rest s → stuck s = None → i ∈ handles s → impl_alive s i = true.
Proof.
  intros Hs Hst Hi. destruct (Hs Hst) as [Hr _]. apply (i_owned _ (reachable_inv s Hr Hst)), elem_of_app. by left.
Qed.

Lemma alive_some s i : impl_alive s i = true → is_Some (impls s !! i).
Proof. unfold impl_alive. by destruct (impls s !! i). Qed.

(** *** What the functions given to [thenFuture] return *)

(** A future that was resolved when it was returned has that result. *)
Definition resolved_generated s : Prop :=
  ∀ b r c a g captured x, Ev_generated b r c ∈ trace s → origin_of s b = Some (Origin_thenFuture a g captured) →
    g r = Gen_resolved x → result_of s c = Some x.

Lemma generated_later s s' :
  extends s s' → (∀ b r c, Ev_generated b r c ∈ trace s' → Ev_generated b r c ∈ trace s ∧ is_Some (impls s !! b)) →
  resolved_generated s → resolved_generated s'.
Proof.
  intros He Hev Hs b r c a g cap x Hin Ho Hg. destruct (Hev b r c Hin) as [Hin' [k Hk]].
  apply (result_extends _ _ _ _ He). eapply Hs; [done | | done].
  destruct (ex_impls _ _ He b k Hk) as (k' & Hk' & Hev'). unfold origin_of in *. rewrite Hk, Hk' in *. cbn in *.
  by rewrite <- (ev_origin _ _ Hev').
Qed.

Lemma destroy_generated i s b r c : Ev_generated b r c ∈ trace (destroy i s) → Ev_generated b r c ∈ trace s.
Proof.
  unfold destroy. destruct (impls s !! i) as [k |]; [| done]. destruct (d_cancelFunc k); try done.
  destruct (d_done k); [done |]. cbn. rewrite elem_of_app, list_elem_of_singleton. by intros [? | ?].
Qed.

Lemma sweep_generated n b r c : ∀ s, Ev_generated b r c ∈ trace (sweep_loop n s) → Ev_generated b r c ∈ trace s.
Proof.
  induction n as [| n IH]; intros s; cbn; [done |]. destruct (unowned s) as [i |]; [| done].
  intros Hin. by apply (destroy_generated i), IH.
Qed.

(** The function is called, and generates, in the step of its continuation. *)
Lemma exec_generated t s b r c :
  Ev_generated b r c ∈ trace (exec t s) → Ev_generated b r c ∈ trace s ∨
  ∃ a g captured, t = Task_entry a (Chain_futureConverter b g captured) r ∧
    ∀ x, g r = Gen_resolved x → result_of (exec t s) c = Some x.
Proof.
  destruct t as [b' r' | a [b' f | b' g cap | d b'] r' | a e | a | a | b' c' d']; cbn [exec].
  - unfold Impl_made. destruct (impls s !! b') as [k |]; [| auto]. destruct (negb _); [auto |]. destruct (i_locked k); auto.
  - cbn. rewrite elem_of_app, list_elem_of_singleton. intros [? | ?]; [by left | done].
  - destruct (impl_alive s b'); [| auto]. unfold futureConverter.
    destruct (generate cap (g r') s) as [c1 s1] eqn:Hgen.
    assert (trace s1 = trace s) as Htr.
    { destruct (g r') as [i | r1 | u]; cbn in Hgen; [destruct (cap !! i) |..]; by simplify_eq. }
    cbn. rewrite Htr, elem_of_app, list_elem_of_singleton. intros [? | [= -> -> ->]]; [by left |]. right.
    exists a, g, cap. split; [done |]. intros x Hx. rewrite Hx in Hgen. cbn in Hgen. simplify_eq.
    unfold result_of. cbn. rewrite lookup_app_l, list_lookup_middle by (rewrite ?length_app; cbn; unfold fresh; lia || done). done.
  - auto.
  - unfold addChain. destruct (impls s !! a) as [k |]; [| auto]. destruct (i_locked k); [auto |]. destruct (d_done k); auto.
  - cbn. rewrite elem_of_app, list_elem_of_singleton. intros [? | ?]; [by left | done].
  - auto.
  - destruct (impls s !! b') as [k |]; [| auto]. destruct (i_locked k); auto.
Qed.

Lemma reachable_generated s : reachable s → stuck s = None → resolved_generated s.
Proof.
  intros Hr. induction Hr as [| s o Hr IH Ht Hst Ho | s Hr IH]; intros Hs.
  - intros b r c a g cap x Hin. by apply elem_of_nil in Hin.
  - specialize (IH Hst). apply (generated_later s); [| | done].
    + eapply evolved_trans; [apply begin_extends | apply sweep_loop_extends].
    + intros b r c Hin. apply sweep_generated in Hin.
      assert (trace (begin o s) = trace s) as Htr.
      { destruct o as [r' | u | a r' | a f | a g cap | a | a]; try done; cbn [begin]; [by destruct (bool_decide _) | by destruct (_ && _) | by destruct (bool_decide _)]. }
      rewrite Htr in Hin. split; [done |]. by apply (i_generated _ (reachable_inv s Hr Hst) b r c).
  - destruct (stuck s) as [d |] eqn:Hst; [rewrite (step_stuck s d Hst) in Hs; congruence |]. specialize (IH eq_refl).
    pose proof (step_runs s Hst Hs) as Hstep. destruct (tasks s) as [| t ts] eqn:Ht; [by rewrite Hstep |].
    pose proof (step_extends s Hr) as He. pose proof (reachable_inv s Hr Hst) as Hi.
    intros b r c a g cap x Hin Ho Hg. rewrite Hstep in Hin. apply sweep_generated in Hin.
    destruct (exec_generated _ _ _ _ _ Hin) as [Hin' | (a' & g' & cap' & -> & Hx)].
    + cbn in Hin'. destruct (i_generated _ Hi b r c Hin') as [k Hk]. apply (result_extends _ _ _ _ He). eapply IH; [done | | done].
      destruct (ex_impls _ _ He b k Hk) as (k' & Hk' & Hev). unfold origin_of in *. rewrite Hk, Hk' in *. cbn in *.
      by rewrite <- (ev_origin _ _ Hev).
    + destruct (i_entries _ Hi a' (Chain_futureConverter b g' cap')) as (Hob & _).
      { right. right. exists r. rewrite Ht. by left. }
      rewrite (origin_extends _ _ _ _ He Hob) in Ho. simplify_eq.
      rewrite Hstep. apply (result_extends (exec (Task_entry a (Chain_futureConverter b g cap) r) (pop s))); [apply sweep_loop_extends |].
      by apply Hx.
Qed.

(** [b = a.thenFuture(propagateError(fn))]: an error of [a] is [b]'s; otherwise [fn] was
    called with [a]'s value, and [b] is what the future it returned is. *)
Lemma rest_propagateError s b k a fn :
  at_rest s → stuck s = None → impls s !! b = Some k → i_alive k = true →
  i_origin k = Origin_thenFuture a (propagateError fn) [] →
  match result_of s a with
  | None => impl_alive s a = true ∧ result_of s b = None
  | Some e =>
      if Result_ok e then ∃ c, Ev_generated b e c ∈ trace s ∧ result_of s b = result_of s c
      else result_of s b = Some (Result_error (r_error e) (r_code e))
  end.
Proof.
  intros Hs Hst Hk Ha Ho. destruct (Hs Hst) as [Hr Ht]. pose proof (rest_thenFuture s Hr Ht Hst b k a _ _ Hk Ha Ho) as H.
  destruct (result_of s a) as [e |]; [| by destruct H as (? & ? & _)].
  destruct H as (c & Hev & Hbc & _). destruct (Result_ok e) eqn:He; [by exists c |]. rewrite Hbc.
  apply (reachable_generated s Hr Hst b e c a (propagateError fn) [] _ Hev).
  - unfold origin_of. rewrite Hk. cbn. by rewrite Ho.
  - cbn. by rewrite He.
Qed.
End Calls.

(** ** The virtual host's futures *)

Section VHosts.
Implicit Types (v : VHost).

Lemma destroy_result {V} i j (s : Futures (V := V)) : result_of (destroy i s) j = result_of s j.
Proof.
  unfold destroy. destruct (impls s !! i) as [k |] eqn:Hk; [| done]. unfold result_of. rewrite update_lookup.
  assert (impls match d_cancelFunc k with Cancel_user u => if d_done k then s else emit (Ev_cancelled i u) s | _ => s end = impls s) as ->
    by (by destruct (d_cancelFunc k); [| destruct (d_done k) |]).
  destruct (decide (i = j)) as [-> |]; [by rewrite Hk | done].
Qed.

Lemma sweep_result {V} n j : ∀ s : Futures (V := V), result_of (sweep_loop n s) j = result_of s j.
Proof.
  induction n as [| n IH]; intros s; cbn; [done |]. destruct (unowned s) as [i |]; [| done].
  by rewrite IH, destroy_result.
Qed.

(** [a], a connection's future: a promise still, or resolved with an error when it was made. *)
Definition connection_future (v : VHost) (a : nat) : Prop :=
  (∃ k, origin_of (v_futures v) a = Some (Origin_make (Some k)) ∧ k < length (v_created v)) ∨
  (∃ msg, origin_of (v_futures v) a = Some (Origin_make None) ∧
     result_of (v_futures v) a = Some (Result_error msg (-1))).

Definition vhost_ok v : Prop :=
  at_rest (v_futures v) ∧
  (stuck (v_futures v) = None →
     (∀ r a, role_future r v = Some a → a ∈ handles (v_futures v) ∧ connection_future v a) ∧
     (∀ a, d_producerFuture v = Some a → d_consumerFuture v ≠ Some a)).

Lemma connection_future_later v v' a :
  extends (v_futures v) (v_futures v') → length (v_created v) ≤ length (v_created v') →
  connection_future v a → connection_future v' a.
Proof.
  intros He Hl [(k & Ho & Hk) | (msg & Ho & Hr)]; [left | right].
  - exists k. split; [by eapply origin_extends | lia].
  - exists msg. split; [by eapply origin_extends | by eapply result_extends].
Qed.

(** A call that keeps the handles of the connections' futures. *)
Lemma v_perform_ok o v :
  vhost_ok v → promise_unused o (v_futures v) →
  (stuck (v_futures v) = None →
   ∀ r a, role_future r v = Some a → a ∈ handles (v_futures v) → a ∈ handles (begin o (v_futures v))) →
  vhost_ok (v_perform o v) ∧ (stuck (perform o (v_futures v)) = None → extends (v_futures v) (perform o (v_futures v))).
Proof.
  intros [Hr Hv] Ho Hh. pose proof (perform_at_rest o _ Hr Ho) as Hr'.
  assert (stuck (perform o (v_futures v)) = None → extends (v_futures v) (perform o (v_futures v))) as He.
  { intros Hst. by apply perform_extends. }
  split; [| done]. split; [done |]. cbn. intros Hst. specialize (He Hst). destruct (perform_extends o _ Hr Ho Hst) as [_ Hhs].
  destruct (Hv (perform_stuck _ _ Hst)) as [Hroles Hne]. split; [| done]. intros r a Ha.
  assert (role_future r v = Some a) as Ha' by (by destruct r). destruct (Hroles r a Ha') as [Hin Hc]. split.
  - rewrite Hhs. eapply Hh; [by eapply perform_stuck | done | done].
  - by apply (connection_future_later v).
Qed.

Lemma remove_one_other (a b : nat) l : a ≠ b → a ∈ l → a ∈ remove_one b l.
Proof.
  intros Hne. induction l as [| x l IH]; cbn; [done |]. intros Hin. destruct (Nat.eqb_spec x b) as [-> | Hx].
  - apply elem_of_cons in Hin as [-> | Hin]; done.
  - rewrite elem_of_cons in *. destruct Hin as [-> | Hin]; auto.
Qed.

Lemma perform_quiet {V} (o : FutureOp (V := V)) s : tasks (begin o s) = [] → perform o s = sweep (begin o s).
Proof.
  intros Ht. unfold perform. destruct (sweep_same (begin o s)) as (_ & Hts & _). rewrite Ht in Hts.
  destruct (work (sweep (begin o s))); [done |]. cbn. rewrite Hts. by destruct (stuck (sweep (begin o s))).
Qed.

(** A promise that was just made. *)
Lemma make_future u v :
  vhost_ok v → let v' := v_perform (Op_make u) v in let a := fresh (v_futures v) in
  stuck (v_futures v') = None →
  vhost_ok v' ∧ extends (v_futures v) (v_futures v') ∧ a ∈ handles (v_futures v') ∧
  origin_of (v_futures v') a = Some (Origin_make u) ∧ result_of (v_futures v') a = None.
Proof.
  intros Hok v' a Hst. cbn in Hst.
  destruct (v_perform_ok (Op_make u) v Hok I) as [Hok' He]; [intros _ r a' _ Hin; by right |].
  pose proof Hok as [Hr _]. destruct (perform_extends (Op_make u) _ Hr I Hst) as [_ Hh].
  destruct (Hr (perform_stuck _ _ Hst)) as [_ Ht].
  split_and!; [done | by apply He | | |].
  - change (v_futures v') with (perform (Op_make u) (v_futures v)). rewrite Hh. left.
  - destruct (perform_made (Op_make u) (v_futures v) (mkImpl true false false Result_null [] (cancel_of u) (Origin_make u)) Hr I Hst)
      as (k' & Hk' & Hev); [done | left | done |].
    unfold origin_of. change (v_futures v') with (perform (Op_make u) (v_futures v)). unfold a. rewrite Hk'. cbn. by rewrite (ev_origin _ _ Hev).
  - change (v_futures v') with (perform (Op_make u) (v_futures v)). rewrite perform_quiet by done. unfold sweep. rewrite sweep_result.
    unfold result_of. cbn. unfold a, fresh. by rewrite list_lookup_middle.
Qed.

Lemma unused_promise {V} (s : Futures (V := V)) a u r :
  origin_of s a = Some (Origin_make u) → result_of s a = None → promise_unused (Op_resolve a r) s.
Proof.
  intros Ho Hr. split; [by exists u |]. unfold done_of, result_of in *. destruct (impls s !! a) as [k |]; [| done].
  by destruct (d_done k).
Qed.

Lemma failed_future_ok error v :
  vhost_ok v → let (a, v') := failed_future error v in
  stuck (v_futures v') = None →
  vhost_ok v' ∧ extends (v_futures v) (v_futures v') ∧ a = fresh (v_futures v) ∧ a ∈ handles (v_futures v') ∧
  v_created v' = v_created v ∧ origin_of (v_futures v') a = Some (Origin_make None) ∧
  result_of (v_futures v') a = Some (Result_error error (-1)).
Proof.
  intros Hok. unfold failed_future. cbn zeta. set (v1 := v_perform (Op_make None) v). set (a := fresh (v_futures v)).
  intros Hst. cbn in Hst. pose proof (perform_stuck _ _ Hst) as Hst1.
  destruct (make_future None v Hok Hst1) as (Hok1 & He1 & Hin & Ho & Hn). fold v1 a in Hok1, He1, Hin, Ho, Hn.
  pose proof (unused_promise _ _ _ (Result_error error (-1)) Ho Hn) as Hun.
  destruct (v_perform_ok (Op_resolve a (Result_error error (-1))) v1 Hok1 Hun) as [Hok2 He2]; [done |].
  destruct Hok1 as [Hr1 _]. destruct (Hr1 Hst1) as [Hreach Ht].
  destruct (perform_resolve (v_futures v1) a (Result_error error (-1)) Hreach Ht Hst1 Hun (held_alive _ a Hr1 Hst1 Hin)) as (_ & He & Hh & Hres).
  destruct (Hres Hst) as [_ Hra].
  cbn [v_futures v_set_futures v_perform]. split_and!; [done | by eapply evolved_trans | done | by rewrite Hh | done | by eapply origin_extends | done].
Qed.

(** A new connection's future, made from [v]. *)
Lemma createNewConnection_ok suffix v :
  vhost_ok v → let (a, v') := createNewConnection suffix v in
  stuck (v_futures v') = None →
  vhost_ok v' ∧ extends (v_futures v) (v_futures v') ∧ a = fresh (v_futures v) ∧ a ∈ handles (v_futures v') ∧
  (∀ r, role_future r v' = role_future r v) ∧ d_newConnection v' = d_newConnection v ∧ connection_future v' a ∧
  let m := d_newConnection v in
  if has_endpoint m && has_credentials m && loop_started m
  then v_created v' = v_created v ++ [connection_name (userDefinedName m) suffix] ∧ result_of (v_futures v') a = None ∧
    origin_of (v_futures v') a = Some (Origin_make (Some (length (v_created v))))
  else v_created v' = v_created v ∧ ∃ msg, result_of (v_futures v') a = Some (Result_error msg (-1)).
Proof.
  intros Hok. unfold createNewConnection. cbn zeta.
  assert (∀ msg, let (a, v') := failed_future msg v in stuck (v_futures v') = None →
    vhost_ok v' ∧ extends (v_futures v) (v_futures v') ∧ a = fresh (v_futures v) ∧ a ∈ handles (v_futures v') ∧
    (∀ r, role_future r v' = role_future r v) ∧ d_newConnection v' = d_newConnection v ∧ connection_future v' a ∧
    v_created v' = v_created v ∧ ∃ msg, result_of (v_futures v') a = Some (Result_error msg (-1))) as Hfail.
  { intros msg. pose proof (failed_future_ok msg v Hok) as H. assert (∀ r, role_future r (failed_future msg v).2 = role_future r v) as Hrole by (by intros []).
    assert (d_newConnection (failed_future msg v).2 = d_newConnection v) as Hnc by done.
    destruct (failed_future msg v) as [a v']. cbn in Hrole, Hnc. intros Hst. destruct (H Hst) as (H1 & H2 & H3 & H4 & H5 & H6 & H7).
    split_and!; try done; [right; eauto | by exists msg]. }
  destruct (has_endpoint (d_newConnection v)) eqn:H1; cbn [negb andb]; [| apply Hfail].
  destruct (has_credentials (d_newConnection v)) eqn:H2; cbn [negb andb]; [| apply Hfail].
  destruct (loop_started (d_newConnection v)) eqn:H3; cbn [negb]; [| apply Hfail].
  clear Hfail. set (v1 := v_create _ v). intros Hst.
  assert (vhost_ok v1) as Hok1.
  { destruct Hok as [Hr Hv]. split; [done |]. intros Hs. destruct (Hv Hs) as [Hroles Hne]. split; [| done].
    intros r a Ha. destruct (Hroles r a) as [Hin Hc]; [by destruct r |]. split; [done |].
    apply (connection_future_later v); [apply evolved_refl | cbn; rewrite length_app; lia | done]. }
  destruct (make_future (Some (length (v_created v))) v1 Hok1 Hst) as (Hok2 & He & Hin & Ho & Hn).
  split_and!; try done; try (by intros []).
  left. exists (length (v_created v)). split; [done |]. cbn. rewrite length_app. cbn. lia.
Qed.

Lemma role_set r a v : role_future r (v_set_future r a v) = a.
Proof. by destruct r. Qed.

Lemma role_set_other r r' a v : r ≠ r' → role_future r' (v_set_future r a v) = role_future r' v.
Proof. by destruct r, r'. Qed.

Lemma set_future_fields r a v : v_futures (v_set_future r a v) = v_futures v ∧ v_created (v_set_future r a v) = v_created v ∧
  d_newConnection (v_set_future r a v) = d_newConnection v ∧ v_trace (v_set_future r a v) = v_trace v.
Proof. by destruct r. Qed.

Lemma roles_distinct v :
  (∀ a, d_producerFuture v = Some a → d_consumerFuture v ≠ Some a) ↔
  ∀ r r' a, r ≠ r' → role_future r v = Some a → role_future r' v ≠ Some a.
Proof.
  split.
  - intros H [] [] a Hne Ha Ha'; try done; cbn in *; naive_solver.
  - intros H a Ha. by apply (H R_producer R_consumer).
Qed.

(** The role's future is replaced by a connection's future that no role has. *)
Lemma set_future_ok r a v :
  vhost_ok v →
  (∀ a', a = Some a' → stuck (v_futures v) = None →
     a' ∈ handles (v_futures v) ∧ connection_future v a' ∧ ∀ r', role_future r' v ≠ Some a') →
  vhost_ok (v_set_future r a v).
Proof.
  intros [Hr Hv] Ha. destruct (set_future_fields r a v) as (Hf & Hc & _ & _).
  split; [by rewrite Hf |]. rewrite Hf. intros Hst. destruct (Hv Hst) as [Hroles Hne]. rewrite roles_distinct in *. split.
  - intros r' a' Hr'. unfold connection_future. rewrite Hf, Hc. destruct (decide (r = r')) as [<- | Hrr].
    + rewrite role_set in Hr'. destruct (Ha a' Hr' Hst) as (? & ? & _). done.
    + rewrite (role_set_other _ _ _ _ Hrr) in Hr'. by apply (Hroles r').
  - intros r1 r2 a' H12 H1 H2. destruct (decide (r = r1)) as [<- | Hr1].
    + rewrite role_set in H1. rewrite (role_set_other _ _ _ _ H12) in H2. destruct (Ha a' H1 Hst) as (_ & _ & Hn). by apply (Hn r2).
    + rewrite (role_set_other _ _ _ _ Hr1) in H1. destruct (decide (r = r2)) as [<- | Hr2].
      * rewrite role_set in H2. destruct (Ha a' H2 Hst) as (_ & _ & Hn). by apply (Hn r1).
      * rewrite (role_set_other _ _ _ _ Hr2) in H2. by apply (Hne r1 r2 a').
Qed.

Lemma createNewConnection_stuck suffix v :
  stuck (v_futures (createNewConnection suffix v).2) = None → stuck (v_futures v) = None.
Proof.
  assert (∀ msg, stuck (v_futures (failed_future msg v).2) = None → stuck (v_futures v) = None) as Hf
    by (intros msg Hx; by apply perform_stuck, perform_stuck in Hx).
  unfold createNewConnection. destruct (negb _); [apply Hf |]. destruct (negb _); [apply Hf |]. destruct (negb _); [apply Hf |].
  intros Hx. by apply perform_stuck in Hx.
Qed.

(** What [ensureFuture] leaves: the future there was, or that of a new connection. *)
Definition ensured r v v' a : Prop :=
  match role_future r v with
  | Some a0 => a = a0 ∧ v_created v' = v_created v
  | None =>
      let m := d_newConnection v in
      if has_endpoint m && has_credentials m && loop_started m
      then v_created v' = v_created v ++ [connection_name (userDefinedName m) (role_suffix r)] ∧
        origin_of (v_futures v') a = Some (Origin_make (Some (length (v_created v))))
      else v_created v' = v_created v ∧ ∃ msg, result_of (v_futures v') a = Some (Result_error msg (-1))
  end.

Lemma ensureFuture_ok r v :
  vhost_ok v → let v' := ensureFuture r v in
  stuck (v_futures v') = None →
  vhost_ok v' ∧ extends (v_futures v) (v_futures v') ∧ d_newConnection v' = d_newConnection v ∧
  ∃ a, role_future r v' = Some a ∧ a ∈ handles (v_futures v') ∧ ensured r v v' a.
Proof.
  intros Hok. unfold ensureFuture, ensured. destruct (role_future r v) as [a0 |] eqn:Hrole.
  - cbn zeta. intros Hst. split; [done |]. split; [apply evolved_refl |]. split; [done |]. exists a0.
    destruct Hok as [_ Hv]. destruct (Hv Hst) as [Hroles _]. split; [done |]. split; [by apply (Hroles r) | done].
  - pose proof (createNewConnection_ok (role_suffix r) v Hok) as H.
    pose proof (createNewConnection_stuck (role_suffix r) v) as Hmono. destruct (createNewConnection (role_suffix r) v) as [a v1].
    cbn zeta. destruct (set_future_fields r (Some a) v1) as (Hf & Hc & Hm & _). rewrite Hf, Hm. intros Hst.
    destruct (H Hst) as (Hok1 & He & Ha & Hin & Hroles1 & Hm1 & Hcf & Hcr). split_and!; [| done | done |].
    + apply set_future_ok; [done |]. intros a' [= <-] _. split_and!; [done.. |]. intros r' Hr'. rewrite Hroles1 in Hr'.
      destruct Hok as [Hr Hv]. pose proof (Hmono Hst) as Hst0.
      destruct (Hv Hst0) as [Hroles _]. destruct (Hroles r' a Hr') as [Hina _].
      destruct (alive_some _ _ (held_alive _ a Hr Hst0 Hina)) as [k Hk]. apply lookup_lt_Some in Hk. unfold fresh in Ha. lia.
    + exists a. rewrite role_set, Hc. split; [done |]. split; [done |]. cbn zeta in Hcr.
      destruct (_ && _ && _); [by destruct Hcr as (? & _ & ?) | done].
Qed.

(** The future given to the application. *)
Definition derived_from v (b a : nat) (proxy : Proxy) : Prop :=
  origin_of (v_futures v) b = Some (Origin_thenFuture a (propagateError proxy) []).

Lemma createAsync_ok r proxy v :
  vhost_ok v → let (b, v') := VHostImpl_createAsync r proxy v in
  stuck (v_futures v') = None →
  vhost_ok v' ∧ extends (v_futures v) (v_futures v') ∧ b ∈ handles (v_futures v') ∧
  ∃ a, role_future r v' = Some a ∧ a ∈ handles (v_futures v') ∧ derived_from v' b a proxy ∧
    ensured r v v' a.
Proof.
  intros Hok. unfold VHostImpl_createAsync. pose proof (ensureFuture_ok r v Hok) as H.
  set (v1 := ensureFuture r v) in *. cbn zeta in *. destruct (role_future r v1) as [a |] eqn:Hrole.
  2:{ intros Hst. destruct (H Hst) as (_ & _ & _ & a & Ha & _). congruence. }
  intros Hst. cbn in Hst. pose proof (perform_stuck _ _ Hst) as Hst1.
  destruct (H Hst1) as (Hok1 & He1 & _ & a' & [= <-] & Hin & Hens).
  set (o := Op_thenFuture a (propagateError proxy) []).
  assert (begin o (v_futures v1) = push [Task_addChain a (Chain_futureConverter (fresh (v_futures v1)) (propagateError proxy) [])]
    (new_impl false Result_null (Cancel_extends a) (Origin_thenFuture a (propagateError proxy) [])
       (set_handles (v_futures v1) (fresh (v_futures v1) :: handles (v_futures v1))))) as Hb.
  { cbn [begin o forallb andb]. rewrite bool_decide_true by done. done. }
  destruct (v_perform_ok o v1 Hok1 I) as [Hok2 He2].
  { intros _ r' a' Hr' Hin'. rewrite Hb. right. done. }
  pose proof Hok1 as [Hr1 _]. destruct (perform_extends o _ Hr1 I Hst) as [_ Hh]. rewrite Hb in Hh. cbn in Hh.
  cbn [v_futures v_perform v_set_futures].
  split_and!; [done | eapply evolved_trans; [exact He1 | by apply He2] | rewrite Hh; left |].
  exists a. split_and!; [by destruct r | rewrite Hh; by right | |].
  - destruct (perform_made o (v_futures v1) (mkImpl true false false Result_null [] (Cancel_extends a) (Origin_thenFuture a (propagateError proxy) [])) Hr1 I Hst)
      as (k' & Hk' & Hev); [by rewrite Hb | rewrite Hb; left | done |].
    unfold derived_from, origin_of. cbn. rewrite Hk'. cbn. by rewrite (ev_origin _ _ Hev).
  - unfold ensured in *. destruct (role_future r v); [done |]. destruct (_ && _ && _).
    + destruct Hens as [? Ho]. split; [done |]. eapply origin_extends; [by apply He2 | done].
    + destruct Hens as [? [msg Hm]]. split; [done |]. exists msg. eapply result_extends; [by apply He2 | done].
Qed.

Lemma promise_of_unused s a u r : promise_of a s = Some u → promise_unused (Op_resolve (V := Handle) a r) s.
Proof.
  unfold promise_of. destruct (impls s !! a) as [k |] eqn:Hk; [| done]. destruct (d_done k) eqn:Hd; [done |].
  destruct (i_origin k) eqn:Ho; try done. intros [= ->]. split; [exists u; unfold origin_of; rewrite Hk; cbn; by rewrite Ho |].
  unfold done_of. by rewrite Hk.
Qed.

Lemma shutdown_ok r v :
  vhost_ok v → let v' := shutdownConnectionFuture r v in
  vhost_ok v' ∧ (stuck (v_futures v') = None → extends (v_futures v) (v_futures v')).
Proof.
  intros Hok. unfold shutdownConnectionFuture. destruct (role_future r v) as [a |] eqn:Hr; [| split; [done | intros _; apply evolved_refl]].
  cbn zeta. set (v1 := if Result_ok _ then _ else v).
  assert (v_futures v1 = v_futures v ∧ vhost_ok v1 ∧ (∀ r', role_future r' v1 = role_future r' v)) as (Hf & Hok1 & Hroles).
  { unfold v1. destruct (Result_ok _); [| done]. split; [done |]. split; [| by intros []]. destruct Hok as [H1 H2]. split; done. }
  destruct (set_future_fields r None (v_perform (Op_drop a) v1)) as (Hf' & _).
  (* the other role's future is kept *)
  destruct Hok1 as [Hre Hv].
  assert (vhost_ok (v_set_future r None v1)) as Hok2.
  { apply set_future_ok; [done |]. done. }
  assert (v_set_future r None (v_perform (Op_drop a) v1) = v_perform (Op_drop a) (v_set_future r None v1)) as ->.
  { by destruct r. }
  destruct (v_perform_ok (Op_drop a) (v_set_future r None v1) Hok2 I) as [Hok3 He].
  { intros Hst r' a' Hr' Hin. cbn. apply remove_one_other; [| done]. intros ->.
    destruct (decide (r = r')) as [<- | Hne]; [by rewrite role_set in Hr' |]. rewrite (role_set_other _ _ _ _ Hne), Hroles in Hr'.
    destruct (set_future_fields r None v1) as (Hf2 & _). rewrite Hf2 in Hst. destruct (Hv Hst) as [_ Hd].
    rewrite roles_distinct in Hd. apply (Hd r r' a Hne); by rewrite Hroles. }
  split; [done |]. intros Hst. destruct (set_future_fields r None v1) as (Hf2 & _).
  cbn [v_futures v_perform v_set_futures] in *. rewrite Hf2, Hf in *. by apply He.
Qed.

Lemma shutdown_stuck r v :
  stuck (v_futures (shutdownConnectionFuture r v)) = None → stuck (v_futures v) = None.
Proof.
  unfold shutdownConnectionFuture. destruct (role_future r v) as [a |]; [| done]. cbn zeta.
  match goal with |- context [v_set_future r None ?w] => destruct (set_future_fields r None w) as (-> & _) end.
  intros Hst. cbn in Hst. apply perform_stuck in Hst. by destruct (Result_ok _).
Qed.

Lemma close_ok v :
  vhost_ok v → vhost_ok (VHostImpl_close v) ∧
  (stuck (v_futures (VHostImpl_close v)) = None → extends (v_futures v) (v_futures (VHostImpl_close v))).
Proof.
  intros Hok. destruct (shutdown_ok R_producer v Hok) as [Hok1 He1]. destruct (shutdown_ok R_consumer _ Hok1) as [Hok2 He2].
  split; [done |]. unfold VHostImpl_close. intros Hst. eapply evolved_trans; [| by apply He2]. apply He1.
  by apply shutdown_stuck in Hst.
Qed.

Lemma step_vhost op v :
  vhost_ok v → vhost_ok (vhost_step v op) ∧
  (stuck (v_futures (vhost_step v op)) = None → extends (v_futures v) (v_futures (vhost_step v op))).
Proof.
  intros Hok. assert (vhost_ok v ∧ (stuck (v_futures v) = None → extends (v_futures v) (v_futures v))) as Hid.
  { split; [done |]. intros _. apply evolved_refl. }
  destruct op as [r proxy | | b | success a | c item]; cbn [vhost_step].
  - pose proof (createAsync_ok r proxy v Hok) as H. destruct (VHostImpl_createAsync r proxy v) as [b v']. cbn.
    split; [| intros Hst; by destruct (H Hst) as (_ & He & _)]. split.
    + intros Hst. destruct (H Hst) as ([Hr _] & _). by apply Hr.
    + intros Hst. destruct (H Hst) as ([_ Hv] & _). by apply Hv.
  - by apply close_ok.
  - destruct (bool_decide_reflect (d_producerFuture v = Some b)) as [| Hp]; [done |].
    destruct (bool_decide_reflect (d_consumerFuture v = Some b)) as [| Hc]; [done |]. cbn [orb].
    apply v_perform_ok; [done | done |]. intros _ r a Ha Hin. cbn. apply remove_one_other; [| done].
    intros ->. by destruct r.
  - destruct (promise_of a (v_futures v)) as [[k |] |] eqn:Hp; [| done | done].
    unfold initiateConnection. apply v_perform_ok; [done | by eapply promise_of_unused | done].
  - destruct (promise_of c (v_futures v)) as [[k |] |] eqn:Hp; [done | | done].
    apply v_perform_ok; [done | by eapply promise_of_unused | done].
Qed.

Lemma vhost_step_stuck op v : stuck (v_futures (vhost_step v op)) = None → stuck (v_futures v) = None.
Proof.
  destruct op as [r proxy | | b | success a | c item]; cbn [vhost_step].
  - unfold VHostImpl_createAsync. cbn zeta.
    assert (stuck (v_futures (ensureFuture r v)) = None → stuck (v_futures v) = None) as He.
    { unfold ensureFuture. destruct (role_future r v); [done |]. pose proof (createNewConnection_stuck (role_suffix r) v) as Hc.
      destruct (createNewConnection (role_suffix r) v) as [a v1]. destruct (set_future_fields r (Some a) v1) as (-> & _). done. }
    destruct (role_future r (ensureFuture r v)); [| done]. cbn. intros Hst. by apply He, perform_stuck in Hst || apply He; eapply perform_stuck.
  - unfold VHostImpl_close. intros Hst. by do 2 apply shutdown_stuck in Hst.
  - destruct (_ || _); [done |]. apply perform_stuck.
  - destruct (promise_of a (v_futures v)) as [[k |] |]; [apply perform_stuck | done | done].
  - destruct (promise_of c (v_futures v)) as [[k |] |]; [done | apply perform_stuck | done].
Qed.

Lemma run_vhost ops : ∀ v, vhost_ok v → vhost_ok (vhost_run ops v) ∧
  (stuck (v_futures (vhost_run ops v)) = None → extends (v_futures v) (v_futures (vhost_run ops v))).
Proof.
  induction ops as [| op ops IH]; intros v Hok; [split; [done | intros _; apply evolved_refl] |].
  change (vhost_run (op :: ops) v) with (vhost_run ops (vhost_step v op)).
  destruct (step_vhost op v Hok) as [Hok1 He1]. destruct (IH _ Hok1) as [Hok2 He2]. split; [done |]. intros Hst.
  eapply evolved_trans; [| by apply He2]. apply He1.
  clear -Hst. revert Hst. generalize (vhost_step v op) as w. clear v op. induction ops as [| op ops IH]; intros w; [done |].
  change (vhost_run (op :: ops) w) with (vhost_run ops (vhost_step w op)). intros Hst. apply IH in Hst. by apply vhost_step_stuck in Hst.
Qed.

Lemma make_ok m : vhost_ok (VHostImpl_make m).
Proof. split; [intros _; split; [constructor | done] |]. intros _. split; [by intros [] |]. done. Qed.


(** *** Closing *)

Lemma shutdown_spec r v :
  vhost_ok v → stuck (v_futures (shutdownConnectionFuture r v)) = None →
  (∀ r', role_future r' (shutdownConnectionFuture r v) = if decide (r = r') then None else role_future r' v) ∧
  (∀ e, e ∈ v_trace v → e ∈ v_trace (shutdownConnectionFuture r v)) ∧
  (∀ j, result_of (v_futures (shutdownConnectionFuture r v)) j = result_of (v_futures v) j) ∧
  (∀ a e, role_future r v = Some a → result_of (v_futures v) a = Some e → Result_ok e = true →
     VE_closeConnection (r_value e) ∈ v_trace (shutdownConnectionFuture r v)).
Proof.
  intros [Hr Hv] Hst. pose proof (shutdown_stuck r v Hst) as Hst0. destruct (Hr Hst0) as [_ Ht]. clear Hst.
  unfold shutdownConnectionFuture. destruct (role_future r v) as [a |] eqn:Ha; cbn zeta.
  2:{ split_and!; try done. intros r'. by destruct (decide (r = r')) as [<- |]. }
  set (v1 := if Result_ok _ then _ else v).
  assert (v_futures v1 = v_futures v ∧ (∀ r', role_future r' v1 = role_future r' v) ∧ ∀ e, e ∈ v_trace v → e ∈ v_trace v1) as (Hf & Hroles & Htr).
  { unfold v1. destruct (Result_ok _); [| done]. split; [done |]. split; [by intros [] |]. intros e He. cbn. apply elem_of_app. by left. }
  destruct (set_future_fields r None (v_perform (Op_drop a) v1)) as (-> & _ & _ & ->). split_and!.
  - intros r'. destruct (decide (r = r')) as [<- | Hne]; [apply role_set |]. rewrite (role_set_other _ _ _ _ Hne).
    rewrite <- Hroles. by destruct r'.
  - exact Htr.
  - intros j. cbn [v_futures v_perform v_set_futures]. rewrite Hf, perform_quiet by done. unfold sweep. by rewrite sweep_result.
  - intros a' e [= <-] He Hok. cbn. unfold v1.
    assert (tryResult a (v_futures v) = e) as ->.
    { unfold tryResult, result_of in *. destruct (impls (v_futures v) !! a) as [k |]; [| done]. destruct (d_done k); [by simplify_eq | done]. }
    rewrite Hok. cbn. apply elem_of_app. right. left.
Qed.

Lemma close_spec v :
  vhost_ok v → stuck (v_futures (VHostImpl_close v)) = None →
  (∀ r, role_future r (VHostImpl_close v) = None) ∧
  (∀ j, result_of (v_futures (VHostImpl_close v)) j = result_of (v_futures v) j) ∧
  (∀ r a e, role_future r v = Some a → result_of (v_futures v) a = Some e → Result_ok e = true →
     VE_closeConnection (r_value e) ∈ v_trace (VHostImpl_close v)).
Proof.
  intros Hok Hst. unfold VHostImpl_close in *. pose proof (shutdown_stuck _ _ Hst) as Hst1.
  destruct (shutdown_ok R_producer v Hok) as [Hok1 _].
  destruct (shutdown_spec R_producer v Hok Hst1) as (Hr1 & Ht1 & Hres1 & He1).
  destruct (shutdown_spec R_consumer _ Hok1 Hst) as (Hr2 & Ht2 & Hres2 & He2). split_and!.
  - intros r'. rewrite Hr2, Hr1. by destruct r'.
  - intros j. by rewrite Hres2, Hres1.
  - intros [] a e Ha Hres Hoke; [by apply Ht2, (He1 a) |]. apply (He2 a); [by rewrite Hr1 | by rewrite Hres1 | done].
Qed.

(** A connection that was being established when the virtual host was closed. *)
Lemma close_pending v r a k :
  vhost_ok v → role_future r v = Some a → origin_of (v_futures v) a = Some (Origin_make (Some k)) →
  let v' := VHostImpl_close v in
  stuck (v_futures v') = None →
  (∀ e, result_of (v_futures v) a = Some e → Result_ok e = true → VE_closeConnection (r_value e) ∈ v_trace v') ∧
  (result_of (v_futures v) a = None →
     (Ev_cancelled a k ∈ trace (v_futures v') ↔ impl_alive (v_futures v') a = false) ∧
     result_of (v_futures v') a = None ∧ promise_of a (v_futures v') = Some (Some k)).
Proof.
  intros Hok Ha Ho v' Hst. destruct (close_spec v Hok Hst) as (_ & Hres & Hev). fold v' in Hres, Hev.
  destruct (close_ok v Hok) as [[Hrest _] He]. fold v' in Hrest, He. specialize (He Hst). destruct (Hrest Hst) as [Hreach _].
  split; [intros e; by apply (Hev r a e Ha) |]. intros Hn.
  pose proof (origin_extends _ _ _ _ He Ho) as Ho'. specialize (Hres a). rewrite Hn in Hres.
  assert (∃ ka, impls (v_futures v') !! a = Some ka ∧ i_origin ka = Origin_make (Some k) ∧ d_done ka = false) as (ka & Hka & Hoka & Hd).
  { unfold origin_of in Ho'. unfold result_of in Hres. destruct (impls (v_futures v') !! a) as [ka |]; [| done]. exists ka.
    cbn in Ho'. destruct (d_done ka) eqn:?; [done |]. split_and!; [done | congruence | done]. }
  split_and!; [| done | unfold promise_of; by rewrite Hka, Hd, Hoka].
  rewrite (cancelled_iff_unresolved _ a k Hreach Hst). unfold impl_alive. rewrite Hka. split.
  - intros (k0 & Hk0 & _ & Hal & _). by simplify_eq.
  - intros Hal. by exists ka.
Qed.

(** A promise nobody waits for has no effect. *)
Lemma resolve_dead {V} a item (s : Futures (V := V)) b :
  tasks s = [] → stuck s = None → impl_alive s a = false → result_of (perform (Op_resolve a item) s) b = result_of s b.
Proof.
  intros Ht Hst Hd. unfold perform. cbn [begin]. set (s0 := push [Task_made a item] s).
  assert (tasks (sweep s0) = [Task_made a item]) as Hts by (destruct (sweep_same s0) as (_ & -> & _); cbn; by rewrite Ht).
  assert (stuck (sweep s0) = None) as Hss by (destruct (sweep_same s0) as (_ & _ & -> & _); done).
  assert (impl_alive (sweep s0) a = false) as Hd0.
  { destruct (impl_alive (sweep s0) a) eqn:Hal; [| done]. pose proof (sweep_loop_extends (length (impls s0)) s0) as He.
    unfold impl_alive in Hd, Hal. destruct (impls s !! a) as [k |] eqn:Hk.
    - destruct (ex_impls _ _ He a k Hk) as (k' & Hk' & Hev). unfold sweep in Hal. rewrite Hk' in Hal. by rewrite (ev_alive _ _ Hev Hal) in Hd.
    - destruct (sweep_same s0) as (_ & _ & _ & Hlen). apply lookup_ge_None in Hk. unfold sweep in Hal, Hlen.
      rewrite (lookup_ge_None_2 _ a) in Hal; [done |]. rewrite Hlen. exact Hk. }
  assert (result_of (sweep s0) b = result_of s b) as <- by (unfold sweep; by rewrite sweep_result).
  set (s1 := sweep s0) in *. clearbody s1. destruct (work s1) as [| n]; [done |]. cbn [run]. rewrite Hss, Hts.
  assert (step s1 = sweep (pop s1)) as ->.
  { unfold step. rewrite Hss, Hts. cbn [callback_blocked task_callback exec]. f_equal. unfold Impl_made, impl_alive in *. cbn.
    destruct (impls s1 !! a) as [k |]; [| done]. by rewrite Hd0. }
  assert (tasks (sweep (pop s1)) = []) as Hts' by (destruct (sweep_same (pop s1)) as (_ & -> & _); cbn; by rewrite Hts).
  assert (run n (sweep (pop s1)) = sweep (pop s1)) as -> by (destruct n; [done |]; cbn [run]; rewrite Hts'; by destruct (stuck (sweep (pop s1)))).
  unfold sweep. by rewrite sweep_result.
Qed.

(** What becomes of a connection when a virtual host is closed. A connection that is still being established is given up (its
    cancel function is called, which closes it) exactly if its future has gone, so not
    while the application holds a future of a producer or consumer it asked for before:
    the attempt then goes on after the close, and when it succeeds the connection is
    asked to create the producer after all. *)
Theorem vhost_close_leaves_pending m ops r a k :
  let v := vhost_run ops (VHostImpl_make m) in
  let v' := VHostImpl_close v in
  role_future r v = Some a → origin_of (v_futures v) a = Some (Origin_make (Some k)) →
  stuck (v_futures v') = None →
  role_future r v' = None ∧
  (∀ e, result_of (v_futures v) a = Some e → Result_ok e = true → VE_closeConnection (r_value e) ∈ v_trace v') ∧
  (result_of (v_futures v) a = None →
     (Ev_cancelled a k ∈ trace (v_futures v') ↔ impl_alive (v_futures v') a = false) ∧
     ∀ b proxy, derived_from v b a proxy → b ∈ handles (v_futures v') →
       Ev_cancelled a k ∉ trace (v_futures v') ∧
       let v'' := vhost_step v' (V_connected true a) in
       stuck (v_futures v'') = None →
       ∃ c, Ev_generated b (Result_value (H_connection k)) c ∈ trace (v_futures v'')).
Proof.
  intros v v' Ha Ho Hst. destruct (run_vhost ops _ (make_ok m)) as [Hok _]. fold v in Hok.
  destruct (close_spec v Hok Hst) as (Hroles & _). fold v' in Hroles.
  destruct (close_ok v Hok) as [[Hrest Hv'] He]. fold v' in Hrest, Hv', He. specialize (He Hst).
  destruct (Hrest Hst) as [Hreach Ht]. destruct (close_pending v r a k Hok Ha Ho Hst) as [Hev Hpend]. fold v' in Hev, Hpend.
  split; [apply Hroles |]. split; [exact Hev |]. intros Hn. destruct (Hpend Hn) as (Hcan & Hres & Hp).
  split; [done |]. intros b proxy Hb Hin. pose proof (origin_extends _ _ _ _ He Hb) as Hb'.
  pose proof (held_alive _ b Hrest Hst Hin) as Hbal.
  assert (∀ w, at_rest w → stuck w = None → extends (v_futures v') w → impl_alive w b = true →
    match result_of w a with None => impl_alive w a = true ∧ result_of w b = None
    | Some e => if Result_ok e then ∃ c, Ev_generated b e c ∈ trace w ∧ result_of w b = result_of w c
                else result_of w b = Some (Result_error (r_error e) (r_code e)) end) as Hfollow.
  { intros w Hw Hsw Hew Hbw. pose proof (origin_extends _ _ _ _ Hew Hb') as Hob. unfold impl_alive in Hbw. unfold origin_of in Hob.
    destruct (impls w !! b) as [kb |] eqn:Hkb; [| done]. cbn in Hob.
    apply (rest_propagateError w b kb a proxy); [done | done | done | done | congruence]. }
  pose proof (Hfollow _ Hrest Hst (evolved_refl _) Hbal) as Hf0. rewrite Hres in Hf0. destruct Hf0 as [Haal _].
  split; [rewrite Hcan; congruence |]. cbn zeta. cbn [vhost_step].
  rewrite Hp. unfold initiateConnection. cbn [v_futures v_perform v_set_futures]. intros Hst''.
  pose proof (promise_of_unused _ a _ (Result_value (H_connection k)) Hp) as Hun.
  destruct (perform_resolve _ a (Result_value (H_connection k)) Hreach Ht Hst Hun Haal) as (_ & He'' & Hh'' & Hra).
  destruct (Hra Hst'') as [Ht'' Hra'].
  pose proof (perform_at_rest _ _ Hrest Hun) as Hrest''.
  pose proof (Hfollow _ Hrest'' Hst'' He'' ltac:(apply (held_alive _ b Hrest'' Hst''); by rewrite Hh'')) as Hf.
  rewrite Hra' in Hf. cbn in Hf. destruct Hf as (c & Hc & _). by exists c.
Qed.
End VHosts.

(** ** A run *)

Definition sample_maker : ConnectionMaker := mkConnectionMaker (str "app") true true true.

(** A connection that answers at once. *)
Definition sample_proxy : Proxy := pure_callback (λ _, Gen_resolved (Result_value (H_producer 7))).

Definition sample_vhost : VHost := vhost_run [V_create R_producer sample_proxy] (VHostImpl_make sample_maker).


(** The application asks for a producer, closes the virtual host, and gets the producer
    when the connection is established. *)
Lemma vhost_close_leaves_pending_witness :
  let v' := VHostImpl_close sample_vhost in
  let v'' := vhost_step v' (V_connected true 0) in
  role_future R_producer v' = None ∧
  (∃ c, Ev_generated 1 (Result_value (H_connection 0)) c ∈ trace (v_futures v'')) ∧
  tryResult 1 (v_futures v'') = Result_value (H_producer 7).
Proof.
  destruct (vhost_close_leaves_pending sample_maker [V_create R_producer sample_proxy] R_producer 0 0) as (H1 & _ & H3);
    [reflexivity | reflexivity | vm_compute; reflexivity |].
  fold sample_vhost in H1, H3. cbv zeta. split; [exact H1 |]. split; [| vm_compute; reflexivity].
  apply (H3 ltac:(vm_compute; reflexivity)) with (proxy := sample_proxy).
  - reflexivity.
  - apply list_elem_of_In. vm_compute. left. reflexivity.
  - vm_compute. reflexivity.
Defined.

