(* ===== verification/ConnectionMonitor.v ===== *)
(** * ConnectionMonitor: hung messages and connections that are still alive

    Models [rmqa::ConnectionMonitor] (rmqa_connectionmonitor.cpp), the watchdog's task that
    looks for messages a consumer takes too long to process, against the interface
    [rmqamqp::ChannelContainer] (rmqamqp_channelcontainer.h): a connection offers its
    channel map and names for debugging.

    Weak pointers to connections are addresses in a map of those alive. Datetimes are
    points on the time line as in MessageStore.v; the current time is an argument. The
    calls of the monitor's callback are a result, in their order. *)

From Stdlib Require Import ZArith Lia String Strings.Byte.
From stdpp Require Import base tactics list gmap.
From S2P Require Import Prelude Message MessageStore ChannelMap.

Section ConnectionMonitor.
Context {G : GuidUtil} {Msg : Type} {HG : HasGuid Msg}.

(** [rmqamqp::ChannelContainer], with what its channels offer: the stores of the receive
    channels and the names of all. *)
Record ChannelContainer := mkChannelContainer {
  channelMap : ChannelMap;
  connectionDebugName : bytes;
  receive_store : ChannelPtr → MessageStore Msg;
  channelDebugName : ChannelPtr → bytes;
}.

Abbreviation Connections := (gmap nat ChannelContainer).

Record ConnectionMonitor := mkConnectionMonitor {
  d_messageProcessingTimeout : Z;
  d_connections : list nat;
}.

Definition ConnectionMonitor_make (messageProcessingTimeout : Z) : ConnectionMonitor :=
  mkConnectionMonitor messageProcessingTimeout [].

Definition addConnection (connection : nat) (m : ConnectionMonitor) : ConnectionMonitor :=
  mkConnectionMonitor (d_messageProcessingTimeout m) (d_connections m ++ [connection]).

Definition connectionDestructed (w : Connections) (connection : nat) : bool :=
  match w !! connection with None => true | Some _ => false end.

(** [d_connections.remove_if(&connectionDestructed)] *)
Definition remove_destructed (w : Connections) (m : ConnectionMonitor) : ConnectionMonitor :=
  mkConnectionMonitor (d_messageProcessingTimeout m)
    (List.filter (λ c, negb (connectionDestructed w c)) (d_connections m)).

(** The loop over a connection's receive channels. *)
Fixpoint check_channels (cutoffTime : Z) (store : ChannelPtr → MessageStore Msg) (l : IdMap ChannelPtr)
    : list (Entry Msg) :=
  match l with
  | [] => []
  | (_, p) :: l => MessageStore_getMessagesOlderThan cutoffTime (store p) ++ check_channels cutoffTime store l
  end.

Fixpoint check_connections (cutoffTime : Z) (w : Connections) (cs : list nat) : list (Entry Msg) :=
  match cs with
  | [] => []
  | c :: cs =>
      match w !! c with
      | Some connection => check_channels cutoffTime (receive_store connection) (d_receiveChannels (channelMap connection))
      | None => []
      end ++ check_connections cutoffTime w cs
  end.

(** [run]: the hung messages. *)
Definition ConnectionMonitor_run (utc : Z) (w : Connections) (m : ConnectionMonitor) : list (Entry Msg) * ConnectionMonitor :=
  let cutoffTime := (utc - d_messageProcessingTimeout m)%Z in
  let m := remove_destructed w m in
  (check_connections cutoffTime w (d_connections m), m).

(** The channels' names, the receive channels' first. *)
Definition alive_channels (connection : ChannelContainer) : list bytes :=
  ((λ e, channelDebugName connection e.2) <$> d_receiveChannels (channelMap connection)) ++
  ((λ e, channelDebugName connection e.2) <$> d_sendChannels (channelMap connection)).

Fixpoint alive_info (w : Connections) (cs : list nat) : list (bytes * list bytes) :=
  match cs with
  | [] => []
  | c :: cs =>
      match w !! c with
      | Some connection => (connectionDebugName connection, alive_channels connection) :: alive_info w cs
      | None => alive_info w cs
      end
  end.

Definition fetchAliveConnectionInfo (w : Connections) (m : ConnectionMonitor) : list (bytes * list bytes) * ConnectionMonitor :=
  let m := remove_destructed w m in (alive_info w (d_connections m), m).

(** ** What is reported *)

(** The stores a connection's receive channels had: filled in the order of the tags under
    a clock that does not run backwards. *)
Definition stores_fifo (connection : ChannelContainer) : Prop :=
  ∀ k p, (k, p) ∈ d_receiveChannels (channelMap connection) → rtc fifo_step MessageStore_make (receive_store connection p).

Definition monitored (w : Connections) (m : ConnectionMonitor) : list ChannelContainer :=
  omap (λ c, w !! c) (d_connections m).

Lemma remove_destructed_monitored w m : omap (λ c, w !! c) (d_connections (remove_destructed w m)) = monitored w m.
Proof.
  unfold monitored, remove_destructed, connectionDestructed. cbn. induction (d_connections m) as [| c cs IH]; [done |].
  cbn. destruct (w !! c) as [x |] eqn:Hc; cbn; rewrite ?Hc; by rewrite IH.
Qed.

Lemma check_channels_spec cutoff store (l : IdMap ChannelPtr) :
  (∀ k p, (k, p) ∈ l → rtc fifo_step MessageStore_make (store p)) →
  check_channels cutoff store l = concat ((λ e, filter (λ x, x.2.2 ≤ cutoff)%Z (d_deliveryTagToMsg (store e.2))) <$> l).
Proof.
  induction l as [| [k p] l IH]; intros Hf; [done |]. cbn. rewrite IH by (intros k' p' Hin; apply (Hf k'); by right).
  f_equal. destruct (fifo_reachable (store p) (Hf k p ltac:(left))) as [_ Hts]. by apply olderThan_sorted.
Qed.

(** A message's age at [utc], which is when it was given to the consumer. *)
Definition hung (utc timeout : Z) (e : Entry Msg) : Prop := (timeout ≤ utc - e.2.2)%Z.

#[local] Instance hung_dec utc timeout e : Decision (hung utc timeout e).
Proof. unfold hung. apply _. Defined.

(** C39: A run of the monitor reports exactly the hung messages: of every connection that
    was added and is still alive, in the order they were added, channel by channel, all
    messages that were given to a consumer at least the timeout ago and are still in the
    receive channel's store, each once. Connections that have gone are forgotten, the
    others kept; and the information about connections that are alive lists these. *)
Theorem hung_messages_reported utc w m :
  (∀ connection, connection ∈ monitored w m → stores_fifo connection) →
  let (reported, m') := ConnectionMonitor_run utc w m in
  reported = concat ((λ connection,
    concat ((λ e, filter (hung utc (d_messageProcessingTimeout m)) (d_deliveryTagToMsg (receive_store connection e.2)))
      <$> d_receiveChannels (channelMap connection))) <$> monitored w m) ∧
  d_connections m' = List.filter (λ c, bool_decide (is_Some (w !! c))) (d_connections m) ∧
  monitored w m' = monitored w m ∧
  fetchAliveConnectionInfo w m =
    ((λ connection, (connectionDebugName connection, alive_channels connection)) <$> monitored w m, m').
Proof.
  intros Hf. unfold ConnectionMonitor_run, fetchAliveConnectionInfo. cbn zeta. split_and!.
  - rewrite <- remove_destructed_monitored in Hf |- *.
    assert (∀ c, c ∈ d_connections (remove_destructed w m) → is_Some (w !! c)) as Hal.
    { intros c Hc. cbn in Hc. apply list_elem_of_In, filter_In in Hc as [_ Hc]. unfold connectionDestructed in Hc. by destruct (w !! c). }
    revert Hf Hal. generalize (d_connections (remove_destructed w m)) as cs. induction cs as [| c cs IH]; intros Hf Hal; [done |].
    cbn in *. destruct (Hal c ltac:(left)) as [x Hx]. rewrite Hx in *. cbn. f_equal.
    + rewrite check_channels_spec by (apply Hf; left). f_equal. apply list_fmap_ext. intros i [k p] _. cbn.
      apply list_filter_iff. intros e. unfold hung. lia.
    + apply IH; [intros y Hy; apply Hf; by right | intros c' Hc'; apply Hal; by right].
  - cbn. apply List.filter_ext. intros c. unfold connectionDestructed. by destruct (w !! c).
  - apply remove_destructed_monitored.
  - f_equal. rewrite <- remove_destructed_monitored. generalize (d_connections (remove_destructed w m)) as cs.
    induction cs as [| c cs IH]; [done |]. cbn. destruct (w !! c); cbn; by rewrite IH.
Qed.
End ConnectionMonitor.

(** ** A run *)

#[local] Existing Instances byte_GuidUtil.
#[local] Instance monitor_HasGuid : HasGuid (Byte.byte * Z) := fst.

Definition monitored_store : MessageStore (Byte.byte * Z) :=
  (MessageStore_insert 20 2 (Byte.x01, 0%Z) (MessageStore_insert 10 1 (Byte.x02, 0%Z) MessageStore_make).2).2.

Definition sample_container : ChannelContainer (Msg := Byte.byte * Z) :=
  mkChannelContainer (ChannelMap_associateReceive 1 0 ChannelMap_make) (str "connection") (λ _, monitored_store) (λ _, str "channel").

(** Two connections were added, one has gone; one of two messages is older than five. *)
Lemma hung_messages_reported_witness :
  ConnectionMonitor_run 16 {[1 := sample_container]} (addConnection 1 (addConnection 0 (ConnectionMonitor_make 5)))
  = ([(1%Z, ((Byte.x02, 0%Z), 10%Z))], mkConnectionMonitor 5 [1]).
Proof.
  pose proof (hung_messages_reported 16 {[1 := sample_container]} (addConnection 1 (addConnection 0 (ConnectionMonitor_make 5)))) as H.
  destruct (ConnectionMonitor_run 16 _ _) as [reported m'] eqn:Hrun.
  destruct H as (H & _).
  - intros connection Hin. cbn in Hin. apply list_elem_of_singleton in Hin as ->. intros k p _. cbn.
    eapply rtc_l; [apply (fifo_insert 10 1 (Byte.x02, 0%Z)); [vm_compute; reflexivity | vm_compute; set_solver] |].
    eapply rtc_l; [apply (fifo_insert 20 2 (Byte.x01, 0%Z)); [vm_compute; reflexivity | vm_compute; set_solver] |]. apply rtc_refl.
  - rewrite H. f_equal. injection Hrun as _ <-. reflexivity.
Defined.
