(* ===== verification/Socket.v ===== *)
(** * Socket: the connection's socket

    Models [rmqio::AsioConnection] (rmqio_asioconnection.cpp): its states, its queue of
    writes and its decoder. The owner's completion handlers are values of type [CB], the
    callback that [close] is given a value of type [DC]; what they do, and so the
    handlers that call them ([handleWrite], [handleRead], [doClose]), is modelled with the
    owner in Connection.v.

    Boost.Asio carries out one write at a time; [sk_wire] is what was handed to it so far.
    Whether it could shut the socket down or set its options is an argument. *)

From Stdlib Require Import ZArith Lia.
From stdpp Require Import base tactics list.
From S2P Require Import Prelude Frame.

(** [AsioConnection::State] *)
Inductive SocketState := SOCKET_CONNECTING | SOCKET_CONNECTED | SOCKET_CLOSING | SOCKET_DISCONNECTED.

#[export] Instance SocketState_eq_dec : EqDecision SocketState.
Proof. solve_decision. Defined.

Section Socket.
Context {CB DC : Type}.

Record Socket := mkSocket {
  sk_state : SocketState;
  sk_shutdown : option DC;
  sk_decoder : Decoder;
  sk_writeQueue : list (CB * list SerializedFrame);
  sk_wire : list SerializedFrame;
}.

(** The constructor. *)
Definition Socket_make (maxFrameSize : nat) : Socket :=
  mkSocket SOCKET_CONNECTING None (Decoder_create maxFrameSize) [] [].

Definition sk_set_state (st : SocketState) (k : Socket) : Socket :=
  mkSocket st (sk_shutdown k) (sk_decoder k) (sk_writeQueue k) (sk_wire k).

Definition sk_set_decoder (d : Decoder) (k : Socket) : Socket :=
  mkSocket (sk_state k) (sk_shutdown k) d (sk_writeQueue k) (sk_wire k).

Definition Socket_startNextWrite (k : Socket) : Socket :=
  match sk_writeQueue k with
  | [] => k
  | (_, frames) :: _ =>
      mkSocket (sk_state k) (sk_shutdown k) (sk_decoder k) (sk_writeQueue k) (sk_wire k ++ frames)
  end.

Definition Socket_asyncWrite (frames : list SerializedFrame) (cb : CB) (k : Socket) : Socket :=
  let k := mkSocket (sk_state k) (sk_shutdown k) (sk_decoder k)
             (sk_writeQueue k ++ [(cb, frames)]) (sk_wire k) in
  if (length (sk_writeQueue k) =? 1)%nat then Socket_startNextWrite k else k.

(** The end of [handleWrite], after the front's handler was called. *)
Definition Socket_popWrite (k : Socket) : Socket :=
  let k := mkSocket (sk_state k) (sk_shutdown k) (sk_decoder k) (tail (sk_writeQueue k)) (sk_wire k) in
  match sk_writeQueue k with [] => k | _ => Socket_startNextWrite k end.

Definition Socket_isConnected (k : Socket) : bool := bool_decide (sk_state k = SOCKET_CONNECTED).

(** [markConnected]; [prepared] is the result of setting the socket's options. *)
Definition Socket_markConnected (prepared : bool) (k : Socket) : bool * Socket :=
  match sk_state k with
  | SOCKET_CONNECTING => (prepared, sk_set_state SOCKET_CONNECTED k)
  | _ => (false, k)
  end.

(** [close]: the callback, when it is called at once because the shutdown failed. *)
Definition Socket_close (cb : DC) (shutdownOk : bool) (k : Socket) : option DC * Socket :=
  if shutdownOk
  then (None, mkSocket SOCKET_CLOSING (Some cb) (sk_decoder k) (sk_writeQueue k) (sk_wire k))
  else (Some cb, mkSocket SOCKET_CLOSING None (sk_decoder k) (sk_writeQueue k) (sk_wire k)).

(** The callback [doClose(GRACEFUL_DISCONNECT)] calls. *)
Definition Socket_closing (k : Socket) : option DC :=
  match sk_state k with SOCKET_CLOSING => sk_shutdown k | _ => None end.
End Socket.

Arguments Socket : clear implicits.

(** ** The order of writes *)

Section Writes.
Context {CB DC : Type}.

Inductive SocketOp :=
| SO_write (frames : list SerializedFrame) (cb : CB)
| SO_written.                       (* the outstanding write is complete *)

(** The calls and, when a write completes, the handler that is called. *)
Definition socket_step (op : SocketOp) (s : list CB * Socket CB DC) : list CB * Socket CB DC :=
  match op with
  | SO_write frames cb => (s.1, Socket_asyncWrite frames cb s.2)
  | SO_written =>
      match sk_writeQueue s.2 with
      | [] => s
      | (cb, _) :: _ => (s.1 ++ [cb], Socket_popWrite s.2)
      end
  end.

Definition socket_run (ops : list SocketOp) (k : Socket CB DC) : list CB * Socket CB DC :=
  fold_left (λ s op, socket_step op s) ops ([], k).

Definition socket_writes (ops : list SocketOp) : list (CB * list SerializedFrame) :=
  omap (λ op, match op with SO_write fs cb => Some (cb, fs) | SO_written => None end) ops.

(** The writes whose handlers ran, then the queue: all writes in order; on the wire is what
    completed and the write at the front of the queue. *)
Definition writes_inv (ws : list (CB * list SerializedFrame)) (s : list CB * Socket CB DC) : Prop :=
  ∃ finished, ws = finished ++ sk_writeQueue s.2 ∧ s.1 = finished.*1 ∧
    sk_wire s.2 = concat (finished.*2) ++ concat ((take 1 (sk_writeQueue s.2)).*2).

Lemma writes_inv_step op ws s :
  writes_inv ws s →
  writes_inv (ws ++ match op with SO_write fs cb => [(cb, fs)] | SO_written => [] end) (socket_step op s).
Proof using.
  intros (fin & -> & Hc & Hw). destruct s as [cbs k]. destruct op as [fs cb |]; cbn [fst snd socket_step] in *.
  - exists fin. unfold Socket_asyncWrite. cbn [sk_writeQueue].
    destruct (sk_writeQueue k) as [| w ws] eqn:Hq; cbn [app length Nat.eqb].
    + cbn in *. rewrite Hw, !app_nil_r. done.
    + rewrite length_app, Nat.add_comm. cbn. split_and!; [by rewrite <- app_assoc | done | done].
  - rewrite app_nil_r. destruct (sk_writeQueue k) as [| [cb fs] q] eqn:Hq.
    + exists fin. cbn. rewrite Hq. done.
    + exists (fin ++ [(cb, fs)]). cbn [fst snd]. unfold Socket_popWrite. rewrite Hq. cbn [tail sk_writeQueue].
      cbn in Hw. rewrite app_nil_r in Hw.
      split_and!.
      * rewrite <- app_assoc. by destruct q as [| [? ?] q].
      * by rewrite fmap_app, Hc.
      * rewrite fmap_app, concat_app. cbn. rewrite app_nil_r.
        destruct q as [| [cb' fs'] q]; cbn; rewrite Hw; by rewrite ?app_nil_r, <- ?app_assoc.
Qed.

Lemma writes_inv_run ops ws s :
  writes_inv ws s → writes_inv (ws ++ socket_writes ops) (fold_left (λ s op, socket_step op s) ops s).
Proof using.
  revert ws s. induction ops as [| op ops IH]; intros ws s Hi; cbn.
  - by rewrite app_nil_r.
  - apply (writes_inv_step op) in Hi. apply IH in Hi. rewrite <- app_assoc in Hi.
    destruct op; exact Hi.
Qed.
End Writes.

(** However writes and their completions interleave, frames go out in the order they were
    written, a write only once the one before it is complete, and each handler is called once, in
    the order of the writes, after its own frames went out: what is on the wire is the frames
    of the writes whose handlers ran, followed by those of the one write that is
    outstanding. *)
Theorem socket_writes_in_order {CB DC} (ops : list (@SocketOp CB)) (maxFrameSize : nat) :
  ∃ finished waiting,
    socket_writes ops = finished ++ waiting ∧
    (socket_run ops (Socket_make (DC := DC) maxFrameSize)).1 = finished.*1 ∧
    sk_writeQueue (socket_run ops (Socket_make (DC := DC) maxFrameSize)).2 = waiting ∧
    sk_wire (socket_run ops (Socket_make (DC := DC) maxFrameSize)).2 =
      concat (finished.*2) ++ concat ((take 1 waiting).*2).
Proof.
  destruct (writes_inv_run ops [] ([], Socket_make (DC := DC) maxFrameSize)) as (fin & Hw & Hc & Hs);
    [by exists [] |].
  exists fin, (sk_writeQueue (socket_run ops (Socket_make (DC := DC) maxFrameSize)).2). done.
Qed.
