(* ===== verification/Resolver.v ===== *)
(** * Resolver: connecting a socket

    Models [rmqio::AsioResolver] (rmqio_asioresolver.cpp) and the security parameters of
    rmqt_securityparameters.cpp and rmqt_mutualsecurityparameters.cpp: one attempt to
    connect, a chain of asynchronous operations (name resolution, connect, TLS handshake)
    of which one is pending at a time. A handler is called when its operation completes;
    before it is, the connection the attempt is for and the resolver itself may go away,
    which the handlers notice through weak pointers.

    Boost.Asio, OpenSSL and the random numbers are classes with their documented
    behaviour. The socket belongs to the [AsioConnection]; while a name is resolved
    nothing else keeps it alive, later the pending handler does. *)

From Stdlib Require Import ZArith Lia String Strings.Byte.
From stdpp Require Import base tactics sets list.
From S2P Require Import Prelude ConnectionString Frame Socket.

(** [Resolver::Error] *)
Inductive ResolverError := ERROR_RESOLVE | ERROR_CONNECT | ERROR_HANDSHAKE.

(** ** Security parameters *)

Inductive Verification := VERIFY_SERVER | MUTUAL.
Inductive TlsMethod := TLS_1_2_OR_BETTER.

Record SecurityParameters := mkSecurityParameters {
  verification : Verification;
  method : TlsMethod;
  certificateAuthorityPath : bytes;
  clientCertificatePath : bytes;
  clientKeyPath : bytes;
}.

(** [rmqt::SecurityParameters] and [rmqt::MutualSecurityParameters] *)
Definition SecurityParameters_make (caPath : bytes) : SecurityParameters :=
  mkSecurityParameters VERIFY_SERVER TLS_1_2_OR_BETTER caPath [] [].

Definition MutualSecurityParameters_make (caPath clientCertPath clientKeyPath : bytes) : SecurityParameters :=
  mkSecurityParameters MUTUAL TLS_1_2_OR_BETTER caPath clientCertPath clientKeyPath.

(** The options of [boost::asio::ssl::context] the code sets. *)
Inductive TlsOption :=
| default_workarounds | single_dh_use | no_sslv2 | no_sslv3 | no_tlsv1 | no_tlsv1_1.

(** [boost::asio::ssl::context], as far as it was set up. *)
Record SecureContext := mkSecureContext {
  sc_verify_peer : bool;
  sc_options : list TlsOption;
  sc_privateKey : option bytes;
  sc_certificateChain : option bytes;
  sc_verifyFile : option bytes;
}.

Definition SecureContext_tls_client : SecureContext := mkSecureContext false [] None None None.

Definition sc_set_verify_peer (c : SecureContext) : SecureContext :=
  mkSecureContext true (sc_options c) (sc_privateKey c) (sc_certificateChain c) (sc_verifyFile c).
Definition sc_set_options (o : list TlsOption) (c : SecureContext) : SecureContext :=
  mkSecureContext (sc_verify_peer c) o (sc_privateKey c) (sc_certificateChain c) (sc_verifyFile c).
Definition sc_use_private_key (f : bytes) (c : SecureContext) : SecureContext :=
  mkSecureContext (sc_verify_peer c) (sc_options c) (Some f) (sc_certificateChain c) (sc_verifyFile c).
Definition sc_use_certificate_chain (f : bytes) (c : SecureContext) : SecureContext :=
  mkSecureContext (sc_verify_peer c) (sc_options c) (sc_privateKey c) (Some f) (sc_verifyFile c).
Definition sc_load_verify_file (f : bytes) (c : SecureContext) : SecureContext :=
  mkSecureContext (sc_verify_peer c) (sc_options c) (sc_privateKey c) (sc_certificateChain c) (Some f).

(** Which calls of OpenSSL succeed: the first two, and which files can be used. *)
Record SslCalls := mkSslCalls {
  ssl_set_verify_mode : bool;
  ssl_set_options : bool;
  ssl_private_key : bytes → bool;
  ssl_certificate_chain : bytes → bool;
  ssl_verify_file : bytes → bool;
}.

(** A call that sets [fail] when it fails, and changes nothing then. *)
Definition ssl_call (ok : bool) (set : SecureContext → SecureContext) (s : bool * SecureContext)
    : bool * SecureContext :=
  if ok then (s.1, set s.2) else (true, s.2).

Definition tls_options (m : TlsMethod) : list TlsOption :=
  [default_workarounds; single_dh_use] ++
  match m with TLS_1_2_OR_BETTER => [no_sslv2; no_sslv3; no_tlsv1; no_tlsv1_1] end.

Definition createSecureContext (params : SecurityParameters) (calls : SslCalls) : option SecureContext :=
  let s := (false, SecureContext_tls_client) in
  let s := ssl_call (ssl_set_verify_mode calls) sc_set_verify_peer s in
  let s := ssl_call (ssl_set_options calls) (sc_set_options (tls_options (method params))) s in
  let s :=
    match verification params with
    | MUTUAL =>
        let s := ssl_call (ssl_private_key calls (clientKeyPath params)) (sc_use_private_key (clientKeyPath params)) s in
        ssl_call (ssl_certificate_chain calls (clientCertificatePath params))
          (sc_use_certificate_chain (clientCertificatePath params)) s
    | VERIFY_SERVER => s
    end in
  let s := ssl_call (ssl_verify_file calls (certificateAuthorityPath params))
    (sc_load_verify_file (certificateAuthorityPath params)) s in
  if s.1 then None else Some s.2.

Section Resolver.
Context {CB DC : Type}.

(** ** What the library offers *)

(** Addresses on the network and the results of a name resolution, certificates as the
    verification sees them, random numbers; which strings [make_address] takes for an IP
    address and what [host_name_verification] says of a certificate. *)
Class Asio := {
  Address : Type;
  Entry : Type;
  entry_endpoint : Entry → Address;
  results_create : list Entry → bytes → bytes → list Entry;
  VerifyContext : Type;
  is_address : bytes → bool;
  host_name_verification : bytes → bool → VerifyContext → bool;
  generate15 : Z → Z * Z;
  random_shuffle : (Z → Z → Z * Z) → list Entry → Z → list Entry;
}.

(** Results are made of the endpoints of others; random numbers have 15 bits; a shuffle
    with numbers in range permutes. *)
Class AsioLaws (N : Asio) : Prop := {
  results_create_endpoints l host port : entry_endpoint <$> results_create l host port = entry_endpoint <$> l;
  generate15_range s : (0 ≤ (generate15 s).1 < 2 ^ 15)%Z;
  random_shuffle_permutes g l s :
    (∀ max s', (0 < max ≤ Z.of_nat (length l))%Z → (0 ≤ (g max s').1 < max)%Z) → random_shuffle g l s ≡ₚ l;
}.

Context {N : Asio}.

(** ** Shuffling *)

(** [CustomRandomGenerator]: a number below [max], and the next seed. *)
Definition CustomRandomGenerator_call (max : Z) (d_seed : Z) : Z * Z :=
  let (r, d_seed) := generate15 d_seed in
  (Z.rem r (swrap 32 max), d_seed).

Definition shuffleResolverResults (resolverResults : list Entry) (shuffleConnectionEndpoints : bool)
    (g : Z) (host port : bytes) : list Entry :=
  if shuffleConnectionEndpoints && negb (Nat.eqb (length resolverResults) 0)
  then results_create (random_shuffle CustomRandomGenerator_call resolverResults g) host port
  else resolverResults.

(** ** Verifying certificates *)

(** It logs only. *)
Definition logCertVerificationFailure (preverified : bool) (ctx : VerifyContext) : bool := preverified.

Definition verifyCertificate (host : bytes) (preverified : bool) (ctx : VerifyContext) : bool :=
  if negb (logCertVerificationFailure preverified ctx) then false
  else if negb (host_name_verification host preverified ctx) then false
  else true.

(** ** An attempt *)

(** The operation whose handler is to be called. *)
Inductive Pending :=
| P_resolve
| P_connect (results : list Entry)
| P_handshake (endpoint : Entry)
| P_none.

Inductive ResolverEffect :=
| AsyncResolve (host port : bytes)
| AsyncConnect (results : list Entry)
| SetVerifyCallback (host : bytes)
| SetTlsHostName (host : bytes)
| AsyncHandshake
| OnSuccess
| OnFail (e : ResolverError).

(** [at_connection] is what the weak pointer to the connection locks to, [at_resolver]
    whether the one to the resolver does. *)
Record Attempt := mkAttempt {
  at_host : bytes;
  at_port : bytes;
  at_secure : option SecureContext;
  at_shuffle : bool;
  at_resolver : bool;
  at_connection : option (Socket CB DC);
  at_pending : Pending;
  at_trace : list ResolverEffect;
}.

Definition at_set_pending (p : Pending) (a : Attempt) : Attempt :=
  mkAttempt (at_host a) (at_port a) (at_secure a) (at_shuffle a) (at_resolver a) (at_connection a) p (at_trace a).
Definition at_set_connection (k : option (Socket CB DC)) (a : Attempt) : Attempt :=
  mkAttempt (at_host a) (at_port a) (at_secure a) (at_shuffle a) (at_resolver a) k (at_pending a) (at_trace a).
Definition at_emit (e : ResolverEffect) (a : Attempt) : Attempt :=
  mkAttempt (at_host a) (at_port a) (at_secure a) (at_shuffle a) (at_resolver a) (at_connection a) (at_pending a)
    (at_trace a ++ [e]).
Definition at_drop_resolver (a : Attempt) : Attempt :=
  mkAttempt (at_host a) (at_port a) (at_secure a) (at_shuffle a) false (at_connection a) (at_pending a) (at_trace a).

Definition asyncConnect (shuffle : bool) (host : bytes) (port : Z) (maxFrameSize : nat) : Attempt :=
  let port := to_string port in
  at_emit (AsyncResolve host port)
    (mkAttempt host port None shuffle true (Some (Socket_make maxFrameSize)) P_resolve []).

(** No connection is made when the context cannot be set up. *)
Definition asyncSecureConnect (shuffle : bool) (host : bytes) (port : Z) (maxFrameSize : nat)
    (securityParameters : SecurityParameters) (calls : SslCalls) : Attempt :=
  let port := to_string port in
  match createSecureContext securityParameters calls with
  | None => at_emit (OnFail ERROR_CONNECT) (mkAttempt host port None shuffle true None P_none [])
  | Some secureContext =>
      at_emit (AsyncResolve host port)
        (mkAttempt host port (Some secureContext) shuffle true (Some (Socket_make maxFrameSize)) P_resolve [])
  end.

Definition startConnect (resolverResults : list Entry) (a : Attempt) : Attempt :=
  match at_connection a with
  | None => a
  | Some _ => at_set_pending (P_connect resolverResults) (at_emit (AsyncConnect resolverResults) a)
  end.

Definition handleConnect (error : bool) (preparedOk : bool) (a : Attempt) : Attempt :=
  if error then at_emit (OnFail ERROR_CONNECT) a
  else
    match at_connection a with
    | None => a
    | Some k =>
        let (ok, k) := Socket_markConnected preparedOk k in
        at_emit (if ok then OnSuccess else OnFail ERROR_CONNECT) (at_set_connection (Some k) a)
    end.

Definition handleConnectCb (error : bool) (preparedOk : bool) (a : Attempt) : Attempt :=
  if at_resolver a then handleConnect error preparedOk a else a.

Definition handleResolve (error : bool) (resolverResults : list Entry) (seed : Z) (a : Attempt) : Attempt :=
  if error then at_emit (OnFail ERROR_RESOLVE) a
  else startConnect (shuffleResolverResults resolverResults (at_shuffle a) seed (at_host a) (at_port a)) a.

Definition handleResolveCb (error : bool) (resolverResults : list Entry) (seed : Z) (a : Attempt) : Attempt :=
  if at_resolver a then handleResolve error resolverResults seed a else a.

Definition startTLSHandshake (error : bool) (endpoint : Entry) (verifyError sniOk : bool) (a : Attempt) : Attempt :=
  if error then at_emit (OnFail ERROR_CONNECT) a
  else if verifyError then at_emit (OnFail ERROR_HANDSHAKE) a
  else
    let a := at_emit (SetVerifyCallback (at_host a)) a in
    let hostIsDnsName := negb (is_address (at_host a)) in
    if hostIsDnsName && negb sniOk then at_emit (OnFail ERROR_HANDSHAKE) a
    else
      let a := if hostIsDnsName then at_emit (SetTlsHostName (at_host a)) a else a in
      at_set_pending (P_handshake endpoint) (at_emit AsyncHandshake a).

Definition handleTLSHandshake (error : bool) (preparedOk : bool) (a : Attempt) : Attempt :=
  if error then at_emit (OnFail ERROR_HANDSHAKE) a else handleConnectCb false preparedOk a.

(** What happens to an attempt: its pending operation completes ([error] or what it
    produced; the other arguments say which calls of the handler succeed), the
    connection changes or goes away, the resolver goes away. [verified] are the calls of
    the verification callback during a handshake. *)
Inductive AttemptEvent :=
| Ev_resolved (error : bool) (results : list Entry) (seed : Z)
| Ev_connected (error : bool) (endpoint : Entry) (verifyError sniOk preparedOk : bool)
| Ev_handshaken (error : bool) (verified : list (bool * VerifyContext)) (preparedOk : bool)
| Ev_connection (k : Socket CB DC)
| Ev_connectionDropped
| Ev_resolverDropped.

Definition attempt_step (a : Attempt) (e : AttemptEvent) : Attempt :=
  let done := at_set_pending P_none a in
  match e, at_pending a with
  | Ev_resolved error results seed, P_resolve => handleResolveCb error results seed done
  | Ev_connected error endpoint verifyError sniOk preparedOk, P_connect _ =>
      match at_secure a with
      | Some _ => startTLSHandshake error endpoint verifyError sniOk done
      | None => handleConnectCb error preparedOk done
      end
  | Ev_handshaken error _ preparedOk, P_handshake _ => handleTLSHandshake error preparedOk done
  | Ev_connection k, _ => match at_connection a with Some _ => at_set_connection (Some k) a | None => a end
  | Ev_connectionDropped, _ => at_set_connection None a
  | Ev_resolverDropped, _ => at_drop_resolver a
  | _, _ => a
  end.

Definition attempt_run (es : list AttemptEvent) (a : Attempt) : Attempt := fold_left attempt_step es a.

(** What Boost.Asio and OpenSSL document: a connect ends at one of the endpoints it was
    given; with [verify_peer] a handshake succeeds only if the peer's certificates were
    given to the verification callback, which accepted all of them. *)
Definition asio_event (a : Attempt) (e : AttemptEvent) : Prop :=
  match e, at_pending a with
  | Ev_connected false endpoint _ _ _, P_connect results => endpoint ∈ results
  | Ev_handshaken false verified _, P_handshake _ =>
      ∀ c, at_secure a = Some c → sc_verify_peer c = true →
      verified ≠ [] ∧ Forall (λ v, verifyCertificate (at_host a) v.1 v.2 = true) verified
  | _, _ => True
  end.

Inductive attempt_steps : Attempt → list AttemptEvent → Attempt → Prop :=
| attempt_steps_nil a : attempt_steps a [] a
| attempt_steps_cons a e es b :
    asio_event a e → attempt_steps (attempt_step a e) es b → attempt_steps a (e :: es) b.
End Resolver.

(** ** Outcomes *)

Section Outcomes.
Context {CB DC : Type} {N : Asio}.
Implicit Types (a : Attempt (CB := CB) (DC := DC)) (e : AttemptEvent (CB := CB) (DC := DC)).

Definition is_outcome (x : ResolverEffect) : bool := match x with OnSuccess | OnFail _ => true | _ => false end.

(** The calls of [onSuccess] and [onFail]. *)
Definition outcomes a : list ResolverEffect := List.filter is_outcome (at_trace a).

(** What the attempt did before its pending operation completes. *)
Definition handshake_trace (host port : bytes) (results : list Entry) : list ResolverEffect :=
  [AsyncResolve host port; AsyncConnect results; SetVerifyCallback host] ++
  (if is_address host then [] else [SetTlsHostName host]) ++ [AsyncHandshake].

Definition pending_trace a : Prop :=
  match at_pending a with
  | P_resolve => at_trace a = [AsyncResolve (at_host a) (at_port a)]
  | P_connect results => at_trace a = [AsyncResolve (at_host a) (at_port a); AsyncConnect results]
  | P_handshake _ => is_Some (at_secure a) ∧ ∃ results, at_trace a = handshake_trace (at_host a) (at_port a) results
  | P_none =>
      (outcomes a = [] ∧ (at_resolver a = false ∨ at_connection a = None)) ∨
      (∃ err, outcomes a = [OnFail err]) ∨
      (outcomes a = [OnSuccess] ∧
       match at_secure a with
       | None => ∃ results, at_trace a = [AsyncResolve (at_host a) (at_port a); AsyncConnect results; OnSuccess]
       | Some _ => ∃ results, at_trace a = handshake_trace (at_host a) (at_port a) results ++ [OnSuccess]
       end)
  end.

Lemma outcomes_emit x a : outcomes (at_emit x a) = outcomes a ++ (if is_outcome x then [x] else []).
Proof. unfold outcomes. cbn. rewrite List.filter_app. cbn. by destruct (is_outcome x). Qed.

Lemma handshake_outcomes host port results : List.filter is_outcome (handshake_trace host port results) = [].
Proof. unfold handshake_trace. by destruct (is_address host). Qed.

Lemma trace_fail err a : outcomes a = [] → at_pending a = P_none → pending_trace (at_emit (OnFail err) a).
Proof.
  intros Ho Hp. unfold pending_trace. change (at_pending (at_emit (OnFail err) a)) with (at_pending a).
  rewrite Hp, outcomes_emit, Ho. right. left. by exists err.
Qed.

Lemma trace_gone a :
  outcomes a = [] → at_pending a = P_none → at_resolver a = false ∨ at_connection a = None → pending_trace a.
Proof. intros Ho Hp Hg. unfold pending_trace. rewrite Hp. auto. Qed.

(** The handler of a connected socket. *)
Lemma handleConnectCb_trace error preparedOk a :
  outcomes a = [] → at_pending a = P_none →
  (match at_secure a with
   | None => ∃ results, at_trace a = [AsyncResolve (at_host a) (at_port a); AsyncConnect results]
   | Some _ => ∃ results, at_trace a = handshake_trace (at_host a) (at_port a) results
   end) →
  pending_trace (handleConnectCb error preparedOk a).
Proof.
  intros Ho Hp Htr. unfold handleConnectCb, handleConnect.
  destruct (at_resolver a) eqn:Hr; [| apply trace_gone; auto].
  destruct error; [by apply trace_fail |].
  destruct (at_connection a) as [k |] eqn:Hk; [| apply trace_gone; auto].
  destruct (Socket_markConnected preparedOk k) as [ok k']. destruct ok; [| by apply trace_fail].
  unfold pending_trace. cbn [at_pending at_emit at_set_connection]. rewrite Hp. right. right. rewrite outcomes_emit.
  unfold outcomes in *. cbn [at_trace at_set_connection]. rewrite Ho. split; [done |].
  cbn. destruct (at_secure a); destruct Htr as [r ->]; by exists r.
Qed.

Lemma startTLSHandshake_trace error endpoint verifyError sniOk a r :
  is_Some (at_secure a) → at_pending a = P_none →
  at_trace a = [AsyncResolve (at_host a) (at_port a); AsyncConnect r] →
  pending_trace (startTLSHandshake error endpoint verifyError sniOk a).
Proof.
  intros Hs Hp Ha. assert (outcomes a = []) as Ho by (unfold outcomes; by rewrite Ha).
  unfold startTLSHandshake.
  destruct error; [by apply trace_fail |]. destruct verifyError; [by apply trace_fail |].
  change (at_host (at_emit (SetVerifyCallback (at_host a)) a)) with (at_host a).
  destruct (is_address (at_host a)) eqn:Hi, sniOk; cbn [negb andb];
    try (apply trace_fail; [rewrite outcomes_emit, Ho |]; done).
  all: (unfold pending_trace; cbn; split; [done |]; exists r; unfold handshake_trace; rewrite Ha, Hi; done).
Qed.

Lemma step_trace a e : pending_trace a → pending_trace (attempt_step a e).
Proof.
  intros Ha. destruct e as [error results seed | error endpoint verifyError sniOk preparedOk
    | error verified preparedOk | k | |]; unfold attempt_step.
  - destruct (at_pending a) eqn:Hp; try done. unfold pending_trace in Ha. rewrite Hp in Ha.
    set (a' := at_set_pending P_none a). assert (outcomes a' = []) as Ho by (unfold outcomes; cbn; by rewrite Ha).
    unfold handleResolveCb, handleResolve, startConnect.
    destruct (at_resolver a') eqn:Hr; [| apply trace_gone; auto].
    destruct error; [by apply trace_fail |].
    destruct (at_connection a') eqn:Hk; [| apply trace_gone; auto]. unfold pending_trace. cbn. by rewrite Ha.
  - destruct (at_pending a) as [| r | |] eqn:Hp; try done. unfold pending_trace in Ha. rewrite Hp in Ha.
    destruct (at_secure a) as [c |] eqn:Hs.
    + apply (startTLSHandshake_trace _ _ _ _ _ r); cbn; [by rewrite Hs | done..].
    + apply handleConnectCb_trace; cbn; [by unfold outcomes; cbn; rewrite Ha | done |]. rewrite Hs. by exists r.
  - destruct (at_pending a) as [| | ep |] eqn:Hp; try done. unfold pending_trace in Ha. rewrite Hp in Ha.
    destruct Ha as [[c Hc] [r Ha]]. unfold handleTLSHandshake.
    set (a' := at_set_pending P_none a).
    assert (outcomes a' = []) as Ho by (unfold outcomes; cbn; rewrite Ha; apply handshake_outcomes).
    destruct error; [by apply trace_fail |]. apply handleConnectCb_trace; [done.. |]. cbn. rewrite Hc. by exists r.
  - destruct (at_connection a) eqn:Hk; [| done]. unfold pending_trace in *. cbn.
    destruct (at_pending a); [done.. |]. destruct Ha as [[Ho [Hr | Hc]] | Ha]; [left; auto | congruence | by right].
  - unfold pending_trace in *. cbn. destruct (at_pending a); [done.. |].
    destruct Ha as [[Ho _] | Ha]; [left; auto | by right].
  - unfold pending_trace in *. cbn. destruct (at_pending a); [done.. |].
    destruct Ha as [[Ho _] | Ha]; [left; auto | by right].
Qed.

Lemma run_trace es : ∀ a, pending_trace a → pending_trace (attempt_run es a).
Proof. induction es as [| e es IH]; intros a Ha; [done |]. cbn. by apply IH, step_trace. Qed.

(** An attempt as it is started. *)
Definition started a : Prop :=
  (∃ shuffle host port maxFrameSize, a = asyncConnect shuffle host port maxFrameSize) ∨
  (∃ shuffle host port maxFrameSize params calls, a = asyncSecureConnect shuffle host port maxFrameSize params calls).

Lemma started_trace a : started a → pending_trace a.
Proof.
  intros [(sh & h & p & m & ->) | (sh & h & p & m & params & calls & ->)]; [done |].
  unfold asyncSecureConnect. destruct (createSecureContext params calls); [done |]. by apply trace_fail.
Qed.

(** The completions that are still to come at most. *)
Definition remaining a : nat :=
  match at_pending a with P_resolve => 3 | P_connect _ => 2 | P_handshake _ => 1 | P_none => 0 end.

(** Whether an event completes the pending operation. *)
Definition completes a e : bool :=
  match e, at_pending a with
  | Ev_resolved _ _ _, P_resolve | Ev_connected _ _ _ _ _, P_connect _ | Ev_handshaken _ _ _, P_handshake _ => true
  | _, _ => false
  end.

Lemma handleConnectCb_remaining error ok a : at_pending a = P_none → remaining (handleConnectCb error ok a) = 0.
Proof.
  intros Hp. unfold handleConnectCb, handleConnect, remaining. destruct (at_resolver a), error; cbn; try by rewrite Hp.
  destruct (at_connection a) as [k |]; [| by rewrite Hp]. destruct (Socket_markConnected ok k). cbn. by rewrite Hp.
Qed.

Lemma step_remaining a e :
  if completes a e then remaining (attempt_step a e) < remaining a else remaining (attempt_step a e) = remaining a.
Proof.
  destruct e as [error results seed | error endpoint verifyError sniOk preparedOk
    | error verified preparedOk | k | |]; unfold attempt_step, completes.
  - destruct (at_pending a) eqn:Hp; try done. unfold remaining at 2. rewrite Hp.
    unfold handleResolveCb, handleResolve, startConnect, remaining. cbn.
    destruct (at_resolver a), error; cbn; try lia. destruct (at_connection a); cbn; lia.
  - destruct (at_pending a) as [| r | |] eqn:Hp; try done. unfold remaining at 2. rewrite Hp.
    destruct (at_secure a); [| rewrite handleConnectCb_remaining; [lia | done]].
    unfold startTLSHandshake, remaining. destruct error, verifyError, (is_address (at_host a)) eqn:Hi, sniOk;
      cbn; rewrite ?Hi; cbn; lia.
  - destruct (at_pending a) as [| | ep |] eqn:Hp; try done. unfold remaining at 2. rewrite Hp.
    unfold handleTLSHandshake. destruct error; [cbn; lia |]. rewrite handleConnectCb_remaining; [lia | done].
  - destruct (at_connection a); done.
  - done.
  - done.
Qed.

(** The number of operations a run completes. *)
Fixpoint completions es a : nat :=
  match es with [] => 0 | e :: es => (if completes a e then 1 else 0) + completions es (attempt_step a e) end.

Lemma run_remaining es : ∀ a, completions es a + remaining (attempt_run es a) ≤ remaining a.
Proof.
  induction es as [| e es IH]; intros a; [done |]. cbn. specialize (IH (attempt_step a e)).
  pose proof (step_remaining a e). unfold attempt_run in IH. destruct (completes a e); lia.
Qed.

(** The success of a step. *)
Lemma step_success a e :
  outcomes (attempt_step a e) = [OnSuccess] → outcomes a = [] →
  at_resolver a = true ∧ ∃ k k', at_connection a = Some k ∧ sk_state k = SOCKET_CONNECTING ∧
  at_connection (attempt_step a e) = Some k' ∧ sk_state k' = SOCKET_CONNECTED.
Proof.
  intros Hs Ho. assert (∀ error ok a', at_resolver a' = at_resolver a → at_connection a' = at_connection a →
    outcomes a' = [] → outcomes (handleConnectCb error ok a') = [OnSuccess] →
    at_resolver a = true ∧ ∃ k k', at_connection a = Some k ∧ sk_state k = SOCKET_CONNECTING ∧
    at_connection (handleConnectCb error ok a') = Some k' ∧ sk_state k' = SOCKET_CONNECTED) as Hcb.
  { intros error ok a' Hr Hc Ho'. unfold handleConnectCb, handleConnect. rewrite Hr, Hc.
    destruct (at_resolver a); [| by rewrite Ho'].
    destruct error; [rewrite outcomes_emit, Ho'; done |].
    destruct (at_connection a) as [k |]; [| by rewrite Ho'].
    unfold Socket_markConnected. destruct (sk_state k) eqn:Hk; [destruct ok |..];
      rewrite outcomes_emit; unfold outcomes in *; cbn [at_trace at_set_connection]; rewrite Ho'; try done.
    intros _. split; [done |]. by eexists _, _. }
  destruct e as [error results seed | error endpoint verifyError sniOk preparedOk
    | error verified preparedOk | k | |]; unfold attempt_step in *; try by rewrite Ho in Hs.
  - exfalso. destruct (at_pending a); try by rewrite Ho in Hs.
    revert Hs. unfold handleResolveCb, handleResolve, startConnect. cbn.
    destruct (at_resolver a), error; cbn; unfold outcomes in *; cbn; rewrite ?List.filter_app, ?Ho; try done.
    destruct (at_connection a); cbn; rewrite ?List.filter_app, ?Ho; done.
  - destruct (at_pending a) eqn:Hp; try by rewrite Ho in Hs. destruct (at_secure a); [| by apply Hcb].
    exfalso. revert Hs. unfold startTLSHandshake.
    destruct error, verifyError, (is_address (at_host a)) eqn:Hi, sniOk; cbn; rewrite ?Hi; unfold outcomes in *; cbn;
      rewrite ?List.filter_app, ?Ho; done.
  - destruct (at_pending a) eqn:Hp; try by rewrite Ho in Hs. unfold handleTLSHandshake in *.
    destruct error; [| by apply Hcb]. exfalso. rewrite outcomes_emit in Hs. unfold outcomes in *. cbn in Hs. by rewrite Ho in Hs.
  - destruct (at_connection a); unfold outcomes in *; cbn in Hs; by rewrite Ho in Hs.
  - unfold outcomes in *; cbn in Hs; by rewrite Ho in Hs.
  - unfold outcomes in *; cbn in Hs; by rewrite Ho in Hs.
Qed.

(** C33: A connect attempt calls [onSuccess] or [onFail] at most once, whatever order its
    operations complete in and whoever goes away meanwhile. At most three operations
    complete; when none is pending any more and neither the connection nor the resolver
    has gone, it has called exactly one of them. [onSuccess] is called only while the
    resolver and the connection exist, by a step that takes the connection's socket from
    CONNECTING to CONNECTED; [onFail], unlike it, is called when the connect fails although
    the connection the attempt was for has gone. *)
Theorem resolver_attempt_reports_once a0 es :
  started a0 →
  let a := attempt_run es a0 in
  length (outcomes a) ≤ 1 ∧
  completions es a0 + remaining a ≤ 3 ∧
  (at_pending a = P_none → at_resolver a = true → is_Some (at_connection a) → length (outcomes a) = 1) ∧
  (at_pending a ≠ P_none → outcomes a = []) ∧
  (∀ e, outcomes a = [] → outcomes (attempt_step a e) = [OnSuccess] →
     at_resolver a = true ∧ ∃ k k', at_connection a = Some k ∧ sk_state k = SOCKET_CONNECTING ∧
     at_connection (attempt_step a e) = Some k' ∧ sk_state k' = SOCKET_CONNECTED) ∧
  (∀ results endpoint v s p, at_pending a = P_connect results → at_resolver a = true →
     outcomes (attempt_step a (Ev_connected true endpoint v s p)) = [OnFail ERROR_CONNECT]).
Proof.
  intros Hs a. pose proof (run_trace es a0 (started_trace a0 Hs)) as Ht. fold a in Ht.
  assert (at_pending a ≠ P_none → outcomes a = []) as Hpend.
  { unfold pending_trace in Ht. unfold outcomes. destruct (at_pending a); intros Hp; try done; try by rewrite Ht.
    destruct Ht as (_ & r & ->). apply handshake_outcomes. }
  split_and!.
  - unfold pending_trace in Ht. destruct (at_pending a).
    + rewrite Hpend by done. cbn. lia.
    + rewrite Hpend by done. cbn. lia.
    + rewrite Hpend by done. cbn. lia.
    + destruct Ht as [[-> _] | [[err ->] | [-> _]]]; cbn; lia.
  - pose proof (run_remaining es a0). fold a in H. enough (remaining a0 ≤ 3) by lia.
    unfold remaining. destruct (at_pending a0); lia.
  - intros Hp Hr [k Hk]. unfold pending_trace in Ht. rewrite Hp in Ht.
    destruct Ht as [[_ [? | ?]] | [[err ->] | [-> _]]]; [congruence | congruence | done | done].
  - exact Hpend.
  - intros e Ho Hstep. by apply step_success.
  - intros results endpoint v s p Hp Hr. assert (outcomes a = []) as Ho by (apply Hpend; by rewrite Hp).
    unfold attempt_step. rewrite Hp. unfold startTLSHandshake, handleConnectCb, handleConnect.
    cbn [at_resolver at_set_pending]. rewrite Hr. destruct (at_secure a); rewrite outcomes_emit;
      unfold outcomes in *; cbn [at_trace at_set_pending]; by rewrite Ho.
Qed.

(** ** Secure attempts *)

Lemma createSecureContext_spec params calls c :
  createSecureContext params calls = Some c ↔
  ssl_set_verify_mode calls = true ∧ ssl_set_options calls = true ∧
  ssl_verify_file calls (certificateAuthorityPath params) = true ∧
  (verification params = MUTUAL →
     ssl_private_key calls (clientKeyPath params) = true ∧
     ssl_certificate_chain calls (clientCertificatePath params) = true) ∧
  c = mkSecureContext true (tls_options (method params))
        (match verification params with MUTUAL => Some (clientKeyPath params) | VERIFY_SERVER => None end)
        (match verification params with MUTUAL => Some (clientCertificatePath params) | VERIFY_SERVER => None end)
        (Some (certificateAuthorityPath params)).
Proof.
  unfold createSecureContext, ssl_call. destruct calls as [vm so pk cc vf]. cbn.
  destruct vm, so, (verification params), (vf (certificateAuthorityPath params)); cbn;
    try (destruct (pk (clientKeyPath params)), (cc (clientCertificatePath params)); cbn);
    split; try done; try (intros [= <-]; by split_and!);
    intros (H1 & H2 & H3 & H4 & ->); try done; destruct (H4 eq_refl) as [? ?]; done.
Qed.

(** What the verification accepted: a certificate of a chain up to a trusted authority
    whose identity is the host. *)
Definition verified_for (host : bytes) (v : bool * VerifyContext) : Prop :=
  v.1 = true ∧ host_name_verification host v.1 v.2 = true.

Lemma verifyCertificate_spec host v : verifyCertificate host v.1 v.2 = true ↔ verified_for host v.
Proof.
  unfold verifyCertificate, verified_for, logCertVerificationFailure.
  destruct v as [[] ctx]; cbn; [| by split; [| intros [??]]].
  destruct (host_name_verification host true ctx); by split; [| intros [??]].
Qed.

(** An attempt keeps its parameters. *)
Lemma step_same a e :
  at_host (attempt_step a e) = at_host a ∧ at_port (attempt_step a e) = at_port a ∧
  at_secure (attempt_step a e) = at_secure a ∧ at_shuffle (attempt_step a e) = at_shuffle a.
Proof.
  assert (∀ error ok a', at_host (handleConnectCb error ok a') = at_host a' ∧
    at_port (handleConnectCb error ok a') = at_port a' ∧ at_secure (handleConnectCb error ok a') = at_secure a' ∧
    at_shuffle (handleConnectCb error ok a') = at_shuffle a') as Hcb.
  { intros error ok a'. unfold handleConnectCb, handleConnect.
    destruct (at_resolver a'), error; try done. destruct (at_connection a') as [k |]; [| done].
    by destruct (Socket_markConnected ok k). }
  destruct e as [error results seed | error endpoint verifyError sniOk preparedOk
    | error verified preparedOk | k | |]; unfold attempt_step.
  - destruct (at_pending a); try done. unfold handleResolveCb, handleResolve, startConnect. cbn.
    destruct (at_resolver a), error; try done. cbn. by destruct (at_connection a).
  - destruct (at_pending a); try done. destruct (at_secure a) eqn:Hs.
    + unfold startTLSHandshake. destruct error, verifyError, (is_address (at_host a)) eqn:Hi, sniOk; cbn; rewrite ?Hi; cbn; by rewrite ?Hs.
    + destruct (Hcb error preparedOk (at_set_pending P_none a)) as (-> & -> & -> & ->). by rewrite <- Hs.
  - destruct (at_pending a); try done. unfold handleTLSHandshake. destruct error; [done |].
    apply (Hcb false preparedOk (at_set_pending P_none a)).
  - by destruct (at_connection a).
  - done.
  - done.
Qed.

Lemma run_secure es : ∀ a, at_secure (attempt_run es a) = at_secure a ∧ at_host (attempt_run es a) = at_host a.
Proof.
  induction es as [| e es IH]; intros a; [done |].
  change (attempt_run (e :: es) a) with (attempt_run es (attempt_step a e)). destruct (IH (attempt_step a e)) as [-> ->].
  by destruct (step_same a e) as (-> & _ & -> & _).
Qed.

(** A secure attempt calls [onSuccess] in the handler of a successful handshake. *)
Lemma success_step a e :
  is_Some (at_secure a) → OnSuccess ∉ at_trace a → OnSuccess ∈ at_trace (attempt_step a e) →
  ∃ verified ok ep, e = Ev_handshaken false verified ok ∧ at_pending a = P_handshake ep.
Proof.
  intros [c Hc] Hn. destruct e as [error results seed | error endpoint verifyError sniOk preparedOk
    | error verified preparedOk | k | |]; unfold attempt_step; try done.
  - destruct (at_pending a); try done. unfold handleResolveCb, handleResolve, startConnect. cbn.
    destruct (at_resolver a), error; cbn; try done; try (rewrite elem_of_app; set_solver).
    destruct (at_connection a); cbn; set_solver.
  - destruct (at_pending a); try done. rewrite Hc. unfold startTLSHandshake.
    destruct error, verifyError, (is_address (at_host a)) eqn:Hi, sniOk; cbn; rewrite ?Hi; cbn; set_solver.
  - destruct (at_pending a) as [| | ep |] eqn:Hp; try done. destruct error; cbn; [set_solver |].
    intros _. by eexists _, _, _.
  - by destruct (at_connection a).
Qed.

Lemma success_or_not (l : list ResolverEffect) : OnSuccess ∈ l ∨ OnSuccess ∉ l.
Proof.
  induction l as [| x l [IH | IH]]; [right; set_solver | left; set_solver |].
  destruct x; try (right; set_solver). left. set_solver.
Qed.

Lemma steps_success a es b :
  attempt_steps a es b → is_Some (at_secure a) → OnSuccess ∉ at_trace a → OnSuccess ∈ at_trace b →
  ∃ verified ok, Ev_handshaken false verified ok ∈ es ∧
    ∀ c, at_secure a = Some c → sc_verify_peer c = true → verified ≠ [] ∧ Forall (verified_for (at_host a)) verified.
Proof.
  induction 1 as [a | a e es b He Hsteps IH]; intros Hs Hn Hb; [done |].
  destruct (step_same a e) as (Hh & _ & Hse & _).
  destruct (success_or_not (at_trace (attempt_step a e))) as [Hin | Hin].
  - destruct (success_step a e Hs Hn Hin) as (verified & ok & ep & -> & Hp). exists verified, ok.
    split; [apply elem_of_cons; by left |]. intros c Hc Hv. unfold asio_event in He. rewrite Hp in He.
    destruct (He c Hc Hv) as [? HF]. split; [done |]. eapply Forall_impl; [exact HF |].
    intros v. cbn. apply verifyCertificate_spec.
  - destruct IH as (verified & ok & Hin' & Hv).
    + by rewrite Hse.
    + done.
    + done.
    + exists verified, ok. split; [apply elem_of_cons; by right |]. by rewrite <- Hse, <- Hh.
Qed.

Lemma attempt_steps_run a es b : attempt_steps a es b → b = attempt_run es a.
Proof. induction 1 as [| a e es b He Hs IH]; [done |]. by rewrite IH. Qed.

(** The documented behaviour along a run. *)
Fixpoint asio_run es a : Prop :=
  match es with [] => True | e :: es => asio_event a e ∧ asio_run es (attempt_step a e) end.

Lemma attempt_steps_of es : ∀ a, asio_run es a → attempt_steps a es (attempt_run es a).
Proof.
  induction es as [| e es IH]; intros a; [by constructor |]. intros [He Hes].
  apply attempt_steps_cons; [done |]. by apply IH.
Qed.

(** C32: A secure attempt that calls [onSuccess] has verified its peer. The context's
    setup went through: peers are verified against the given authority, versions before
    TLS 1.2 are disabled, and for mutual authentication the client's key and certificate
    are those given. Before the handshake the verification callback was set for this host
    and, unless the host is an IP address, the host's name was sent; and a successful
    handshake was reached in which certificates were presented that all lead to the
    authority and are for this host. *)
Theorem secure_success_is_verified shuffle host port maxFrameSize params calls es a :
  attempt_steps (asyncSecureConnect shuffle host port maxFrameSize params calls) es a →
  OnSuccess ∈ at_trace a →
  (∃ c, at_secure a = Some c ∧ sc_verify_peer c = true ∧
     sc_verifyFile c = Some (certificateAuthorityPath params) ∧
     (∀ o, o ∈ [no_sslv2; no_sslv3; no_tlsv1; no_tlsv1_1] → o ∈ sc_options c) ∧
     (verification params = MUTUAL →
        sc_privateKey c = Some (clientKeyPath params) ∧
        sc_certificateChain c = Some (clientCertificatePath params))) ∧
  (∃ results, at_trace a = [AsyncResolve host (to_string port); AsyncConnect results; SetVerifyCallback host] ++
     (if is_address host then [] else [SetTlsHostName host]) ++ [AsyncHandshake; OnSuccess]) ∧
  (∃ verified ok, Ev_handshaken false verified ok ∈ es ∧ verified ≠ [] ∧ Forall (verified_for host) verified).
Proof.
  intros Hsteps Hin. pose proof (attempt_steps_run _ _ _ Hsteps) as Hrun.
  set (a0 := asyncSecureConnect shuffle host port maxFrameSize params calls) in *.
  destruct (run_secure es a0) as [Hse Hho]. rewrite <- Hrun in Hse, Hho.
  assert (pending_trace a) as Ht.
  { rewrite Hrun. apply run_trace, started_trace. right. by eexists _, _, _, _, _, _. }
  destruct (createSecureContext params calls) as [c |] eqn:Hc.
  2:{ exfalso. assert (at_pending a0 = P_none ∧ at_connection a0 = None ∧ at_trace a0 = [OnFail ERROR_CONNECT]) as (Hp & Hk & Htr)
        by (unfold a0, asyncSecureConnect; by rewrite Hc).
      clear Hse Hho Ht Hrun. revert Hp Hk Htr Hin. induction Hsteps as [| b e es b' He Hs IH]; intros Hp Hk Htr Hin.
      - rewrite Htr in Hin. set_solver.
      - apply IH; try done; destruct e; unfold attempt_step; rewrite ?Hp, ?Hk; done. }
  assert (at_secure a0 = Some c ∧ at_host a0 = host ∧ at_port a0 = to_string port ∧ OnSuccess ∉ at_trace a0) as (Hc0 & Hh0 & Hp0 & Hn0).
  { unfold a0, asyncSecureConnect. rewrite Hc. split_and!; try done. set_solver. }
  apply createSecureContext_spec in Hc as (_ & _ & _ & _ & Hc).
  destruct (steps_success a0 es a Hsteps ltac:(by rewrite Hc0) Hn0 Hin) as (verified & ok & Hes & Hv).
  split_and!.
  - exists c. rewrite Hse, Hc0. split; [done |]. rewrite Hc. cbn. split_and!; try done.
    + intros o Ho. destruct (method params). cbn. set_solver.
    + intros ->. done.
  - assert (at_port a = to_string port) as Hport.
    { rewrite Hrun. clear -Hp0. revert Hp0. generalize a0. induction es as [| e es IH]; intros b Hb; [done |].
      cbn. apply IH. destruct (step_same b e) as (_ & -> & _). done. }
    assert (OnSuccess ∈ outcomes a) as Hout by (unfold outcomes; apply list_elem_of_In, filter_In; split; [by apply list_elem_of_In | done]).
    unfold pending_trace in Ht. destruct (at_pending a).
    + rewrite Ht in Hin. set_solver.
    + rewrite Ht in Hin. set_solver.
    + destruct Ht as (_ & r & Ht). exfalso. unfold outcomes in Hout. rewrite Ht, handshake_outcomes in Hout. set_solver.
    + destruct Ht as [[Ho _] | [[err Ho] | [_ Ht]]]; [rewrite Ho in Hout; set_solver.. |].
      rewrite Hse, Hc0 in Ht. destruct Ht as [r Ht]. exists r. rewrite Ht, Hho, Hh0, Hport. unfold handshake_trace.
      by rewrite <- !app_assoc.
  - exists verified, ok. split; [done |]. rewrite <- Hh0. apply (Hv c Hc0). by rewrite Hc.
Qed.

(** ** Shuffling *)

Context {L : AsioLaws N}.

Lemma CustomRandomGenerator_range max seed :
  (0 < max < 2 ^ 31)%Z → (0 ≤ (CustomRandomGenerator_call max seed).1 < max)%Z.
Proof using L.
  intros Hm. unfold CustomRandomGenerator_call. pose proof (generate15_range seed) as Hr.
  destruct (generate15 seed) as [r s]. cbn in *. rewrite swrap_small; [| lia | apply s_in_iff; lia].
  rewrite Z.rem_mod_nonneg by lia. apply Z.mod_pos_bound. lia.
Qed.

(** Shuffling changes only the order: the endpoints an attempt connects to are the
    endpoints the name resolved to, all of them as often as they were found, and in the
    order they were found in unless shuffling is enabled. *)
Theorem shuffle_keeps_endpoints a error results seed r :
  (Z.of_nat (length results) < 2 ^ 31)%Z →
  at_pending a = P_resolve →
  at_pending (attempt_step a (Ev_resolved error results seed)) = P_connect r →
  error = false ∧ entry_endpoint <$> r ≡ₚ entry_endpoint <$> results ∧
  (at_shuffle a = false → r = results).
Proof using L.
  intros Hl Hp. unfold attempt_step. rewrite Hp. unfold handleResolveCb, handleResolve, startConnect. cbn.
  destruct (at_resolver a), error; try done. cbn. destruct (at_connection a); [| done]. cbn. intros [= <-].
  split; [done |]. unfold shuffleResolverResults.
  destruct (at_shuffle a); cbn; [| done]. split; [| done].
  destruct (Nat.eqb (length results) 0) eqn:H0; cbn; [done |].
  rewrite results_create_endpoints. apply Permutation_map, random_shuffle_permutes.
  intros max s0 Hm. apply CustomRandomGenerator_range. lia.
Qed.
End Outcomes.

(** ** Examples *)

Module ResolverExamples.

(** A network whose shuffle rotates by a random number, with a toy generator. *)
Definition toy_rotate (g : Z → Z → Z * Z) (l : list (Z * bytes)) (s : Z) : list (Z * bytes) :=
  let k := Z.to_nat (g (Z.of_nat (length l)) s).1 in drop k l ++ take k l.

#[local] Instance toy_Asio : Asio := {
  Address := Z;
  Entry := Z * bytes;
  entry_endpoint := fst;
  results_create l host port := (λ x, (x.1, host)) <$> l;
  VerifyContext := bytes;
  is_address host := bool_decide (host = str "127.0.0.1");
  host_name_verification host preverified ctx := preverified && bool_decide (ctx = host);
  generate15 s := ((s * 5 + 3) mod 2 ^ 15, s * 5 + 3)%Z;
  random_shuffle := toy_rotate;
}.

#[local] Instance toy_AsioLaws : AsioLaws toy_Asio.
Proof.
  split; cbn.
  - intros l host port. rewrite <- list_fmap_compose. by apply list_fmap_ext.
  - intros s. apply Z.mod_pos_bound. lia.
  - intros g l s _. unfold toy_rotate. rewrite Permutation_app_comm. by rewrite take_drop.
Qed.

Definition toy_calls : SslCalls := mkSslCalls true true (λ _, true) (λ _, true) (λ _, true).
Definition toy_params : SecurityParameters := SecurityParameters_make (str "ca.pem").
Definition toy_entry (n : Z) : Entry := (n, str "broker").
Definition toy_results : list Entry := [toy_entry 1; toy_entry 2; toy_entry 3].

Definition toy_attempt : Attempt (CB := unit) (DC := unit) :=
  asyncSecureConnect true (str "broker") 5671 64 toy_params toy_calls.

Definition toy_events : list (AttemptEvent (CB := unit) (DC := unit)) :=
  [Ev_resolved false toy_results 1; Ev_connected false (toy_entry 3) false true true;
   Ev_handshaken false [(true, str "broker")] true].

Definition toy_end : Attempt (CB := unit) (DC := unit) := attempt_run toy_events toy_attempt.

Lemma toy_trace :
  at_trace toy_end =
  [AsyncResolve (str "broker") (str "5671"); AsyncConnect [toy_entry 3; toy_entry 1; toy_entry 2];
   SetVerifyCallback (str "broker"); SetTlsHostName (str "broker"); AsyncHandshake; OnSuccess].
Proof. vm_compute. reflexivity. Qed.

Lemma toy_steps : attempt_steps toy_attempt toy_events toy_end.
Proof.
  apply attempt_steps_of. unfold toy_events. cbn [asio_run]. split; [exact I |]. split; [| split; [| exact I]].
  - unfold asio_event. match goal with |- context [at_pending ?x] => set (p := at_pending x) end.
    vm_compute in p. subst p. apply list_elem_of_In. left. reflexivity.
  - unfold asio_event. match goal with |- context [at_pending ?x] => set (p := at_pending x) end.
    vm_compute in p. subst p. intros c _ _. split; [discriminate |]. apply Forall_singleton. vm_compute. reflexivity.
Qed.
End ResolverExamples.
Import ResolverExamples.
#[local] Existing Instances toy_Asio toy_AsioLaws.

Lemma resolver_attempt_reports_once_witness :
  length (outcomes toy_end) ≤ 1 ∧
  outcomes (attempt_run [Ev_resolved false toy_results 1; Ev_connectionDropped] toy_attempt) = [] ∧
  outcomes (attempt_run [Ev_resolved false toy_results 1; Ev_connectionDropped;
    Ev_connected true (toy_entry 3) false true true] toy_attempt) = [OnFail ERROR_CONNECT].
Proof.
  assert (started toy_attempt) as Hs by (right; by eexists _, _, _, _, _, _).
  split_and!.
  - exact (proj1 (resolver_attempt_reports_once toy_attempt toy_events Hs)).
  - vm_compute. reflexivity.
  - destruct (resolver_attempt_reports_once toy_attempt [Ev_resolved false toy_results 1; Ev_connectionDropped] Hs)
      as (_ & _ & _ & _ & _ & Hf).
    apply (Hf [toy_entry 3; toy_entry 1; toy_entry 2]); vm_compute; reflexivity.
Defined.

Lemma secure_success_is_verified_witness :
  ∃ verified ok, Ev_handshaken (CB := unit) (DC := unit) false verified ok ∈ toy_events ∧ verified ≠ [] ∧
    Forall (verified_for (str "broker")) verified.
Proof.
  refine (proj2 (proj2 (secure_success_is_verified true (str "broker") 5671 64 toy_params toy_calls toy_events toy_end toy_steps _))).
  rewrite toy_trace. apply list_elem_of_In. cbn. tauto.
Defined.

Lemma shuffle_keeps_endpoints_witness :
  [3%Z; 1%Z; 2%Z] ≡ₚ [1%Z; 2%Z; 3%Z].
Proof.
  destruct (shuffle_keeps_endpoints toy_attempt false toy_results 1
    [toy_entry 3; toy_entry 1; toy_entry 2]) as (_ & H & _).
  - cbn. lia.
  - done.
  - vm_compute. reflexivity.
  - exact H.
Defined.
