(* ===== verification/Connection.v ===== *)
(** * Connection: the AMQP connection

    Models [rmqamqp::Connection] (rmqamqp_connection.cpp, rmqamqp_connection.h) and
    [rmqamqp::ChannelFactory] (rmqamqp_channelfactory.cpp), with the handlers of
    [rmqio::AsioConnection] (rmqio_asioconnection.cpp) that call it: connecting and the handshake,
    the channels of a connection, the frames both ways, closing and reconnecting.

    - [Connection] holds the members; [cn_objects] are the channel objects ever created,
      each with the number its write callback is bound to, addressed by position
      ([ChannelPtr]). The heartbeat manager, the framer, the channel map and the channels
      are the models of their own files: the connection is their [HeartbeatHost] and
      [ChannelHost].
    - [cn_trace] records the calls to the other collaborators, in order ([ConnEffect]):
      writes to the socket with their completion handlers, the resolver, timers, the
      retry handler, metrics, and the callbacks of the application.
    - The handlers of the socket ([handleWrite], [handleRead], [doClose]), of timers, of the
      resolver and of the retry handler are operations, invoked by the event loop. The
      [weak_ptr] to the connection they carry is alive as long as the object is.
    - A handler of the socket keeps the socket alive while it runs ([cn_held]). A socket that
      the connection drops is destroyed at once, or at the end of the handler ([cn_orphan]);
      if it was being closed its destructor calls the callback given to [close], which is
      [socketShutdown] once more.
    - What a channel writes during a call reaches the socket before the call returns
      ([route_writes]).
    - [Env] is what an operation finds in the rest of the program: the topology objects
      that are alive, the clock, the next GUID, a number for a future, and whether the
      operating system and the TLS library do as asked.
    - Names of connections in messages to the application are left out, as are timings
      and logging. *)

From Stdlib Require Import ZArith Lia String Strings.Byte.
From stdpp Require Import base tactics list gmap pretty.
From S2P Require Import Prelude Constants Wire FieldValue Props Methods Method Frame Message.
From S2P Require Import Framer MessageStore MultipleAck AckQueue Topology Channel SendChannel.
From S2P Require Import ReceiveChannel Heartbeat ChannelMap ClientProperties Socket.

(** [Connection::State] *)
Inductive ConnectionState :=
| DISCONNECTED | PROTOCOL_HEADER_SENT | CONNECTION_START_RECEIVED | CONNECTION_STARTOK_SENT
| CONNECTION_TUNE_RECEIVED | CONNECTION_TUNEOK_SENT | CONNECTION_OPEN_SENT
| CONNECTION_OPENOK_RECEIVED | CONNECTION_CLOSE_SENT_EXIT | CONNECTION_CLOSE_SENT_RECONNECT
| CONNECTION_CLOSE_RECEIVED | CONNECTION_CLOSEOK_SENT | CONNECTION_CLOSED | CONNECTED.

#[export] Instance ConnectionState_eq_dec : EqDecision ConnectionState.
Proof. solve_decision. Defined.

(** [Connection::DisconnectType] *)
Inductive DisconnectType := FATAL | WILL_RETRY.

#[export] Instance DisconnectType_eq_dec : EqDecision DisconnectType.
Proof. solve_decision. Defined.

(** [rmqio::Connection::ReturnCode] *)
Inductive SocketRC :=
| SUCCESS | CONNECT_ERROR | GRACEFUL_DISCONNECT | DISCONNECTED_ERROR | FRAME_ERROR | HUNG_ERROR.

(** [ChannelFactory::ChannelOnOpenState] *)
Inductive ChannelOnOpenState := PAUSED_ON_OPEN | NOT_PAUSED | PAUSED_HOST_HEALTH_AWARE.

(** Completion handlers of writes to the socket. *)
Inductive ConnWriteHandler :=
| OnWriteState (s : ConnectionState)
| NoopWriteComplete
| ChannelHandler (p : ChannelPtr) (h : WriteHandler).

(** Counters and distributions. *)
Inductive ConnMetric :=
| disconnect_events | hung_connection_reset | heartbeat_timeouts | connect_time | reconnect_time
| health_aware_consumer_created | health_unaware_consumer_created.

Inductive ConnEffect :=
| SocketWrite (frames : list SerializedFrame) (h : ConnWriteHandler)
| SocketClose (dc : DisconnectType)
| ResolverConnect (secure : bool)
| HungTimerStart
| HungTimerCancel
| TickTimer (c : TickTimerCall)
| ScheduleRetry
| RetrySuccess
| ErrorCallback (text : bytes) (code : Z)
| Metric_published (m : ConnMetric)
| FirstConnectCallback (success : bool)
| CloseCallback
| EndpointConnectFailed
| EndpointConnectSuccess
| ConnFault.

Section Connection.
Context {E : EpochUtil} {G : GuidUtil} {AS : AckSort}.

Abbreviation SendChannel := (Channel SendState Confirmation).
Abbreviation ReceiveChannel := (Channel ReceiveState ReceiveEvent).

(** A channel object. [healthAware] is [consumerConfig().consumeOnlyFromHealthyHost()]. *)
Inductive ChannelObj :=
| OSend (c : SendChannel)
| OReceive (healthAware : bool) (c : ReceiveChannel).

(** What the constructor is given and does not change. *)
Record ConnConfig := mkConnConfig {
  cfg_vhost : bytes;
  cfg_secure : bool;
  cfg_credentials : bytes;
  cfg_clientProperties : FieldTable;
}.

Record Connection := mkConnection {
  cn_config : ConnConfig;
  cn_heartbeat : HeartbeatManager;
  cn_socket : option (Socket ConnWriteHandler DisconnectType);
  cn_framer : Framer;
  cn_state : ConnectionState;
  cn_channels : ChannelMap;
  cn_objects : list (Z * ChannelObj);
  cn_onOpenState : ChannelOnOpenState;
  cn_firstConnectCb : bool;
  cn_closeCb : bool;
  cn_closeRequested : bool;
  cn_hasBeenConnected : bool;
  cn_held : bool;
  cn_orphan : option DisconnectType;
  cn_trace : list ConnEffect;
}.

(** The constructor. *)
Definition Connection_make (cfg : ConnConfig) (onOpen : ChannelOnOpenState) : Connection :=
  mkConnection cfg HeartbeatManager_make None Framer_make DISCONNECTED ChannelMap_make [] onOpen
    false false false false false None [].

(** *** Member assignments *)

Definition cn_set_heartbeat (h : HeartbeatManager) (s : Connection) : Connection :=
  mkConnection (cn_config s) h (cn_socket s) (cn_framer s) (cn_state s) (cn_channels s)
    (cn_objects s) (cn_onOpenState s) (cn_firstConnectCb s) (cn_closeCb s) (cn_closeRequested s)
    (cn_hasBeenConnected s) (cn_held s) (cn_orphan s) (cn_trace s).

Definition cn_set_socket (k : option (Socket ConnWriteHandler DisconnectType)) (s : Connection) : Connection :=
  mkConnection (cn_config s) (cn_heartbeat s) k (cn_framer s) (cn_state s) (cn_channels s)
    (cn_objects s) (cn_onOpenState s) (cn_firstConnectCb s) (cn_closeCb s) (cn_closeRequested s)
    (cn_hasBeenConnected s) (cn_held s) (cn_orphan s) (cn_trace s).

Definition cn_set_framer (f : Framer) (s : Connection) : Connection :=
  mkConnection (cn_config s) (cn_heartbeat s) (cn_socket s) f (cn_state s) (cn_channels s)
    (cn_objects s) (cn_onOpenState s) (cn_firstConnectCb s) (cn_closeCb s) (cn_closeRequested s)
    (cn_hasBeenConnected s) (cn_held s) (cn_orphan s) (cn_trace s).

Definition cn_set_state (st : ConnectionState) (s : Connection) : Connection :=
  mkConnection (cn_config s) (cn_heartbeat s) (cn_socket s) (cn_framer s) st (cn_channels s)
    (cn_objects s) (cn_onOpenState s) (cn_firstConnectCb s) (cn_closeCb s) (cn_closeRequested s)
    (cn_hasBeenConnected s) (cn_held s) (cn_orphan s) (cn_trace s).

Definition cn_set_channels (m : ChannelMap) (s : Connection) : Connection :=
  mkConnection (cn_config s) (cn_heartbeat s) (cn_socket s) (cn_framer s) (cn_state s) m
    (cn_objects s) (cn_onOpenState s) (cn_firstConnectCb s) (cn_closeCb s) (cn_closeRequested s)
    (cn_hasBeenConnected s) (cn_held s) (cn_orphan s) (cn_trace s).

Definition cn_set_objects (os : list (Z * ChannelObj)) (s : Connection) : Connection :=
  mkConnection (cn_config s) (cn_heartbeat s) (cn_socket s) (cn_framer s) (cn_state s)
    (cn_channels s) os (cn_onOpenState s) (cn_firstConnectCb s) (cn_closeCb s)
    (cn_closeRequested s) (cn_hasBeenConnected s) (cn_held s) (cn_orphan s) (cn_trace s).

Definition cn_set_onOpenState (o : ChannelOnOpenState) (s : Connection) : Connection :=
  mkConnection (cn_config s) (cn_heartbeat s) (cn_socket s) (cn_framer s) (cn_state s)
    (cn_channels s) (cn_objects s) o (cn_firstConnectCb s) (cn_closeCb s) (cn_closeRequested s)
    (cn_hasBeenConnected s) (cn_held s) (cn_orphan s) (cn_trace s).

Definition cn_set_firstConnectCb (b : bool) (s : Connection) : Connection :=
  mkConnection (cn_config s) (cn_heartbeat s) (cn_socket s) (cn_framer s) (cn_state s)
    (cn_channels s) (cn_objects s) (cn_onOpenState s) b (cn_closeCb s) (cn_closeRequested s)
    (cn_hasBeenConnected s) (cn_held s) (cn_orphan s) (cn_trace s).

Definition cn_set_closeCb (b : bool) (s : Connection) : Connection :=
  mkConnection (cn_config s) (cn_heartbeat s) (cn_socket s) (cn_framer s) (cn_state s)
    (cn_channels s) (cn_objects s) (cn_onOpenState s) (cn_firstConnectCb s) b
    (cn_closeRequested s) (cn_hasBeenConnected s) (cn_held s) (cn_orphan s) (cn_trace s).

Definition cn_set_closeRequested (s : Connection) : Connection :=
  mkConnection (cn_config s) (cn_heartbeat s) (cn_socket s) (cn_framer s) (cn_state s)
    (cn_channels s) (cn_objects s) (cn_onOpenState s) (cn_firstConnectCb s) (cn_closeCb s)
    true (cn_hasBeenConnected s) (cn_held s) (cn_orphan s) (cn_trace s).

Definition cn_set_hasBeenConnected (s : Connection) : Connection :=
  mkConnection (cn_config s) (cn_heartbeat s) (cn_socket s) (cn_framer s) (cn_state s)
    (cn_channels s) (cn_objects s) (cn_onOpenState s) (cn_firstConnectCb s) (cn_closeCb s)
    (cn_closeRequested s) true (cn_held s) (cn_orphan s) (cn_trace s).

Definition cn_set_held (b : bool) (s : Connection) : Connection :=
  mkConnection (cn_config s) (cn_heartbeat s) (cn_socket s) (cn_framer s) (cn_state s)
    (cn_channels s) (cn_objects s) (cn_onOpenState s) (cn_firstConnectCb s) (cn_closeCb s)
    (cn_closeRequested s) (cn_hasBeenConnected s) b (cn_orphan s) (cn_trace s).

Definition cn_set_orphan (o : option DisconnectType) (s : Connection) : Connection :=
  mkConnection (cn_config s) (cn_heartbeat s) (cn_socket s) (cn_framer s) (cn_state s)
    (cn_channels s) (cn_objects s) (cn_onOpenState s) (cn_firstConnectCb s) (cn_closeCb s)
    (cn_closeRequested s) (cn_hasBeenConnected s) (cn_held s) o (cn_trace s).

Definition cn_emit (e : ConnEffect) (s : Connection) : Connection :=
  mkConnection (cn_config s) (cn_heartbeat s) (cn_socket s) (cn_framer s) (cn_state s)
    (cn_channels s) (cn_objects s) (cn_onOpenState s) (cn_firstConnectCb s) (cn_closeCb s)
    (cn_closeRequested s) (cn_hasBeenConnected s) (cn_held s) (cn_orphan s)
    (cn_trace s ++ [e]).

Definition cn_notifyMessageSent (s : Connection) : Connection :=
  cn_set_heartbeat (HeartbeatManager_notifyMessageSent (cn_heartbeat s)) s.

(** ** Writing *)

(** [d_socketConnection->asyncWrite(frames, h)], then [notifyMessageSent]. *)
Definition socket_write (frames : list SerializedFrame) (h : ConnWriteHandler)
  (k : Socket ConnWriteHandler DisconnectType) (s : Connection) : Connection :=
  cn_notifyMessageSent
    (cn_set_socket (Some (Socket_asyncWrite frames h k)) (cn_emit (SocketWrite frames h) s)).

Definition Connection_asyncWriteSingleFrame (f : SerializedFrame) (h : ConnWriteHandler)
  (s : Connection) : Connection :=
  match cn_socket s with
  | None => s
  | Some k => socket_write [f] h k s
  end.

(** [handleAsyncChannelSend]: [None] from the framer is its failed assertion. *)
Definition Connection_handleAsyncChannelSend (channel : Z) (message : AmqpMessage)
  (h : ConnWriteHandler) (s : Connection) : Connection :=
  match cn_socket s with
  | None => s
  | Some k =>
      match Framer_makeFrames (cn_framer s) channel message with
      | None => cn_emit ConnFault s
      | Some [] => s
      | Some frames => socket_write (SerializedFrame_of_frame <$> frames) h k s
      end
  end.

Definition writeConnectionMethod (m : ConnectionMethod) (newState : ConnectionState)
  (s : Connection) : Connection :=
  Connection_asyncWriteSingleFrame
    (SerializedFrame_of_frame (makeMethodFrame 0 (Method_Connection m))) (OnWriteState newState) s.

Definition Connection_connect (s : Connection) : Connection :=
  Connection_asyncWriteSingleFrame
    (SerializedFrame_of_data (take PROTOCOL_HEADER_LENGTH PROTOCOL_HEADER))
    (OnWriteState PROTOCOL_HEADER_SENT) s.

Definition Connection_sendConnectionStartOk (s : Connection) : Connection :=
  writeConnectionMethod
    (ConnectionMethod_StartOk
       (mkConnectionStartOk (cfg_clientProperties (cn_config s)) AUTHENTICATION_MECHANISM
          (cfg_credentials (cn_config s)) LOCALE)) CONNECTION_STARTOK_SENT s.

Definition Connection_sendConnectionOpen (s : Connection) : Connection :=
  writeConnectionMethod (ConnectionMethod_Open (mkConnectionOpen (cfg_vhost (cn_config s))))
    CONNECTION_OPEN_SENT s.

Definition Connection_sendConnectionCloseOk (s : Connection) : Connection :=
  writeConnectionMethod (ConnectionMethod_CloseOk mkConnectionCloseOk) CONNECTION_CLOSEOK_SENT s.

Definition Connection_sendConnectionClose (replyCode : Z) (replyText : bytes)
  (failingClassId failingMethodId : Z) (s : Connection) : Connection :=
  writeConnectionMethod
    (ConnectionMethod_Close (mkConnectionClose replyCode replyText failingClassId failingMethodId))
    (if (replyCode =? REPLY_SUCCESS)%Z then CONNECTION_CLOSE_SENT_EXIT
     else CONNECTION_CLOSE_SENT_RECONNECT) s.

(** ** Calling channels *)

(** The rest of the program, as an operation finds it. *)
Record Env := mkEnv {
  env_heap : Heap;
  env_clock : Z → Z;
  env_guid : Guid;
  env_future : FutureId;
  env_tlsOk : bool;         (* createSecureContext succeeds *)
  env_preparedOk : bool;    (* the socket's options can be set *)
  env_shutdownOk : bool;    (* the socket can be shut down *)
}.

Definition trace_writes {X} (es : list (Effect X)) : list (AmqpMessage * WriteHandler) :=
  omap (λ e, match e with AsyncWrite m h => Some (m, h) | _ => None end) es.

(** The writes a channel handed to its connection in a call. *)
Definition new_writes (o o' : ChannelObj) : list (AmqpMessage * WriteHandler) :=
  match o, o' with
  | OSend c, OSend c' => trace_writes (drop (length (c_trace c)) (c_trace c'))
  | OReceive _ c, OReceive _ c' => trace_writes (drop (length (c_trace c)) (c_trace c'))
  | _, _ => []
  end.

Definition route_writes (p : ChannelPtr) (id : Z) (ws : list (AmqpMessage * WriteHandler))
  (s : Connection) : Connection :=
  fold_left (λ s w, Connection_handleAsyncChannelSend id w.1 (ChannelHandler p w.2) s) ws s.

(** A call on the channel at [p]; [dflt] is never used, since the maps only hold addresses
    of objects. *)
Definition chan_call {R} (dflt : R) (p : ChannelPtr) (f : ChannelObj → R * ChannelObj)
  (s : Connection) : R * Connection :=
  match cn_objects s !! p with
  | None => (dflt, cn_emit ConnFault s)
  | Some (id, o) =>
      let (r, o') := f o in
      (r, route_writes p id (new_writes o o') (cn_set_objects (<[p := (id, o')]> (cn_objects s)) s))
  end.

Definition obj_open (o : ChannelObj) : ChannelObj :=
  match o with
  | OSend c => OSend (Channel_open c)
  | OReceive a c => OReceive a (Channel_open c)
  end.

Definition obj_reset (clock : Z → Z) (o : ChannelObj) : CleanupIndicator * ChannelObj :=
  match o with
  | OSend c => let (i, c) := Channel_reset (H := SendChannel_hooks clock) false c in (i, OSend c)
  | OReceive a c =>
      let (i, c) := Channel_reset (H := ReceiveChannel_hooks clock) false c in (i, OReceive a c)
  end.

Definition obj_processReceived (hp : Heap) (clock : Z → Z) (m : AmqpMessage) (o : ChannelObj)
  : CleanupIndicator * ChannelObj :=
  match o with
  | OSend c =>
      let (i, c) := Channel_processReceived (H := SendChannel_hooks clock) hp m c in (i, OSend c)
  | OReceive a c =>
      let (i, c) := Channel_processReceived (H := ReceiveChannel_hooks clock) hp m c in
      (i, OReceive a c)
  end.

(** The futures of these calls are dropped. *)
Definition obj_pause (f : FutureId) (o : ChannelObj) : ChannelObj :=
  match o with OSend c => OSend c | OReceive a c => OReceive a (snd (ReceiveChannel_pause f c)) end.

Definition obj_resume (f : FutureId) (o : ChannelObj) : ChannelObj :=
  match o with OSend c => OSend c | OReceive a c => OReceive a (snd (ReceiveChannel_resume f c)) end.

Definition obj_healthAware (o : ChannelObj) : bool :=
  match o with OSend _ => false | OReceive a _ => a end.

#[global] Instance Connection_channelHost (env : Env) : ChannelHost Connection := {
  ch_map := cn_channels;
  set_ch_map := cn_set_channels;
  ch_open p s := snd (chan_call () p (λ o, ((), obj_open o)) s);
  ch_reset p s := chan_call KEEP p (obj_reset (env_clock env)) s;
  ch_processReceived p m s := chan_call KEEP p (obj_processReceived (env_heap env) (env_clock env) m) s;
  ch_pause p s := snd (chan_call () p (λ o, ((), obj_pause (env_future env) o)) s);
  ch_resume p s := snd (chan_call () p (λ o, ((), obj_resume (env_future env) o)) s);
  ch_healthAware p s := match cn_objects s !! p with Some (_, o) => obj_healthAware o | None => false end;
}.

#[global] Instance Connection_heartbeatHost : HeartbeatHost Connection := {
  hb := cn_heartbeat;
  set_hb := cn_set_heartbeat;
  tick_timer c s := cn_emit (TickTimer c) s;
}.

(** ** Closing *)

(** [socketShutdown] before the socket is released... *)
Definition shutdown_begin (env : Env) (s : Connection) : Connection :=
  let s := ChannelMap_resetAll (CH := Connection_channelHost env) s in
  let s := cn_set_framer Framer_make s in
  let s := cn_emit HungTimerCancel s in
  HeartbeatManager_stop s.

(** ...and after. *)
Definition shutdown_end (willRetry : bool) (s : Connection) : Connection :=
  let s := cn_emit (Metric_published disconnect_events) s in
  let s := cn_set_state DISCONNECTED s in
  if willRetry then cn_emit EndpointConnectFailed (cn_emit ScheduleRetry s)
  else
    let s := if cn_firstConnectCb s
             then cn_set_firstConnectCb false (cn_emit (FirstConnectCallback false) s) else s in
    if cn_closeCb s then cn_set_closeCb false (cn_emit CloseCallback s) else s.

Definition will_retry (dcType : DisconnectType) (s : Connection) : bool :=
  bool_decide (dcType = WILL_RETRY) && negb (cn_closeRequested s).

(** [d_socketConnection.reset()], with the call its destructor makes. *)
Definition release_socket (s : Connection) : option DisconnectType * Connection :=
  match cn_socket s with
  | None => (None, s)
  | Some k =>
      let s := cn_set_socket None s in
      if cn_held s then (None, cn_set_orphan (Socket_closing k) s) else (Socket_closing k, s)
  end.

(** [socketShutdown] when there is no socket. *)
Definition shutdown_alone (env : Env) (dcType : DisconnectType) (s : Connection) : Connection :=
  shutdown_end (will_retry dcType s) (shutdown_begin env s).

Definition Connection_socketShutdown (env : Env) (dcType : DisconnectType) (s : Connection)
  : Connection :=
  let willRetry := will_retry dcType s in
  let (again, s) := release_socket (shutdown_begin env s) in
  shutdown_end willRetry
    match again with Some dcType' => shutdown_alone env dcType' s | None => s end.

(** [closeSocket]: a connected socket is asked to close, and calls [socketShutdown] when it has. *)
Definition Connection_closeSocket (env : Env) (dcType : DisconnectType) (s : Connection)
  : Connection :=
  let s := cn_set_state CONNECTION_CLOSED s in
  match cn_socket s with
  | Some k =>
      if Socket_isConnected k then
        let (now, k) := Socket_close dcType (env_shutdownOk env) k in
        let s := cn_set_socket (Some k) (cn_emit (SocketClose dcType) s) in
        match now with Some dcType => Connection_socketShutdown env dcType s | None => s end
      else Connection_socketShutdown env dcType s
  | None => Connection_socketShutdown env dcType s
  end.

Definition Connection_connectionException (env : Env) (replyCode : Z) (replyText : bytes)
  (failingClassId failingMethodId : Z) (s : Connection) : Connection :=
  match cn_state s with
  | CONNECTION_CLOSE_SENT_EXIT => Connection_closeSocket env FATAL s
  | CONNECTED | PROTOCOL_HEADER_SENT | CONNECTION_START_RECEIVED | CONNECTION_STARTOK_SENT
  | CONNECTION_TUNE_RECEIVED | CONNECTION_TUNEOK_SENT | CONNECTION_OPEN_SENT
  | CONNECTION_OPENOK_RECEIVED =>
      Connection_sendConnectionClose replyCode replyText failingClassId failingMethodId s
  | _ => Connection_closeSocket env WILL_RETRY s
  end.

Definition Connection_close (env : Env) (s : Connection) : Connection :=
  let s := cn_set_closeRequested (cn_set_closeCb true s) in
  match cn_state s with
  | DISCONNECTED => Connection_socketShutdown env FATAL s
  | CONNECTION_CLOSE_SENT_EXIT | CONNECTION_CLOSE_SENT_RECONNECT | CONNECTION_CLOSE_RECEIVED
  | CONNECTION_CLOSEOK_SENT | CONNECTION_CLOSED => s
  | _ => Connection_sendConnectionClose REPLY_SUCCESS (str "Closing Connection") NO_CLASS NO_METHOD s
  end.

(** The destructor. *)
Definition Connection_destroy (env : Env) (s : Connection) : Connection :=
  let s := Connection_socketShutdown env FATAL s in
  if cn_closeCb s then cn_emit CloseCallback s else s.

(** ** Connecting *)

Definition Connection_connectError (env : Env) (s : Connection) : Connection :=
  Connection_socketShutdown env WILL_RETRY s.

(** [initiateConnect]: [asyncSecureConnect] calls [onFail] and returns no socket when it
    cannot create a TLS context. *)
Definition Connection_initiateConnect (env : Env) (s : Connection) : Connection :=
  let secure := cfg_secure (cn_config s) in
  let s := cn_emit (ResolverConnect secure) (cn_emit HungTimerStart s) in
  if secure && negb (env_tlsOk env) then cn_set_socket None (Connection_connectError env s)
  else cn_set_socket (Some (Socket_make Frame_MAX_FRAME_SIZE)) s.

Definition Connection_startFirstConnection (env : Env) (s : Connection) : Connection :=
  Connection_initiateConnect env (cn_set_firstConnectCb true s).

Definition Connection_socketError (env : Env) (rc : SocketRC) (s : Connection) : Connection :=
  match rc with
  | GRACEFUL_DISCONNECT => s
  | _ => Connection_socketShutdown env WILL_RETRY s
  end.

(** [retry]: the retry handler's callback. *)
Definition Connection_retry (env : Env) (s : Connection) : Connection :=
  if cn_closeRequested s then s else Connection_initiateConnect env s.

Definition Connection_onWriteComplete (env : Env) (state : ConnectionState) (s : Connection)
  : Connection :=
  let s := cn_set_state state s in
  match state with
  | CONNECTION_CLOSEOK_SENT => Connection_closeSocket env WILL_RETRY s
  | _ => s
  end.

(** ** Heartbeats *)

Definition Connection_sendHeartbeat (s : Connection) : Connection :=
  Connection_asyncWriteSingleFrame (SerializedFrame_of_frame makeHeartbeatFrame) NoopWriteComplete s.

Definition Connection_killConnection (env : Env) (s : Connection) : Connection :=
  Connection_closeSocket env WILL_RETRY (cn_emit (Metric_published heartbeat_timeouts) s).

#[global] Instance Connection_heartbeatCallbacks (env : Env) : HeartbeatCallbacks Connection := {
  d_sendHeartbeat := Connection_sendHeartbeat;
  d_killConnection := Connection_killConnection env;
}.

(** ** The handshake *)

(** [bsl::to_string] *)
Definition decimal (n : Z) : bytes := str (pretty n).

Definition frame_min_text (n : Z) : bytes :=
  str "Negotiated frame-max " ++ decimal n ++ str " is below the minimum of " ++ decimal FRAME_MIN_SIZE.

Definition Connection_sendConnectionTuneOk (env : Env) (tune : ConnectionTune) (s : Connection)
  : bool * Connection :=
  let '(channelMax, frameSize, heartbeat) :=
    negotiateTuneParams tune k_MAX_CHANNEL_NUM (Z.of_nat Frame_MAX_FRAME_SIZE)
      k_MAX_HEARTBEAT_TIMEOUT_SEC in
  if (frameSize <? FRAME_MIN_SIZE)%Z then
    let s := Connection_connectionException env NOT_ALLOWED (frame_min_text frameSize)
               ConnectionMethod_CLASS_ID CONNECTION_TUNE s in
    (false, cn_emit (ErrorCallback (frame_min_text frameSize) NOT_ALLOWED) s)
  else
    let s := HeartbeatManager_start heartbeat s in
    let (framer, accepted) := Framer_setMaxFrameSize (cn_framer s) (Z.to_nat frameSize) in
    let s := cn_set_framer framer s in
    let s := if accepted then s else cn_emit ConnFault s in
    (true, writeConnectionMethod
             (ConnectionMethod_TuneOk (mkConnectionTuneOk channelMax frameSize heartbeat))
             CONNECTION_TUNEOK_SENT s).

(** [expectedState]: [None] when the state is the expected one. *)
Definition unexpected (env : Env) (expected : ConnectionState) (methodId : Z) (s : Connection)
  : option Connection :=
  if bool_decide (cn_state s = expected) then None
  else Some (Connection_connectionException env UNEXPECTED_FRAME (str "Unexpected frame")
               ConnectionMethod_CLASS_ID methodId s).

Definition processStart (env : Env) (s : Connection) : Connection :=
  match unexpected env PROTOCOL_HEADER_SENT CONNECTION_START s with
  | Some s => s
  | None => Connection_sendConnectionStartOk (cn_set_state CONNECTION_START_RECEIVED s)
  end.

Definition processTune (env : Env) (tune : ConnectionTune) (s : Connection) : Connection :=
  match unexpected env CONNECTION_STARTOK_SENT CONNECTION_TUNE s with
  | Some s => s
  | None =>
      let (ok, s) := Connection_sendConnectionTuneOk env tune (cn_set_state CONNECTION_TUNE_RECEIVED s) in
      if ok then Connection_sendConnectionOpen s else s
  end.

Definition processOpenOk (env : Env) (s : Connection) : Connection :=
  match unexpected env CONNECTION_OPEN_SENT CONNECTION_OPENOK s with
  | Some s => s
  | None =>
      let s := cn_set_state CONNECTED s in
      let s := cn_emit RetrySuccess (cn_emit HungTimerCancel s) in
      let s := cn_emit (Metric_published (if cn_hasBeenConnected s then reconnect_time else connect_time)) s in
      let s := cn_set_hasBeenConnected s in
      let s := ChannelMap_openAll (CH := Connection_channelHost env) s in
      let s := if cn_firstConnectCb s
               then cn_set_firstConnectCb false (cn_emit (FirstConnectCallback true) s) else s in
      cn_emit EndpointConnectSuccess s
  end.

Definition processClose (close : ConnectionClose) (s : Connection) : Connection :=
  let s := Connection_sendConnectionCloseOk (cn_set_state CONNECTION_CLOSE_RECEIVED s) in
  if negb (ConnectionClose_classId close =? 0)%Z || negb (ConnectionClose_methodId close =? 0)%Z
  then cn_emit (ErrorCallback (str "Connection error " ++ ConnectionClose_replyText close)
                  (ConnectionClose_replyCode close)) s
  else s.

Definition processCloseOk (env : Env) (s : Connection) : Connection :=
  Connection_closeSocket env
    (if bool_decide (cn_state s = CONNECTION_CLOSE_SENT_EXIT) then FATAL else WILL_RETRY) s.

Definition invalidMethod (env : Env) (methodId : Z) (s : Connection) : Connection :=
  Connection_connectionException env NOT_IMPLEMENTED (str "Method not implemented")
    ConnectionMethod_CLASS_ID methodId s.

(** [processConnectionMethod] with [ConnectionMethodProcessor] *)
Definition Connection_processConnectionMethod (env : Env) (m : ConnectionMethod) (s : Connection)
  : Connection :=
  match m with
  | ConnectionMethod_Start _ => processStart env s
  | ConnectionMethod_Tune tune => processTune env tune s
  | ConnectionMethod_OpenOk _ => processOpenOk env s
  | ConnectionMethod_Close close => processClose close s
  | ConnectionMethod_CloseOk _ => processCloseOk env s
  | ConnectionMethod_StartOk _ => invalidMethod env CONNECTION_STARTOK s
  | ConnectionMethod_TuneOk _ => invalidMethod env CONNECTION_TUNEOK s
  | ConnectionMethod_Open _ => invalidMethod env CONNECTION_OPEN s
  | ConnectionMethod_unset => s
  end.

Definition Connection_processMethod (env : Env) (m : Method) (s : Connection) : Connection :=
  match m with
  | Method_Connection m => Connection_processConnectionMethod env m s
  | _ => Connection_connectionException env NOT_IMPLEMENTED
           (str "Not implemented Class Processor") (Method_classId m) NO_METHOD s
  end.

(** [processNextFrame] *)
Definition Connection_processNextFrame (env : Env) (frame : Frame) (s : Connection) : Connection :=
  let s := cn_set_heartbeat (HeartbeatManager_notifyMessageReceived (cn_heartbeat s)) s in
  let (framer, r) := Framer_appendFrame (cn_framer s) (env_guid env) frame in
  let s := cn_set_framer framer s in
  let channel := f_channel frame in
  match r with
  | FR_violation => cn_emit ConnFault s
  | FR_code FR_PARTIAL => s
  | FR_code _ =>
      Connection_connectionException env SYNTAX_ERROR (str "Cannot decode payload") NO_CLASS NO_METHOD s
  | FR_message received =>
      if (channel =? 0)%Z then
        match received with
        | AM_Method m => Connection_processMethod env m s
        | AM_Heartbeat => cn_set_heartbeat (HeartbeatManager_notifyHeartbeatReceived (cn_heartbeat s)) s
        | _ => Connection_connectionException env NOT_IMPLEMENTED
                 (str "Not implemented non-method frame") NO_CLASS NO_METHOD s
        end
      else
        let (channelExists, s) :=
          ChannelMap_processReceived (CH := Connection_channelHost env) channel received s in
        if channelExists then s
        else Connection_connectionException env CHANNEL_ERROR
               (str "Received Message on unknown channel: " ++ decimal channel) NO_CLASS NO_METHOD s
  end.

(** ** Timers *)

Definition Connection_connectionHung (env : Env) (reason : InterruptReason) (s : Connection)
  : Connection :=
  match reason with
  | EXPIRE => Connection_closeSocket env WILL_RETRY (cn_emit (Metric_published hung_connection_reset) s)
  | CANCEL => s
  end.

Definition Connection_channelHung (env : Env) (s : Connection) : Connection :=
  Connection_closeSocket env WILL_RETRY (cn_emit (Metric_published hung_connection_reset) s).

(** ** Channels *)

Definition Connection_pauseReceiveChannels (env : Env) (respectHostHealth : bool) (s : Connection)
  : Connection :=
  ChannelMap_pauseReceiveChannels (CH := Connection_channelHost env) respectHostHealth
    (cn_set_onOpenState (if respectHostHealth then PAUSED_HOST_HEALTH_AWARE else PAUSED_ON_OPEN) s).

Definition Connection_resumeReceiveChannels (env : Env) (respectHostHealth : bool) (s : Connection)
  : Connection :=
  ChannelMap_resumeReceiveChannels (CH := Connection_channelHost env) respectHostHealth
    (cn_set_onOpenState NOT_PAUSED s).

(** [ChannelFactory::createReceiveChannel]: whether the channel starts paused. *)
Definition channelPausedOnOpen (o : ChannelOnOpenState) (healthAware : bool) : bool :=
  match o with
  | PAUSED_ON_OPEN => true
  | PAUSED_HOST_HEALTH_AWARE => healthAware
  | NOT_PAUSED => false
  end.

(** The common end of [createReceiveChannel] and [createSendChannel]; the result is the
    address of the new channel. *)
Definition open_if_connected (env : Env) (p : ChannelPtr) (s : Connection) : Connection :=
  match cn_state s with
  | CONNECTED => ch_open (ChannelHost := Connection_channelHost env) p s
  | _ => s
  end.

Definition Connection_createReceiveChannel (env : Env) (tp : Topology) (config : ConsumerConfig)
  (healthAware : bool) (s : Connection) : ChannelPtr * Connection :=
  let (channelId, m) := ChannelMap_assignId (cn_channels s) in
  let p := length (cn_objects s) in
  let s := cn_emit (Metric_published (if healthAware then health_aware_consumer_created
                                      else health_unaware_consumer_created)) s in
  let o := OReceive healthAware
             (ReceiveChannel_make tp config (channelPausedOnOpen (cn_onOpenState s) healthAware)) in
  let s := cn_set_objects (cn_objects s ++ [(channelId, o)]) s in
  let s := cn_set_channels (ChannelMap_associateReceive channelId p m) s in
  (p, open_if_connected env p s).

Definition Connection_createSendChannel (env : Env) (tp : Topology) (exchangeName : bytes)
  (s : Connection) : ChannelPtr * Connection :=
  let (channelId, m) := ChannelMap_assignId (cn_channels s) in
  let p := length (cn_objects s) in
  let s := cn_set_objects (cn_objects s ++ [(channelId, OSend (SendChannel_make tp exchangeName))]) s in
  let s := cn_set_channels (ChannelMap_associateSend channelId p m) s in
  (p, open_if_connected env p s).

(** *** Calls on a channel from outside: the application, timers and completion handlers *)

Inductive ObjOp :=
| ObjSend (op : SendOp)
| ObjReceive (op : ReceiveOp).

Definition obj_op (clock : Z → Z) (op : ObjOp) (o : ChannelObj) : ChannelObj :=
  match op, o with
  | ObjSend op, OSend c => OSend (send_op clock op c)
  | ObjReceive op, OReceive a c => OReceive a (receive_op clock op c)
  | _, _ => o
  end.

(** The timer handler of a channel is the only one to call [d_connErrorCb]. *)
Definition hung_call (op : ObjOp) (o : ChannelObj) : bool :=
  match op, o with
  | ObjSend (Send_channel (Op_channelHung false)), OSend _ => true
  | ObjReceive (Recv_channel (Op_channelHung false)), OReceive _ _ => true
  | _, _ => false
  end.

Definition Connection_channelOp (env : Env) (p : ChannelPtr) (op : ObjOp) (s : Connection)
  : Connection :=
  let (hung, s) := chan_call false p (λ o, (hung_call op o, obj_op (env_clock env) op o)) s in
  if hung then Connection_channelHung env s else s.
(** ** The handlers of the socket *)

(** The completion handler of a write. *)
Definition obj_writeComplete (clock : Z → Z) (h : WriteHandler) (o : ChannelObj) : ChannelObj :=
  match h, o with
  | NoopWriteHandler, _ => o
  | OnWriteComplete, OSend c => OSend (Channel_onWriteComplete (H := SendChannel_hooks clock) c)
  | OnWriteComplete, OReceive a c =>
      OReceive a (Channel_onWriteComplete (H := ReceiveChannel_hooks clock) c)
  | RemoveMessagesFromStore tag multiple, OReceive a c =>
      OReceive a (ReceiveChannel_removeMessagesFromStore tag multiple c)
  | RemoveMessagesFromStore _ _, OSend c => OSend c
  end.

Definition run_write_handler (env : Env) (h : ConnWriteHandler) (s : Connection) : Connection :=
  match h with
  | OnWriteState state => Connection_onWriteComplete env state s
  | NoopWriteComplete => s
  | ChannelHandler p h => snd (chan_call () p (λ o, ((), obj_writeComplete (env_clock env) h o)) s)
  end.

(** The end of a handler of the socket: a socket dropped meanwhile is destroyed. *)
Definition release_held (env : Env) (s : Connection) : Connection :=
  let orphan := cn_orphan s in
  let s := cn_set_orphan None (cn_set_held false s) in
  match orphan with Some dcType => Connection_socketShutdown env dcType s | None => s end.

(** What a handler does, the socket being held. *)
Definition in_handler (env : Env) (f : Connection → Connection) (s : Connection) : Connection :=
  release_held env (f (cn_set_held true s)).

(** The socket of the running handler, if [close] was called on it. *)
Definition held_closing (s : Connection) : option DisconnectType :=
  match cn_socket s with Some k => Socket_closing k | None => cn_orphan s end.

(** [doClose] *)
Definition Socket_doClose (env : Env) (rc : SocketRC) (s : Connection) : Connection :=
  let s := match rc, held_closing s with
           | GRACEFUL_DISCONNECT, Some dcType => Connection_socketShutdown env dcType s
           | _, _ => s
           end in
  let s := match cn_socket s with
           | Some k => cn_set_socket (Some (sk_set_state SOCKET_DISCONNECTED k)) s
           | None => cn_set_orphan None s
           end in
  Connection_socketError env rc s.

(** [handleError]; a TLS socket is shut down asynchronously first. *)
Definition Socket_handleError (env : Env) (s : Connection) : Connection :=
  if cfg_secure (cn_config s) then s else Socket_doClose env DISCONNECTED_ERROR s.

Definition is_closing (s : Connection) : bool :=
  match cn_socket s with
  | Some k => bool_decide (sk_state k = SOCKET_CLOSING)
  | None => false
  end.

(** [handleWrite]; the queue of a dropped socket no longer matters. *)
Definition Socket_handleWrite (env : Env) (success : bool) (s : Connection) : Connection :=
  match cn_socket s with
  | None => s
  | Some k =>
      match sk_writeQueue k with
      | [] => s
      | (h, _) :: _ =>
          in_handler env (λ s,
            let s := if success then run_write_handler env h s else Socket_handleError env s in
            match cn_socket s with
            | Some k => cn_set_socket (Some (Socket_popWrite k)) s
            | None => s
            end) s
      end
  end.

(** The frames of a read, in order; [envs i] is what the [i]-th finds. *)
Fixpoint process_frames (envs : nat → Env) (i : nat) (frames : list Frame) (s : Connection)
  : Connection :=
  match frames with
  | [] => s
  | f :: frames' => process_frames envs (S i) frames' (Connection_processNextFrame (envs i) f s)
  end.

(** [handleRead] with [doRead] *)
Definition Socket_handleRead (env : Env) (envs : nat → Env) (data : bytes) (s : Connection)
  : Connection :=
  match cn_socket s with
  | None => s
  | Some k =>
      match Decoder_appendBytes (sk_decoder k) data with
      | None => cn_emit ConnFault s
      | Some (d, frames, rc) =>
          in_handler env (λ s,
            let s := process_frames envs 0 frames s in
            match rc with D_OK => s | _ => Socket_doClose env FRAME_ERROR s end)
            (cn_set_socket (Some (sk_set_decoder d k)) s)
      end
  end.

(** [handleRead] with an error: [handleReadError] *)
Definition Socket_handleReadError (env : Env) (s : Connection) : Connection :=
  match cn_socket s with
  | None => s
  | Some _ =>
      in_handler env (λ s,
        if is_closing s then Socket_doClose env GRACEFUL_DISCONNECT s
        else Socket_handleError env s) s
  end.

(** [handleCloseCb]: the asynchronous TLS shutdown is complete. *)
Definition Socket_handleCloseCb (env : Env) (s : Connection) : Connection :=
  match cn_socket s with
  | None => s
  | Some _ =>
      in_handler env (λ s,
        Socket_doClose env (if is_closing s then GRACEFUL_DISCONNECT else DISCONNECTED_ERROR) s) s
  end.

(** [AsioResolver::handleConnect]: the socket is connected. A socket that was dropped
    meanwhile is no longer there. *)
Definition Resolver_handleConnect (env : Env) (s : Connection) : Connection :=
  match cn_socket s with
  | None => s
  | Some k =>
      let (ok, k) := Socket_markConnected (env_preparedOk env) k in
      let s := cn_set_socket (Some k) s in
      if ok then Connection_connect s else Connection_connectError env s
  end.

(** ** Runs *)

(** What the event loop and the application call. *)
Inductive ConnEvent :=
| Ev_start
| Ev_close
| Ev_connected
| Ev_connectError
| Ev_written (success : bool)
| Ev_read (envs : nat → Env) (data : bytes)
| Ev_readError
| Ev_socketClosed
| Ev_retry
| Ev_tick (reason : InterruptReason)
| Ev_hung (reason : InterruptReason)
| Ev_channel (p : ChannelPtr) (op : ObjOp)
| Ev_createSend (tp : Topology) (exchangeName : bytes)
| Ev_createReceive (tp : Topology) (config : ConsumerConfig) (healthAware : bool)
| Ev_pause (respectHostHealth : bool)
| Ev_resume (respectHostHealth : bool).

Definition conn_event (env : Env) (ev : ConnEvent) (s : Connection) : Connection :=
  match ev with
  | Ev_start => Connection_startFirstConnection env s
  | Ev_close => Connection_close env s
  | Ev_connected => Resolver_handleConnect env s
  | Ev_connectError => Connection_connectError env s
  | Ev_written success => Socket_handleWrite env success s
  | Ev_read envs data => Socket_handleRead env envs data s
  | Ev_readError => Socket_handleReadError env s
  | Ev_socketClosed => Socket_handleCloseCb env s
  | Ev_retry => Connection_retry env s
  | Ev_tick reason => HeartbeatManager_handleTick (HC := Connection_heartbeatCallbacks env) reason s
  | Ev_hung reason => Connection_connectionHung env reason s
  | Ev_channel p op => Connection_channelOp env p op s
  | Ev_createSend tp ex => snd (Connection_createSendChannel env tp ex s)
  | Ev_createReceive tp cfg aware => snd (Connection_createReceiveChannel env tp cfg aware s)
  | Ev_pause b => Connection_pauseReceiveChannels env b s
  | Ev_resume b => Connection_resumeReceiveChannels env b s
  end.

Definition conn_run (evs : list (Env * ConnEvent)) (s : Connection) : Connection :=
  fold_left (λ s e, conn_event e.1 e.2 s) evs s.
End Connection.
