(* ===== verification/ConnectionMoves.v ===== *)
(** * ConnectionMoves: what an event can do to a connection

    Every event of a connection is a sequence of a few kinds of moves ([move]): quiet steps, in
    which channels write and timers tick but the connection's own protocol stands still
    ([quiet]), and the steps of the protocol. The theorems about runs of a connection are
    proved move by move. *)

From Stdlib Require Import ZArith Lia String Strings.Byte.
From stdpp Require Import base tactics list gmap relations.
From S2P Require Import Prelude Constants Wire FieldValue Props Methods Method Frame Message.
From S2P Require Import Framer MessageStore MultipleAck AckQueue Topology Channel SendChannel.
From S2P Require Import ReceiveChannel Heartbeat ChannelMap ClientProperties Socket Connection.

Abbreviation ConnSocket := (Socket ConnWriteHandler DisconnectType).

(** ** Quiet steps *)

(** A handler that does not change the connection's state. *)
Definition quiet_handler (h : ConnWriteHandler) : bool :=
  match h with OnWriteState _ => false | _ => true end.

Definition quiet_effect (e : ConnEffect) : bool :=
  match e with
  | SocketWrite _ h => quiet_handler h
  | TickTimer _ | ConnFault => true
  | _ => false
  end.

(** Only quiet writes were added to the socket's queue. *)
Definition queue_grows (k k' : ConnSocket) : Prop :=
  sk_state k' = sk_state k ∧ sk_shutdown k' = sk_shutdown k ∧ sk_decoder k' = sk_decoder k ∧
  ∃ ws, sk_writeQueue k' = sk_writeQueue k ++ ws ∧ Forall (λ w, quiet_handler w.1 = true) ws.

#[export] Instance queue_grows_preorder : PreOrder queue_grows.
Proof.
  split.
  - intros k. split_and!; try done. exists []. by rewrite app_nil_r.
  - intros k1 k2 k3 (? & ? & ? & w1 & Hw1 & Hq1) (? & ? & ? & w2 & Hw2 & Hq2).
    split_and!; try congruence. exists (w1 ++ w2). rewrite Hw2, Hw1, app_assoc.
    split; [done | by apply Forall_app].
Qed.

Lemma asyncWrite_grows frames h (k : ConnSocket) :
  quiet_handler h = true → queue_grows k (Socket_asyncWrite frames h k).
Proof.
  intros Hh. unfold Socket_asyncWrite, queue_grows. cbn [sk_writeQueue].
  destruct (_ =? 1)%nat.
  - unfold Socket_startNextWrite. cbn [sk_writeQueue].
    destruct (sk_writeQueue k) as [| [? ?] q]; cbn; (split_and!; try done; eexists; split; [done |];
      by repeat constructor).
  - cbn. split_and!; try done. eexists; split; [done |]. by repeat constructor.
Qed.

Section Moves.
Context {E : EpochUtil} {G : GuidUtil} {AS : AckSort}.

Record quiet (s s' : Connection) : Prop := {
  q_config : cn_config s' = cn_config s;
  q_state : cn_state s' = cn_state s;
  q_first : cn_firstConnectCb s' = cn_firstConnectCb s;
  q_closeCb : cn_closeCb s' = cn_closeCb s;
  q_requested : cn_closeRequested s' = cn_closeRequested s;
  q_been : cn_hasBeenConnected s' = cn_hasBeenConnected s;
  q_held : cn_held s' = cn_held s;
  q_orphan : cn_orphan s' = cn_orphan s;
  q_socket : option_Forall2 queue_grows (cn_socket s) (cn_socket s');
  q_trace : ∃ es, cn_trace s' = cn_trace s ++ es ∧ Forall (λ e, quiet_effect e = true) es;
}.

#[global] Instance quiet_preorder : PreOrder quiet.
Proof using.
  split.
  - intros s. split; try done. exists []. by rewrite app_nil_r.
  - intros s1 s2 s3 [] []. split; try congruence; [by etrans |].
    destruct q_trace0 as (e1 & He1 & H1), q_trace1 as (e2 & He2 & H2). exists (e1 ++ e2).
    rewrite He2, He1, app_assoc. split; [done | by apply Forall_app].
Qed.

(** Changes of members that the protocol does not read. *)
Lemma quiet_members s s' :
  cn_config s' = cn_config s → cn_state s' = cn_state s →
  cn_firstConnectCb s' = cn_firstConnectCb s → cn_closeCb s' = cn_closeCb s →
  cn_closeRequested s' = cn_closeRequested s → cn_hasBeenConnected s' = cn_hasBeenConnected s →
  cn_held s' = cn_held s → cn_orphan s' = cn_orphan s → cn_socket s' = cn_socket s →
  cn_trace s' = cn_trace s → quiet s s'.
Proof using.
  intros. split; try done.
  - by replace (cn_socket s') with (cn_socket s).
  - exists []. by rewrite app_nil_r.
Qed.

Lemma quiet_set_heartbeat h s : quiet s (cn_set_heartbeat h s).
Proof using. by apply quiet_members. Qed.
Lemma quiet_set_framer f s : quiet s (cn_set_framer f s).
Proof using. by apply quiet_members. Qed.
Lemma quiet_set_channels m s : quiet s (cn_set_channels m s).
Proof using. by apply quiet_members. Qed.
Lemma quiet_set_objects os s : quiet s (cn_set_objects os s).
Proof using. by apply quiet_members. Qed.
Lemma quiet_set_onOpenState o s : quiet s (cn_set_onOpenState o s).
Proof using. by apply quiet_members. Qed.

Lemma quiet_emit e s : quiet_effect e = true → quiet s (cn_emit e s).
Proof using.
  intros He. split; try done. exists [e]. split; [done | by repeat constructor].
Qed.

Lemma quiet_socket_write frames h k s :
  cn_socket s = Some k → quiet_handler h = true → quiet s (socket_write frames h k s).
Proof using.
  intros Hk Hh. unfold socket_write, cn_notifyMessageSent. etrans; [| apply quiet_set_heartbeat].
  split; try done.
  - cbn. rewrite Hk. constructor. by apply asyncWrite_grows.
  - exists [SocketWrite frames h]. split; [done | by repeat constructor].
Qed.

Lemma quiet_channelSend id m p h s :
  quiet s (Connection_handleAsyncChannelSend id m (ChannelHandler p h) s).
Proof using.
  unfold Connection_handleAsyncChannelSend. destruct (cn_socket s) as [k |] eqn:Hk; [| done].
  destruct (Framer_makeFrames _ _ _) as [[| f fs] |]; [done | by apply quiet_socket_write | by apply quiet_emit].
Qed.

Lemma quiet_route p id ws s : quiet s (route_writes p id ws s).
Proof using.
  unfold route_writes. revert s. induction ws as [| w ws IH]; intros s; cbn; [done |].
  etrans; [apply quiet_channelSend | apply IH].
Qed.

Lemma quiet_chan_call {R} (dflt : R) p f s : quiet s (chan_call dflt p f s).2.
Proof using.
  unfold chan_call. destruct (cn_objects s !! p) as [[id o] |]; [| by apply quiet_emit].
  destruct (f o) as [r o']. cbn. etrans; [apply quiet_set_objects | apply quiet_route].
Qed.

Lemma quiet_notifySent s : quiet s (cn_notifyMessageSent s).
Proof using. apply quiet_set_heartbeat. Qed.

(** *** Operations of the map *)

Section Host.
Context (env : Env).
Lemma quiet_resetAll s : quiet s (ChannelMap_resetAll (CH := Connection_channelHost env) s).
Proof using. apply (resetAll_closed (CH := Connection_channelHost env) quiet quiet_set_channels). intros p s'. apply quiet_chan_call. Qed.

Lemma quiet_openAll s : quiet s (ChannelMap_openAll (CH := Connection_channelHost env) s).
Proof using. apply (openAll_closed (CH := Connection_channelHost env) quiet). intros p s'. apply quiet_chan_call. Qed.

Lemma quiet_processReceived id m s :
  quiet s (ChannelMap_processReceived (CH := Connection_channelHost env) id m s).2.
Proof using.
  apply (map_processReceived_closed (CH := Connection_channelHost env) quiet quiet_set_channels). intros p s'. apply quiet_chan_call.
Qed.

Lemma quiet_pauseAll b s : quiet s (Connection_pauseReceiveChannels env b s).
Proof using.
  etrans; [apply quiet_set_onOpenState |]. apply (pause_closed (CH := Connection_channelHost env) quiet). intros p s'. apply quiet_chan_call.
Qed.

Lemma quiet_resumeAll b s : quiet s (Connection_resumeReceiveChannels env b s).
Proof using.
  etrans; [apply quiet_set_onOpenState |]. apply (resume_closed (CH := Connection_channelHost env) quiet). intros p s'. apply quiet_chan_call.
Qed.
End Host.

Lemma quiet_heartbeat_stop s : quiet s (HeartbeatManager_stop s).
Proof using.
  unfold HeartbeatManager_stop, hb_modify. cbn [hb set_hb tick_timer Connection_heartbeatHost].
  etrans; [| apply quiet_set_heartbeat]. destruct (d_tickTimer _); [by apply quiet_emit | done].
Qed.

Lemma quiet_heartbeat_start t s : quiet s (HeartbeatManager_start t s).
Proof using.
  unfold HeartbeatManager_start, HeartbeatManager_startTickTimer.
  cbn [hb set_hb tick_timer Connection_heartbeatHost].
  etrans; [apply quiet_set_heartbeat | by apply quiet_emit].
Qed.

Lemma quiet_open_if_connected env p s : quiet s (open_if_connected env p s).
Proof using. unfold open_if_connected. destruct (cn_state s); try done. apply quiet_chan_call. Qed.

Lemma quiet_sendHeartbeat s : quiet s (Connection_sendHeartbeat s).
Proof using.
  unfold Connection_sendHeartbeat, Connection_asyncWriteSingleFrame.
  destruct (cn_socket s) eqn:Hk; [by apply quiet_socket_write | done].
Qed.

(** ** The moves *)

(** The states that count as progress of the handshake; they are only entered in a way of
    their own. *)
Definition critical (st : ConnectionState) : bool :=
  match st with
  | PROTOCOL_HEADER_SENT | CONNECTION_STARTOK_SENT | CONNECTION_OPEN_SENT | CONNECTED => true
  | _ => false
  end.

(** The states a [close] or [close-ok] leads to once it is written. *)
Definition closing_write (st : ConnectionState) : bool :=
  match st with
  | CONNECTION_CLOSE_SENT_EXIT | CONNECTION_CLOSE_SENT_RECONNECT | CONNECTION_CLOSEOK_SENT => true
  | _ => false
  end.

(** Effects without a bearing on the protocol. *)
Definition plain_effect (e : ConnEffect) : bool :=
  match e with
  | HungTimerCancel | RetrySuccess | ErrorCallback _ _ | Metric_published _
  | EndpointConnectSuccess | SocketClose _ => true
  | _ => false
  end.

(** Whether the retry handler is to call back: a retry was scheduled since the last attempt
    to connect. *)
Definition armed_step (b : bool) (e : ConnEffect) : bool :=
  match e with ScheduleRetry => true | ResolverConnect _ => false | _ => b end.
Definition retry_armed (s : Connection) : bool := fold_left armed_step (cn_trace s) false.

Inductive move : Connection → Connection → Prop :=
| mv_quiet s s' : quiet s s' → move s s'
| mv_state st s : critical st = false → move s (cn_set_state st s)
| mv_emit e s : plain_effect e = true → move s (cn_emit e s)
| mv_first s :
    cn_firstConnectCb s = true → cn_state s = CONNECTED →
    move s (cn_set_firstConnectCb false (cn_emit (FirstConnectCallback true) s))
| mv_been s : move s (cn_set_hasBeenConnected s)
| mv_held b s : move s (cn_set_held b s)
| mv_orphan o s : move s (cn_set_orphan o s)
| mv_socket k k' s :
    cn_socket s = Some k → sk_writeQueue k' = sk_writeQueue k →
    (sk_state k' = SOCKET_CONNECTING → sk_state k = SOCKET_CONNECTING) →
    move s (cn_set_socket (Some k') s)
| mv_write_close m st s :
    closing_write st = true → move s (writeConnectionMethod m st s)
| mv_header k s :
    cn_socket s = Some k → sk_state k = SOCKET_CONNECTING →
    move s (Connection_connect (cn_set_socket (Some (sk_set_state SOCKET_CONNECTED k)) s))
| mv_startOk s :
    cn_state s = PROTOCOL_HEADER_SENT →
    move s (Connection_sendConnectionStartOk (cn_set_state CONNECTION_START_RECEIVED s))
| mv_tune t s s1 :
    cn_state s = CONNECTION_STARTOK_SENT → quiet (cn_set_state CONNECTION_TUNE_RECEIVED s) s1 →
    move s (Connection_sendConnectionOpen
              (writeConnectionMethod (ConnectionMethod_TuneOk t) CONNECTION_TUNEOK_SENT s1))
| mv_connected s :
    cn_state s = CONNECTION_OPEN_SENT → move s (cn_set_state CONNECTED s)
| mv_complete k st frames q s :
    cn_socket s = Some k → sk_writeQueue k = (OnWriteState st, frames) :: q →
    move s (cn_set_socket (Some (Socket_popWrite k)) (cn_set_state st s))
| mv_pop k s : cn_socket s = Some k → move s (cn_set_socket (Some (Socket_popWrite k)) s)
| mv_shutdown env dc s : move s (Connection_socketShutdown env dc s)
| mv_initiate env s :
    retry_armed s = true → cn_closeRequested s = false → move s (Connection_initiateConnect env s).

Abbreviation moves := (rtc move).

Lemma moves_quiet s s' : quiet s s' → moves s s'.
Proof using. intros. by apply rtc_once, mv_quiet. Qed.

Lemma moves_then_quiet s s1 s' : moves s s1 → quiet s1 s' → moves s s'.
Proof using. intros. etrans; [done | by apply moves_quiet]. Qed.

(** *** Closing *)

Lemma closeSocket_moves env dc s : moves s (Connection_closeSocket env dc s).
Proof using.
  unfold Connection_closeSocket.
  eapply rtc_l; [by apply (mv_state CONNECTION_CLOSED) |].
  destruct (cn_socket _) as [k |] eqn:Hk; [| apply rtc_once, mv_shutdown].
  destruct (Socket_isConnected k) eqn:Hc; [| apply rtc_once, mv_shutdown].
  destruct (Socket_close dc (env_shutdownOk env) k) as [now k'] eqn:Hcl.
  eapply rtc_l; [by apply (mv_emit (SocketClose dc)) |].
  eapply rtc_l; [apply (mv_socket k k'); [exact Hk | |] |].
  - unfold Socket_close in Hcl. destruct (env_shutdownOk env); by injection Hcl as <- <-.
  - unfold Socket_close in Hcl. destruct (env_shutdownOk env); by injection Hcl as <- <-.
  - destruct now; [apply rtc_once, mv_shutdown | done].
Qed.

Lemma sendConnectionClose_moves code text c m s : moves s (Connection_sendConnectionClose code text c m s).
Proof using. apply rtc_once, mv_write_close. by destruct (code =? REPLY_SUCCESS)%Z. Qed.

Lemma connectionException_moves env code text c m s :
  moves s (Connection_connectionException env code text c m s).
Proof using.
  unfold Connection_connectionException.
  destruct (cn_state s); (apply sendConnectionClose_moves || apply closeSocket_moves).
Qed.

(** The application asks for the connection to be closed. *)
Definition request_close (s : Connection) : Connection :=
  cn_set_closeRequested (cn_set_closeCb true s).

Lemma close_moves env s : moves (request_close s) (Connection_close env s).
Proof using.
  unfold Connection_close. fold (request_close s).
  destruct (cn_state _); first [done | apply rtc_once, mv_shutdown | apply sendConnectionClose_moves].
Qed.

(** *** The handshake *)

Lemma tuneOk_moves env t s :
  cn_state s = CONNECTION_STARTOK_SENT →
  moves s (let (ok, s) := Connection_sendConnectionTuneOk env t (cn_set_state CONNECTION_TUNE_RECEIVED s) in
           if ok then Connection_sendConnectionOpen s else s).
Proof using.
  intros Hst. unfold Connection_sendConnectionTuneOk.
  destruct (negotiateTuneParams _ _ _ _) as [[cmax fsize] beat].
  destruct (fsize <? FRAME_MIN_SIZE)%Z.
  - eapply rtc_l; [by apply (mv_state CONNECTION_TUNE_RECEIVED) |].
    etrans; [apply connectionException_moves | by apply rtc_once, mv_emit].
  - destruct (Framer_setMaxFrameSize _ _) as [fr ok]. apply rtc_once, mv_tune; [done |].
    etrans; [apply quiet_heartbeat_start |]. etrans; [apply quiet_set_framer |].
    destruct ok; [done | by apply quiet_emit].
Qed.

Lemma unexpected_moves env st m s s' : unexpected env st m s = Some s' → moves s s'.
Proof using.
  unfold unexpected. case_bool_decide; [done |]. intros [= <-]. apply connectionException_moves.
Qed.

Lemma unexpected_None env st m s : unexpected env st m s = None → cn_state s = st.
Proof using. unfold unexpected. by case_bool_decide. Qed.

Lemma openOk_moves env s : moves s (processOpenOk env s).
Proof using.
  unfold processOpenOk. destruct (unexpected _ _ _ s) eqn:Hu; [by eapply unexpected_moves |].
  apply unexpected_None in Hu. eapply rtc_l; [by apply mv_connected |].
  eapply rtc_l; [by apply (mv_emit HungTimerCancel) |].
  eapply rtc_l; [by apply (mv_emit RetrySuccess) |].
  eapply rtc_l; [apply (mv_emit (Metric_published (if cn_hasBeenConnected s then reconnect_time else connect_time)));
    by destruct (cn_hasBeenConnected s) |].
  eapply rtc_l; [apply mv_been |].
  set (s1 := cn_set_hasBeenConnected _). pose proof (quiet_openAll env s1) as Hq.
  eapply rtc_l; [apply mv_quiet, Hq |].
  assert (Hst : cn_state (ChannelMap_openAll (CH := Connection_channelHost env) s1) = CONNECTED) by
    by rewrite (q_state _ _ Hq).
  destruct (cn_firstConnectCb _) eqn:Hf.
  - eapply rtc_l; [by apply mv_first |]. by apply rtc_once, mv_emit.
  - by apply rtc_once, mv_emit.
Qed.

Lemma connectionMethod_moves env m s : moves s (Connection_processConnectionMethod env m s).
Proof using.
  destruct m; cbn [Connection_processConnectionMethod]; try apply connectionException_moves.
  - done.
  - unfold processStart. destruct (unexpected _ _ _ s) eqn:Hu; [by eapply unexpected_moves |].
    apply rtc_once, mv_startOk. by eapply unexpected_None.
  - unfold processTune. destruct (unexpected _ _ _ s) eqn:Hu; [by eapply unexpected_moves |].
    apply tuneOk_moves. by eapply unexpected_None.
  - apply openOk_moves.
  - unfold processClose. eapply rtc_l; [by apply (mv_state CONNECTION_CLOSE_RECEIVED) |].
    eapply rtc_l; [by apply (mv_write_close (ConnectionMethod_CloseOk mkConnectionCloseOk) CONNECTION_CLOSEOK_SENT) |]. destruct (_ || _); [by apply rtc_once, mv_emit | done].
  - apply closeSocket_moves.
Qed.

Lemma processNextFrame_moves env f s : moves s (Connection_processNextFrame env f s).
Proof using.
  unfold Connection_processNextFrame.
  eapply rtc_l; [apply mv_quiet, (quiet_set_heartbeat (HeartbeatManager_notifyMessageReceived (cn_heartbeat s))) |].
  destruct (Framer_appendFrame _ _ _) as [fr r].
  eapply rtc_l; [apply mv_quiet, (quiet_set_framer fr) |].
  set (s1 := cn_set_framer fr _). clearbody s1.
  destruct r as [m | [] |]; try apply connectionException_moves; try done.
  - destruct (f_channel f =? 0)%Z.
    + destruct m as [| | | meth]; try apply connectionException_moves.
      * apply rtc_once, mv_quiet, quiet_set_heartbeat.
      * destruct meth; try apply connectionException_moves. apply connectionMethod_moves.
    + pose proof (quiet_processReceived env (f_channel f) m s1) as Hq.
      destruct (ChannelMap_processReceived (f_channel f) m s1) as [exists_ s2]. cbn in Hq.
      eapply rtc_l; [by apply mv_quiet |]. destruct exists_; [done | apply connectionException_moves].
  - by apply rtc_once, mv_quiet, quiet_emit.
Qed.

(** *** The handlers of the socket *)

Lemma socketError_moves env rc s : moves s (Connection_socketError env rc s).
Proof using. destruct rc; first [done | apply rtc_once, mv_shutdown]. Qed.

Lemma doClose_moves env rc s : moves s (Socket_doClose env rc s).
Proof using.
  unfold Socket_doClose.
  assert (H1 : moves s (match rc, held_closing s with
    | GRACEFUL_DISCONNECT, Some dc => Connection_socketShutdown env dc s | _, _ => s end)).
  { destruct rc, (held_closing s); first [done | apply rtc_once, mv_shutdown]. }
  etrans; [exact H1 |]. match type of H1 with rtc _ _ ?a => set (s1 := a); clearbody s1 end. clear H1.
  destruct (cn_socket s1) as [k |] eqn:Hk.
  - eapply rtc_l; [by apply (mv_socket k (sk_set_state SOCKET_DISCONNECTED k)) | apply socketError_moves].
  - eapply rtc_l; [apply mv_orphan | apply socketError_moves].
Qed.

Lemma handleError_moves env s : moves s (Socket_handleError env s).
Proof using. unfold Socket_handleError. destruct (cfg_secure _); [done | apply doClose_moves]. Qed.

Lemma in_handler_moves env f s :
  moves (cn_set_held true s) (f (cn_set_held true s)) → moves s (in_handler env f s).
Proof using.
  intros Hf. eapply rtc_l; [apply (mv_held true) |]. etrans; [exact Hf |].
  unfold in_handler, release_held. eapply rtc_l; [apply (mv_held false) |]. eapply rtc_l; [apply (mv_orphan None) |].
  destruct (cn_orphan (f (cn_set_held true s))); [apply rtc_once, mv_shutdown | done].
Qed.

Lemma pop_moves s :
  moves s (match cn_socket s with Some k => cn_set_socket (Some (Socket_popWrite k)) s | None => s end).
Proof using. destruct (cn_socket s) eqn:Hk; [by apply rtc_once, mv_pop | done]. Qed.

Lemma onWriteComplete_eq env st s :
  st ≠ CONNECTION_CLOSEOK_SENT → Connection_onWriteComplete env st s = cn_set_state st s.
Proof using. by destruct st. Qed.

Lemma handleWrite_moves env ok s : moves s (Socket_handleWrite env ok s).
Proof using.
  unfold Socket_handleWrite. destruct (cn_socket s) as [k |] eqn:Hk; [| done].
  destruct (sk_writeQueue k) as [| [h frames] q] eqn:Hq; [done |].
  apply in_handler_moves. set (s1 := cn_set_held true s). cbv beta zeta.
  assert (Hk1 : cn_socket s1 = Some k) by done. clearbody s1. clear Hk s.
  destruct ok; [| etrans; [apply handleError_moves | apply pop_moves]].
  destruct h as [st | | p wh]; cbn [run_write_handler].
  - destruct (decide (st = CONNECTION_CLOSEOK_SENT)) as [-> | Hne].
    + etrans; [| apply pop_moves]. unfold Connection_onWriteComplete.
      eapply rtc_l; [by apply (mv_state CONNECTION_CLOSEOK_SENT) | apply closeSocket_moves].
    + rewrite onWriteComplete_eq by done. cbn [cn_set_state cn_socket]. rewrite Hk1.
      by apply rtc_once, (mv_complete k st frames q).
  - apply pop_moves.
  - etrans; [| apply pop_moves]. apply moves_quiet, quiet_chan_call.
Qed.

Lemma process_frames_moves envs i frames s : moves s (process_frames envs i frames s).
Proof using.
  revert i s. induction frames as [| f frames IH]; intros i s; cbn; [done |].
  etrans; [apply processNextFrame_moves | apply IH].
Qed.

Lemma handleRead_moves env envs data s : moves s (Socket_handleRead env envs data s).
Proof using.
  unfold Socket_handleRead. destruct (cn_socket s) as [k |] eqn:Hk; [| done].
  destruct (Decoder_appendBytes _ _) as [[[d frames] rc] |]; [| by apply moves_quiet, quiet_emit].
  eapply rtc_l; [by apply (mv_socket k (sk_set_decoder d k)) |].
  apply in_handler_moves. cbv zeta. etrans; [apply process_frames_moves |].
  destruct rc; [done | apply doClose_moves..].
Qed.

Lemma handleConnect_moves env s : moves s (Resolver_handleConnect env s).
Proof using.
  unfold Resolver_handleConnect. destruct (cn_socket s) as [k |] eqn:Hk; [| done].
  unfold Socket_markConnected. destruct (sk_state k) eqn:Hs.
  1: destruct (env_preparedOk env); [by apply rtc_once, mv_header |].
  all: (eapply rtc_l; [| apply rtc_once, mv_shutdown]; apply (mv_socket k); [done | done |]; by rewrite ?Hs).
Qed.

(** *** Events *)

Lemma tick_moves env reason s :
  moves s (HeartbeatManager_handleTick (HC := Connection_heartbeatCallbacks env) reason s).
Proof using.
  apply (handleTick_closed moves).
  - intros h s1. apply moves_quiet, quiet_set_heartbeat.
  - intros c s1. by apply moves_quiet, (quiet_emit (TickTimer c)).
  - intros s1. apply moves_quiet, quiet_sendHeartbeat.
  - intros s1. eapply rtc_l; [by apply (mv_emit (Metric_published heartbeat_timeouts)) |].
    apply closeSocket_moves.
Qed.

Lemma channelHung_moves env s : moves s (Connection_channelHung env s).
Proof using. eapply rtc_l; [by apply (mv_emit (Metric_published hung_connection_reset)) | apply closeSocket_moves]. Qed.

Lemma create_quiet env tp ex cfg aware s :
  quiet s (Connection_createSendChannel env tp ex s).2 ∧
  moves s (Connection_createReceiveChannel env tp cfg aware s).2.
Proof using.
  unfold Connection_createSendChannel, Connection_createReceiveChannel.
  destruct (ChannelMap_assignId (cn_channels s)) as [id m]. split; cbn [snd].
  - etrans; [| apply quiet_open_if_connected]. etrans; [apply quiet_set_objects | apply quiet_set_channels].
  - eapply rtc_l; [apply (mv_emit (Metric_published (if aware then health_aware_consumer_created
      else health_unaware_consumer_created))); by destruct aware |]. apply moves_quiet.
    etrans; [| apply quiet_open_if_connected]. etrans; [apply quiet_set_objects | apply quiet_set_channels].
Qed.

(** An event that can happen: the first connection is started once, before everything else,
    and the retry handler only calls back when a retry was scheduled. *)
Definition enabled (ev : ConnEvent) (s : Connection) : bool :=
  match ev with
  | Ev_start => false
  | Ev_retry => retry_armed s
  | _ => true
  end.

(** Where the moves of an event start. *)
Definition event_start (ev : ConnEvent) (s : Connection) : Connection :=
  match ev with Ev_close => request_close s | _ => s end.

Lemma event_moves env ev s :
  enabled ev s = true → moves (event_start ev s) (conn_event env ev s).
Proof using.
  intros He. destruct ev; cbn [conn_event event_start].
  - done.
  - apply close_moves.
  - apply handleConnect_moves.
  - apply rtc_once, mv_shutdown.
  - apply handleWrite_moves.
  - apply handleRead_moves.
  - unfold Socket_handleReadError. destruct (cn_socket s); [| done]. apply in_handler_moves.
    destruct (is_closing _); [apply doClose_moves | apply handleError_moves].
  - unfold Socket_handleCloseCb. destruct (cn_socket s); [| done]. apply in_handler_moves, doClose_moves.
  - unfold Connection_retry. destruct (cn_closeRequested s) eqn:Hc; [done |]. by apply rtc_once, mv_initiate.
  - apply tick_moves.
  - destruct reason; [apply channelHung_moves | done].
  - unfold Connection_channelOp.
    pose proof (quiet_chan_call false p (λ o, (hung_call op o, obj_op (env_clock env) op o)) s) as Hq.
    destruct (chan_call _ _ _ _) as [hung s1]. eapply rtc_l; [by apply mv_quiet |].
    destruct hung; [apply channelHung_moves | done].
  - apply moves_quiet, (create_quiet env tp exchangeName (mkConsumerConfig 0 false None) false).
  - apply (create_quiet env tp []).
  - apply moves_quiet, quiet_pauseAll.
  - apply moves_quiet, quiet_resumeAll.
Qed.

(** ** Reachable connections *)

Inductive reachable (cfg : ConnConfig) : Connection → Prop :=
| RC_start env onOpen :
    reachable cfg (Connection_startFirstConnection env (Connection_make cfg onOpen))
| RC_event env ev s :
    reachable cfg s → enabled ev s = true → reachable cfg (conn_event env ev s).

(** The rule for invariants: they hold after the first connection attempt, and every move keeps
    them. *)
Lemma reachable_ind_moves cfg (P : Connection → Prop) :
  (∀ env onOpen, P (Connection_startFirstConnection env (Connection_make cfg onOpen))) →
  (∀ s, P s → P (request_close s)) →
  (∀ s s', P s → move s s' → P s') →
  ∀ s, reachable cfg s → P s.
Proof using.
  intros Hstart Hreq Hmove s Hr. induction Hr as [env onOpen | env ev s _ IH He]; [apply Hstart |].
  pose proof (event_moves env ev s He) as Hm. clear He.
  assert (IH' : P (event_start ev s)) by (destruct ev; auto). clear IH. rename IH' into IH.
  revert Hm IH. generalize (conn_event env ev s) as s'. generalize (event_start ev s) as s0.
  clear s. intros s s' Hm IH.
  induction Hm as [s | s s1 s' Hm _ IHm]; [done |]. apply IHm. by eapply Hmove.
Qed.
End Moves.
