(* ===== verification/ConnectionProtocol.v ===== *)
(** * ConnectionProtocol: the handshake and the end of a connection

    What every reachable connection writes to the broker to introduce itself, and what
    happens once the application asked for the connection to be closed. *)

From Stdlib Require Import ZArith Lia String Strings.Byte.
From stdpp Require Import base tactics list gmap relations.
From S2P Require Import Prelude Constants Wire FieldValue Props Methods Method Frame Message.
From S2P Require Import Framer MessageStore MultipleAck AckQueue Topology Channel SendChannel.
From S2P Require Import ReceiveChannel Heartbeat ChannelMap ClientProperties Socket Connection.
From S2P Require Import ConnectionMoves.

(** ** What a connection wrote on its current socket *)

(** The states whose handlers belong to the handshake. *)
Definition handshake_state (st : ConnectionState) : bool :=
  match st with
  | PROTOCOL_HEADER_SENT | CONNECTION_STARTOK_SENT | CONNECTION_TUNEOK_SENT | CONNECTION_OPEN_SENT => true
  | _ => false
  end.

(** The effects since the last attempt to connect. *)
Definition session_step (acc : list ConnEffect) (e : ConnEffect) : list ConnEffect :=
  match e with ResolverConnect _ => [] | _ => acc ++ [e] end.
Definition session (es : list ConnEffect) : list ConnEffect := fold_left session_step es [].

Definition handshake_write (e : ConnEffect) : option (list SerializedFrame * ConnectionState) :=
  match e with
  | SocketWrite frames (OnWriteState st) => if handshake_state st then Some (frames, st) else None
  | _ => None
  end.

Definition is_connect (e : ConnEffect) : bool :=
  match e with ResolverConnect _ => true | _ => false end.

(** Effects that are neither a connection attempt nor part of a handshake. *)
Definition silent_effect (e : ConnEffect) : bool :=
  negb (is_connect e) && match handshake_write e with None => true | Some _ => false end.

Lemma session_app es es' :
  Forall (λ e, is_connect e = false) es' → session (es ++ es') = session es ++ es'.
Proof.
  unfold session. rewrite fold_left_app. generalize (fold_left session_step es []) as acc.
  induction es' as [| e es' IH]; intros acc Hf; cbn; [by rewrite app_nil_r |].
  apply Forall_cons in Hf as [He Hf]. rewrite IH by done. destruct e; try done; cbn; by rewrite <- app_assoc.
Qed.

Section Protocol.
Context {E : EpochUtil} {G : GuidUtil} {AS : AckSort}.

Definition handshake (s : Connection) : list (list SerializedFrame * ConnectionState) :=
  omap handshake_write (session (cn_trace s)).

Definition method_frame (m : ConnectionMethod) : list SerializedFrame :=
  [SerializedFrame_of_frame (makeMethodFrame 0 (Method_Connection m))].

(** The client's side of the handshake. *)
Definition full_handshake (cfg : ConnConfig) (tuned : ConnectionTuneOk)
  : list (list SerializedFrame * ConnectionState) :=
  [([SerializedFrame_of_data PROTOCOL_HEADER], PROTOCOL_HEADER_SENT);
   (method_frame (ConnectionMethod_StartOk
      (mkConnectionStartOk (cfg_clientProperties cfg) AUTHENTICATION_MECHANISM
         (cfg_credentials cfg) LOCALE)), CONNECTION_STARTOK_SENT);
   (method_frame (ConnectionMethod_TuneOk tuned), CONNECTION_TUNEOK_SENT);
   (method_frame (ConnectionMethod_Open (mkConnectionOpen (cfg_vhost cfg))), CONNECTION_OPEN_SENT)].

(** ** The invariant *)

(** The states the handlers of queued writes will set. *)
Definition queued_states (k : ConnSocket) : list ConnectionState :=
  omap (λ w, match w.1 with OnWriteState st => Some st | _ => None end) (sk_writeQueue k).

(** The critical states that are current or on their way. *)
Definition tokens (st : ConnectionState) (q : list ConnectionState) : list ConnectionState :=
  filter (λ st, critical st = true) (q ++ [st]).

(** Those that can be after [n] steps of the handshake. *)
Definition live_states (n : nat) : list ConnectionState :=
  match n with
  | 1 => [PROTOCOL_HEADER_SENT]
  | 2 => [CONNECTION_STARTOK_SENT]
  | 4 => [CONNECTION_OPEN_SENT; CONNECTED]
  | _ => []
  end.

Definition phase (n : nat) (st : ConnectionState) (q : list ConnectionState) : Prop :=
  length (tokens st q) ≤ 1 ∧ Forall (λ x, x ∈ live_states n) (tokens st q).

Definition socket_phase (n : nat) (s : Connection) : Prop :=
  match cn_socket s with
  | None => critical (cn_state s) = false
  | Some k => phase n (cn_state s) (queued_states k) ∧ (sk_state k = SOCKET_CONNECTING → n = 0)
  end.

Record protocol_inv (cfg : ConnConfig) (s : Connection) : Prop := {
  pi_config : cn_config s = cfg;
  pi_armed : retry_armed s = true → cn_socket s = None;
  pi_handshake : ∃ tuned n, handshake s = take n (full_handshake cfg tuned) ∧
    n ∈ [0; 1; 2; 4] ∧ socket_phase n s;
}.

(** *** Lemmas on the trace *)

Lemma retry_armed_app s es :
  fold_left armed_step (cn_trace s ++ es) false = fold_left armed_step es (retry_armed s).
Proof using. unfold retry_armed. by rewrite fold_left_app. Qed.

Lemma silent_writes es : Forall (λ e, silent_effect e = true) es → omap handshake_write es = [].
Proof using.
  induction 1 as [| e es He _ IH]; [done |]. cbn. unfold silent_effect in He.
  destruct (handshake_write e); [by rewrite andb_false_r in He | done].
Qed.

Lemma handshake_app s s' es :
  cn_trace s' = cn_trace s ++ es → Forall (λ e, is_connect e = false) es →
  handshake s' = handshake s ++ omap handshake_write es.
Proof using. intros He Hs. unfold handshake. by rewrite He, session_app, omap_app. Qed.

Lemma handshake_silent s s' es :
  cn_trace s' = cn_trace s ++ es → Forall (λ e, silent_effect e = true) es → handshake s' = handshake s.
Proof using.
  intros He Hs. rewrite (handshake_app s s' es He), silent_writes, app_nil_r; [done | done |].
  eapply Forall_impl; [exact Hs |]. intros e. unfold silent_effect. by destruct (is_connect e).
Qed.

(** Effects that do not schedule a retry. *)
Definition no_retry (e : ConnEffect) : bool := match e with ScheduleRetry => false | _ => true end.

Lemma retry_armed_silent s s' es :
  cn_trace s' = cn_trace s ++ es → Forall (λ e, silent_effect e = true ∧ no_retry e = true) es →
  retry_armed s' = retry_armed s.
Proof using.
  intros He Hs. unfold retry_armed at 1. rewrite He, retry_armed_app.
  clear He. generalize (retry_armed s) as b. induction Hs as [| e es' [Hsil Hr] _ IH]; intros b; [done |].
  cbn. rewrite IH. unfold silent_effect in Hsil. by destruct e.
Qed.

Lemma quiet_silent es :
  Forall (λ e, quiet_effect e = true) es →
  Forall (λ e, silent_effect e = true ∧ no_retry e = true) es.
Proof using. intros H. eapply Forall_impl; [exact H |]. intros []; try done. by destruct h. Qed.

Lemma plain_silent e : plain_effect e = true → silent_effect e = true ∧ no_retry e = true.
Proof using. by destruct e. Qed.

(** *** Lemmas on the tokens *)

Lemma phase_sub n st q st' q' :
  tokens st' q' ⊆+ tokens st q → phase n st q → phase n st' q'.
Proof using.
  intros Hs [Hl Hf]. split.
  - apply submseteq_length in Hs. lia.
  - rewrite Forall_forall in *. intros x Hx. apply Hf. by eapply elem_of_submseteq.
Qed.

Lemma tokens_noncritical st q : critical st = false → tokens st q = filter (λ st, critical st = true) q.
Proof using.
  intros Hc. unfold tokens. rewrite filter_app, (filter_cons_False _ st); [apply app_nil_r |].
  by rewrite Hc.
Qed.

Lemma phase_noncritical n st q st' : critical st' = false → phase n st q → phase n st' q.
Proof using.
  intros Hc. apply phase_sub. rewrite tokens_noncritical by done. unfold tokens.
  rewrite filter_app. by apply submseteq_inserts_r.
Qed.

Lemma phase_complete n st st' q : phase n st (st' :: q) → phase n st' q.
Proof using.
  apply phase_sub. unfold tokens. change (st' :: q) with ([st'] ++ q). rewrite !filter_app.
  rewrite (Permutation_app_comm (filter _ q)). by apply submseteq_inserts_r.
Qed.

Lemma phase_pop n st q : phase n st q → phase n st (tail q).
Proof using.
  apply phase_sub. destruct q as [| x q]; [done |]. unfold tokens. cbn [tail app].
  rewrite filter_cons. case_decide; [by apply submseteq_cons | done].
Qed.

Lemma phase_push n st q st' : critical st' = false → phase n st q → phase n st (q ++ [st']).
Proof using.
  intros Hc. apply phase_sub. unfold tokens. rewrite !filter_app.
  rewrite (filter_cons_False _ st'), filter_nil, app_nil_r; [done | by rewrite Hc].
Qed.

(** In a critical state nothing else is on its way. *)
Lemma phase_critical n st q :
  critical st = true → phase n st q → st ∈ live_states n ∧ filter (λ st, critical st = true) q = [].
Proof using.
  intros Hc [Hl Hf]. unfold tokens in *. rewrite filter_app, filter_cons_True, filter_nil in * by done.
  rewrite length_app in Hl. cbn in Hl. apply Forall_app in Hf as [_ Hf]. split; [by inversion Hf |].
  destruct (filter _ q); [done | cbn in Hl; lia].
Qed.

Lemma phase_fresh n st q st' :
  critical st = false → filter (λ st, critical st = true) q = [] → st' ∈ live_states n →
  phase n st (q ++ [st']).
Proof using.
  intros Hc Hq Hin. unfold phase. rewrite tokens_noncritical, filter_app, Hq by done.
  rewrite app_nil_l, filter_cons, filter_nil. case_decide; split; cbn; try lia; by repeat constructor.
Qed.

Lemma phase_start st q : phase 0 st q → critical st = false ∧ filter (λ st, critical st = true) q = [].
Proof using.
  intros [Hl Hf]. cbn in Hf. unfold tokens in Hf. rewrite filter_app in Hf.
  apply Forall_app in Hf as [Hq Hs]. split.
  - destruct (critical st) eqn:Hc; [| done]. rewrite filter_cons_True in Hs by done.
    apply Forall_cons in Hs as [Hs _]. by apply elem_of_nil in Hs.
  - destruct (filter _ q); [done |]. apply Forall_cons in Hq as [Hq _]. by apply elem_of_nil in Hq.
Qed.

(** *** Queues *)

Lemma queued_write frames h k :
  queued_states (Socket_asyncWrite frames h k) =
    queued_states k ++ match h with OnWriteState st => [st] | _ => [] end.
Proof using.
  unfold queued_states, Socket_asyncWrite. cbn [sk_writeQueue].
  assert (Hq : ∀ k : ConnSocket, sk_writeQueue (Socket_startNextWrite k) = sk_writeQueue k).
  { intros [? ? ? [| [? ?] ?] ?]; done. }
  destruct (_ =? 1); rewrite ?Hq; cbn [sk_writeQueue]; rewrite omap_app; by destruct h.
Qed.

Lemma write_state frames h (k : ConnSocket) : sk_state (Socket_asyncWrite frames h k) = sk_state k.
Proof using.
  unfold Socket_asyncWrite. destruct (_ =? 1); [| done].
  unfold Socket_startNextWrite. cbn [sk_writeQueue]. by destruct (sk_writeQueue k) as [| [? ?] ?].
Qed.

Lemma pop_state (k : ConnSocket) : sk_state (Socket_popWrite k) = sk_state k.
Proof using.
  unfold Socket_popWrite. cbn [sk_writeQueue]. destruct (tail (sk_writeQueue k)) as [| [? ?] ?] eqn:Hq; [done |].
  unfold Socket_startNextWrite. cbn [sk_writeQueue]. done.
Qed.

Lemma pop_queue (k : ConnSocket) : sk_writeQueue (Socket_popWrite k) = tail (sk_writeQueue k).
Proof using.
  unfold Socket_popWrite. cbn [sk_writeQueue]. destruct (tail (sk_writeQueue k)) as [| [? ?] ?] eqn:Hq; [done |].
  unfold Socket_startNextWrite. cbn [sk_writeQueue]. done.
Qed.

Lemma phase_pop_queue n st (k : ConnSocket) :
  phase n st (queued_states k) → phase n st (queued_states (Socket_popWrite k)).
Proof using.
  unfold queued_states. rewrite pop_queue. destruct (sk_writeQueue k) as [| [h f] q]; [done |]. cbn.
  destruct h; try done. apply (phase_pop n st (_ :: _)).
Qed.

Lemma queued_grows k k' : queue_grows k k' → queued_states k' = queued_states k.
Proof using.
  intros (_ & _ & _ & ws & Hq & Hw). unfold queued_states. rewrite Hq, omap_app.
  replace (omap _ ws) with (@nil ConnectionState); [by rewrite app_nil_r |].
  clear Hq. induction Hw as [| [h f] ws Hh _ IH]; [done |]. destruct h; [done | exact IH | exact IH].
Qed.

(** ** What every move accounts for *)

Definition closes (es : list ConnEffect) : nat :=
  length (List.filter (λ e, match e with CloseCallback => true | _ => false end) es).
Definition firsts (es : list ConnEffect) : nat :=
  length (List.filter (λ e, match e with FirstConnectCallback _ => true | _ => false end) es).

Lemma closes_app es es' : closes (es ++ es') = closes es + closes es'.
Proof using. unfold closes. by rewrite List.filter_app, length_app. Qed.
Lemma firsts_app es es' : firsts (es ++ es') = firsts es + firsts es'.
Proof using. unfold firsts. by rewrite List.filter_app, length_app. Qed.

(** An effect that may follow the request to close. *)
Definition final_effect (e : ConnEffect) : bool := negb (is_connect e) && no_retry e.

(** The callbacks of the application are called once and then forgotten; after a request to
    close, nothing reconnects. *)
Record accounts (s s' : Connection) : Prop := {
  a_config : cn_config s' = cn_config s;
  a_requested : cn_closeRequested s' = cn_closeRequested s;
  a_trace : ∃ es, cn_trace s' = cn_trace s ++ es ∧
    closes es + Nat.b2n (cn_closeCb s') = Nat.b2n (cn_closeCb s) ∧
    firsts es + Nat.b2n (cn_firstConnectCb s') = Nat.b2n (cn_firstConnectCb s) ∧
    (cn_closeRequested s = true → Forall (λ e, final_effect e = true) es);
}.

#[global] Instance accounts_preorder : PreOrder accounts.
Proof using.
  split.
  - intros s. split; try done. exists []. rewrite app_nil_r. by split_and!.
  - intros s1 s2 s3 [] []. split; try congruence.
    destruct a_trace0 as (e1 & He1 & Hc1 & Hf1 & H1), a_trace1 as (e2 & He2 & Hc2 & Hf2 & H2).
    exists (e1 ++ e2). rewrite He2, He1, app_assoc, closes_app, firsts_app.
    split_and!; [done | lia | lia |]. intros Hr. apply Forall_app. split; [by apply H1 |].
    apply H2. congruence.
Qed.

Lemma accounts_trace s s' es :
  cn_config s' = cn_config s → cn_closeRequested s' = cn_closeRequested s →
  cn_closeCb s' = cn_closeCb s → cn_firstConnectCb s' = cn_firstConnectCb s →
  cn_trace s' = cn_trace s ++ es → closes es = 0 → firsts es = 0 →
  Forall (λ e, final_effect e = true) es → accounts s s'.
Proof using.
  intros ? ? Hc Hf Ht Hc0 Hf0 Hfin. split; try done. exists es. rewrite Hc, Hf, Hc0, Hf0. done.
Qed.

Lemma accounts_quiet s s' : quiet s s' → accounts s s'.
Proof using.
  intros []. destruct q_trace as (es & He & Hq). apply (accounts_trace s s' es); try done.
  1-2: clear He; induction Hq as [| e es' Hqe _ IH]; [done |]; destruct e; try done; apply IH.
  eapply Forall_impl; [exact Hq |]. by intros [].
Qed.

Lemma accounts_members s s' :
  cn_config s' = cn_config s → cn_closeRequested s' = cn_closeRequested s →
  cn_closeCb s' = cn_closeCb s → cn_firstConnectCb s' = cn_firstConnectCb s →
  cn_trace s' = cn_trace s → accounts s s'.
Proof using. intros. apply (accounts_trace s s' []); try done. by rewrite app_nil_r. Qed.

Lemma accounts_emit e s :
  closes [e] = 0 → firsts [e] = 0 → final_effect e = true → accounts s (cn_emit e s).
Proof using. intros. apply (accounts_trace s _ [e]); try done. by repeat constructor. Qed.

(** *** Shutting down *)

(** The effects of a shutdown. *)
Record shut (s s' : Connection) : Prop := {
  sh_accounts : accounts s s';
  sh_silent : ∃ es, cn_trace s' = cn_trace s ++ es ∧ Forall (λ e, silent_effect e = true) es;
}.

#[global] Instance shut_preorder : PreOrder shut.
Proof using.
  split.
  - intros s. split; [done |]. exists []. by rewrite app_nil_r.
  - intros s1 s2 s3 [] []. split; [by etrans |].
    destruct sh_silent0 as (e1 & He1 & H1), sh_silent1 as (e2 & He2 & H2). exists (e1 ++ e2).
    rewrite He2, He1, app_assoc. split; [done | by apply Forall_app].
Qed.

Lemma shut_quiet s s' : quiet s s' → shut s s'.
Proof using.
  intros Hq. split; [by apply accounts_quiet |]. destruct Hq. destruct q_trace as (es & He & Hq).
  exists es. split; [done |]. eapply Forall_impl; [by apply quiet_silent |]. by intros e [].
Qed.

Lemma shut_emit e s :
  closes [e] = 0 → firsts [e] = 0 → final_effect e = true → silent_effect e = true →
  shut s (cn_emit e s).
Proof using.
  intros. split; [by apply accounts_emit |]. exists [e]. split; [done | by repeat constructor].
Qed.

Lemma shut_members s s' :
  cn_config s' = cn_config s → cn_closeRequested s' = cn_closeRequested s →
  cn_closeCb s' = cn_closeCb s → cn_firstConnectCb s' = cn_firstConnectCb s →
  cn_trace s' = cn_trace s → shut s s'.
Proof using.
  intros. split; [by apply accounts_members |]. exists []. by rewrite app_nil_r.
Qed.

Lemma shutdown_begin_shut env s : shut s (shutdown_begin env s) ∧ cn_closeRequested (shutdown_begin env s) = cn_closeRequested s.
Proof using.
  assert (Hs : shut s (shutdown_begin env s)).
  { unfold shutdown_begin. etrans; [| apply shut_quiet, quiet_heartbeat_stop].
    etrans; [| by apply shut_emit]. etrans; [| apply shut_quiet, quiet_set_framer].
    apply shut_quiet, quiet_resetAll. }
  split; [done | apply Hs].
Qed.

Lemma shutdown_end_shut b s :
  (b = true → cn_closeRequested s = false) →
  shut s (shutdown_end b s) ∧ cn_state (shutdown_end b s) = DISCONNECTED ∧
  cn_socket (shutdown_end b s) = cn_socket s ∧ 
  (b = false → cn_closeCb (shutdown_end b s) = false ∧ cn_firstConnectCb (shutdown_end b s) = false).
Proof using.
  intros Hb. unfold shutdown_end. set (s1 := cn_set_state _ _).
  assert (H1 : shut s s1) by (etrans; [by apply (shut_emit (Metric_published disconnect_events)) | by apply shut_members]).
  assert (Hst : cn_state s1 = DISCONNECTED ∧ cn_socket s1 = cn_socket s) by done.
  destruct Hst as [Hst Hk]. assert (Hr : cn_closeRequested s1 = cn_closeRequested s) by done.
  clearbody s1. destruct b.
  - split_and!; try done. etrans; [exact H1 |]. specialize (Hb eq_refl). rewrite <- Hr in Hb.
    split; [split; try done |]; exists [ScheduleRetry; EndpointConnectFailed]; cbn; rewrite <- app_assoc;
      (split_and!; try done); [by rewrite Hb | by repeat constructor].
  - set (s2 := if cn_firstConnectCb s1 then _ else s1).
    assert (H2 : shut s1 s2).
    { unfold s2. destruct (cn_firstConnectCb s1) eqn:Hf; [| done].
      split; [split; try done |]; exists [FirstConnectCallback false]; cbn; rewrite ?Hf;
        (split_and!; try done); intros; by repeat constructor. }
    assert (Hst2 : cn_state s2 = DISCONNECTED ∧ cn_socket s2 = cn_socket s1 ∧ cn_firstConnectCb s2 = false) by
      (unfold s2; by destruct (cn_firstConnectCb s1) eqn:Hf).
    destruct Hst2 as (Hst2 & Hk2 & Hf2). clearbody s2.
    destruct (cn_closeCb s2) eqn:Hc; [| split_and!; try done; [by etrans; [exact H1 |] | congruence]].
    split_and!; try done; [| cbn; congruence].
    etrans; [exact H1 |]. etrans; [exact H2 |].
    split; [split; try done |]; exists [CloseCallback]; cbn; rewrite ?Hc;
      (split_and!; try done); intros; by repeat constructor.
Qed.

Lemma will_retry_requested dc s : will_retry dc s = true → cn_closeRequested s = false.
Proof using. unfold will_retry. intros [_ H]%andb_true_iff. by apply negb_true_iff. Qed.

Lemma release_socket_shut s :
  let (again, s') := release_socket s in shut s s' ∧ cn_socket s' = None ∧ cn_closeRequested s' = cn_closeRequested s.
Proof using.
  unfold release_socket. change (cn_held (cn_set_socket None s)) with (cn_held s).
  destruct (cn_socket s) eqn:Hk; [destruct (cn_held s) |]; cbv beta iota zeta;
    (split_and!; [| done | done]); [by apply shut_members.. | done].
Qed.

Lemma shutdown_alone_shut env dc s :
  cn_socket s = None →
  shut s (shutdown_alone env dc s) ∧ cn_socket (shutdown_alone env dc s) = None.
Proof using.
  intros Hk. unfold shutdown_alone. destruct (shutdown_begin_shut env s) as [H1 Hr].
  destruct (shutdown_end_shut (will_retry dc s) (shutdown_begin env s)) as (H2 & _ & Hk2 & _).
  { intros Hw%will_retry_requested. congruence. }
  split; [by etrans |]. rewrite Hk2.
  assert (Hn : ∀ s s', quiet s s' → cn_socket s = None → cn_socket s' = None).
  { intros s1 s2 [] Hs. rewrite Hs in q_socket. by inversion q_socket. }
  unfold shutdown_begin. eapply Hn; [apply quiet_heartbeat_stop |]. cbn.
  by eapply Hn; [apply quiet_resetAll |].
Qed.

Lemma socketShutdown_shut env dc s :
  let s' := Connection_socketShutdown env dc s in
  shut s s' ∧ cn_state s' = DISCONNECTED ∧ cn_socket s' = None ∧
  (cn_closeRequested s = true → cn_closeCb s' = false ∧ cn_firstConnectCb s' = false).
Proof using.
  cbv zeta. unfold Connection_socketShutdown. destruct (shutdown_begin_shut env s) as [H1 Hr1].
  pose proof (release_socket_shut (shutdown_begin env s)) as H2.
  destruct (release_socket (shutdown_begin env s)) as [again s2]. destruct H2 as (H2 & Hk2 & Hr2).
  set (s3 := match again with Some _ => _ | None => s2 end).
  assert (H3 : shut s2 s3 ∧ cn_socket s3 = None).
  { unfold s3. destruct again; [by apply shutdown_alone_shut | done]. }
  destruct H3 as [H3 Hk3]. assert (Hr3 : cn_closeRequested s3 = cn_closeRequested s2) by apply H3.
  clearbody s3.
  destruct (shutdown_end_shut (will_retry dc s) s3) as (H4 & Hst & Hk4 & Hc).
  { intros Hw%will_retry_requested. congruence. }
  split_and!; [| done | congruence |].
  - etrans; [exact H1 |]. etrans; [exact H2 |]. by etrans.
  - intros Hreq. apply Hc. unfold will_retry. by rewrite Hreq, andb_false_r.
Qed.
(** *** Writing on the connection's own channel *)

Lemma write_facts frames h k s :
  cn_socket s = Some k →
  let s' := socket_write frames h k s in
  cn_config s' = cn_config s ∧ cn_state s' = cn_state s ∧
  cn_closeRequested s' = cn_closeRequested s ∧ cn_closeCb s' = cn_closeCb s ∧
  cn_firstConnectCb s' = cn_firstConnectCb s ∧
  cn_trace s' = cn_trace s ++ [SocketWrite frames h] ∧
  cn_socket s' = Some (Socket_asyncWrite frames h k).
Proof using. done. Qed.

Lemma writeMethod_eq m st s :
  writeConnectionMethod m st s =
    match cn_socket s with None => s | Some k => socket_write (method_frame m) (OnWriteState st) k s end.
Proof using. done. Qed.

Lemma accounts_write frames h k s : cn_socket s = Some k → accounts s (socket_write frames h k s).
Proof using.
  intros Hk. apply (accounts_trace s _ [SocketWrite frames h]); try done. by repeat constructor.
Qed.

Lemma accounts_writeMethod m st s : accounts s (writeConnectionMethod m st s).
Proof using. rewrite writeMethod_eq. destruct (cn_socket s) eqn:Hk; [by apply accounts_write | done]. Qed.

Lemma accounts_set_state st s : accounts s (cn_set_state st s).
Proof using. by apply accounts_members. Qed.
Lemma accounts_set_socket k s : accounts s (cn_set_socket k s).
Proof using. by apply accounts_members. Qed.

Lemma initiate_facts env s :
  let s' := Connection_initiateConnect env s in
  (cn_closeRequested s = false → accounts s s') ∧
  cn_config s' = cn_config s ∧
  ∃ es, cn_trace s' = cn_trace s ++ HungTimerStart :: ResolverConnect (cfg_secure (cn_config s)) :: es ∧
    Forall (λ e, silent_effect e = true) es ∧
    ((cn_socket s' = Some (Socket_make Frame_MAX_FRAME_SIZE) ∧ cn_state s' = cn_state s ∧ es = []) ∨
     (cn_socket s' = None ∧ cn_state s' = DISCONNECTED)).
Proof using.
  cbv zeta. unfold Connection_initiateConnect. generalize Frame_MAX_FRAME_SIZE as mx. intros mx. set (secure := cfg_secure (cn_config s)).
  set (s1 := cn_emit (ResolverConnect secure) (cn_emit HungTimerStart s)).
  assert (H1 : cn_closeRequested s = false → accounts s s1).
  { intros Hr. split; try done. exists [HungTimerStart; ResolverConnect secure]. cbn.
    rewrite <- app_assoc. split_and!; try done. by rewrite Hr. }
  assert (Ht : cn_trace s1 = cn_trace s ++ [HungTimerStart; ResolverConnect secure]) by
    (cbn; by rewrite <- app_assoc).
  destruct (secure && negb (env_tlsOk env)).
  - unfold Connection_connectError.
    destruct (socketShutdown_shut env WILL_RETRY s1) as ([Ha (es & He & Hs)] & Hst & Hk & _).
    split_and!.
    + intros Hr. etrans; [by apply H1 |]. etrans; [exact Ha | apply accounts_set_socket].
    + cbn. by rewrite (a_config _ _ Ha).
    + exists es. cbn. rewrite He, Ht, <- app_assoc. split_and!; try done. by right.
  - split_and!; [intros Hr; etrans; [by apply H1 | apply accounts_set_socket] | done |].
    exists []. split_and!; [by rewrite <- Ht | done | by left].
Qed.

(** A new attempt to connect starts a new session. *)
Lemma handshake_connect s secure tr es :
  cn_trace s = tr ++ HungTimerStart :: ResolverConnect secure :: es →
  Forall (λ e, silent_effect e = true) es → handshake s = [].
Proof using.
  intros He Hs. unfold handshake, session. rewrite He, fold_left_app. cbn [fold_left session_step].
  change (fold_left session_step es []) with (session ([] ++ es)). rewrite session_app; [by apply silent_writes |].
  eapply Forall_impl; [exact Hs |]. intros e. unfold silent_effect. by destruct (is_connect e).
Qed.

(** A new socket has nothing on its way. *)
Lemma phase_new st : critical st = false → phase 0 st (queued_states (Socket_make Frame_MAX_FRAME_SIZE)).
Proof using.
  intros Hc. change (queued_states (Socket_make Frame_MAX_FRAME_SIZE)) with (@nil ConnectionState).
  unfold phase. rewrite tokens_noncritical by done. split; [cbn; lia | constructor].
Qed.

(** Every move accounts for the callbacks. *)
Lemma move_accounts s s' : move s s' → accounts s s'.
Proof using.
  intros Hm. destruct Hm as
    [s s' Hq | st s _ | e s He | s Hf _ | s | b s | o s | k k' s _ _ _ | m st s _ | k s Hk _ | s _
     | t s s1 _ Hq | s _ | k st fs q s _ _ | k s _ | env dc s | env s _ Hr].
  - by apply accounts_quiet.
  - apply accounts_set_state.
  - by apply accounts_emit; destruct e.
  - split; try done. exists [FirstConnectCallback true]. cbn. rewrite Hf. split_and!; try done.
    intros _. by repeat constructor.
  - by apply accounts_members.
  - by apply accounts_members.
  - by apply accounts_members.
  - apply accounts_set_socket.
  - apply accounts_writeMethod.
  - etrans; [apply accounts_set_socket |]. unfold Connection_connect, Connection_asyncWriteSingleFrame.
    cbn [cn_socket cn_set_socket]. by apply accounts_write.
  - etrans; [apply accounts_set_state | apply accounts_writeMethod].
  - etrans; [apply accounts_set_state |]. etrans; [by apply accounts_quiet |].
    etrans; apply accounts_writeMethod.
  - apply accounts_set_state.
  - etrans; [apply accounts_set_state | apply accounts_set_socket].
  - apply accounts_set_socket.
  - apply socketShutdown_shut.
  - by apply initiate_facts.
Qed.

Lemma moves_accounts s s' : rtc move s s' → accounts s s'.
Proof using. induction 1 as [s | s s1 s' Hm _ IH]; [done |]. etrans; [by apply move_accounts | exact IH]. Qed.

(** *** Every move keeps the invariant *)

(** A step that leaves the handshake as it is. *)
Lemma protocol_inv_step cfg s s' es :
  protocol_inv cfg s →
  cn_config s' = cn_config s → cn_trace s' = cn_trace s ++ es →
  Forall (λ e, silent_effect e = true) es →
  (retry_armed s' = true → cn_socket s' = None) →
  (∀ n, n ∈ [0; 1; 2; 4] → socket_phase n s → socket_phase n s') →
  protocol_inv cfg s'.
Proof using.
  intros [Hc Ha (t & n & Hh & Hn & Hp)] Hc' Ht Hs Ha' Hp'. split; [congruence | done |].
  exists t, n. rewrite (handshake_silent s s' es) by done. split_and!; [done | done | by apply Hp'].
Qed.

(** The same when the socket stays and nothing schedules a retry. *)
Lemma protocol_inv_still cfg s s' es :
  protocol_inv cfg s →
  cn_config s' = cn_config s → cn_trace s' = cn_trace s ++ es →
  Forall (λ e, silent_effect e = true ∧ no_retry e = true) es →
  (cn_socket s = None → cn_socket s' = None) →
  (∀ n, n ∈ [0; 1; 2; 4] → socket_phase n s → socket_phase n s') →
  protocol_inv cfg s'.
Proof using.
  intros Hi Hc Ht Hs Hk Hp. apply (protocol_inv_step cfg s s' es); try done.
  - eapply Forall_impl; [exact Hs |]. by intros e [].
  - rewrite (retry_armed_silent s s' es) by done. intros Har. by apply Hk, Hi.
Qed.

Lemma protocol_inv_members cfg s s' :
  protocol_inv cfg s →
  cn_config s' = cn_config s → cn_trace s' = cn_trace s → cn_socket s' = cn_socket s →
  cn_state s' = cn_state s → protocol_inv cfg s'.
Proof using.
  intros Hi Hc Ht Hk Hst. apply (protocol_inv_still cfg s s' []); try done.
  - by rewrite app_nil_r.
  - congruence.
  - intros n _. unfold socket_phase. by rewrite Hk, Hst.
Qed.

(** A step of the handshake, from [n] to [n'] writes. *)
Lemma protocol_inv_advance cfg s s' es n t t' n' k' :
  protocol_inv cfg s →
  handshake s = take n (full_handshake cfg t) →
  cn_config s' = cn_config s → cn_trace s' = cn_trace s ++ es →
  Forall (λ e, is_connect e = false) es →
  take n (full_handshake cfg t) ++ omap handshake_write es = take n' (full_handshake cfg t') →
  n' ∈ [0; 1; 2; 4] → cn_socket s' = Some k' → cn_socket s ≠ None →
  fold_left armed_step es false = false →
  phase n' (cn_state s') (queued_states k') → sk_state k' ≠ SOCKET_CONNECTING →
  protocol_inv cfg s'.
Proof using.
  intros [Hc Ha _] Hh Hc' Ht Hs Hw Hn Hk Hks Har Hp Hsk. split; [congruence | |].
  - destruct (retry_armed s) eqn:Hr; [by rewrite Ha in Hks |].
    unfold retry_armed at 1. rewrite Ht, retry_armed_app, Hr, Har. done.
  - exists t', n'. rewrite (handshake_app s s' es), Hh by done. split_and!; [done | done |].
    unfold socket_phase. rewrite Hk. split; [done |]. by intros ?.
Qed.

(** Which step a critical state stands for. *)
Lemma critical_step n st q x :
  n ∈ [0; 1; 2; 4] → phase n st q → st = x → critical x = true →
  match x with
  | PROTOCOL_HEADER_SENT => n = 1 | CONNECTION_STARTOK_SENT => n = 2 | _ => n = 4
  end ∧ filter (λ st, critical st = true) q = [].
Proof using.
  intros Hn Hp -> Hc. destruct (phase_critical _ _ _ Hc Hp) as [Hl Hq]. split; [| done].
  repeat (apply elem_of_cons in Hn as [-> | Hn]); try by apply elem_of_nil in Hn.
  all: repeat (apply elem_of_cons in Hl as [-> | Hl]); try by apply elem_of_nil in Hl.
  all: done.
Qed.

(** In a critical state there is a socket, and the phase is known. *)
Lemma critical_socket cfg s x :
  protocol_inv cfg s → cn_state s = x → critical x = true →
  ∃ k t n, cn_socket s = Some k ∧ handshake s = take n (full_handshake cfg t) ∧
    match x with
    | PROTOCOL_HEADER_SENT => n = 1 | CONNECTION_STARTOK_SENT => n = 2 | _ => n = 4
    end ∧ filter (λ st, critical st = true) (queued_states k) = [] ∧ sk_state k ≠ SOCKET_CONNECTING.
Proof using.
  intros [_ _ (t & n & Hh & Hn & Hp)] Hst Hc. unfold socket_phase in Hp.
  destruct (cn_socket s) as [k |] eqn:Hk; [| congruence]. destruct Hp as [Hp Hsk].
  destruct (critical_step _ _ _ x Hn Hp Hst Hc) as [Hx Hq]. exists k, t, n. split_and!; try done.
  intros Hcon. specialize (Hsk Hcon) as ->. by destruct x.
Qed.

Lemma move_startOk cfg s :
  protocol_inv cfg s → cn_state s = PROTOCOL_HEADER_SENT →
  protocol_inv cfg (Connection_sendConnectionStartOk (cn_set_state CONNECTION_START_RECEIVED s)).
Proof using.
  intros Hi Hst. destruct (critical_socket cfg s _ Hi Hst) as (k & t & n & Hk & Hh & -> & Hq & Hsk); [done |].
  unfold Connection_sendConnectionStartOk. rewrite writeMethod_eq. cbn [cn_socket cn_set_state]. rewrite Hk.
  set (m := ConnectionMethod_StartOk _).
  eapply (protocol_inv_advance cfg s _ [SocketWrite (method_frame m) (OnWriteState CONNECTION_STARTOK_SENT)]
            1 t t 2); try done.
  - by repeat constructor.
  - cbn. unfold m. cbn. by rewrite (pi_config _ _ Hi).
  - by right; right; left.
  - congruence.
  - rewrite queued_write. apply phase_fresh; [done | done | by left].
  - by rewrite write_state.
Qed.

Lemma move_tune cfg t s s1 :
  protocol_inv cfg s → cn_state s = CONNECTION_STARTOK_SENT →
  quiet (cn_set_state CONNECTION_TUNE_RECEIVED s) s1 →
  protocol_inv cfg (Connection_sendConnectionOpen
    (writeConnectionMethod (ConnectionMethod_TuneOk t) CONNECTION_TUNEOK_SENT s1)).
Proof using.
  intros Hi Hst Hq. destruct (critical_socket cfg s _ Hi Hst) as (k & t0 & n & Hk & Hh & -> & Hc & Hsk); [done |].
  destruct Hq. destruct q_trace as (es & He & Hqe). cbn in q_config, q_state, q_socket, He.
  rewrite Hk in q_socket. inversion q_socket as [? k1 Hg Hk0 Hk1 |]; subst.
  unfold Connection_sendConnectionOpen. rewrite (writeMethod_eq _ _ s1), <- Hk1.
  set (s2 := socket_write _ _ k1 s1). rewrite writeMethod_eq.
  destruct (write_facts (method_frame (ConnectionMethod_TuneOk t)) (OnWriteState CONNECTION_TUNEOK_SENT) k1 s1)
    as (Hcf & Hs2 & _ & _ & _ & Ht2 & Hk2); [done |]. fold s2 in Hcf, Hs2, Ht2, Hk2. rewrite Hk2.
  set (m := ConnectionMethod_Open _).
  destruct (write_facts (method_frame m) (OnWriteState CONNECTION_OPEN_SENT) _ s2 Hk2)
    as (Hcf3 & Hs3 & _ & _ & _ & Ht3 & Hk3). set (s3 := socket_write _ _ _ s2) in *.
  eapply (protocol_inv_advance cfg s s3 (es ++ [SocketWrite (method_frame (ConnectionMethod_TuneOk t))
    (OnWriteState CONNECTION_TUNEOK_SENT)] ++ [SocketWrite (method_frame m) (OnWriteState CONNECTION_OPEN_SENT)])
    2 t0 t 4); try done.
  - by rewrite Ht3, Ht2, He, <- !app_assoc.
  - apply Forall_app. split; [| by repeat constructor].
    eapply Forall_impl; [exact Hqe |]. by intros [].
  - rewrite omap_app, silent_writes.
    + cbn. unfold m. rewrite Hcf, q_config, (pi_config _ _ Hi). done.
    + eapply Forall_impl; [by apply quiet_silent |]. by intros e [].
  - by right; right; right; left.
  - congruence.
  - rewrite fold_left_app. cbn. clear -Hqe. induction Hqe as [| e es' Hqe _ IH]; [done |].
    by destruct e.
  - rewrite Hs3, Hs2, q_state, !queued_write, (queued_grows _ _ Hg).
    apply phase_fresh; [done | | by left]. by rewrite filter_app, Hc.
  - rewrite !write_state. by destruct Hg as (-> & _).
Qed.

Lemma move_header cfg k s :
  protocol_inv cfg s → cn_socket s = Some k → sk_state k = SOCKET_CONNECTING →
  protocol_inv cfg (Connection_connect (cn_set_socket (Some (sk_set_state SOCKET_CONNECTED k)) s)).
Proof using.
  intros Hi Hk Hsk. pose proof Hi as [_ _ (t & n & Hh & Hn & Hp)]. unfold socket_phase in Hp. rewrite Hk in Hp.
  destruct Hp as [Hp H0]. specialize (H0 Hsk) as ->. destruct (phase_start _ _ Hp) as [Hc Hq].
  unfold Connection_connect, Connection_asyncWriteSingleFrame. cbn [cn_socket cn_set_socket].
  eapply (protocol_inv_advance cfg s _ [SocketWrite [SerializedFrame_of_data PROTOCOL_HEADER]
    (OnWriteState PROTOCOL_HEADER_SENT)] 0 t t 1); try done.
  - by repeat constructor.
  - by right; left.
  - congruence.
  - rewrite queued_write. apply phase_fresh; [done | done | by left].
  - by rewrite write_state.
Qed.

Lemma move_connected cfg s :
  protocol_inv cfg s → cn_state s = CONNECTION_OPEN_SENT → protocol_inv cfg (cn_set_state CONNECTED s).
Proof using.
  intros Hi Hst. destruct (critical_socket cfg s _ Hi Hst) as (k & t & n & Hk & Hh & -> & Hc & Hsk); [done |].
  destruct Hi as [Hcf Ha _]. split; [done | done |]. exists t, 4. split_and!; [done | by right; right; right; left |].
  unfold socket_phase. cbn. rewrite Hk. split; [| done]. unfold phase, tokens.
  rewrite filter_app, Hc, app_nil_l, filter_cons_True, filter_nil by done.
  split; [cbn; lia |]. repeat constructor.
Qed.

(** The rest of the moves. *)
Lemma move_protocol cfg s s' : protocol_inv cfg s → move s s' → protocol_inv cfg s'.
Proof using.
  intros Hi Hm. destruct Hm as
    [s s' Hq | st s Hst | e s He | s Hf _ | s | b s | o s | k k' s Hk Hqu Hs | m st s Hst | k s Hk Hs | s Hst
     | t s s1 Hst Hq | s Hst | k st fs q s Hk Hqu | k s Hk | env dc s | env s Har Hr].
  - destruct Hq. destruct q_trace as (es & He & Hqe).
    apply (protocol_inv_still cfg s s' es); try done; [by apply quiet_silent | |].
    + intros Hk. rewrite Hk in q_socket. by inversion q_socket.
    + intros n _. unfold socket_phase. rewrite q_state. destruct q_socket as [k k' Hg |]; [| done].
      rewrite (queued_grows _ _ Hg). by destruct Hg as (-> & _).
  - apply (protocol_inv_still cfg s _ []); try done; [by rewrite app_nil_r |].
    intros n _. unfold socket_phase. cbn. destruct (cn_socket s); [| done].
    intros [Hp ?]. split; [by apply (phase_noncritical n (cn_state s)) | done].
  - apply (protocol_inv_still cfg s _ [e]); try done.
    apply Forall_singleton. by apply plain_silent.
  - apply (protocol_inv_still cfg s _ [FirstConnectCallback true]); try done. by repeat constructor.
  - by apply (protocol_inv_members cfg s).
  - by apply (protocol_inv_members cfg s).
  - by apply (protocol_inv_members cfg s).
  - apply (protocol_inv_still cfg s _ []); try done; [by rewrite app_nil_r | congruence |].
    intros n _. unfold socket_phase. cbn. rewrite Hk. unfold queued_states. rewrite Hqu.
    intros [? ?]. split; [done | auto].
  - rewrite writeMethod_eq. destruct (cn_socket s) as [k |] eqn:Hk; [| done].
    apply (protocol_inv_still cfg s _ [SocketWrite (method_frame m) (OnWriteState st)]); try done;
      [by destruct st; repeat constructor | congruence |].
    intros n _. unfold socket_phase. cbn. rewrite Hk, queued_write, write_state.
    intros [Hp ?]. split; [| done]. apply phase_push; [by destruct st | done].
  - by apply move_header.
  - by apply move_startOk.
  - by eapply move_tune.
  - by apply move_connected.
  - apply (protocol_inv_still cfg s _ []); try done; [by rewrite app_nil_r | congruence |].
    intros n _. unfold socket_phase. cbn. rewrite Hk. unfold queued_states. rewrite pop_state, pop_queue, Hqu. cbn.
    intros [Hp ?]. split; [by apply (phase_complete n (cn_state s)) | done].
  - apply (protocol_inv_still cfg s _ []); try done; [by rewrite app_nil_r | congruence |].
    intros n _. unfold socket_phase. cbn. rewrite Hk, pop_state. intros [Hp ?]. split; [| done].
    by apply phase_pop_queue.
  - destruct (socketShutdown_shut env dc s) as ([Ha (es & He & Hs)] & Hst & Hk & _).
    apply (protocol_inv_step cfg s _ es); try done; [apply Ha |].
    intros n _ _. unfold socket_phase. by rewrite Hk, Hst.
  - destruct (initiate_facts env s) as (_ & Hc & es & He & Hs & Hcase).
    pose proof Hi as [Hcf Ha (t & n & _ & _ & Hp)]. specialize (Ha Har). unfold socket_phase in Hp. rewrite Ha in Hp.
    set (s' := Connection_initiateConnect env s) in *. clearbody s'.
    assert (Hh : handshake s' = take 0 (full_handshake cfg t)) by by eapply handshake_connect.
    split; [congruence | |].
    + destruct Hcase as [(Hk & _ & ->) | [Hk _]]; [| done]. unfold retry_armed. by rewrite He, fold_left_app.
    + exists t, 0. split_and!; [done | by left |]. unfold socket_phase.
      destruct Hcase as [(Hk & -> & _) | [Hk ->]]; rewrite Hk; [| done]. split; [| done].
      by apply phase_new.
Qed.

Lemma reachable_protocol cfg s : reachable cfg s → protocol_inv cfg s.
Proof using.
  revert s. apply reachable_ind_moves.
  - intros env onOpen. unfold Connection_startFirstConnection.
    set (s0 := cn_set_firstConnectCb true (Connection_make cfg onOpen)).
    destruct (initiate_facts env s0) as (_ & Hc & es & He & Hs & Hcase).
    set (s' := Connection_initiateConnect env s0) in *. clearbody s'.
    assert (Hh : handshake s' = []) by by eapply handshake_connect.
    split; [done | |].
    + destruct Hcase as [(Hk & _ & ->) | [Hk _]]; [| done]. unfold retry_armed. by rewrite He.
    + exists (mkConnectionTuneOk 0 0 0), 0. split_and!; [done | by left |]. unfold socket_phase.
      destruct Hcase as [(Hk & -> & _) | [Hk ->]]; rewrite Hk; [| done]. split; [| done].
      by apply phase_new.
  - intros s Hi. by apply (protocol_inv_members cfg s).
  - intros s s' Hi Hm. by eapply move_protocol.
Qed.

(** ** After a request to close *)

(** Once the socket is gone, the application was told. *)
Record told (s : Connection) : Prop := {
  td_requested : cn_closeRequested s = true;
  td_gone : cn_socket s = None → cn_closeCb s = false ∧ cn_firstConnectCb s = false;
}.

Lemma told_still s s' :
  told s → cn_closeRequested s' = cn_closeRequested s → cn_closeCb s' = cn_closeCb s →
  cn_firstConnectCb s' = cn_firstConnectCb s → (cn_socket s' = None → cn_socket s = None) → told s'.
Proof using. intros [Hr Hg] H1 H2 H3 H4. split; [congruence |]. intros Hk. rewrite H2, H3. auto. Qed.

Lemma told_writeMethod m st s : told s → told (writeConnectionMethod m st s).
Proof using.
  intros Ht. rewrite writeMethod_eq. destruct (cn_socket s) eqn:Hk; [| done].
  by apply (told_still s).
Qed.

Lemma told_quiet s s' : told s → quiet s s' → told s'.
Proof using.
  intros Ht []. apply (told_still s); try done. intros Hk. rewrite Hk in q_socket. by inversion q_socket.
Qed.

Lemma told_shutdown env dc s : cn_closeRequested s = true → told (Connection_socketShutdown env dc s).
Proof using.
  intros Hr. destruct (socketShutdown_shut env dc s) as ([Ha _] & _ & Hk & Hc).
  split; [by rewrite (a_requested _ _ Ha) |]. intros _. by apply Hc.
Qed.

Lemma move_told s s' : told s → move s s' → told s'.
Proof using.
  intros Ht Hm. destruct Hm as
    [s s' Hq | st s _ | e s _ | s Hf _ | s | b s | o s | k k' s _ _ _ | m st s _ | k s _ _ | s _
     | t s s1 _ Hq | s _ | k st fs q s _ _ | k s _ | env dc s | env s _ Hr];
    try (by apply (told_still s)).
  - by eapply told_quiet.
  - destruct Ht as [Hr Hg]. split; [done |]. intros Hk. destruct (Hg Hk). congruence.
  - by apply told_writeMethod.
  - apply told_writeMethod. by apply (told_still s).
  - do 2 apply told_writeMethod. eapply told_quiet; [| exact Hq]. by apply (told_still s).
  - apply told_shutdown, Ht.
  - destruct Ht. congruence.
Qed.

Lemma moves_told s s' : told s → rtc move s s' → told s'.
Proof using. intros Ht Hm. induction Hm as [s | s s1 s' Hm _ IH]; [done |]. apply IH. by eapply move_told. Qed.

Lemma close_told env s :
  (cn_socket s = None → cn_state s = DISCONNECTED) → told (Connection_close env s).
Proof using.
  intros Hn. unfold Connection_close. fold (request_close s).
  assert (Hs : cn_socket s ≠ None → told (request_close s)) by (intros Hk; by split).
  destruct (cn_state (request_close s)) eqn:Hst; cbn in Hst; try (by apply told_shutdown).
  all: assert (Ht : told (request_close s)) by (apply Hs; intros Hk; specialize (Hn Hk); congruence).
  all: first [exact Ht | by apply told_writeMethod].
Qed.

(** The events after the request: any, but no second request. *)
Fixpoint closing_run (evs : list (Env * ConnEvent)) (s : Connection) : bool :=
  match evs with
  | [] => true
  | (env, ev) :: evs' =>
      enabled ev s && match ev with Ev_close => false | _ => true end &&
      closing_run evs' (conn_event env ev s)
  end.

Lemma closing_run_moves evs s : closing_run evs s = true → rtc move s (conn_run evs s).
Proof using.
  revert s. induction evs as [| [env ev] evs IH]; intros s Hr; [done |].
  cbn in Hr. apply andb_true_iff in Hr as [[He Hc]%andb_true_iff Hr].
  etrans; [| apply (IH _ Hr)]. cbn [fst snd].
  pose proof (event_moves env ev s He) as Hm. by destruct ev.
Qed.
End Protocol.

(** Events that can happen, one after the other. *)
Fixpoint enabled_run {E : EpochUtil} {G : GuidUtil} {AS : AckSort} (evs : list (Env * ConnEvent))
  (s : Connection) : bool :=
  match evs with
  | [] => true
  | (env, ev) :: evs' => enabled ev s && enabled_run evs' (conn_event env ev s)
  end.

Lemma reachable_run {E : EpochUtil} {G : GuidUtil} {AS : AckSort} cfg evs s :
  reachable cfg s → enabled_run evs s = true → reachable cfg (conn_run evs s).
Proof.
  revert s. induction evs as [| [env ev] evs IH]; intros s Hs Hr; [done |].
  cbn in Hr. apply andb_true_iff in Hr as [He Hr]. apply (IH _ (RC_event _ env ev s Hs He) Hr).
Qed.

Definition has_socket {E : EpochUtil} {G : GuidUtil} (s : Connection) : bool :=
  match cn_socket s with Some _ => true | None => false end.

Lemma has_socket_vacuous {E : EpochUtil} {G : GuidUtil} (P : Prop) (s : Connection) :
  has_socket s = true → cn_socket s = None → P.
Proof. unfold has_socket. intros Hs Hk. by rewrite Hk in Hs. Qed.

Section Theorems.
Context {E : EpochUtil} {G : GuidUtil} {AS : AckSort}.

(** C2: In every run of a connection - frames, completed writes, timers, failures, calls of the
    application and reconnections in any order - what it wrote of the handshake on its
    current socket is a prefix of: the protocol header, start-ok with the client's
    properties and credentials, tune-ok and open for its virtual host; each once and in this
    order, tune-ok always together with open. Whenever the connection counts as connected
    the handshake is complete. *)
Theorem handshake_in_order cfg s :
  reachable cfg s →
  ∃ tuned n, handshake s = take n (full_handshake cfg tuned) ∧ n ≠ 3 ∧
    (cn_state s = CONNECTED → n = 4).
Proof using.
  intros Hr%reachable_protocol. pose proof Hr as [_ _ (t & n & Hh & Hn & Hp)].
  exists t, n. split_and!; [done | |].
  - intros ->. repeat (apply elem_of_cons in Hn as [? | Hn]; [done |]). by apply elem_of_nil in Hn.
  - intros Hst. unfold socket_phase in Hp. destruct (cn_socket s); [| by rewrite Hst in Hp].
    destruct Hp as [Hp _]. by destruct (critical_step n _ _ CONNECTED Hn Hp Hst eq_refl).
Qed.

(** C5: After the application asked for the connection to be closed, whatever happens (frames,
    failures, timers, further calls, the destructor): nothing connects again and no retry
    is scheduled; the close callback is called at most once, and is kept until it is
    called. It has been called as soon as the socket is gone, and so has the callback of
    the first connection attempt, provided that, when the request came, the connection had a
    socket or was DISCONNECTED. The proviso is needed: there is one more kind of state
    between events, without a socket but not DISCONNECTED, in which the request waits for
    a socket to go that is gone already ([close_unanswered] below). *)
Theorem close_is_final cfg s env evs :
  reachable cfg s →
  let s1 := conn_event env Ev_close s in
  let s2 := conn_run evs s1 in
  closing_run evs s1 = true →
  ∃ es, cn_trace s2 = cn_trace s ++ es ∧ Forall (λ e, final_effect e = true) es ∧
    closes es + Nat.b2n (cn_closeCb s2) = 1 ∧
    ((cn_socket s = None → cn_state s = DISCONNECTED) → cn_socket s2 = None →
       closes es = 1 ∧ cn_firstConnectCb s2 = false).
Proof using.
  intros _ s1 s2 Hrun. change s1 with (Connection_close env s) in *.
  pose proof (closing_run_moves evs _ Hrun) as Hr. change (conn_run evs _) with s2 in Hr.
  assert (Hm : rtc move (request_close s) s2) by (etransitivity; [apply close_moves | exact Hr]).
  destruct (moves_accounts _ _ Hm) as [_ _ (es & He & Hc & _ & Hfin)].
  exists es. cbn in He, Hc, Hfin. split_and!; [done | by apply Hfin | done |].
  intros Hn Hk. destruct (td_gone _ (moves_told _ _ (close_told env s Hn) Hr) Hk) as [Hcb Hf].
  rewrite Hcb in Hc. cbn in Hc. split; [lia | done].
Qed.

(** The callback of the first connection attempt is called exactly once or is still to be
    called, never twice, over all reconnections. *)
Theorem first_connect_called_once cfg s :
  reachable cfg s → firsts (cn_trace s) + Nat.b2n (cn_firstConnectCb s) = 1.
Proof using.
  revert s. apply reachable_ind_moves.
  - intros env onOpen. unfold Connection_startFirstConnection.
    destruct (initiate_facts env (cn_set_firstConnectCb true (Connection_make cfg onOpen))) as (Ha & _).
    destruct (Ha eq_refl) as [_ _ (es & -> & _ & Hf & _)]. exact Hf.
  - done.
  - intros s s' Hi Hm. destruct (move_accounts _ _ Hm) as [_ _ (es & -> & _ & Hf & _)].
    rewrite firsts_app. lia.
Qed.
End Theorems.

(** ** Witnesses *)

Section Witnesses.
#[local] Existing Instances byte_GuidUtil.

Definition sample_conn_config : ConnConfig := mkConnConfig (str "/") false (str "guest") [].
Definition sample_env : Env := mkEnv sample_heap (λ _, 0%Z) sample_guid 1 true true true.

Definition from_server (m : ConnectionMethod) : Env * ConnEvent :=
  (sample_env, Ev_read (λ _, sample_env) (concat (omap sf_buffer (method_frame m)))).

(** The socket connects and the server answers the handshake. *)
Definition sample_handshake : list (Env * ConnEvent) :=
  [(sample_env, Ev_connected); (sample_env, Ev_written true);
   from_server (ConnectionMethod_Start (mkConnectionStart 0%Z 9%Z [] [] []));
   (sample_env, Ev_written true);
   from_server (ConnectionMethod_Tune (mkConnectionTune 2047%Z 131072%Z 60%Z));
   (sample_env, Ev_written true); (sample_env, Ev_written true);
   from_server (ConnectionMethod_OpenOk mkConnectionOpenOk)].

Definition sample_connecting : Connection :=
  Connection_startFirstConnection sample_env (Connection_make sample_conn_config NOT_PAUSED).
Definition sample_connected : Connection := conn_run sample_handshake sample_connecting.

(** The server confirms the close and the event loop finishes the socket. *)
Definition sample_closing : list (Env * ConnEvent) :=
  [(sample_env, Ev_written true); from_server (ConnectionMethod_CloseOk mkConnectionCloseOk);
   (sample_env, Ev_readError)].

Lemma sample_connected_reachable : reachable sample_conn_config sample_connected.
Proof. apply reachable_run; [constructor | vm_compute; reflexivity]. Qed.

Lemma handshake_in_order_witness :
  cn_state sample_connected = CONNECTED ∧
  ∃ tuned, handshake sample_connected = full_handshake sample_conn_config tuned.
Proof.
  assert (Hs : cn_state sample_connected = CONNECTED) by (vm_compute; reflexivity).
  split; [exact Hs |].
  destruct (handshake_in_order _ _ sample_connected_reachable) as (tuned & n & Hh & _ & Hn).
  exists tuned. rewrite Hh, (Hn Hs). reflexivity.
Defined.

Lemma close_is_final_witness :
  let s := conn_run sample_closing (conn_event sample_env Ev_close sample_connected) in
  ∃ es, cn_trace s = cn_trace sample_connected ++ es ∧ closes es = 1.
Proof.
  destruct (close_is_final sample_conn_config sample_connected sample_env sample_closing
    sample_connected_reachable) as (es & He & _ & _ & Hc).
  - vm_compute. reflexivity.
  - exists es. split; [exact He |]. apply Hc; [| vm_compute; reflexivity].
    apply has_socket_vacuous. vm_compute. reflexivity.
Defined.

(** The server's close-ok and close arrive in one read while the socket cannot be shut
    down any more: the first ends the socket and schedules a retry, the second sets the state. *)
Definition sample_broken_env : Env := mkEnv sample_heap (λ _, 0%Z) sample_guid 1 true true false.
Definition sample_late_close : list (Env * ConnEvent) :=
  [(sample_broken_env, Ev_read (λ _, sample_broken_env)
     (concat (omap sf_buffer (method_frame (ConnectionMethod_CloseOk mkConnectionCloseOk) ++
                              method_frame (ConnectionMethod_Close (mkConnectionClose 320 [] 0 0))))))].
Definition sample_unanswered : Connection :=
  conn_event sample_env Ev_close (conn_run sample_late_close sample_connected).

(** The request then waits for ever: the retry does nothing, and the close callback is
    not called. *)
Lemma close_unanswered :
  let s := conn_run sample_late_close sample_connected in
  reachable sample_conn_config s ∧ has_socket s = false ∧ cn_state s = CONNECTION_CLOSE_RECEIVED ∧
  let s' := conn_event sample_env Ev_retry sample_unanswered in
  cn_trace s' = cn_trace s ∧ cn_closeCb s' = true ∧ has_socket s' = false.
Proof.
  cbv zeta. split; [apply reachable_run; [apply sample_connected_reachable | vm_compute; reflexivity] |].
  split_and!; vm_compute; reflexivity.
Qed.

Lemma first_connect_called_once_witness : firsts (cn_trace sample_connected) = 1.
Proof.
  pose proof (first_connect_called_once _ _ sample_connected_reachable) as H.
  assert (Hf : cn_firstConnectCb sample_connected = false) by (vm_compute; reflexivity).
  rewrite Hf in H. exact (eq_trans (eq_sym (Nat.add_0_r _)) H).
Defined.
End Witnesses.
